(* ===== verification/_CoqProject ===== *)
-Q . S2P
Prelude.v
GoStrings.v
GoJson.v
GoText.v
Types.v
ConnPool.v
Addr.v
Stores.v
Commands.v
RaftNode.v
Metrics.v
Membership.v
Election.v
Replication.v
LogMatching.v
Sending.v
Progress.v
SnapshotOps.v
Applier.v
Instruments.v
Admin.v
Boot.v
Node.v
ElectionSafety.v
LogPrefix.v
RaftCluster.v
ClusterInvariant.v
ClusterSteps.v
ClusterRun.v
KvStore.v
StateMachineSafety.v
Hazards.v
Api.v
Rest.v
Cluster.v
Dashboard.v
Spawn.v
Client.v
ClientServer.v
Cli.v
Ctl.v
Wiring.v
Bench.v
ExampleApp.v
