(* ===== verification/Prelude.v ===== *)
(** * Mimori: a verification development of the replicated key-value store

    Mimori is a key-value store replicated with Raft, in Go.  A node
    (cmd/mimorid) runs the raft package (internal/raft), a store on Pebble
    (internal/storage), a gRPC and an HTTP server (internal/api) and a monitor
    of its peers (internal/cluster).  A write enters through the server, is
    proposed to the raft log, replicated by the leader's heartbeats, committed
    by a majority, delivered by the applier to the apply loop of main, which
    writes it to the store; the client that waits for its index is then woken.
    Programs talk to a cluster through the client library (client) or the
    command line tool (cmd/mimorictl), which find the leader and retry.

    ** Files and what they model (paths under src/)

    Language and libraries:
    - [Prelude]: record update, Go integers, shared
      lemmas, tactics and hints; [GoStrings]: strconv, base64, JSON string
      literals; [GoJson]: encoding/json (printer, total parser, struct
      decoding); [GoText]: the functions of strings and net used.

    The raft package (internal/raft and the messages of proto/raft.proto):
    - [Types]: types.go, constants, messages; [Stores]: meta.go, storage.go,
      snapshot.go over a file system with faults and torn writes; [Commands]:
      the JSON commands and their codecs, with those of api/server.go and
      main.go; [RaftNode]: the [Raft] struct, log access, queries;
      [Membership]: configuration changes and their replay; [Election]:
      elections (raft.go, rpc.go [RequestVote] and [TimeoutNow],
      rpc_client.go [broadcastRequestVote]); [Replication]: [Propose], the
      commit rule, [AppendEntries], heartbeats and batches; [SnapshotOps]:
      snapshots and compaction; [Applier]: [runApplier] and [AppliedWait];
      [Admin]: membership and leadership operations; [Boot]: [New], [Stop];
      [ConnPool]: conn_pool.go and [dialPeer]; [Metrics]: [updateMetrics];
      [Instruments]: the declared counters and histograms and the operations
      that record in them.
    - Theories of these: [LogMatching] (follower and leader logs), [Sending]
      (rounds of replication), [Progress] (what a majority achieves), [Node]
      (all locked regions as events of one state machine), [ElectionSafety]
      (a cluster of nodes exchanging votes), [LogPrefix] (logs as lists of
      entries and their common prefixes), [RaftCluster] (a cluster that elects,
      replicates and restarts: its transitions, parametrised by the hazards a
      run may show, and its invariant), [ClusterRun] (executing its runs),
      [ClusterInvariant] and [ClusterSteps] (the invariant is kept, one lemma
      per transition), [StateMachineSafety] (what follows for committed
      entries, leaders' logs and the stores of the nodes), [Hazards] (a run for
      each hazard that breaks safety).

    Around raft:
    - [KvStore]: storage.go and the apply loop of main; [Addr]: utils/util.go
      and the address helpers of server.go; [Api]: the gRPC server against the
      [RaftNode] interface; [Rest]: the HTTP endpoints, forwarding to the
      leader; [Spawn]: child nodes and the environment main reads;
      [Dashboard]: the node list; [Cluster]: cluster.go; [Client]:
      client/client.go; [ClientServer]: a client run against a network of
      nodes; [Cli]: the connections and leader search of
      cmd/mimorictl; [Ctl]: its command table and reports; [Wiring]: the HTTP
      routes of server.go and the set-up of internal/logging; [Bench]:
      scripts/benchmark.go; [ExampleApp]: examples/simple.

    ** How state and effects are modelled

    The state of a component is a record with the fields of its Go struct; an
    operation is a function from state to state and result, one per locked
    region: a call that releases the mutex while it waits or talks to the
    network is split there, and what happens in between is either another
    event of [Node.handle] or an [env] argument (in the server).  Errors are
    sums or options, panics are [None], goroutines started are values in the
    state, channels have identities.  The clock, the network, the operating
    system, the application's snapshot callbacks and Pebble are arguments; what
    is relied on of Pebble is [KvStore.PebbleLaws], of the node
    [Api.RaftNodeLaws] (proved for [Raft]), of the store [KvStore.KVLaws]
    (proved for [PebbleKV]).  [int] counters are integers, with the conversions
    to [int32] on the wire and 64-bit wrap-around where user input reaches
    them written out.

    ** What is proved

    - Safety of a whole cluster, with lost, delayed, repeated and reordered
      messages and with restarts: one leader per term
      ([ElectionSafety.election_safety]), committed entries agree for ever
      ([StateMachineSafety.state_machine_safety]) and are in the log of every
      later leader ([leader_completeness]), logs that agree at an index agree
      below it ([log_matching]), and the store of one replica is the store of
      another or a later state of it ([replicas_converge]).  The assumptions,
      fixed membership, no snapshots, 32-bit numbers and none of six hazards,
      are listed at the head of [RaftCluster].
    - Safety of one node, for the events and interleavings each theorem states:
      [Node.committed_is_final], [Node.one_vote_per_term],
      [Node.delivery_exactly_once], [Node.config_inv_reachable],
      [LogMatching.AppendEntries_matching].
    - Progress and termination: [Progress.election_succeeds],
      [Progress.majority_commits], [Sending.replicate_round],
      [Applier.applier_drains], [ClientServer.client_reaches_leader].
    - What each handler does on every branch: [Election.RequestVote_rule],
      [LogMatching.AppendEntries_log], [Replication.updateCommitIndex_spec],
      [SnapshotOps.createSnapshot_spec] and [InstallSnapshot_spec],
      [Admin.proposeConfigChange_spec], [config_change_effect] and
      [leadership_transfer], [Api.Server_write_spec] and [Server_Get_spec],
      [Spawn.nextFreePort_spec], [Dashboard.clusterNodes_spec],
      [Instruments.instruments_transparent] and [proposals_counted],
      [Ctl.status_command_shows], [Wiring.routes_reach_handlers],
      [Bench.percentile_spec], [ExampleApp.simple_main_completes].
    - Durability and round trips: [Stores.stores_save_load],
      [Boot.restart_recovers], [Boot.proposal_survives_restart],
      [Commands.command_codecs], [KvStore.snapshot_restore],
      [Spawn.spawn_environ_read], [Client.redirect_understood].
    - Refinement and equivalence: [KvStore.store_refines_map],
      [Api.write_then_read] (from the accepted write to the value read),
      [Membership.replay_is_apply], [Rest.forward_transparent],
      [Cli.clients_agree], [Bench.exchange_sort_sorts]; no leaks:
      [ConnPool.pool_no_leak].
    - Where the code departs from Raft or from its comments:
      [Hazards.every_hazard_breaks_safety] (each of six things the code can do,
      by itself, makes two nodes commit different entries),
      [ElectionSafety.late_vote_two_leaders], [Api.lost_write_acknowledged],
      [Boot.torn_compaction_misaligns],
      [SnapshotOps.InstallSnapshot_stale_regresses],
      [Election.RequestVote_term_overflow], [KvStore.snapshot_mangles_key],
      [Rest.forward_cuts_key].  The theorems above state the assumption that
      excludes each.

    ** Fuel

    Loops whose recursion is not structural take fuel, always enough for every
    turn the code can make, which the theorems about them prove: [commitScan]
    as many turns as there are entries above the commit index, [batchLoop] one
    per entry, [applierLoop] the difference of commit and applied index,
    [portScan] the ports left below 10000, [retryLoop] the number of retries,
    the JSON parser twice the length of its input plus two, [trim_left] the
    length of the text.

    ** Not modelled

    Timing (tickers and timeouts are events that may happen at any time), the
    gRPC and HTTP transports, the text of log lines, the generated protobuf
    code, the embedded web page and its file server, the Prometheus exporter,
    the text the benchmark and the example print beyond what [Bench] and
    [ExampleApp] define.  JSON nesting beyond 10000 levels and
    nil-versus-empty byte slices are not distinguished. *)
From stdpp Require Import gmap strings list fin_maps pretty.
From Stdlib Require Import ZArith Lia.

Local Open Scope Z_scope.

(** ** Record update

    Go code assigns one field of a struct at a time.  [r <| f := v |>] is the
    record [r] with field [f] set to [v]; an [Eta] instance lists the fields
    of a record once, and the update of each field is derived from it. *)

Declare Scope go_scope.
Delimit Scope go_scope with go.

Class Eta (R : Type) := eta : R -> R.
Class Updater {R A : Type} (p : R -> A) := upd : (A -> A) -> R -> R.
Arguments upd {R A} p {_} _ _.

Ltac derive_updater :=
  match goal with
  | |- @Updater ?R ?A ?p =>
    let h := constr:(_ : Eta R) in
    let b := eval hnf in h in
    let b' := eval pattern p in b in
    match b' with
    | ?F _ =>
      let t := eval cbv beta in
        (fun (f : A -> A) (r : R) => F (fun r' => f (p r')) r) in
      exact t
    end
  end.

#[export] Hint Extern 1 (Updater _) => derive_updater : typeclass_instances.

Notation "r <| p := v |>" := (upd p (fun _ => v) r)
  (at level 1, left associativity, p at level 200, v at level 200) : go_scope.

Open Scope go_scope.

(** ** Go integers

    [int] is 64 bits wide on every platform mimori targets and its counters
    (terms, indexes) move by one per operation, so it is a [Z]; the protocol
    buffers carry [int32], and the conversion [int32(x)] wraps. *)

Definition two31 : Z := 2147483648.
Definition two32 : Z := 4294967296.
Definition two63 : Z := 9223372036854775808.

Definition int32 (z : Z) : Z := (z + two31) mod two32 - two31.

Definition in_int32 (z : Z) : Prop := - two31 <= z < two31.

#[export] Instance in_int32_dec z : Decision (in_int32 z).
Proof. unfold in_int32. apply _. Defined.

Lemma int32_id z : in_int32 z -> int32 z = z.
Proof.
  unfold in_int32, int32, two31, two32. intros H.
  rewrite Z.mod_small by lia. lia.
Qed.

Lemma int32_range z : in_int32 (int32 z).
Proof.
  unfold in_int32, int32, two31, two32.
  pose proof (Z.mod_pos_bound (z + 2147483648) 4294967296). lia.
Qed.

(** A value just above the range wraps to a negative number. *)
Lemma int32_wraps z : two31 <= z < two32 -> int32 z = z - two32.
Proof.
  unfold int32, two31, two32. intros H.
  replace (z + 2147483648) with (z - 2147483648 + 1 * 4294967296) by lia.
  rewrite Z.mod_add by lia. rewrite Z.mod_small by lia. lia.
Qed.

(** Sums of [int]s wrap at 64 bits; only addresses, whose numbers come from
    outside, can get there. *)
Definition int64 (z : Z) : Z := (z + two63) mod (2 * two63) - two63.

Lemma int64_id z : - two63 <= z < two63 -> int64 z = z.
Proof. unfold int64, two63. intros H. rewrite Z.mod_small by lia. lia. Qed.

(** ** Automation *)

Create HintDb mimori.

(** Split every [if] and [match] on a variable-free scrutinee of the goal. *)
Ltac split_ifs :=
  repeat match goal with
  | |- context [if ?b then _ else _] =>
    lazymatch b with
    | context [if _ then _ else _] => fail
    | _ => destruct b eqn:?
    end
  end.

Ltac split_ifs_in H :=
  repeat match type of H with
  | context [if ?b then _ else _] =>
    lazymatch b with
    | context [if _ then _ else _] => fail
    | _ => destruct b eqn:?
    end
  end.

(** Turn boolean tests of the context into propositions. *)
Ltac boolify :=
  repeat match goal with
  | H : _ && _ = true |- _ => apply andb_true_iff in H; destruct H
  | H : _ || _ = false |- _ => apply orb_false_iff in H; destruct H
  | H : negb _ = true |- _ => apply negb_true_iff in H
  | H : negb _ = false |- _ => apply negb_false_iff in H
  | H : bool_decide _ = true |- _ => apply bool_decide_eq_true in H
  | H : bool_decide _ = false |- _ => apply bool_decide_eq_false in H
  end.

(** ** Lists and options *)

Section lists.
Context {A : Type}.
Implicit Types l : list A.

Lemma last_lookup_length l x :
  last l = Some x <-> l !! (length l - 1)%nat = Some x.
Proof.
  rewrite last_lookup. by replace (pred (length l)) with (length l - 1)%nat by lia.
Qed.

Lemma take_lookup_Some_inv l n i x :
  take n l !! i = Some x -> (i < n)%nat /\ l !! i = Some x.
Proof. rewrite lookup_take_Some. tauto. Qed.

(** Two duplicate-free lists that are each more than half of a third one
    meet: the arithmetic core of every majority argument. *)
Lemma NoDup_disjoint_length (u l k : list A) :
  NoDup l -> NoDup k -> l ⊆ u -> k ⊆ u -> l ## k ->
  (length l + length k <= length u)%nat.
Proof.
  intros Hl Hk Hlu Hku Hd. rewrite <- length_app.
  apply submseteq_length, NoDup_submseteq.
  - apply NoDup_app. set_solver.
  - set_solver.
Qed.

Lemma majorities_meet `{EqDecision A} (u l k : list A) :
  NoDup l -> NoDup k -> l ⊆ u -> k ⊆ u ->
  (length u < length l + length k)%nat ->
  exists x, x ∈ l /\ x ∈ k.
Proof.
  intros Hl Hk Hlu Hku Hlt.
  destruct (decide (Exists (.∈ k) l)) as [He|Hn].
  - apply Exists_exists in He. firstorder.
  - exfalso. assert (l ## k) as Hd.
    { intros x Hx Hxk. apply Hn, Exists_exists. eauto. }
    pose proof (NoDup_disjoint_length u l k Hl Hk Hlu Hku Hd). lia.
Qed.
End lists.
