(* ===== verification/GoStrings.v ===== *)
(** * Go strings and the text encodings of the standard library

    A Go [string] or [[]byte] is a sequence of bytes: a Rocq [string] (a nil
    and an empty [[]byte] are identified).  This file models what the sources
    use of [strconv] (decimal integers), [encoding/base64] and the string
    literals of [encoding/json] (escaping of ASCII and HTML characters,
    coercion of invalid UTF-8), with their round-trip lemmas. *)
From stdpp Require Import gmap strings list pretty.
From Stdlib Require Import ZArith NArith Ascii Lia.
From S2P Require Import Prelude.

Local Open Scope string_scope.

(** ** Concatenation *)

#[global] Arguments String.append !_ _ / : simpl nomatch.

Lemma sapp_assoc (a b c : string) : (a +:+ b) +:+ c = a +:+ (b +:+ c).
Proof. induction a; simpl; congruence. Qed.

Lemma sapp_nil_r (a : string) : a +:+ "" = a.
Proof. induction a; simpl; congruence. Qed.

Lemma sapp_length (a b : string) :
  String.length (a +:+ b) = (String.length a + String.length b)%nat.
Proof. induction a; simpl; congruence. Qed.

Create Rewrite HintDb gostring.
#[export] Hint Rewrite sapp_assoc sapp_nil_r sapp_length : gostring.

(** ** Bytes *)

Definition byte_in (lo hi : N) (c : ascii) : bool :=
  (lo <=? N_of_ascii c)%N && (N_of_ascii c <=? hi)%N.

Definition is_digit : ascii -> bool := byte_in 48 57.

(** [unicode.ToLower] on ASCII. *)
Definition lower_ascii (c : ascii) : ascii :=
  if byte_in 65 90 c then ascii_of_N (N_of_ascii c + 32) else c.

Fixpoint to_lower (s : string) : string :=
  match s with
  | "" => ""
  | String c s' => String (lower_ascii c) (to_lower s')
  end.

(** ** [strconv.Atoi] *)

Definition digit_val (c : ascii) : Z := Z.of_N (N_of_ascii c) - 48.

Fixpoint digits_val (acc : Z) (s : string) : option Z :=
  match s with
  | "" => Some acc
  | String c s' =>
    if is_digit c then digits_val (10 * acc + digit_val c) s' else None
  end.

Definition digits (s : string) : option Z :=
  match s with "" => None | _ => digits_val 0 s end.

Definition int64_checked (o : option Z) : option Z :=
  match o with
  | Some z => if ((- two63 <=? z) && (z <? two63))%Z then Some z else None
  | None => None
  end.

(** An optional sign, at least one digit, and a value that fits 64 bits. *)
Definition atoi (s : string) : option Z :=
  int64_checked
    match s with
    | String c s' =>
      if Ascii.eqb c "-" then Z.opp <$> digits s'
      else if Ascii.eqb c "+" then digits s'
      else digits s
    | "" => None
    end.

Definition in_int64 (z : Z) : Prop := (- two63 <= z < two63)%Z.

Lemma pretty_N_char_digit x :
  (x < 10)%N ->
  is_digit (pretty_N_char x) = true /\ digit_val (pretty_N_char x) = Z.of_N x.
Proof.
  intros. assert (x = 0 ∨ x = 1 ∨ x = 2 ∨ x = 3 ∨ x = 4 ∨ x = 5 ∨ x = 6
          ∨ x = 7 ∨ x = 8 ∨ x = 9)%N by lia.
  naive_solver.
Qed.

Lemma digits_val_pretty_N_go x s :
  (0 < x)%N -> digits_val 0 (pretty_N_go x s) = digits_val (Z.of_N x) s.
Proof.
  revert s. induction (N.lt_wf_0 x) as [x _ IH]; intros s Hx.
  rewrite pretty_N_go_step by done.
  destruct (pretty_N_char_digit (x mod 10)) as [Hd Hv]; [by apply N.mod_lt|].
  destruct (decide (x / 10 = 0)%N) as [H0|H0].
  - rewrite H0, pretty_N_go_0. cbn [digits_val]. rewrite Hd, Hv. f_equal.
    pose proof (N.div_mod x 10 ltac:(done)). lia.
  - rewrite IH; [|by apply N.div_lt|by apply N.neq_0_lt_0]. cbn [digits_val]. rewrite Hd, Hv.
    f_equal. pose proof (N.div_mod x 10 ltac:(done)). lia.
Qed.

(** The shape of a printed positive number: digits, the first not a zero. *)
Fixpoint all_digits (s : string) : bool :=
  match s with "" => true | String c s' => is_digit c && all_digits s' end.

Definition starts_nonzero (s : string) : bool :=
  match s with
  | "" => false
  | String c _ => is_digit c && negb (Ascii.eqb c "0")
  end.

Lemma pretty_N_go_digits x s :
  all_digits s = true -> all_digits (pretty_N_go x s) = true.
Proof.
  revert s. induction (N.lt_wf_0 x) as [x _ IH]; intros s Hs.
  destruct (decide (x = 0)%N) as [->|Hx]; [done|].
  rewrite pretty_N_go_step by lia. apply IH; [apply N.div_lt; lia|].
  simpl. rewrite Hs. by destruct (pretty_N_char_digit (x mod 10)) as [-> _];
    [apply N.mod_lt|].
Qed.

Lemma pretty_N_go_starts x s :
  (0 < x)%N -> starts_nonzero (pretty_N_go x s) = true.
Proof.
  revert s. induction (N.lt_wf_0 x) as [x _ IH]; intros s Hx.
  rewrite pretty_N_go_step by done.
  destruct (decide (x < 10)%N) as [Hlt|Hge].
  - rewrite N.div_small, N.mod_small, pretty_N_go_0 by done.
    assert (x = 1 ∨ x = 2 ∨ x = 3 ∨ x = 4 ∨ x = 5 ∨ x = 6
          ∨ x = 7 ∨ x = 8 ∨ x = 9)%N by lia.
    naive_solver.
  - apply IH; [apply N.div_lt; lia|]. apply N.div_str_pos. lia.
Qed.

Lemma pretty_pos_eq p : pretty (Z.pos p) = pretty_N_go (N.pos p) "".
Proof. reflexivity. Qed.

Lemma pretty_neg_eq p : pretty (Z.neg p) = String "-" (pretty_N_go (N.pos p) "").
Proof. reflexivity. Qed.

Lemma starts_nonzero_cons s :
  starts_nonzero s = true ->
  exists c s', s = String c s' /\ is_digit c = true /\ c <> "0"%char /\
               c <> "-"%char /\ c <> "+"%char.
Proof.
  destruct s as [|c s']; [done|]. simpl. intros [Hd Hz]%andb_true_iff.
  exists c, s'. repeat split; try done; intros ->; done.
Qed.

Lemma digits_pretty_go p : digits (pretty_N_go (N.pos p) "") = Some (Z.pos p).
Proof.
  destruct (starts_nonzero_cons (pretty_N_go (N.pos p) "")) as (c & s' & E & _).
  { by apply pretty_N_go_starts. }
  unfold digits. rewrite E, <- E. by rewrite digits_val_pretty_N_go.
Qed.

(** [strconv.Atoi(strconv.Itoa(z)) = z] on 64-bit integers. *)
Lemma atoi_pretty z : in_int64 z -> atoi (pretty z) = Some z.
Proof.
  intros [Hlo Hhi]. destruct z as [|p|p].
  - done.
  - destruct (starts_nonzero_cons (pretty_N_go (N.pos p) ""))
      as (c & s' & E & Hd & _ & Hm & Hp); [by apply pretty_N_go_starts|].
    rewrite pretty_pos_eq. unfold atoi. rewrite E.
    rewrite (proj2 (Ascii.eqb_neq c "-")), (proj2 (Ascii.eqb_neq c "+")) by done.
    rewrite <- E, digits_pretty_go. unfold int64_checked.
    by rewrite (proj2 (Z.leb_le _ _)), (proj2 (Z.ltb_lt _ _)) by lia.
  - rewrite pretty_neg_eq. unfold atoi. simpl.
    rewrite digits_pretty_go. unfold int64_checked. simpl Z.opp.
    cbn [fmap option_fmap option_map Z.opp].
    by rewrite (proj2 (Z.leb_le _ _)), (proj2 (Z.ltb_lt _ _)) by lia.
Qed.

(** ** [encoding/base64], standard alphabet with padding

    A byte is eight bits and a digit six, so the encoder regroups bits; no
    arithmetic is needed to invert it. *)

Definition b64_alphabet : string :=
  "ABCDEFGHIJKLMNOPQRSTUVWXYZabcdefghijklmnopqrstuvwxyz0123456789+/".

Record sextet := Sextet { x5 : bool; x4 : bool; x3 : bool; x2 : bool; x1 : bool; x0 : bool }.

Definition sextet_nat (s : sextet) : nat :=
  let b2n (b : bool) := if b then 1%nat else 0%nat in
  (32 * b2n (x5 s) + 16 * b2n (x4 s) + 8 * b2n (x3 s) + 4 * b2n (x2 s)
   + 2 * b2n (x1 s) + b2n (x0 s))%nat.

Definition nat_sextet (n : nat) : sextet :=
  let bit k := Nat.testbit n k in
  Sextet (bit 5%nat) (bit 4%nat) (bit 3%nat) (bit 2%nat) (bit 1%nat) (bit 0%nat).

Definition b64_char (s : sextet) : ascii :=
  default "A"%char (String.get (sextet_nat s) b64_alphabet).

Fixpoint index_of (c : ascii) (s : string) : option nat :=
  match s with
  | "" => None
  | String d s' => if Ascii.eqb c d then Some 0%nat else S <$> index_of c s'
  end.

Definition b64_digit (c : ascii) : option sextet :=
  nat_sextet <$> index_of c b64_alphabet.

Lemma b64_digit_char s : b64_digit (b64_char s) = Some s.
Proof. destruct s as [[] [] [] [] [] []]; reflexivity. Qed.

Lemma b64_char_not_pad s : Ascii.eqb (b64_char s) "=" = false.
Proof. destruct s as [[] [] [] [] [] []]; reflexivity. Qed.

Definition not_newline (c : ascii) : bool :=
  negb (Ascii.eqb c "010" || Ascii.eqb c "013").

Lemma b64_char_not_newline s : not_newline (b64_char s) = true.
Proof. destruct s as [[] [] [] [] [] []]; reflexivity. Qed.

Definition enc1 (a : ascii) : string :=
  match a with
  | Ascii a0 a1 a2 a3 a4 a5 a6 a7 =>
    String (b64_char (Sextet a7 a6 a5 a4 a3 a2))
      (String (b64_char (Sextet a1 a0 false false false false)) "==")
  end.

Definition enc2 (a b : ascii) : string :=
  match a, b with
  | Ascii a0 a1 a2 a3 a4 a5 a6 a7, Ascii b0 b1 b2 b3 b4 b5 b6 b7 =>
    String (b64_char (Sextet a7 a6 a5 a4 a3 a2))
      (String (b64_char (Sextet a1 a0 b7 b6 b5 b4))
        (String (b64_char (Sextet b3 b2 b1 b0 false false)) "="))
  end.

Definition enc3 (a b c : ascii) (rest : string) : string :=
  match a, b, c with
  | Ascii a0 a1 a2 a3 a4 a5 a6 a7, Ascii b0 b1 b2 b3 b4 b5 b6 b7,
    Ascii c0 c1 c2 c3 c4 c5 c6 c7 =>
    String (b64_char (Sextet a7 a6 a5 a4 a3 a2))
      (String (b64_char (Sextet a1 a0 b7 b6 b5 b4))
        (String (b64_char (Sextet b3 b2 b1 b0 c7 c6))
          (String (b64_char (Sextet c5 c4 c3 c2 c1 c0)) rest)))
  end.

Fixpoint base64_encode (s : string) : string :=
  match s with
  | "" => ""
  | String a "" => enc1 a
  | String a (String b "") => enc2 a b
  | String a (String b (String c s')) => enc3 a b c (base64_encode s')
  end.

Definition dec1 (p q : sextet) : ascii :=
  Ascii (x4 q) (x5 q) (x0 p) (x1 p) (x2 p) (x3 p) (x4 p) (x5 p).
Definition dec2 (q r : sextet) : ascii :=
  Ascii (x2 r) (x3 r) (x4 r) (x5 r) (x0 q) (x1 q) (x2 q) (x3 q).
Definition dec3 (r t : sextet) : ascii :=
  Ascii (x0 t) (x1 t) (x2 t) (x3 t) (x4 t) (x5 t) (x0 r) (x1 r).

(** Four digits at a time; padding only in the last group. *)
Fixpoint b64_groups (s : string) : option string :=
  match s with
  | "" => Some ""
  | String c1 (String c2 (String c3 (String c4 s'))) =>
    match b64_digit c1, b64_digit c2 with
    | Some p, Some q =>
      if Ascii.eqb c3 "=" then
        if Ascii.eqb c4 "=" then
          match s' with "" => Some (String (dec1 p q) "") | _ => None end
        else None
      else
        match b64_digit c3 with
        | Some r =>
          if Ascii.eqb c4 "=" then
            match s' with
            | "" => Some (String (dec1 p q) (String (dec2 q r) ""))
            | _ => None
            end
          else
            match b64_digit c4, b64_groups s' with
            | Some t, Some rest =>
              Some (String (dec1 p q) (String (dec2 q r) (String (dec3 r t) rest)))
            | _, _ => None
            end
        | None => None
        end
    | _, _ => None
    end
  | _ => None
  end.

Fixpoint string_filter (f : ascii -> bool) (s : string) : string :=
  match s with
  | "" => ""
  | String c s' => if f c then String c (string_filter f s') else string_filter f s'
  end.

(** The decoder skips carriage returns and newlines. *)
Definition base64_decode (s : string) : option string :=
  b64_groups (string_filter not_newline s).

Lemma string_ind3 (P : string -> Prop) :
  P "" -> (forall a, P (String a "")) -> (forall a b, P (String a (String b ""))) ->
  (forall a b c s, P s -> P (String a (String b (String c s)))) ->
  forall s, P s.
Proof.
  intros H0 H1 H2 H3. fix IH 1. intros [|a [|b [|c s]]];
    [apply H0|apply H1|apply H2|apply H3, IH].
Qed.

Lemma base64_no_newline s :
  string_filter not_newline (base64_encode s) = base64_encode s.
Proof.
  induction s as [|a|a b|a b c s IH] using string_ind3;
    repeat match goal with x : ascii |- _ => destruct x end;
    cbn [base64_encode enc1 enc2 enc3 string_filter];
    rewrite ?b64_char_not_newline; try done.
  by rewrite IH.
Qed.

Lemma base64_roundtrip s : base64_decode (base64_encode s) = Some s.
Proof.
  unfold base64_decode. rewrite base64_no_newline.
  induction s as [|a|a b|a b c s IH] using string_ind3; [done|..];
    repeat match goal with x : ascii |- _ => destruct x end;
    cbn [base64_encode enc1 enc2 enc3 b64_groups];
    rewrite ?b64_digit_char, ?b64_char_not_pad, ?IH; reflexivity.
Qed.

(** ** UTF-8

    [rune_len s] is the length of the UTF-8 sequence [s] starts with, and [0]
    where [utf8.DecodeRune] reports an encoding error. *)

Definition cont_byte : ascii -> bool := byte_in 128 191.

Definition second_ok (a b : ascii) : bool :=
  if Ascii.eqb a "224" then byte_in 160 191 b
  else if Ascii.eqb a "237" then byte_in 128 159 b
  else if Ascii.eqb a "240" then byte_in 144 191 b
  else if Ascii.eqb a "244" then byte_in 128 143 b
  else cont_byte b.

Definition rune_len (s : string) : nat :=
  match s with
  | "" => 0
  | String a s1 =>
    if byte_in 0 127 a then 1
    else
      match s1 with
      | "" => 0
      | String b s2 =>
        if byte_in 194 223 a then if cont_byte b then 2 else 0
        else
          match s2 with
          | "" => 0
          | String c s3 =>
            if byte_in 224 239 a then
              if second_ok a b && cont_byte c then 3 else 0
            else
              match s3 with
              | "" => 0
              | String d _ =>
                if byte_in 240 244 a && second_ok a b && cont_byte c && cont_byte d
                then 4 else 0
              end
          end
      end
  end%nat.

(** [utf8.ValidString]; the first argument counts the bytes of the current
    rune still to be passed over. *)
Fixpoint utf8_from (skip : nat) (s : string) : bool :=
  match s with
  | "" => true
  | String _ s' =>
    match skip with
    | S k => utf8_from k s'
    | O => match rune_len s with O => false | S k => utf8_from k s' end
    end
  end.

Definition utf8_valid (s : string) : bool := utf8_from 0 s.

(** ** String literals of [encoding/json] *)

Definition hex_digit (n : N) : ascii :=
  default "0"%char (String.get (N.to_nat n) "0123456789abcdef").

(** [appendString] with HTML escaping on, for a byte below 0x80. *)
Definition escape_ascii (c : ascii) : string :=
  if Ascii.eqb c "034" || Ascii.eqb c "\" then String "\" (String c "")
  else if Ascii.eqb c "008" then "\b"
  else if Ascii.eqb c "012" then "\f"
  else if Ascii.eqb c "010" then "\n"
  else if Ascii.eqb c "013" then "\r"
  else if Ascii.eqb c "009" then "\t"
  else if byte_in 0 31 c || Ascii.eqb c "<" || Ascii.eqb c ">" || Ascii.eqb c "&"
  then "\u00" +:+ String (hex_digit (N_of_ascii c / 16))
                    (String (hex_digit (N_of_ascii c mod 16)) "")
  else String c "".

(** U+2028 and U+2029, which JavaScript does not accept inside a string. *)
Definition line_sep (s : string) : option string :=
  match s with
  | String a (String b (String c _)) =>
    if Ascii.eqb a "226" && Ascii.eqb b "128" then
      if Ascii.eqb c "168" then Some "\u2028"
      else if Ascii.eqb c "169" then Some "\u2029"
      else None
    else None
  | _ => None
  end.

Inductive escape_mode := EscStart | EscCopy (k : nat) | EscDrop (k : nat).

Fixpoint escape (m : escape_mode) (s : string) : string :=
  match s with
  | "" => ""
  | String c s' =>
    match m with
    | EscCopy (S k) => String c (escape (EscCopy k) s')
    | EscDrop (S k) => escape (EscDrop k) s'
    | _ =>
      match rune_len s with
      | O => "\ufffd" +:+ escape EscStart s'
      | S O => escape_ascii c +:+ escape EscStart s'
      | S k =>
        match line_sep s with
        | Some e => e +:+ escape (EscDrop 2) s'
        | None => String c (escape (EscCopy k) s')
        end
      end
    end
  end.

Definition quote (s : string) : string :=
  String "034" (escape EscStart s +:+ String "034" "").

Definition hex_val (c : ascii) : option N :=
  if byte_in 48 57 c then Some (N_of_ascii c - 48)%N
  else if byte_in 97 102 c then Some (N_of_ascii c - 87)%N
  else if byte_in 65 70 c then Some (N_of_ascii c - 55)%N
  else None.

Definition hex4 (a b c d : ascii) : option N :=
  match hex_val a, hex_val b, hex_val c, hex_val d with
  | Some x, Some y, Some z, Some t => Some (((x * 16 + y) * 16 + z) * 16 + t)%N
  | _, _, _, _ => None
  end.

(** [utf8.AppendRune] *)
Definition encode_rune (r : N) : string :=
  let b n := ascii_of_N n in
  let low n := b (128 + n mod 64)%N in
  if (r <? 128)%N then String (b r) ""
  else if (r <? 2048)%N then String (b (192 + r / 64)%N) (String (low r) "")
  else if (r <? 65536)%N then
    String (b (224 + r / 4096)%N) (String (low (r / 64)%N) (String (low r) ""))
  else
    String (b (240 + r / 262144)%N)
      (String (low (r / 4096)%N) (String (low (r / 64)%N) (String (low r) ""))).

Definition replacement : string := encode_rune 65533.

Definition high_surrogate (r : N) : bool := (55296 <=? r)%N && (r <? 56320)%N.
Definition low_surrogate (r : N) : bool := (56320 <=? r)%N && (r <? 57344)%N.

Definition prepend (p : string) (o : option (string * string)) : option (string * string) :=
  match o with Some (a, r) => Some (p +:+ a, r) | None => None end.

Definition simple_escape (e : ascii) : option ascii :=
  match e with
  | "034" => Some "034"
  | "\" => Some "\"
  | "/" => Some "/"
  | "b" => Some "008"
  | "f" => Some "012"
  | "n" => Some "010"
  | "r" => Some "013"
  | "t" => Some "009"
  | _ => None
  end%char.

(** The body of a literal, from just after the opening quote: the decoded
    string and what follows the closing quote. *)
Fixpoint unquote (copy : nat) (s : string) : option (string * string) :=
  match s with
  | "" => None
  | String c s' =>
    match copy with
    | S k => prepend (String c "") (unquote k s')
    | O =>
      if Ascii.eqb c "034" then Some ("", s')
      else if Ascii.eqb c "\" then
        match s' with
        | String e s2 =>
          if Ascii.eqb e "u" then
            match s2 with
            | String h1 (String h2 (String h3 (String h4 s6))) =>
              match hex4 h1 h2 h3 h4 with
              | Some r =>
                if high_surrogate r || low_surrogate r then
                  match s6 with
                  | String "\" (String "u"
                      (String g1 (String g2 (String g3 (String g4 s12))))) =>
                    match hex4 g1 g2 g3 g4 with
                    | Some r2 =>
                      if high_surrogate r && low_surrogate r2 then
                        prepend (encode_rune (65536 + (r - 55296) * 1024 + (r2 - 56320))%N)
                                (unquote 0 s12)
                      else prepend replacement (unquote 0 s6)
                    | None => prepend replacement (unquote 0 s6)
                    end
                  | _ => prepend replacement (unquote 0 s6)
                  end
                else prepend (encode_rune r) (unquote 0 s6)
              | None => None
              end
            | _ => None
            end
          else
            match simple_escape e with
            | Some x => prepend (String x "") (unquote 0 s2)
            | None => None
            end
        | "" => None
        end
      else if byte_in 0 31 c then None
      else
        match rune_len s with
        | O => prepend replacement (unquote 0 s')
        | S k => prepend (String c "") (unquote k s')
        end
    end
  end.

(** ** The literal round trip *)

Lemma unquote_escape_ascii c t :
  byte_in 0 127 c = true ->
  unquote 0 (escape_ascii c +:+ t) = prepend (String c "") (unquote 0 t).
Proof.
  destruct c as [[] [] [] [] [] [] [] []]; intros H; try discriminate H;
    reflexivity.
Qed.

Lemma rune_len_one c s :
  rune_len (String c s) = 1%nat -> byte_in 0 127 c = true.
Proof.
  unfold rune_len. destruct (byte_in 0 127 c); [done|].
  repeat (case_match; try done).
Qed.

(** A multi-byte rune is recognised from its own bytes. *)
Lemma rune_len_multi s k :
  rune_len s = S (S k) ->
  exists a w s2, s = String a (w +:+ s2) /\ String.length w = S k /\
    byte_in 0 127 a = false /\ forall t, rune_len (String a (w +:+ t)) = S (S k).
Proof.
  unfold rune_len. destruct s as [|a s1]; [done|].
  destruct (byte_in 0 127 a) eqn:Ha; [done|].
  destruct s1 as [|b s2]; [done|].
  destruct (byte_in 194 223 a) eqn:H2.
  { destruct (cont_byte b) eqn:Hb; [|done]. intros [= <-].
    exists a, (String b ""), s2. repeat split; try done. intros t. simpl. by rewrite Ha, H2, Hb. }
  destruct s2 as [|c s3]; [done|].
  destruct (byte_in 224 239 a) eqn:H3.
  { destruct (second_ok a b && cont_byte c) eqn:Hb; [|done]. intros [= <-].
    exists a, (String b (String c "")), s3. repeat split; try done.
    intros t. simpl. by rewrite Ha, H2, H3, Hb. }
  destruct s3 as [|d s4]; [done|].
  destruct (_ && _ && _ && _) eqn:Hb; [|done]. intros [= <-].
  exists a, (String b (String c (String d ""))), s4. repeat split; try done.
  intros t. simpl. by rewrite Ha, H2, H3, Hb.
Qed.

Lemma escape_copy w s :
  escape (EscCopy (String.length w)) (w +:+ s) = w +:+ escape EscStart s.
Proof. induction w; simpl; [by destruct s|congruence]. Qed.

Lemma escape_drop w s :
  escape (EscDrop (String.length w)) (w +:+ s) = escape EscStart s.
Proof. induction w; simpl; [by destruct s|congruence]. Qed.

Lemma utf8_skip w s : utf8_from (String.length w) (w +:+ s) = utf8_from 0 s.
Proof. induction w; simpl; [by destruct s|congruence]. Qed.

Lemma prepend_prepend p q o : prepend p (prepend q o) = prepend (p +:+ q) o.
Proof. destruct o as [[]|]; simpl; by rewrite ?sapp_assoc. Qed.

Lemma unquote_copy w t :
  unquote (String.length w) (w +:+ t) = prepend w (unquote 0 t).
Proof.
  induction w as [|c w IH]; simpl.
  - by destruct (unquote 0 t) as [[]|].
  - rewrite IH, prepend_prepend. done.
Qed.

(** A byte at or above 0x80 is neither a quote, a backslash nor a control. *)
Lemma high_byte_plain a :
  byte_in 0 127 a = false ->
  Ascii.eqb a "034" = false /\ Ascii.eqb a "\" = false /\ byte_in 0 31 a = false.
Proof. destruct a as [[] [] [] [] [] [] [] []]; intros H;
  try discriminate H; done. Qed.

Lemma unquote_multi a w k t :
  byte_in 0 127 a = false -> String.length w = S k ->
  rune_len (String a (w +:+ t)) = S (S k) ->
  unquote 0 (String a (w +:+ t)) = prepend (String a w) (unquote 0 t).
Proof.
  intros Ha Hw Hr. destruct (high_byte_plain a Ha) as (H1 & H2 & H3).
  cbn [unquote]. rewrite H1, H2, H3, Hr, <- Hw, unquote_copy, prepend_prepend. done.
Qed.

Lemma line_sep_cases s e :
  line_sep s = Some e ->
  exists c s2, s = String "226" (String "128" (String c s2)) /\
    rune_len s = 3%nat /\ forall t, unquote 0 (e +:+ t) =
              prepend (String "226" (String "128" (String c ""))) (unquote 0 t).
Proof.
  unfold line_sep. destruct s as [|a [|b [|c s2]]]; try done.
  destruct (Ascii.eqb_spec a "226") as [->|], (Ascii.eqb_spec b "128") as [->|];
    try done. simpl.
  destruct (Ascii.eqb_spec c "168") as [->|]; [|destruct (Ascii.eqb_spec c "169") as [->|]; [|done]];
    intros [= <-]; eauto.
Qed.

Lemma unquote_escape s rest :
  utf8_valid s = true ->
  unquote 0 (escape EscStart s +:+ String "034" rest) = Some (s, rest).
Proof.
  unfold utf8_valid. remember (String.length s) as n eqn:Hn.
  revert s Hn. induction (lt_wf n) as [n _ IH]; intros s Hn Hv.
  destruct s as [|c s']; [done|].
  cbn [utf8_from] in Hv. cbn [escape].
  destruct (rune_len (String c s')) as [|[|k]] eqn:Hr; [done|..].
  - rewrite sapp_assoc, unquote_escape_ascii by (by eapply rune_len_one).
    erewrite IH; [done| |done|done]. simpl in Hn. lia.
  - destruct (line_sep (String c s')) as [e|] eqn:Hl.
    + apply line_sep_cases in Hl as (d & s2 & [= -> ->] & Hr3 & He).
      rewrite Hr in Hr3. injection Hr3 as ->.
      change (String "128" (String d s2)) with (String "128" (String d "") +:+ s2) in *.
      change 2%nat with (String.length (String "128" (String d ""))) in Hv |- *.
      rewrite escape_drop, sapp_assoc, He. rewrite utf8_skip in Hv.
      erewrite IH; [done| |done|done]. simpl in Hn. lia.
    + apply rune_len_multi in Hr as (a & w & s2 & [= -> ->] & Hw & Ha & Hrl).
      rewrite <- Hw in Hv |- *. rewrite utf8_skip in Hv. rewrite escape_copy.
      change (String a (w +:+ escape EscStart s2) +:+ String "034" rest)
        with (String a ((w +:+ escape EscStart s2) +:+ String "034" rest)).
      rewrite sapp_assoc, (unquote_multi _ _ k) by done.
      erewrite IH; [done| |done|done].
      simpl in Hn. rewrite sapp_length in Hn. lia.
Qed.
