(* ===== verification/GoJson.v ===== *)
(** * [encoding/json]

    The JSON values the sources write and read: the printer behind
    [json.Marshal], a total parser for [json.Unmarshal] (any input, rejecting
    what the Go scanner rejects), the decoding of a value into a Go struct
    (field names matched without regard to ASCII case, unknown fields
    skipped, [null] leaving a field alone) and the printer/parser round trip.
    Numbers keep their literal text, as an [int] field is parsed from it.
    Go's nesting limit of 10000 is not modelled: no value here nests. *)
From stdpp Require Import gmap strings list pretty.
From Stdlib Require Import ZArith NArith Ascii Lia.
From Stdlib Require String.
From S2P Require Import Prelude GoStrings.

Local Open Scope string_scope.

Inductive json :=
  | JNull
  | JBool (b : bool)
  | JNum (lit : string)
  | JStr (s : string)
  | JArr (l : list json)
  | JObj (l : list (string * json)).

Section json_induction.
Context (P : json -> Prop).
Context (Hnull : P JNull) (Hbool : forall b, P (JBool b))
  (Hnum : forall l, P (JNum l)) (Hstr : forall s, P (JStr s))
  (Harr : forall l, Forall P l -> P (JArr l))
  (Hobj : forall l, Forall (fun kv => P kv.2) l -> P (JObj l)).

Fixpoint json_ind' (v : json) : P v :=
  match v with
  | JNull => Hnull
  | JBool b => Hbool b
  | JNum l => Hnum l
  | JStr s => Hstr s
  | JArr l =>
    Harr l ((fix go l : Forall P l :=
      match l with
      | [] => List.Forall_nil _
      | v :: l' => @List.Forall_cons _ _ v l' (json_ind' v) (go l')
      end) l)
  | JObj l =>
    Hobj l ((fix go l : Forall (fun kv => P kv.2) l :=
      match l with
      | [] => List.Forall_nil _
      | kv :: l' => @List.Forall_cons _ _ kv l' (json_ind' kv.2) (go l')
      end) l)
  end.
End json_induction.

(** ** Printing *)

Fixpoint join (l : list string) : string :=
  match l with
  | [] => ""
  | [s] => s
  | s :: l' => s +:+ "," +:+ join l'
  end.

Fixpoint print (v : json) : string :=
  match v with
  | JNull => "null"
  | JBool true => "true"
  | JBool false => "false"
  | JNum lit => lit
  | JStr s => quote s
  | JArr l => "[" +:+ join (map print l) +:+ "]"
  | JObj l => "{" +:+ join (map (fun '(k, v) => quote k +:+ ":" +:+ print v) l) +:+ "}"
  end.

(** ** Parsing *)

Definition is_space (c : ascii) : bool :=
  Ascii.eqb c " " || Ascii.eqb c "009" || Ascii.eqb c "010" || Ascii.eqb c "013".

Fixpoint skip_ws (s : string) : string :=
  match s with
  | "" => ""
  | String c s' => if is_space c then skip_ws s' else s
  end.

Fixpoint take_digits (s : string) : string * string :=
  match s with
  | "" => ("", "")
  | String c s' =>
    if is_digit c then let '(d, r) := take_digits s' in (String c d, r) else ("", s)
  end.

(** The integer part, without leading zeros. *)
Definition num_int (s : string) : option (string * string) :=
  match s with
  | "" => None
  | String c s' =>
    if Ascii.eqb c "0" then Some ("0", s')
    else if is_digit c then Some (take_digits s)
    else None
  end.

(** The rest of the input after the given text, if it starts with it. *)
Fixpoint expect (p s : string) : option string :=
  match p, s with
  | "", _ => Some s
  | String a p', String b s' => if Ascii.eqb a b then expect p' s' else None
  | String _ _, "" => None
  end.

Definition num_frac (s : string) : option (string * string) :=
  match expect "." s with
  | Some s' =>
    let '(d, r) := take_digits s' in
    match d with "" => None | _ => Some (String "." d, r) end
  | None => Some ("", s)
  end.

Definition num_exp (s : string) : option (string * string) :=
  match s with
  | String e s' =>
    if Ascii.eqb e "e" || Ascii.eqb e "E" then
      let '(sg, s2) :=
        match s' with
        | String c s2 =>
          if Ascii.eqb c "+" || Ascii.eqb c "-" then (String c "", s2) else ("", s')
        | "" => ("", "")
        end in
      let '(d, r) := take_digits s2 in
      match d with "" => None | _ => Some (String e (sg +:+ d), r) end
    else Some ("", s)
  | "" => Some ("", "")
  end.

Definition parse_num (s : string) : option (string * string) :=
  let '(sg, s1) :=
    match s with
    | String c s1 => if Ascii.eqb c "-" then ("-", s1) else ("", s)
    | "" => ("", "")
    end in
  match num_int s1 with
  | Some (i, s2) =>
    match num_frac s2 with
    | Some (f, s3) =>
      match num_exp s3 with
      | Some (e, s4) => Some (sg +:+ i +:+ f +:+ e, s4)
      | None => None
      end
    | None => None
    end
  | None => None
  end.

Definition dquote : string := String "034" "".

Definition parse_scalar (s : string) : option (json * string) :=
  match expect dquote s with
  | Some r => match unquote 0 r with Some (x, r') => Some (JStr x, r') | None => None end
  | None =>
    match expect "null" s, expect "true" s, expect "false" s with
    | Some r, _, _ => Some (JNull, r)
    | None, Some r, _ => Some (JBool true, r)
    | None, None, Some r => Some (JBool false, r)
    | None, None, None =>
      match parse_num s with Some (lit, r) => Some (JNum lit, r) | None => None end
    end
  end.

(** Recursive descent; a value consumes at least a byte and a list one per
    element, so twice the input length is enough fuel. *)
Fixpoint parse_value (n : nat) (s : string) {struct n} : option (json * string) :=
  match n with
  | O => None
  | S n' =>
    let s := skip_ws s in
    match expect "{" s, expect "[" s with
    | Some r, _ =>
      match expect "}" (skip_ws r) with
      | Some r' => Some (JObj [], r')
      | None =>
        match parse_members n' r with
        | Some (l, r') => Some (JObj l, r')
        | None => None
        end
      end
    | None, Some r =>
      match expect "]" (skip_ws r) with
      | Some r' => Some (JArr [], r')
      | None =>
        match parse_elements n' r with
        | Some (l, r') => Some (JArr l, r')
        | None => None
        end
      end
    | None, None => parse_scalar s
    end
  end
with parse_elements (n : nat) (s : string) {struct n} : option (list json * string) :=
  match n with
  | O => None
  | S n' =>
    match parse_value n' s with
    | Some (v, r) =>
      match expect "," (skip_ws r), expect "]" (skip_ws r) with
      | Some r', _ =>
        match parse_elements n' r' with
        | Some (l, r'') => Some (v :: l, r'')
        | None => None
        end
      | None, Some r' => Some ([v], r')
      | None, None => None
      end
    | None => None
    end
  end
with parse_members (n : nat) (s : string) {struct n}
    : option (list (string * json) * string) :=
  match n with
  | O => None
  | S n' =>
    match expect dquote (skip_ws s) with
    | Some r =>
      match unquote 0 r with
      | Some (k, r1) =>
        match expect ":" (skip_ws r1) with
        | Some r2 =>
          match parse_value n' r2 with
          | Some (v, r3) =>
            match expect "," (skip_ws r3), expect "}" (skip_ws r3) with
            | Some r4, _ =>
              match parse_members n' r4 with
              | Some (l, r5) => Some ((k, v) :: l, r5)
              | None => None
              end
            | None, Some r4 => Some ([(k, v)], r4)
            | None, None => None
            end
          | None => None
          end
        | None => None
        end
      | None => None
      end
    | None => None
    end
  end.

Definition parse_json (s : string) : option json :=
  match parse_value (2 * String.length s + 2) s with
  | Some (v, r) => match skip_ws r with "" => Some v | _ => None end
  | None => None
  end.

(** ** Decoding into Go values

    A decoder takes the JSON value and the old contents of the field. *)

Definition decode_int (v : json) (old : Z) : option Z :=
  match v with
  | JNum lit => atoi lit
  | JNull => Some old
  | _ => None
  end.

Definition decode_string (v : json) (old : string) : option string :=
  match v with
  | JStr s => Some s
  | JNull => Some old
  | _ => None
  end.

Definition decode_byte (v : json) : option ascii :=
  match decode_int v 0 with
  | Some z => if ((0 <=? z) && (z <=? 255))%Z then Some (ascii_of_N (Z.to_N z)) else None
  | None => None
  end.

(** [[]byte]: base64 text, or an array of numbers. *)
Definition decode_bytes (v : json) (old : string) : option string :=
  match v with
  | JStr s => base64_decode s
  | JNull => Some ""
  | JArr l => Stdlib.Strings.String.string_of_list_ascii <$> mapM decode_byte l
  | _ => None
  end.

Definition decode_strings (v : json) (old : list string) : option (list string) :=
  match v with
  | JArr l => mapM (fun x => decode_string x "") l
  | JNull => Some []
  | _ => None
  end.

(** A struct is decoded member by member; a struct type is the list of its
    fields with the decoder of each. *)
Definition field (R : Type) := (string * (json -> R -> option R))%type.

Definition find_field {R} (fs : list (field R)) (key : string) : option (json -> R -> option R) :=
  match list_find (fun f => to_lower (fst f) = to_lower key) fs with
  | Some (_, (_, dec)) => Some dec
  | None => None
  end.

Fixpoint decode_members {R} (fs : list (field R)) (kvs : list (string * json)) (r : R)
    : option R :=
  match kvs with
  | [] => Some r
  | (k, v) :: kvs' =>
    match find_field fs k with
    | Some dec =>
      match dec v r with
      | Some r' => decode_members fs kvs' r'
      | None => None
      end
    | None => decode_members fs kvs' r
    end
  end.

Definition decode_struct {R} (fs : list (field R)) (zero : R) (v : json) : option R :=
  match v with
  | JObj kvs => decode_members fs kvs zero
  | JNull => Some zero
  | _ => None
  end.

(** [json.Unmarshal(data, &x)] for a struct type. *)
Definition unmarshal {R} (fs : list (field R)) (zero : R) (data : string) : option R :=
  match parse_json data with
  | Some v => decode_struct fs zero v
  | None => None
  end.

(** ** Encoding Go values *)

Definition enc_int (z : Z) : json := JNum (pretty z).
(** A nil slice is [null]; every empty [[]byte] the sources marshal is nil. *)
Definition enc_bytes (s : string) : json :=
  match s with "" => JNull | _ => JStr (base64_encode s) end.
Definition enc_strings (l : list string) : json := JArr (map JStr l).

Definition marshal (v : json) : string := print v.

(** ** The round trip

    The values the sources marshal: integers, valid UTF-8 strings, and lists
    and objects of them. *)

Definition int_lit (s : string) : bool :=
  match s with
  | "" => false
  | String c s' =>
    if Ascii.eqb c "-" then starts_nonzero s' && all_digits s'
    else String.eqb s "0" || (starts_nonzero s && all_digits s)
  end.

Fixpoint json_ok (v : json) : bool :=
  match v with
  | JNum lit => int_lit lit
  | JStr s => utf8_valid s
  | JArr l => forallb json_ok l
  | JObj l => forallb (fun '(k, v) => utf8_valid k && json_ok v) l
  | _ => true
  end.

Fixpoint jsize (v : json) : nat :=
  match v with
  | JArr l => S (foldr (fun v n => S (jsize v) + n)%nat 0%nat l)
  | JObj l => S (foldr (fun '(_, v) n => S (jsize v) + n)%nat 0%nat l)
  | _ => 1
  end.

(** What may follow a number. *)
Definition num_end (s : string) : bool :=
  match s with
  | "" => true
  | String c _ => negb (is_digit c || Ascii.eqb "." c || Ascii.eqb c "e" || Ascii.eqb c "E")
  end.

Lemma int_lit_pretty (z : Z) : int_lit (pretty z) = true.
Proof.
  destruct z as [|p|p]; [done|..].
  - destruct (starts_nonzero_cons (pretty_N_go (N.pos p) ""))
      as (c & s' & E & _ & _ & Hm & _); [by apply pretty_N_go_starts|].
    rewrite pretty_pos_eq. unfold int_lit. rewrite E.
    rewrite (proj2 (Ascii.eqb_neq c "-")) by done. rewrite <- E.
    rewrite pretty_N_go_starts, pretty_N_go_digits by done.
    by rewrite orb_true_r.
  - rewrite pretty_neg_eq. simpl.
    by rewrite pretty_N_go_starts, pretty_N_go_digits.
Qed.

Lemma take_digits_app d rest :
  all_digits d = true -> num_end rest = true -> take_digits (d +:+ rest) = (d, rest).
Proof.
  intros Hd Hr. induction d as [|c d IH]; simpl in *.
  - destruct rest as [|c r]; [done|]. simpl in *. by destruct (is_digit c).
  - apply andb_true_iff in Hd as [-> Hd]. by rewrite IH.
Qed.

Lemma num_end_tail rest :
  num_end rest = true ->
  num_frac rest = Some ("", rest) /\ num_exp rest = Some ("", rest).
Proof.
  destruct rest as [|c r]; [done|]. unfold num_end, num_frac, num_exp. cbn [expect].
  destruct (is_digit c), (Ascii.eqb "." c), (Ascii.eqb c "e"), (Ascii.eqb c "E"); done.
Qed.

Lemma num_int_lit s rest :
  String.eqb s "0" || (starts_nonzero s && all_digits s) = true ->
  num_end rest = true -> num_int (s +:+ rest) = Some (s, rest).
Proof.
  intros [H|[H1 H2]%andb_true_iff]%orb_true_iff Hr.
  - apply String.eqb_eq in H as ->. done.
  - destruct (starts_nonzero_cons s H1) as (c & s' & -> & Hd & Hz & _).
    simpl. rewrite (proj2 (Ascii.eqb_neq c "0")), Hd by done.
    simpl in H2. rewrite Hd in H2. simpl in H2. by rewrite take_digits_app.
Qed.

Lemma parse_num_lit lit rest :
  int_lit lit = true -> num_end rest = true ->
  parse_num (lit +:+ rest) = Some (lit, rest).
Proof.
  intros Hl Hr. destruct (num_end_tail rest Hr) as [Hf He].
  destruct lit as [|c s]; [done|]. unfold int_lit in Hl. unfold parse_num. simpl.
  destruct (Ascii.eqb_spec c "-") as [->|Hc].
  - rewrite num_int_lit by (by rewrite ?Hl, ?orb_true_r).
    rewrite Hf, He. by rewrite !sapp_nil_r.
  - change (String c (s +:+ rest)) with (String c s +:+ rest).
    rewrite num_int_lit by done. rewrite Hf, He. by rewrite !sapp_nil_r.
Qed.

Lemma int_lit_head lit :
  int_lit lit = true ->
  exists c s, lit = String c s /\ (is_digit c || Ascii.eqb c "-") = true.
Proof.
  destruct lit as [|c s]; [done|]. unfold int_lit. intros H. exists c, s. split; [done|].
  destruct (Ascii.eqb c "-"); [by rewrite orb_true_r|]. rewrite orb_false_r.
  apply orb_true_iff in H as [H%String.eqb_eq|[H _]%andb_true_iff].
  - by injection H as -> ->.
  - simpl in H. by destruct (is_digit c).
Qed.

Lemma num_head_plain c t :
  (is_digit c || Ascii.eqb c "-") = true ->
  is_space c = false /\
  forall p, p ∈ ["{"; "["; "]"; dquote; "null"; "true"; "false"] -> expect p (String c t) = None.
Proof.
  intros H. split.
  - by destruct c as [[] [] [] [] [] [] [] []].
  - intros p Hp. repeat (apply elem_of_cons in Hp as [->|Hp]; [|]);
      try (by apply not_elem_of_nil in Hp);
      by destruct c as [[] [] [] [] [] [] [] []].
Qed.

Lemma print_head v t :
  json_ok v = true ->
  skip_ws (print v +:+ t) = print v +:+ t /\ expect "]" (print v +:+ t) = None.
Proof.
  destruct v as [|[]|lit|s|l|l]; simpl; try done.
  intros (c & s & -> & Hc)%int_lit_head.
  destruct (num_head_plain c (s +:+ t) Hc) as [Hs He]. simpl. rewrite Hs.
  split; [done|]. apply (He "]"). set_solver.
Qed.

Definition parses (v : json) : Prop :=
  json_ok v = true -> forall n rest,
  (jsize v <= n)%nat -> num_end rest = true ->
  parse_value n (print v +:+ rest) = Some (v, rest).

Lemma join_cons s l :
  l <> [] -> join (s :: l) = s +:+ "," +:+ join l.
Proof. by destruct l. Qed.

Lemma parse_elements_print l n rest :
  l <> [] -> Forall parses l -> forallb json_ok l = true ->
  (foldr (fun v n => S (jsize v) + n)%nat 0%nat l <= n)%nat ->
  parse_elements n (join (map print l) +:+ "]" +:+ rest) = Some (l, rest).
Proof.
  revert n. induction l as [|v l IH]; intros n Hne HF Hok Hn; [done|].
  apply Forall_cons in HF as [Hv HF]. simpl in Hok, Hn.
  apply andb_true_iff in Hok as [Hokv Hok].
  destruct n as [|n]; [lia|]. destruct l as [|w l].
  - cbn [map join parse_elements]. rewrite Hv by (done || lia). done.
  - cbn [map]. rewrite join_cons by done. rewrite sapp_assoc.
    cbn [parse_elements]. rewrite Hv by (done || lia). rewrite (sapp_assoc ",").
    change (skip_ws ("," +:+ ?t)) with ("," +:+ t).
    change (expect "," ("," +:+ ?t)) with (Some t). cbv iota.
    rewrite IH by (done || (simpl in *; lia)). done.
Qed.

Lemma parse_members_print l n rest :
  l <> [] -> Forall (fun kv => parses kv.2) l ->
  forallb (fun '(k, v) => utf8_valid k && json_ok v) l = true ->
  (foldr (fun '(_, v) n => S (jsize v) + n)%nat 0%nat l <= n)%nat ->
  parse_members n
    (join (map (fun '(k, v) => quote k +:+ ":" +:+ print v) l) +:+ "}" +:+ rest)
  = Some (l, rest).
Proof.
  revert n. induction l as [|[k v] l IH]; intros n Hne HF Hok Hn; [done|].
  apply Forall_cons in HF as [Hv HF]. simpl in Hok, Hn, Hv.
  apply andb_true_iff in Hok as [[Hk Hokv]%andb_true_iff Hok].
  destruct n as [|n]; [lia|].
  assert (Hstep : forall t, num_end t = true ->
    parse_members (S n) ((quote k +:+ ":" +:+ print v) +:+ t) =
    match expect "," (skip_ws t), expect "}" (skip_ws t) with
    | Some r4, _ =>
      match parse_members n r4 with Some (l, r5) => Some ((k, v) :: l, r5) | None => None end
    | None, Some r4 => Some ([(k, v)], r4)
    | None, None => None
    end).
  { intros t Ht. unfold quote. rewrite !sapp_assoc. cbn [parse_members].
    change (skip_ws (String "034" ?x +:+ ?y)) with (String "034" (x +:+ y)).
    change (expect dquote (String "034" ?x)) with (Some x). cbv iota.
    rewrite !sapp_assoc. change (String "034" "" +:+ ?x) with (String "034" x).
    rewrite unquote_escape by done. cbv iota.
    change (skip_ws (":" +:+ ?x)) with (":" +:+ x).
    change (expect ":" (":" +:+ ?x)) with (Some x). cbv iota.
    rewrite Hv by (done || lia). done. }
  destruct l as [|w l].
  - cbn [map join]. rewrite Hstep by done. done.
  - cbn [map]. rewrite join_cons by done. rewrite sapp_assoc, Hstep by done.
    rewrite (sapp_assoc ",").
    change (skip_ws ("," +:+ ?t)) with ("," +:+ t).
    change (expect "," ("," +:+ ?t)) with (Some t). cbv iota.
    rewrite IH by (done || (simpl in *; lia)). done.
Qed.

Lemma parse_print v : parses v.
Proof.
  induction v as [|b|lit|s|l IH|l IH] using json_ind'; intros Hok n rest Hn Hr;
    (destruct n as [|n]; [simpl in Hn; lia|]).
  - done.
  - by destruct b.
  - simpl print. destruct (int_lit_head lit Hok) as (c & s & -> & Hc).
    destruct (num_head_plain c (s +:+ rest) Hc) as [Hs He].
    cbn [parse_value]. change (String c s +:+ rest) with (String c (s +:+ rest)).
    cbn [skip_ws]. rewrite Hs. unfold parse_scalar.
    rewrite !He by set_solver.
    change (String c (s +:+ rest)) with (String c s +:+ rest).
    by rewrite parse_num_lit.
  - simpl print. unfold quote. cbn [parse_value].
    change (skip_ws (String "034" ?x +:+ ?y)) with (String "034" (x +:+ y)).
    change (expect "{" (String "034" ?x)) with (@None string).
    change (expect "[" (String "034" ?x)) with (@None string).
    cbv iota zeta. unfold parse_scalar.
    change (expect dquote (String "034" ?x)) with (Some x). cbv iota.
    rewrite sapp_assoc. change (String "034" "" +:+ ?x) with (String "034" x).
    by rewrite unquote_escape.
  - cbn [json_ok] in Hok. cbn [jsize] in Hn. apply le_S_n in Hn. destruct l as [|v l]; [done|].
    change (print (JArr ?x)) with ("[" +:+ join (map print x) +:+ "]").
    cbn [parse_value]. rewrite !(sapp_assoc "[").
    change (skip_ws ("[" +:+ ?x)) with ("[" +:+ x).
    change (expect "{" ("[" +:+ ?x)) with (@None string).
    change (expect "[" ("[" +:+ ?x)) with (Some x).
    cbv iota zeta. rewrite sapp_assoc.
    replace (expect "]" _) with (@None string).
    + by rewrite parse_elements_print.
    + simpl in Hok. apply andb_true_iff in Hok as [Hv _].
      destruct l as [|w l]; cbn [map join]; rewrite ?sapp_assoc;
        match goal with |- _ = expect _ (skip_ws (_ +:+ ?t)) =>
          destruct (print_head v t Hv) as [-> ->] end; done.
  - cbn [json_ok] in Hok. cbn [jsize] in Hn. apply le_S_n in Hn. destruct l as [|[k v] l]; [done|].
    change (print (JObj ?x)) with
      ("{" +:+ join (map (fun '(k, v) => quote k +:+ ":" +:+ print v) x) +:+ "}").
    cbn [parse_value]. rewrite !(sapp_assoc "{").
    change (skip_ws ("{" +:+ ?x)) with ("{" +:+ x).
    change (expect "{" ("{" +:+ ?x)) with (Some x).
    cbv iota zeta. rewrite sapp_assoc.
    replace (expect "}" _) with (@None string).
    + by rewrite parse_members_print.
    + destruct l; done.
Qed.

Definition total_len (l : list string) : nat :=
  foldr (fun s n => S (String.length s) + n)%nat 0%nat l.

Lemma join_length l : (total_len l <= String.length (join l) + 1)%nat.
Proof.
  induction l as [|s l IH]; [simpl; lia|]. destruct l as [|t l].
  - simpl. lia.
  - rewrite join_cons by done. rewrite !sapp_length.
    cbn [total_len foldr] in *. change (String.length ",") with 1%nat. lia.
Qed.

Lemma jsize_print v : json_ok v = true -> (jsize v <= String.length (print v))%nat.
Proof.
  induction v as [|[]|lit|s|l IH|l IH] using json_ind'; try (simpl; lia).
  - intros (c & s & -> & _)%int_lit_head. simpl. lia.
  - intros Hok. cbn [json_ok jsize print] in *. rewrite !sapp_length.
    pose proof (join_length (map print l)) as Hj.
    enough (foldr (fun v n => S (jsize v) + n)%nat 0%nat l <= total_len (map print l))%nat
      by (change (String.length "[") with 1%nat; change (String.length "]") with 1%nat; lia).
    clear Hj. induction l as [|v l IHl]; [done|]. apply Forall_cons in IH as [IHv IH].
    cbn [forallb] in Hok. apply andb_true_iff in Hok as [Hv Hok].
    specialize (IHl IH Hok). specialize (IHv Hv). unfold total_len in *.
    cbn [map foldr] in *. lia.
  - intros Hok. cbn [json_ok jsize print] in *. rewrite !sapp_length.
    match goal with |- context [join ?l] => pose proof (join_length l) as Hj end.
    enough (foldr (fun '(_, v) n => S (jsize v) + n)%nat 0%nat l
            <= total_len (map (fun '(k, v) => quote k +:+ ":" +:+ print v) l))%nat
      by (change (String.length "{") with 1%nat; change (String.length "}") with 1%nat; lia).
    clear Hj. induction l as [|[k v] l IHl]; [done|]. apply Forall_cons in IH as [IHv IH].
    cbn [forallb] in Hok. apply andb_true_iff in Hok as [[_ Hv]%andb_true_iff Hok].
    specialize (IHl IH Hok). specialize (IHv Hv). unfold total_len in *.
    cbn [map foldr snd] in *. rewrite !sapp_length. lia.
Qed.

(** [json.Unmarshal] reads back what [json.Marshal] wrote. *)
Lemma parse_json_marshal v : json_ok v = true -> parse_json (marshal v) = Some v.
Proof.
  intros Hok. unfold parse_json, marshal.
  rewrite <- (sapp_nil_r (print v)) at 2.
  rewrite parse_print; [done|done| |done].
  pose proof (jsize_print v Hok). lia.
Qed.
