(* ===== verification/GoText.v ===== *)
(** * The [strings] and [net] functions of the sources

    [strings.HasPrefix], [Index], [Contains], [Cut] and [Split] at a one-byte
    separator, [Join], [TrimSpace], and [net.SplitHostPort], on byte strings,
    with the lemmas that relate them to concatenation. *)
From stdpp Require Import gmap strings list pretty.
From Stdlib Require Import ZArith NArith Ascii Lia.
From S2P Require Import Prelude GoStrings.

Local Open Scope string_scope.

(** ** Searching *)

Fixpoint has_prefix (p s : string) {struct p} : bool :=
  match p, s with
  | "", _ => true
  | String a p', String b s' => Ascii.eqb a b && has_prefix p' s'
  | String _ _, "" => false
  end.

(** [strings.Index]: the position of the first occurrence. *)
Fixpoint str_index (sub s : string) : option nat :=
  if has_prefix sub s then Some O
  else match s with "" => None | String _ s' => S <$> str_index sub s' end.

Definition contains (s sub : string) : bool :=
  match str_index sub s with Some _ => true | None => false end.

Fixpoint str_drop (n : nat) (s : string) : string :=
  match n, s with
  | S n', String _ s' => str_drop n' s'
  | _, _ => s
  end.

(** [strings.Cut(s, sep)] at the first separator; [None] if there is none. *)
Fixpoint str_cut (sep : ascii) (s : string) : option (string * string) :=
  match s with
  | "" => None
  | String c s' =>
    if Ascii.eqb c sep then Some ("", s')
    else prod_map (String c) id <$> str_cut sep s'
  end.

(** The same at the last separator ([LastIndexByteString]). *)
Fixpoint str_rcut (sep : ascii) (s : string) : option (string * string) :=
  match s with
  | "" => None
  | String c s' =>
    match str_rcut sep s' with
    | Some (a, b) => Some (String c a, b)
    | None => if Ascii.eqb c sep then Some ("", s') else None
    end
  end.

Fixpoint has_byte (c : ascii) (s : string) : bool :=
  match s with "" => false | String x s' => Ascii.eqb x c || has_byte c s' end.

(** [strings.Split(s, sep)]. *)
Fixpoint str_split (sep : ascii) (s : string) : list string :=
  match s with
  | "" => [""]
  | String c s' =>
    if Ascii.eqb c sep then "" :: str_split sep s'
    else match str_split sep s' with
         | p :: ps => String c p :: ps
         | [] => [String c ""]
         end
  end.

(** [strings.Join(l, sep)]. *)
Fixpoint str_join (sep : string) (l : list string) : string :=
  match l with
  | [] => ""
  | [x] => x
  | x :: l' => x +:+ sep +:+ str_join sep l'
  end.

(** ** [strings.TrimSpace]

    White space is Unicode's: six ASCII characters and the multi-byte runes
    U+0085, U+00A0, U+1680, U+2000-U+200A, U+2028, U+2029, U+202F, U+205F and
    U+3000.  [space_runes] lists the encodings. *)

Definition ascii_space (c : ascii) : bool := byte_in 9 13 c || Ascii.eqb c " ".

Definition byte_string (l : list N) : string :=
  Stdlib.Strings.String.string_of_list_ascii (map ascii_of_N l).

Definition space_runes : list string :=
  map byte_string
    (([[194; 133]; [194; 160]; [225; 154; 128]]
     ++ map (fun k => [226; 128; 128 + N.of_nat k]) (seq 0 11)
     ++ [[226; 128; 168]; [226; 128; 169]; [226; 128; 175]; [226; 129; 159]; [227; 128; 128]])%N)%list.

(** The bytes of the white-space rune [s] starts with, 0 if it does not start
    with one. *)
Definition space_len (runes : list string) (s : string) : nat :=
  match s with
  | "" => 0
  | String c _ =>
    if ascii_space c then 1
    else match list_find (fun r => has_prefix r s = true) runes with
         | Some (_, r) => String.length r
         | None => 0
         end
  end.

Fixpoint trim_left (fuel : nat) (runes : list string) (s : string) : string :=
  match fuel with
  | O => s
  | S f =>
    match space_len runes s with
    | O => s
    | n => trim_left f runes (str_drop n s)
    end
  end.

Fixpoint str_rev_app (s acc : string) : string :=
  match s with "" => acc | String c s' => str_rev_app s' (String c acc) end.

Definition str_rev (s : string) : string := str_rev_app s "".

(** The right end is trimmed on the reversed bytes; each round drops at least
    a byte, so the length is enough fuel. *)
Definition trim_space (s : string) : string :=
  let s := trim_left (String.length s) space_runes s in
  str_rev (trim_left (String.length s) (map str_rev space_runes) (str_rev s)).

Definition starts_with_byte (c : ascii) (s : string) : bool :=
  match s with "" => false | String x _ => Ascii.eqb x c end.

(** ** [net.SplitHostPort]

    The errors are not told apart: no caller looks at them. *)
Definition SplitHostPort (hostport : string) : option (string * string) :=
  match str_rcut ":" hostport with
  | None => None
  | Some (before, port) =>
    if starts_with_byte "[" hostport then
      match str_cut "]" hostport with
      | None => None
      | Some (bracketed, after) =>
        (* the first ']' must come just before the last ':' *)
        if bool_decide (after = ":" +:+ port) then
          if has_byte "[" (str_drop 1 hostport) then None
          else if has_byte "]" after then None
          else Some (str_drop 1 bracketed, port)
        else None
      end
    else if has_byte ":" before then None
    else if has_byte "[" hostport then None
    else if has_byte "]" hostport then None
    else Some (before, port)
  end.

(** ** Lemmas *)

Lemma has_byte_app c a b : has_byte c (a +:+ b) = has_byte c a || has_byte c b.
Proof. induction a as [|x a IH]; simpl; [done|]. by rewrite IH, orb_assoc. Qed.

Lemma has_prefix_app p s : has_prefix p (p +:+ s) = true.
Proof. induction p as [|c p IH]; simpl; [done|]. by rewrite Ascii.eqb_refl. Qed.

Lemma has_prefix_more p s t : has_prefix p s = true -> has_prefix p (s +:+ t) = true.
Proof.
  revert s. induction p as [|c p IH]; intros [|d s]; simpl; try done.
  intros [-> H]%andb_true_iff. by apply IH.
Qed.

Lemma str_drop_app a b : str_drop (String.length a) (a +:+ b) = b.
Proof. by induction a. Qed.

Lemma str_cut_app sep a b :
  has_byte sep a = false -> str_cut sep (a +:+ String sep b) = Some (a, b).
Proof.
  induction a as [|x a IH]; simpl; [by rewrite Ascii.eqb_refl|].
  intros [-> Ha]%orb_false_iff. by rewrite IH.
Qed.

Lemma str_cut_none sep s : has_byte sep s = false -> str_cut sep s = None.
Proof.
  induction s as [|x s IH]; simpl; [done|]. intros [-> Hs]%orb_false_iff. by rewrite IH.
Qed.

Lemma str_rcut_none sep s : has_byte sep s = false -> str_rcut sep s = None.
Proof.
  induction s as [|x s IH]; simpl; [done|]. intros [-> Hs]%orb_false_iff. by rewrite IH.
Qed.

Lemma str_rcut_app sep a b :
  has_byte sep b = false -> str_rcut sep (a +:+ String sep b) = Some (a, b).
Proof.
  intros Hb. induction a as [|x a IH]; simpl.
  - by rewrite str_rcut_none, Ascii.eqb_refl.
  - by rewrite IH.
Qed.

Lemma str_split_one sep s : has_byte sep s = false -> str_split sep s = [s].
Proof.
  induction s as [|x s IH]; simpl; [done|]. intros [-> Hs]%orb_false_iff. by rewrite IH.
Qed.

Lemma str_split_app sep a b :
  has_byte sep a = false -> str_split sep (a +:+ String sep b) = a :: str_split sep b.
Proof.
  induction a as [|x a IH]; simpl; [by rewrite Ascii.eqb_refl|].
  intros [-> Ha]%orb_false_iff. by rewrite IH.
Qed.

(** [strings.Split] undoes [strings.Join] on parts without the separator. *)
Lemma str_split_join sep l :
  l <> [] -> Forall (fun s => has_byte sep s = false) l ->
  str_split sep (str_join (String sep "") l) = l.
Proof.
  induction l as [|x l IH]; [done|]. intros _ [Hx Hl]%Forall_cons.
  destruct l as [|y l]; [by apply str_split_one|].
  change (str_join (String sep "") (x :: y :: l))
    with (x +:+ String sep (str_join (String sep "") (y :: l))).
  rewrite str_split_app by done. by rewrite IH.
Qed.

Lemma digit_not_special c : is_digit c = true ->
  Ascii.eqb c ":" = false /\ Ascii.eqb c "[" = false /\ Ascii.eqb c "]" = false /\
  Ascii.eqb c "-" = false /\ Ascii.eqb c "," = false /\ ascii_space c = false.
Proof.
  destruct c as [[] [] [] [] [] [] [] []]; vm_compute; try discriminate; auto 10.
Qed.

(** The decimal form of an integer has no separator in it. *)
Lemma all_digits_plain s c :
  all_digits s = true -> is_digit c = false -> has_byte c s = false.
Proof.
  intros Hs Hc. induction s as [|x s IH]; simpl in *; [done|].
  apply andb_true_iff in Hs as [Hx Hs]. rewrite IH by done.
  destruct (Ascii.eqb_spec x c) as [->|]; [congruence|done].
Qed.

Lemma pretty_plain (z : Z) c :
  is_digit c = false -> c <> "-"%char -> has_byte c (pretty z) = false.
Proof.
  intros Hc Hm. destruct z as [|p|p].
  - change (pretty 0%Z) with "0". cbn [has_byte]. rewrite orb_false_r.
    destruct (Ascii.eqb_spec "0" c) as [<-|]; [discriminate Hc|done].
  - rewrite pretty_pos_eq. apply all_digits_plain; [|done]. by apply pretty_N_go_digits.
  - rewrite pretty_neg_eq. cbn [has_byte]. destruct (Ascii.eqb_spec "-" c) as [<-|]; [done|].
    apply all_digits_plain; [|done]. by apply pretty_N_go_digits.
Qed.

Lemma pretty_nonempty (z : Z) : pretty z <> "".
Proof.
  destruct z as [|p|p]; [done| |by rewrite pretty_neg_eq].
  rewrite pretty_pos_eq. intros E.
  pose proof (pretty_N_go_starts (N.pos p) "" ltac:(lia)) as H. by rewrite E in H.
Qed.

(** Hosts without colons and brackets split off cleanly. *)
Definition plain_host (h : string) : bool :=
  negb (has_byte ":" h || has_byte "[" h || has_byte "]" h).

Lemma plain_host_spec h : plain_host h = true ->
  has_byte ":" h = false /\ has_byte "[" h = false /\ has_byte "]" h = false.
Proof. unfold plain_host. intros H. boolify. auto. Qed.

Lemma no_byte_start c s : has_byte c s = false -> starts_with_byte c s = false.
Proof. destruct s; simpl; [done|]. by intros [-> _]%orb_false_iff. Qed.

Lemma SplitHostPort_join h p :
  plain_host h = true -> plain_host p = true -> SplitHostPort (h +:+ ":" +:+ p) = Some (h, p).
Proof.
  intros (Hc & Ho & Hk)%plain_host_spec (Hc' & Ho' & Hk')%plain_host_spec.
  unfold SplitHostPort. change (":" +:+ p) with (String ":" p).
  rewrite str_rcut_app by done.
  assert (forall c, has_byte c (h +:+ String ":" p) = has_byte c h || (Ascii.eqb ":" c || has_byte c p)) as Hb
    by (intros c; by rewrite has_byte_app).
  rewrite no_byte_start by (by rewrite Hb, Ho, Ho').
  by rewrite Hc, !Hb, Ho, Ho', Hk, Hk'.
Qed.

(** A bracketed host, as in ["[::1]:4000"]: the brackets are taken off. *)
Lemma SplitHostPort_bracketed h p :
  has_byte "[" h = false -> has_byte "]" h = false -> plain_host p = true ->
  SplitHostPort ("[" +:+ h +:+ "]:" +:+ p) = Some (h, p).
Proof.
  intros Ho Hk (Hc' & Ho' & Hk')%plain_host_spec.
  replace ("[" +:+ h +:+ "]:" +:+ p) with (("[" +:+ h +:+ "]") +:+ String ":" p)
    by (simpl; by rewrite sapp_assoc).
  unfold SplitHostPort. rewrite str_rcut_app by done. cbn [starts_with_byte String.append].
  rewrite Ascii.eqb_refl, sapp_assoc. simpl ("]" +:+ _).
  change (String "[" (h +:+ String "]" (String ":" p)))
    with (String "[" h +:+ String "]" (String ":" p)).
  rewrite str_cut_app by (simpl; by rewrite Hk).
  rewrite bool_decide_eq_true_2 by done. cbn [str_drop String.append].
  rewrite has_byte_app. simpl. by rewrite Ho, Ho', Hk'.
Qed.
