(* ===== verification/Types.v ===== *)
(** * The data of the raft package

    [internal/raft/types.go], the constants of [raft.go], [Snapshot] of
    [snapshot.go] and the RPC messages of [proto/raft.proto].  A [NodeID] is
    a string; a protobuf [int32] field is a [Z] (the sender's conversion
    [int32(x)] is written where the sender fills the message). *)
From stdpp Require Import gmap strings list.
From Stdlib Require Import ZArith.
From S2P Require Import Prelude.

Local Open Scope Z_scope.

Abbreviation NodeID := string.

Inductive RaftState := Follower | Candidate | Leader.

#[export] Instance RaftState_eq_dec : EqDecision RaftState.
Proof. solve_decision. Defined.

(** [func (s RaftState) String() string] *)
Definition RaftState_String (s : RaftState) : string :=
  match s with
  | Follower => "follower"
  | Candidate => "candidate"
  | Leader => "leader"
  end.

Definition snapshotCheckThreshold : Z := 50.
Definition maxEntriesPerBatch : nat := 100.
Definition maxPipelineInflight : nat := 3.

(** [CommandType] is an [int] with three named values. *)
Definition CmdPut : Z := 0.
Definition CmdDelete : Z := 1.
Definition CmdConfigChange : Z := 2.

Inductive ConfigChangeType := ConfigAddNode | ConfigRemoveNode.

#[export] Instance ConfigChangeType_eq_dec : EqDecision ConfigChangeType.
Proof. solve_decision. Defined.

Record LogEntry := mkLogEntry { Index : Z; Term : Z; Data : string }.

#[export] Instance LogEntry_eq_dec : EqDecision LogEntry.
Proof. solve_decision. Defined.

Record Snapshot := mkSnapshot {
  LastIncludedIndex : Z;
  LastIncludedTerm : Z;
  CreatedAt : Z;
  SnapData : string
}.

#[export] Instance Snapshot_eq_dec : EqDecision Snapshot.
Proof. solve_decision. Defined.

(** ** RPC messages *)

Record RequestVoteRequest := mkRequestVoteRequest {
  rv_CandidateId : NodeID; rv_Term : Z; rv_LastLogIndex : Z; rv_LastLogTerm : Z }.

Record RequestVoteResponse := mkRequestVoteResponse {
  rvr_Term : Z; rvr_VoteGranted : bool }.

(** The entries of an [AppendEntries] message are [raftpb.LogEntry] values,
    whose index and term are [int32]; they are kept as [LogEntry]. *)
Record AppendEntriesRequest := mkAppendEntriesRequest {
  ae_Term : Z; ae_LeaderId : NodeID; ae_PrevLogIndex : Z; ae_PrevLogTerm : Z;
  ae_Entries : list LogEntry; ae_LeaderCommit : Z }.

Record AppendEntriesResponse := mkAppendEntriesResponse {
  aer_Term : Z; aer_Success : bool }.

Record InstallSnapshotRequest := mkInstallSnapshotRequest {
  is_Term : Z; is_LeaderId : NodeID; is_LastIncludedIndex : Z;
  is_LastIncludedTerm : Z; is_Data : string }.

Record InstallSnapshotResponse := mkInstallSnapshotResponse { isr_Term : Z }.

Record TimeoutNowRequest := mkTimeoutNowRequest { tn_Term : Z; tn_LeaderId : NodeID }.

Record TimeoutNowResponse := mkTimeoutNowResponse { tnr_Term : Z; tnr_Success : bool }.

(** [AddNodeResponse], [RemoveNodeResponse] and [TransferLeadershipResponse]
    have the same two fields. *)
Record AdminResponse := mkAdminResponse { adm_Success : bool; adm_Error : string }.

(** [raftpb.LogEntry{Index: int32(e.Index), Term: int32(e.Term), Data: e.Data}] *)
Definition wire_entry (e : LogEntry) : LogEntry :=
  mkLogEntry (int32 (Index e)) (int32 (Term e)) (Data e).

(** ** Errors of the raft package *)

Inductive raft_error :=
  | ErrNotLeader
  | ErrCannotRemoveLastPeer
  | ErrNodeNotInCluster
  | ErrPersist
  | ErrAddNodeTimedOut
  | ErrRemoveNodeTimedOut
  | ErrTransferToSelf
  | ErrTargetNotInCluster
  | ErrTargetNotCaughtUp
  | ErrTargetNotTracked.

#[export] Instance raft_error_eq_dec : EqDecision raft_error.
Proof. solve_decision. Defined.

(** [err.Error()]; a failed save carries the text of the operating system's
    error, [osText]. *)
Definition error_String (osText : string) (e : raft_error) : string :=
  match e with
  | ErrNotLeader => "not leader"
  | ErrCannotRemoveLastPeer => "cannot remove last peer"
  | ErrNodeNotInCluster => "node not in cluster"
  | ErrPersist => osText
  | ErrAddNodeTimedOut => "add node config change timed out"
  | ErrRemoveNodeTimedOut => "remove node config change timed out"
  | ErrTransferToSelf => "cannot transfer leadership to self"
  | ErrTargetNotInCluster => "target node not in cluster"
  | ErrTargetNotCaughtUp => "target node is not caught up"
  | ErrTargetNotTracked => "target node not tracked"
  end.
