(* ===== verification/ConnPool.v ===== *)
(** * The connection pool of a node

    internal/raft/conn_pool.go and [dialPeer] of rpc_client.go.  Connections
    are numbers handed out by the network; [opened] records which of them
    are open, so that leaks and uses after closing can be stated.  The network
    answers a dial and tells the connectivity state of a connection. *)
From stdpp Require Import gmap strings list.
From Stdlib Require Import ZArith Lia.
From S2P Require Import Prelude Types.

Local Open Scope nat_scope.

(** ** State *)

Inductive connectivity := Idle | Connecting | Ready | TransientFailure | Shutdown.

#[export] Instance connectivity_eq_dec : EqDecision connectivity.
Proof. solve_decision. Defined.

Record pooledConnection := mkPooled { conn : nat; refs : nat }.

#[export] Instance eta_pooledConnection : Eta pooledConnection :=
  fun p => mkPooled (conn p) (refs p).

(** The pool and the connections that are open. *)
Record connectionPool := mkPool { pool_conns : gmap string pooledConnection; opened : gset nat }.

#[export] Instance eta_connectionPool : Eta connectionPool :=
  fun p => mkPool (pool_conns p) (opened p).

Definition newConnectionPool (opened0 : gset nat) : connectionPool := mkPool ∅ opened0.

(** ** Operations *)

Definition close_conn (c : nat) (p : connectionPool) : connectionPool :=
  p <| opened := opened p ∖ {[c]} |>.

Definition removeConnection (addr : string) (p : connectionPool) : connectionPool :=
  match pool_conns p !! addr with
  | Some pooled => (close_conn (conn pooled) p) <| pool_conns := delete addr (pool_conns p) |>
  | None => p
  end.

(** What dialling gives: the connection the default dialer opens or its error,
    or what a custom dialer returns, which is not pooled. *)
Inductive dial_result := Default (r : nat + string) | Custom (r : nat + string).

Definition getConnection (state : nat -> connectivity) (dialed : dial_result) (addr : string)
    (p : connectionPool) : (nat + string) * connectionPool :=
  let connect p :=
    match dialed with
    | Custom r => (r, p)
    | Default (inr err) => (inr err, p)
    | Default (inl c) =>
      (inl c, p <| pool_conns := <[addr := mkPooled c 1]> (pool_conns p) |>
                <| opened := {[c]} ∪ opened p |>)
    end in
  match pool_conns p !! addr with
  | Some pooled =>
    if bool_decide (state (conn pooled) = Ready) || bool_decide (state (conn pooled) = Idle) then
      (inl (conn pooled),
       p <| pool_conns := <[addr := pooled <| refs := S (refs pooled) |>]> (pool_conns p) |>)
    else connect (removeConnection addr p)
  | None => connect p
  end.

Definition releaseConnection (addr : string) (p : connectionPool) : connectionPool :=
  match pool_conns p !! addr with
  | Some pooled =>
    if bool_decide (0 < refs pooled) then
      p <| pool_conns := <[addr := pooled <| refs := refs pooled - 1 |>]> (pool_conns p) |>
    else p
  | None => p
  end.

Definition closeAll (p : connectionPool) : connectionPool :=
  foldr removeConnection p (map fst (map_to_list (pool_conns p))).

(** A custom dialer bypasses the pool. *)
Definition dialPeer (state : nat -> connectivity) (dialed : dial_result) (addr : string)
    (p : connectionPool) : (nat + string) * connectionPool :=
  match dialed with
  | Custom r => (r, p)
  | Default _ => getConnection state dialed addr p
  end.

(** ** No leaks

    The pooled connections are exactly the open ones beyond those that were
    open before, and no two addresses share a connection. *)
Definition pool_inv (opened0 : gset nat) (p : connectionPool) : Prop :=
  (forall addr pooled, pool_conns p !! addr = Some pooled -> conn pooled ∈ opened p /\ conn pooled ∉ opened0) /\
  (forall a b x y, pool_conns p !! a = Some x -> pool_conns p !! b = Some y -> conn x = conn y -> a = b) /\
  (forall c, c ∈ opened p -> c ∈ opened0 \/ exists addr pooled, pool_conns p !! addr = Some pooled /\ conn pooled = c).

(** What a node does with its pool.  The network never hands out a connection
    that is still open. *)
Inductive pool_step : connectionPool -> connectionPool -> Prop :=
  | pool_get state dialed addr p :
    (forall c, dialed = Default (inl c) -> c ∉ opened p) ->
    pool_step p (dialPeer state dialed addr p).2
  | pool_release addr p : pool_step p (releaseConnection addr p)
  | pool_remove addr p : pool_step p (removeConnection addr p)
  | pool_closeAll p : pool_step p (closeAll p).

Lemma pool_inv_remove opened0 addr p :
  pool_inv opened0 p -> opened0 ⊆ opened p ->
  pool_inv opened0 (removeConnection addr p) /\ opened0 ⊆ opened (removeConnection addr p).
Proof.
  intros (H1 & H2 & H3) Hsub. unfold removeConnection.
  destruct (pool_conns p !! addr) as [x|] eqn:Ex; [|done].
  destruct (H1 _ _ Ex) as [Hx Hx0]. split; [split_and!; simpl|simpl; set_solver].
  - intros a y [Hne Hy]%lookup_delete_Some. destruct (H1 _ _ Hy) as [Hy1 Hy0]. split; [|done].
    apply elem_of_difference. split; [done|]. intros E%elem_of_singleton.
    apply Hne. symmetry. by apply (H2 _ _ _ _ Hy Ex).
  - intros a b y z [_ Hy]%lookup_delete_Some [_ Hz]%lookup_delete_Some. by apply H2.
  - intros c [Hc Hne]%elem_of_difference. destruct (H3 c Hc) as [?|(a & y & Hy & E)]; [by left|right].
    exists a, y. split; [|done]. apply lookup_delete_Some. split; [|done].
    intros ->. rewrite Ex in Hy. injection Hy as ->. set_solver.
Qed.

Lemma pool_inv_refs opened0 addr pooled n p :
  pool_inv opened0 p -> pool_conns p !! addr = Some pooled ->
  pool_inv opened0 (p <| pool_conns := <[addr := pooled <| refs := n |>]> (pool_conns p) |>).
Proof.
  intros (H1 & H2 & H3) Hx.
  assert (forall a y, <[addr := pooled <| refs := n |>]> (pool_conns p) !! a = Some y ->
    exists z, pool_conns p !! a = Some z /\ conn z = conn y) as Hl.
  { intros a y [[<- <-]|[_ Hy]]%lookup_insert_Some; eauto. }
  split_and!; simpl.
  - intros a y (z & Hz & <-)%Hl. by apply (H1 a).
  - intros a b y z (y' & Hy & <-)%Hl (z' & Hz & <-)%Hl. by apply H2.
  - intros c [?|(a & y & Hy & E)]%H3; [by left|right].
    destruct (decide (a = addr)) as [->|Hne].
    + exists addr, (pooled <| refs := n |>). split; [by rewrite lookup_insert_eq|].
      rewrite Hx in Hy. by injection Hy as <-.
    + exists a, y. split; [by rewrite lookup_insert_ne|done].
Qed.

Lemma pool_inv_open opened0 addr c p :
  pool_inv opened0 p -> opened0 ⊆ opened p -> pool_conns p !! addr = None -> c ∉ opened p ->
  pool_inv opened0 (p <| pool_conns := <[addr := mkPooled c 1]> (pool_conns p) |>
                      <| opened := {[c]} ∪ opened p |>).
Proof.
  intros (H1 & H2 & H3) Hsub Hn Hc. split_and!; simpl.
  - intros a y [[<- <-]|[_ Hy]]%lookup_insert_Some; [simpl; set_solver|].
    destruct (H1 _ _ Hy). set_solver.
  - intros a b y z [[<- <-]|[Ha Hy]]%lookup_insert_Some [[<- <-]|[Hb Hz]]%lookup_insert_Some E;
      simpl in E; [done|..|by apply (H2 a b y z)].
    + destruct (H1 _ _ Hz). congruence.
    + destruct (H1 _ _ Hy). congruence.
  - intros d [->%elem_of_singleton|Hd]%elem_of_union.
    + right. exists addr, (mkPooled c 1). by rewrite lookup_insert_eq.
    + destruct (H3 d Hd) as [?|(a & y & Hy & E)]; [by left|right].
      exists a, y. rewrite lookup_insert_ne; [done|]. congruence.
Qed.

Lemma removeConnection_conns addr p :
  pool_conns (removeConnection addr p) = delete addr (pool_conns p).
Proof.
  unfold removeConnection. destruct (pool_conns p !! addr) eqn:E; [done|].
  by rewrite delete_id.
Qed.

Lemma foldr_remove opened0 l p :
  pool_inv opened0 p -> opened0 ⊆ opened p ->
  let p' := foldr removeConnection p l in
  pool_inv opened0 p' /\ opened0 ⊆ opened p' /\ dom (pool_conns p') = dom (pool_conns p) ∖ list_to_set l.
Proof.
  intros Hp Hs. induction l as [|a l IH]; cbn [foldr].
  { split_and!; try done. cbn. set_solver. }
  destruct IH as (H1 & H2 & H3).
  destruct (pool_inv_remove opened0 a _ H1 H2) as [H4 H5]. split_and!; try done.
  rewrite removeConnection_conns, dom_delete_L, H3. cbn. set_solver.
Qed.

Lemma pool_step_inv opened0 p p' :
  pool_step p p' -> pool_inv opened0 p -> opened0 ⊆ opened p ->
  pool_inv opened0 p' /\ opened0 ⊆ opened p'.
Proof.
  intros Hstep Hp Hs. destruct Hstep as [state dialed addr p Hd|addr p|addr p|p].
  - unfold dialPeer. destruct dialed as [dialed|r]; [|done]. unfold getConnection.
    assert (forall q, pool_inv opened0 q -> opened0 ⊆ opened q -> pool_conns q !! addr = None ->
      opened q ⊆ opened p ->
      let q' := (match Default dialed with
                 | Custom r => (r, q)
                 | Default (inr err) => (inr err, q)
                 | Default (inl c) => (inl c, q <| pool_conns := <[addr := mkPooled c 1]> (pool_conns q) |>
                                      <| opened := {[c]} ∪ opened q |>)
                 end : (nat + string) * connectionPool).2 in
      pool_inv opened0 q' /\ opened0 ⊆ opened q') as Hconnect.
    { intros q Hq Hqs Hn Hqp. destruct dialed as [c|err]; [|done]. cbn [snd].
      specialize (Hd c eq_refl). split; [apply pool_inv_open; try done; set_solver|simpl; set_solver]. }
    destruct (pool_conns p !! addr) as [x|] eqn:Ex; [|by apply Hconnect].
    destruct (_ || _); [split; [by apply pool_inv_refs|done]|].
    destruct (pool_inv_remove opened0 addr p Hp Hs) as [H1 H2].
    apply Hconnect; try done; unfold removeConnection; rewrite Ex; simpl; [|set_solver].
    by rewrite lookup_delete_eq.
  - unfold releaseConnection. destruct (pool_conns p !! addr) as [x|] eqn:Ex; [|done].
    case_bool_decide; [|done]. split; [by apply pool_inv_refs|done].
  - by apply pool_inv_remove.
  - unfold closeAll. destruct (foldr_remove opened0 (map fst (map_to_list (pool_conns p))) p Hp Hs)
      as (H1 & H2 & _). done.
Qed.

(** C35: the pool neither leaks nor shares connections.  Whatever sequence of
    dials, releases, removals and closings a node performs, the connections
    open beyond the initial ones are exactly the pooled ones, each under one
    address; the initial ones stay open; and after [closeAll] none of the
    pool's is left. *)
Theorem pool_no_leak opened0 p :
  rtc pool_step (newConnectionPool opened0) p ->
  pool_inv opened0 p /\ opened0 ⊆ opened p /\
  pool_conns (closeAll p) = ∅ /\ opened (closeAll p) = opened0.
Proof.
  intros Hr.
  assert (pool_inv opened0 p /\ opened0 ⊆ opened p) as [Hp Hs].
  { remember (newConnectionPool opened0) as q eqn:Eq.
    assert (pool_inv opened0 q /\ opened0 ⊆ opened q) as Hq.
    { subst q. split; [|done]. split_and!; [done..|]. intros c Hc. by left. }
    clear Eq. induction Hr as [q|q q' q'' Hstep _ IH]; [done|].
    apply IH. destruct Hq. by apply (pool_step_inv opened0 q). }
  destruct (foldr_remove opened0 (map fst (map_to_list (pool_conns p))) p Hp Hs)
    as ((H1 & H2 & H3) & H4 & H5). fold (closeAll p) in *.
  assert (pool_conns (closeAll p) = ∅) as He.
  { apply dom_empty_inv_L. rewrite H5. apply elem_of_equiv_empty_L. intros a [Ha Hn]%elem_of_difference.
    apply Hn, elem_of_list_to_set. apply elem_of_dom in Ha as [y Hy].
    apply list_elem_of_fmap. exists (a, y). split; [done|]. by apply elem_of_map_to_list. }
  split_and!; try done. apply set_eq. intros c. split; [|by apply H4].
  intros [?|(a & y & Hy & _)]%H3; [done|]. by rewrite He in Hy.
Qed.

Lemma pool_no_leak_witness :
  let p := (dialPeer (fun _ => Ready) (Default (inl 7)) "n2:4000" (newConnectionPool {[3]})).2 in
  rtc pool_step (newConnectionPool {[3]}) p /\
  (pool_inv {[3]} p /\ {[3]} ⊆ opened p /\
   pool_conns (closeAll p) = ∅ /\ opened (closeAll p) = {[3]}).
Proof.
  intros p.
  assert (rtc pool_step (newConnectionPool {[3]}) p) as H.
  { apply rtc_once. apply pool_get. intros c E. injection E as <-.
    apply (bool_decide_unpack _). vm_compute. exact I. }
  split; [exact H|]. exact (pool_no_leak {[3]} p H).
Defined.
