(* ===== verification/Addr.v ===== *)
(** * Addresses

    A node is known by its gRPC address ["host:port"]; its HTTP endpoints are
    on the next port.  utils/util.go ([ParseHostPort]) and the helpers of
    api/server.go that turn node identifiers into HTTP addresses
    ([leaderHTTPBase], [publicHTTPBaseForNodeID], [normalizeNodeIDForHost],
    [requestHost], [dockerNodeIDRe]). *)
From stdpp Require Import gmap strings list pretty.
From Stdlib Require Import ZArith Ascii Lia.
From S2P Require Import Prelude GoStrings GoJson GoText Types.

Local Open Scope string_scope.

(** ** Operations *)

Definition ParseHostPort (addr : string) : string * Z :=
  let parsed :=
    match SplitHostPort addr with
    | Some (host, portStr) => Some (host, portStr)
    | None => if starts_with_byte ":" addr then Some ("", str_drop 1 addr) else None
    end in
  match parsed with
  | None => ("", 0%Z)
  | Some (host, portStr) =>
    match atoi portStr with
    | Some p => (host, p)
    | None => (host, 0%Z)
    end
  end.

Definition parsePort (addr : string) : Z := (ParseHostPort addr).2.

(** [fmt.Sprintf("%s:%d", host, port)] *)
Definition host_port (host : string) (port : Z) : string := host +:+ ":" +:+ pretty port.

Definition leaderHTTPBase (leaderID : NodeID) : string :=
  let '(host, port) := ParseHostPort leaderID in
  let host := if bool_decide (host = "") then "localhost" else host in
  if (port =? 0)%Z then ""
  else "http://" +:+ host_port host (int64 (port + 1)).

(** The regular expression [^mimori-node(\d+):\d+$]: the first group of a
    match. *)
Definition dockerNodeIDRe (s : string) : option string :=
  if has_prefix "mimori-node" s then
    let '(ds, rest) := take_digits (str_drop 11 s) in
    match rest with
    | String c port =>
      if negb (bool_decide (ds = "")) && Ascii.eqb c ":" &&
         negb (bool_decide (port = "")) && all_digits port
      then Some ds else None
    | "" => None
    end
  else None.

(** What an HTTP handler reads of its request; [Body] is the bytes of the body
    or the text of the error that reading it gives. *)
Record HttpRequest := mkHttpRequest {
  Method : string; Path : string; RawQuery : string; Host : string; TLS : bool;
  Header : gmap string string; Body : string + string }.

Definition header_get (name : string) (r : HttpRequest) : string := default "" (Header r !! name).

(** [strconv.Atoi] with its error ignored: digits that do not fit give the
    largest integer. *)
Definition atoi_digits (ds : string) : Z :=
  match atoi ds with Some n => n | None => two63 - 1 end.

Definition publicHTTPBaseForNodeID (r : HttpRequest) (nodeID : NodeID) : string :=
  let host := from_option fst "" (SplitHostPort (Host r)) in
  let host := if bool_decide (host = "") then Host r else host in
  let host := if bool_decide (host = "") then "localhost" else host in
  let scheme := if TLS r then "https" else "http" in
  let xf := header_get "X-Forwarded-Proto" r in
  let scheme := if bool_decide (xf = "") then scheme else xf in
  let manual :=
    let port := (ParseHostPort nodeID).2 in
    if (port =? 0)%Z then "" else scheme +:+ "://" +:+ host_port host (int64 (port + 1)) in
  match dockerNodeIDRe nodeID with
  | Some ds =>
    let n := atoi_digits ds in
    if (0 <? n)%Z then
      let grpcHostPort := int64 (4000 + 2 * (n - 1)) in
      let httpHostPort := int64 (grpcHostPort + 1) in
      scheme +:+ "://" +:+ host_port host httpHostPort
    else manual
  | None => manual
  end.

Definition normalizeNodeIDForHost (nodeID : NodeID) (host : string) : NodeID :=
  let '(h, p) := ParseHostPort nodeID in
  if (p =? 0)%Z then nodeID
  else if negb (bool_decide (h = "")) then nodeID
  else
    let host := if bool_decide (host = "") then "localhost" else host in
    host_port host p.

Definition requestHost (r : option HttpRequest) : string :=
  match r with
  | None => "localhost"
  | Some r =>
    let asIs := if bool_decide (Host r = "") then "localhost" else Host r in
    match SplitHostPort (Host r) with
    | Some (h, _) => if bool_decide (h = "") then asIs else h
    | None => asIs
    end
  end.

(** ** Parsing what was printed *)

Lemma pretty_plain_host (z : Z) : plain_host (pretty z) = true.
Proof. unfold plain_host. by rewrite !pretty_plain by done. Qed.

Lemma ParseHostPort_host_port h p :
  plain_host h = true -> in_int64 p -> ParseHostPort (host_port h p) = (h, p).
Proof.
  intros Hh Hp. unfold ParseHostPort, host_port.
  rewrite SplitHostPort_join by (done || apply pretty_plain_host). by rewrite atoi_pretty.
Qed.

Lemma ParseHostPort_bracketed h p :
  has_byte "[" h = false -> has_byte "]" h = false -> in_int64 p ->
  ParseHostPort ("[" +:+ h +:+ "]:" +:+ pretty p) = (h, p).
Proof.
  intros Ho Hk Hp. unfold ParseHostPort.
  rewrite SplitHostPort_bracketed by (done || apply pretty_plain_host). by rewrite atoi_pretty.
Qed.
