(* ===== verification/Stores.v ===== *)
(** * The file stores: [meta.go], [storage.go] and [snapshot.go] of raft

    The three stores keep one JSON file each and replace it by writing a
    temporary file and renaming it.  The file system is a map from paths to
    contents together with the faults the following system calls will meet,
    so that every error path runs: a failed [os.WriteFile] may leave a prefix
    of the data behind, a failed [os.Rename] or [os.ReadFile] changes
    nothing.  A crash between two system calls is a fault after which the
    process does nothing more. *)
From stdpp Require Import gmap strings list pretty.
From Stdlib Require Import ZArith Ascii Lia.
From S2P Require Import Prelude GoStrings GoJson Types.

Local Open Scope string_scope.

(** ** The file system *)

Inductive io_error := ErrNotExist | ErrIO.

#[export] Instance io_error_eq_dec : EqDecision io_error.
Proof. solve_decision. Defined.

(** The outcome of the next system call: success, or failure with the number
    of bytes a write left behind ([None]: the file was not touched). *)
Inductive fault := NoFault | Fault (written : option nat).

Record FS := mkFS { files : gmap string string; faults : list fault }.

#[export] Instance eta_FS : Eta FS := fun r => mkFS (files r) (faults r).

Definition next_fault (fs : FS) : fault * FS :=
  match faults fs with
  | [] => (NoFault, fs)
  | f :: l => (f, fs <| faults := l |>)
  end.

Fixpoint string_take (n : nat) (s : string) : string :=
  match n, s with
  | S n', String c s' => String c (string_take n' s')
  | _, _ => ""
  end.

(** [os.ReadFile] *)
Definition ReadFile (path : string) (fs : FS) : (string + io_error) * FS :=
  let '(f, fs) := next_fault fs in
  match f with
  | Fault _ => (inr ErrIO, fs)
  | NoFault =>
    match files fs !! path with
    | Some b => (inl b, fs)
    | None => (inr ErrNotExist, fs)
    end
  end.

(** [os.WriteFile] *)
Definition WriteFile (path data : string) (fs : FS) : option io_error * FS :=
  let '(f, fs) := next_fault fs in
  match f with
  | NoFault => (None, fs <| files := <[path := data]> (files fs) |>)
  | Fault None => (Some ErrIO, fs)
  | Fault (Some n) => (Some ErrIO, fs <| files := <[path := string_take n data]> (files fs) |>)
  end.

(** [os.Rename] *)
Definition Rename (old new : string) (fs : FS) : option io_error * FS :=
  let '(f, fs) := next_fault fs in
  match f with
  | Fault _ => (Some ErrIO, fs)
  | NoFault =>
    match files fs !! old with
    | Some b => (None, fs <| files := <[new := b]> (delete old (files fs)) |>)
    | None => (Some ErrNotExist, fs)
    end
  end.

(** The tail shared by the three [Save] methods: write [path.tmp], then
    rename it over [path]. *)
Definition tmp_path (path : string) : string := path +:+ ".tmp".

Definition write_and_rename (path data : string) (fs : FS) : option io_error * FS :=
  let '(err, fs) := WriteFile (tmp_path path) data fs in
  match err with
  | Some e => (Some e, fs)
  | None => Rename (tmp_path path) path fs
  end.

(** ** [MetaStore] *)

Record metaData := mkMetaData { md_Term : Z; md_VotedFor : string; md_Peers : list string }.

#[export] Instance eta_metaData : Eta metaData :=
  fun r => mkMetaData (md_Term r) (md_VotedFor r) (md_Peers r).

(** [Peers] is [omitempty]. *)
Definition metaData_json (md : metaData) : json :=
  JObj ([("term", enc_int (md_Term md)); ("voted_for", JStr (md_VotedFor md))]
        ++ match md_Peers md with [] => [] | l => [("peers", enc_strings l)] end).

Definition metaData_fields : list (field metaData) :=
  [ ("term", fun v r => (fun x => r <| md_Term := x |>) <$> decode_int v (md_Term r));
    ("voted_for", fun v r => (fun x => r <| md_VotedFor := x |>) <$> decode_string v (md_VotedFor r));
    ("peers", fun v r => (fun x => r <| md_Peers := x |>) <$> decode_strings v (md_Peers r)) ].

Definition metaData_zero : metaData := mkMetaData 0 "" [].

Inductive meta_load_error := ErrMetaDecode.

(** Any read error is taken for a first boot; a decode error is reported. *)
Definition MetaStore_Load (path : string) (fs : FS)
    : (Z * NodeID * list NodeID * option meta_load_error) * FS :=
  let '(b, fs) := ReadFile path fs in
  match b with
  | inr _ => ((0%Z, "", [], None), fs)
  | inl f =>
    match unmarshal metaData_fields metaData_zero f with
    | None => ((0%Z, "", [], Some ErrMetaDecode), fs)
    | Some md => ((md_Term md, md_VotedFor md, md_Peers md, None), fs)
    end
  end.

Definition MetaStore_Save (path : string) (term : Z) (votedFor : NodeID)
    (peers : list NodeID) (fs : FS) : option io_error * FS :=
  write_and_rename path (marshal (metaData_json (mkMetaData term votedFor peers))) fs.

(** ** [LogStore] *)

Definition logDiskEntry_json (e : LogEntry) : json :=
  JObj [("index", enc_int (Index e)); ("term", enc_int (Term e)); ("data", enc_bytes (Data e))].

#[export] Instance eta_LogEntry : Eta LogEntry :=
  fun r => mkLogEntry (Index r) (Term r) (Data r).

Definition logDiskEntry_fields : list (field LogEntry) :=
  [ ("index", fun v r => (fun x => r <| Index := x |>) <$> decode_int v (Index r));
    ("term", fun v r => (fun x => r <| Term := x |>) <$> decode_int v (Term r));
    ("data", fun v r => (fun x => r <| Data := x |>) <$> decode_bytes v (Data r)) ].

Definition LogEntry_zero : LogEntry := mkLogEntry 0 0 "".

Definition decode_log (v : json) : option (list LogEntry) :=
  match v with
  | JArr l => mapM (decode_struct logDiskEntry_fields LogEntry_zero) l
  | JNull => Some []
  | _ => None
  end.

Inductive log_load_error := ErrLogRead | ErrLogDecode.

Definition LogStore_Load (path : string) (fs : FS)
    : (list LogEntry * option log_load_error) * FS :=
  let '(b, fs) := ReadFile path fs in
  match b with
  | inr ErrNotExist => (([], None), fs)
  | inr ErrIO => (([], Some ErrLogRead), fs)
  | inl b =>
    match parse_json b with
    | None => (([], Some ErrLogDecode), fs)
    | Some v =>
      match decode_log v with
      | None => (([], Some ErrLogDecode), fs)
      | Some l => ((l, None), fs)
      end
    end
  end.

Definition LogStore_SaveAll (path : string) (entries : list LogEntry) (fs : FS)
    : option io_error * FS :=
  write_and_rename path (marshal (JArr (map logDiskEntry_json entries))) fs.

(** ** [SnapshotStore] *)

#[export] Instance eta_Snapshot : Eta Snapshot :=
  fun r => mkSnapshot (LastIncludedIndex r) (LastIncludedTerm r) (CreatedAt r) (SnapData r).

Definition Snapshot_json (s : Snapshot) : json :=
  JObj [("last_included_index", enc_int (LastIncludedIndex s));
        ("last_included_term", enc_int (LastIncludedTerm s));
        ("created_at", enc_int (CreatedAt s)); ("data", enc_bytes (SnapData s))].

Definition Snapshot_fields : list (field Snapshot) :=
  [ ("last_included_index",
     fun v r => (fun x => r <| LastIncludedIndex := x |>) <$> decode_int v (LastIncludedIndex r));
    ("last_included_term",
     fun v r => (fun x => r <| LastIncludedTerm := x |>) <$> decode_int v (LastIncludedTerm r));
    ("created_at", fun v r => (fun x => r <| CreatedAt := x |>) <$> decode_int v (CreatedAt r));
    ("data", fun v r => (fun x => r <| SnapData := x |>) <$> decode_bytes v (SnapData r)) ].

Definition Snapshot_zero : Snapshot := mkSnapshot 0 0 0 "".

Definition SnapshotStore_Save (path : string) (snap : Snapshot) (fs : FS)
    : option io_error * FS :=
  write_and_rename path (marshal (Snapshot_json snap)) fs.

Inductive snap_load_error := ErrSnapRead | ErrSnapDecode.

Definition SnapshotStore_Load (path : string) (fs : FS)
    : (option Snapshot * option snap_load_error) * FS :=
  let '(b, fs) := ReadFile path fs in
  match b with
  | inr ErrNotExist => ((None, None), fs)
  | inr ErrIO => ((None, Some ErrSnapRead), fs)
  | inl b =>
    match unmarshal Snapshot_fields Snapshot_zero b with
    | None => ((None, Some ErrSnapDecode), fs)
    | Some s => ((Some s, None), fs)
    end
  end.

(** ** Replacing a file is all or nothing *)

Lemma tmp_path_ne path : tmp_path path <> path.
Proof.
  unfold tmp_path. intros H. apply (f_equal String.length) in H.
  rewrite sapp_length in H. simpl in H. lia.
Qed.

Lemma write_and_rename_file path data fs err fs' :
  write_and_rename path data fs = (err, fs') ->
  files fs' !! path = match err with None => Some data | Some _ => files fs !! path end /\
  (forall p, p <> path -> p <> tmp_path path -> files fs' !! p = files fs !! p).
Proof.
  pose proof (tmp_path_ne path) as Hne.
  unfold write_and_rename, WriteFile, Rename, next_fault. intros H.
  destruct fs as [m [|f1 [|f2 l]]]; cbn in H;
    repeat (case_match; simplify_eq/=; try done);
    simplify_map_eq; split; try done; intros; by simplify_map_eq.
Qed.

Lemma next_fault_files fs : files (next_fault fs).2 = files fs.
Proof. unfold next_fault. by destruct (faults fs). Qed.

(** Without pending faults a load sees exactly the stored bytes. *)
Definition quiet (fs : FS) : FS := fs <| faults := [] |>.

Lemma ReadFile_quiet path fs :
  ReadFile path (quiet fs) =
  (match files fs !! path with Some b => inl b | None => inr ErrNotExist end, quiet fs).
Proof. unfold ReadFile, quiet. simpl. by destruct (files fs !! path). Qed.

(** ** ASCII text is valid UTF-8 *)

Fixpoint ascii_only (s : string) : bool :=
  match s with "" => true | String c s' => byte_in 0 127 c && ascii_only s' end.

Lemma ascii_only_utf8 s : ascii_only s = true -> utf8_valid s = true.
Proof.
  unfold utf8_valid. induction s as [|c s IH]; [done|]. simpl.
  intros [Hc Hs]%andb_true_iff. rewrite Hc. auto.
Qed.

Lemma b64_char_ascii x : byte_in 0 127 (b64_char x) = true.
Proof. destruct x as [[] [] [] [] [] []]; reflexivity. Qed.

Lemma base64_ascii s : ascii_only (base64_encode s) = true.
Proof.
  induction s as [|a|a b|a b c s IH] using string_ind3;
    repeat match goal with x : ascii |- _ => destruct x end;
    cbn [base64_encode enc1 enc2 enc3 ascii_only];
    rewrite ?b64_char_ascii; done.
Qed.

Lemma enc_bytes_ok s : json_ok (enc_bytes s) = true.
Proof.
  destruct s as [|c s]; [done|]. unfold enc_bytes. cbn [json_ok].
  apply ascii_only_utf8, base64_ascii.
Qed.

Lemma enc_int_ok z : json_ok (enc_int z) = true.
Proof. apply int_lit_pretty. Qed.

Lemma decode_enc_bytes s old : decode_bytes (enc_bytes s) old = Some s.
Proof.
  destruct s as [|c s]; [done|]. unfold enc_bytes. cbn [decode_bytes].
  apply base64_roundtrip.
Qed.

Lemma decode_enc_int z old : in_int64 z -> decode_int (enc_int z) old = Some z.
Proof. apply atoi_pretty. Qed.

Lemma decode_enc_strings l old : decode_strings (enc_strings l) old = Some l.
Proof.
  unfold enc_strings. cbn [decode_strings].
  induction l as [|s l IH]; [done|]. simpl. by rewrite IH.
Qed.

#[export] Hint Resolve enc_bytes_ok enc_int_ok : mimori.
Create Rewrite HintDb gojson.
#[export] Hint Rewrite enc_bytes_ok enc_int_ok decode_enc_bytes : gojson.

(** One step of [decode_members] at a key the struct has. *)
Lemma decode_members_hit {R} (fs : list (field R)) k v kvs (r r' : R) dec :
  find_field fs k = Some dec -> dec v r = Some r' ->
  decode_members fs ((k, v) :: kvs) r = decode_members fs kvs r'.
Proof. intros H1 H2. simpl. by rewrite H1, H2. Qed.

(** Decode the next member: the field is found by computation, its value by
    the round trip of the field's type. *)
Ltac decode_hit :=
  erewrite decode_members_hit;
    [| reflexivity
     | cbv beta; rewrite ?decode_enc_int, ?decode_enc_bytes, ?decode_enc_strings by done;
       reflexivity ].

(** ** Logs *)

Definition entry_int64 (e : LogEntry) : Prop := in_int64 (Index e) /\ in_int64 (Term e).

Lemma logDiskEntry_ok e : json_ok (logDiskEntry_json e) = true.
Proof. unfold logDiskEntry_json. cbn [json_ok forallb]. by autorewrite with gojson. Qed.

Lemma decode_logDiskEntry e :
  entry_int64 e ->
  decode_struct logDiskEntry_fields LogEntry_zero (logDiskEntry_json e) = Some e.
Proof.
  intros [Hi Ht]. unfold logDiskEntry_json. cbn [decode_struct].
  do 3 decode_hit. by destruct e.
Qed.

Lemma decode_log_entries l :
  Forall entry_int64 l -> decode_log (JArr (map logDiskEntry_json l)) = Some l.
Proof.
  cbn [decode_log]. induction 1 as [|e l He _ IH]; [done|].
  cbn [map mapM]. rewrite decode_logDiskEntry by done.
  cbn. cbn in IH. by rewrite IH.
Qed.

Lemma log_json_ok l : json_ok (JArr (map logDiskEntry_json l)) = true.
Proof.
  cbn [json_ok]. induction l as [|e l IH]; [done|].
  cbn [map forallb]. by rewrite logDiskEntry_ok, IH.
Qed.

Lemma LogStore_saved path entries fs err fs' :
  Forall entry_int64 entries -> LogStore_SaveAll path entries fs = (err, fs') ->
  (LogStore_Load path (quiet fs')).1 =
  match err with
  | None => (entries, None)
  | Some _ => (LogStore_Load path (quiet fs)).1
  end.
Proof.
  intros He [E _]%write_and_rename_file.
  unfold LogStore_Load. rewrite !ReadFile_quiet, E. destruct err.
  { destruct (files fs !! path); simpl; repeat case_match; done. }
  rewrite parse_json_marshal by apply log_json_ok.
  by rewrite decode_log_entries.
Qed.

(** ** Term, vote and configuration *)

Definition meta_ok (term : Z) (votedFor : NodeID) (peers : list NodeID) : Prop :=
  in_int64 term /\ utf8_valid votedFor = true /\
  Forall (fun p => utf8_valid p = true) peers.

Lemma enc_strings_ok l :
  Forall (fun p => utf8_valid p = true) l -> json_ok (enc_strings l) = true.
Proof.
  unfold enc_strings. cbn [json_ok]. induction 1 as [|s l Hs _ IH]; [done|].
  cbn [map forallb]. by rewrite IH, andb_true_r.
Qed.

Lemma metaData_json_ok t v p :
  meta_ok t v p -> json_ok (metaData_json (mkMetaData t v p)) = true.
Proof.
  intros (_ & Hv & Hp). unfold metaData_json. cbn [json_ok md_Term md_VotedFor md_Peers].
  destruct p as [|x p]; cbn [app forallb]; rewrite ?enc_int_ok, ?enc_strings_ok by done;
    simpl; by rewrite Hv.
Qed.

Lemma decode_metaData t v p :
  meta_ok t v p ->
  decode_struct metaData_fields metaData_zero (metaData_json (mkMetaData t v p))
  = Some (mkMetaData t v p).
Proof.
  intros (Ht & _). unfold metaData_json. cbn [decode_struct md_Term md_VotedFor md_Peers].
  destruct p as [|x p]; cbn [app]; repeat decode_hit; done.
Qed.

Lemma MetaStore_saved path term votedFor peers fs err fs' :
  meta_ok term votedFor peers -> MetaStore_Save path term votedFor peers fs = (err, fs') ->
  (MetaStore_Load path (quiet fs')).1 =
  match err with
  | None => (term, votedFor, peers, None)
  | Some _ => (MetaStore_Load path (quiet fs)).1
  end.
Proof.
  intros Hok [E _]%write_and_rename_file.
  unfold MetaStore_Load. rewrite !ReadFile_quiet, E. destruct err.
  { destruct (files fs !! path); simpl; repeat case_match; done. }
  unfold unmarshal. rewrite parse_json_marshal by (by apply metaData_json_ok).
  by rewrite decode_metaData.
Qed.

(** ** Snapshots *)

Definition snapshot_int64 (s : Snapshot) : Prop :=
  in_int64 (LastIncludedIndex s) /\ in_int64 (LastIncludedTerm s) /\ in_int64 (CreatedAt s).

Lemma Snapshot_json_ok s : json_ok (Snapshot_json s) = true.
Proof. unfold Snapshot_json. cbn [json_ok forallb]. by autorewrite with gojson. Qed.

Lemma decode_Snapshot s :
  snapshot_int64 s ->
  decode_struct Snapshot_fields Snapshot_zero (Snapshot_json s) = Some s.
Proof.
  intros (Hi & Ht & Hc). unfold Snapshot_json. cbn [decode_struct].
  do 4 decode_hit. by destruct s.
Qed.

Lemma SnapshotStore_saved path snap fs err fs' :
  snapshot_int64 snap -> SnapshotStore_Save path snap fs = (err, fs') ->
  (SnapshotStore_Load path (quiet fs')).1 =
  match err with
  | None => (Some snap, None)
  | Some _ => (SnapshotStore_Load path (quiet fs)).1
  end.
Proof.
  intros Hok [E _]%write_and_rename_file.
  unfold SnapshotStore_Load. rewrite !ReadFile_quiet, E. destruct err.
  { destruct (files fs !! path); simpl; repeat case_match; done. }
  unfold unmarshal. rewrite parse_json_marshal by apply Snapshot_json_ok.
  by rewrite decode_Snapshot.
Qed.

(** C24: saving is atomic and faithful.  Whatever faults the file system meets
    while the log, the term, vote and peers, or a snapshot are saved (including
    a torn write), a later load returns exactly what was saved if the save
    reported success, and exactly what it returned before if it reported an
    error: an entry or a vote reported as persisted is never lost or altered,
    and the state machine's bytes come back unchanged. *)
Theorem stores_save_load :
  (forall path entries fs, Forall entry_int64 entries ->
     let '(err, fs') := LogStore_SaveAll path entries fs in
     (LogStore_Load path (quiet fs')).1 =
     match err with
     | None => (entries, None)
     | Some _ => (LogStore_Load path (quiet fs)).1
     end) /\
  (forall path term votedFor peers fs, meta_ok term votedFor peers ->
     let '(err, fs') := MetaStore_Save path term votedFor peers fs in
     (MetaStore_Load path (quiet fs')).1 =
     match err with
     | None => (term, votedFor, peers, None)
     | Some _ => (MetaStore_Load path (quiet fs)).1
     end) /\
  (forall path snap fs, snapshot_int64 snap ->
     let '(err, fs') := SnapshotStore_Save path snap fs in
     (SnapshotStore_Load path (quiet fs')).1 =
     match err with
     | None => (Some snap, None)
     | Some _ => (SnapshotStore_Load path (quiet fs)).1
     end).
Proof.
  split_and!.
  - intros path entries fs He. destruct (LogStore_SaveAll path entries fs) eqn:E.
    by apply LogStore_saved.
  - intros path term votedFor peers fs Hok.
    destruct (MetaStore_Save path term votedFor peers fs) eqn:E. by apply MetaStore_saved.
  - intros path snap fs Hok. destruct (SnapshotStore_Save path snap fs) eqn:E.
    by apply SnapshotStore_saved.
Qed.

(** ** Concrete runs *)

Definition fs_torn : FS :=
  mkFS {["d/raft-log.json" := "[]"]} [Fault (Some 7%nat)].

(** A torn write of the temporary file: the error is reported, the old log is
    still there. *)
(** A write that is torn after eleven bytes, and one that succeeds. *)
Lemma stores_save_load_witness :
  (LogStore_SaveAll "d/raft-log.json" [mkLogEntry 1 2 "{}"] fs_torn).1 = Some ErrIO /\
  (LogStore_Load "d/raft-log.json" (quiet (LogStore_SaveAll "d/raft-log.json" [mkLogEntry 1 2 "{}"] fs_torn).2)).1
    = (LogStore_Load "d/raft-log.json" (quiet fs_torn)).1 /\
  (MetaStore_Load "m" (quiet (MetaStore_Save "m" 7 "n2" ["n2"; "n<3>"] (mkFS ∅ [])).2)).1
    = (7%Z, "n2", ["n2"; "n<3>"], None).
Proof.
  split; [reflexivity|]. split.
  - refine (proj1 stores_save_load "d/raft-log.json" [mkLogEntry 1 2 "{}"] fs_torn _).
    repeat constructor; vm_compute; intuition congruence.
  - refine (proj1 (proj2 stores_save_load) "m" 7%Z "n2" ["n2"; "n<3>"] (mkFS ∅ []) _).
    split; [vm_compute; intuition congruence|]. split; [reflexivity|]. repeat constructor.
Defined.
