(* ===== verification/Commands.v ===== *)
(** * The commands of the replicated log

    A log entry carries the JSON text of a command.  The API layer writes
    client commands ([raftCommand], server.go), raft writes configuration
    changes (the anonymous struct of [proposeConfigChange]), and each reads
    the other's entries: raft looks for configuration changes in every entry
    it applies, and the apply loop of [mimorid] decodes every entry as a
    [raft.Command], whose untagged fields match the lower-case keys only
    because [encoding/json] ignores case. *)
From stdpp Require Import gmap strings list pretty.
From Stdlib Require Import ZArith Ascii Lia.
From S2P Require Import Prelude GoStrings GoJson Types Stores.

Local Open Scope string_scope.

(** ** Client commands: server.go [raftCommand], types.go [Command] *)

Record Command := mkCommand { Op : Z; Key : string; Value : string }.

#[export] Instance Command_eq_dec : EqDecision Command.
Proof. solve_decision. Defined.

#[export] Instance eta_Command : Eta Command := fun r => mkCommand (Op r) (Key r) (Value r).

(** [Value] is [omitempty]. *)
Definition raftCommand_json (c : Command) : json :=
  JObj ([("op", enc_int (Op c)); ("key", enc_bytes (Key c))]
        ++ match Value c with "" => [] | v => [("value", enc_bytes v)] end).

Definition encodePutCmd (key val : string) : string :=
  marshal (raftCommand_json (mkCommand CmdPut key val)).

Definition encodeDeleteCmd (key : string) : string :=
  marshal (raftCommand_json (mkCommand CmdDelete key "")).

Definition Command_fields : list (field Command) :=
  [ ("Op", fun v r => (fun x => r <| Op := x |>) <$> decode_int v (Op r));
    ("Key", fun v r => (fun x => r <| Key := x |>) <$> decode_bytes v (Key r));
    ("Value", fun v r => (fun x => r <| Value := x |>) <$> decode_bytes v (Value r)) ].

(** [json.Unmarshal(entry.Data, &cmd)] in the apply loop of [mimorid]. *)
Definition decodeCommand (data : string) : option Command :=
  unmarshal Command_fields (mkCommand 0 "" "") data.

(** ** Configuration changes *)

Record ConfigCmd := mkConfigCmd { cfg_Op : Z; cfg_Type : string; cfg_NodeID : string }.

#[export] Instance eta_ConfigCmd : Eta ConfigCmd :=
  fun r => mkConfigCmd (cfg_Op r) (cfg_Type r) (cfg_NodeID r).

Definition ConfigChangeType_name (t : ConfigChangeType) : string :=
  match t with ConfigAddNode => "add" | ConfigRemoveNode => "remove" end.

Definition encodeConfigCmd (t : ConfigChangeType) (nodeID : NodeID) : string :=
  marshal (JObj [("op", enc_int CmdConfigChange);
                 ("type", JStr (ConfigChangeType_name t)); ("node_id", JStr nodeID)]).

Definition ConfigCmd_fields : list (field ConfigCmd) :=
  [ ("op", fun v r => (fun x => r <| cfg_Op := x |>) <$> decode_int v (cfg_Op r));
    ("type", fun v r => (fun x => r <| cfg_Type := x |>) <$> decode_string v (cfg_Type r));
    ("node_id", fun v r => (fun x => r <| cfg_NodeID := x |>) <$> decode_string v (cfg_NodeID r)) ].

(** [json.Unmarshal(entry.Data, &cmd)] in [handleConfigChangeIfNeeded] and
    [replayConfigChanges]. *)
Definition decodeConfigCmd (data : string) : option ConfigCmd :=
  unmarshal ConfigCmd_fields (mkConfigCmd 0 "" "") data.

(** ** Round trips *)

Lemma raftCommand_json_ok c : json_ok (raftCommand_json c) = true.
Proof.
  unfold raftCommand_json. destruct (Value c) as [|a v] eqn:E; cbn [app json_ok forallb];
    by autorewrite with gojson.
Qed.

Lemma decodeCommand_encode c :
  in_int64 (Op c) -> decodeCommand (marshal (raftCommand_json c)) = Some c.
Proof.
  intros Hop. unfold decodeCommand, unmarshal.
  rewrite parse_json_marshal by apply raftCommand_json_ok.
  unfold raftCommand_json. cbn [decode_struct]. destruct c as [op k v]. cbn [Op Key Value] in *.
  destruct v as [|a v]; cbn [app]; repeat decode_hit; done.
Qed.

(** A member the struct does not have is skipped. *)
Lemma decode_members_miss {R} (fs : list (field R)) k v kvs (r : R) :
  find_field fs k = None ->
  decode_members fs ((k, v) :: kvs) r = decode_members fs kvs r.
Proof. intros H. simpl. by rewrite H. Qed.

Ltac decode_miss := rewrite decode_members_miss by reflexivity.

Lemma decodeConfigCmd_command c :
  in_int64 (Op c) ->
  decodeConfigCmd (marshal (raftCommand_json c)) = Some (mkConfigCmd (Op c) "" "").
Proof.
  intros Hop. unfold decodeConfigCmd, unmarshal.
  rewrite parse_json_marshal by apply raftCommand_json_ok.
  unfold raftCommand_json. cbn [decode_struct]. destruct c as [op k v]. cbn [Op Key Value] in *.
  destruct v as [|a v]; cbn [app]; decode_hit; repeat decode_miss; done.
Qed.

Lemma configCmd_json_ok t n :
  utf8_valid n = true ->
  json_ok (JObj [("op", enc_int CmdConfigChange);
                 ("type", JStr (ConfigChangeType_name t)); ("node_id", JStr n)]) = true.
Proof. intros Hn. cbn [json_ok forallb]. rewrite Hn. by destruct t. Qed.

Lemma decodeConfigCmd_encode t n :
  utf8_valid n = true ->
  decodeConfigCmd (encodeConfigCmd t n)
  = Some (mkConfigCmd CmdConfigChange (ConfigChangeType_name t) n).
Proof.
  intros Hn. unfold decodeConfigCmd, unmarshal, encodeConfigCmd.
  rewrite parse_json_marshal by (by apply configCmd_json_ok).
  cbn [decode_struct].
  erewrite decode_members_hit; [|reflexivity|reflexivity].
  do 2 decode_hit. done.
Qed.

Lemma decodeCommand_config t n :
  utf8_valid n = true ->
  decodeCommand (encodeConfigCmd t n) = Some (mkCommand CmdConfigChange "" "").
Proof.
  intros Hn. unfold decodeCommand, unmarshal, encodeConfigCmd.
  rewrite parse_json_marshal by (by apply configCmd_json_ok).
  cbn [decode_struct].
  erewrite decode_members_hit; [|reflexivity|reflexivity].
  by repeat decode_miss.
Qed.

Lemma in_int64_small z : (-1000 <= z <= 1000)%Z -> in_int64 z.
Proof. unfold in_int64, two63. lia. Qed.

(** C26: the two kinds of commands never get confused.  A client command is
    decoded by the apply loop to the operation, key and value it was built
    from and is not a configuration change to raft; a configuration change is
    decoded by raft to its kind and node and is a no-op for the key-value
    store. *)
Theorem command_codecs (key val : string) (t : ConfigChangeType) (n : NodeID) :
  utf8_valid n = true ->
  decodeCommand (encodePutCmd key val) = Some (mkCommand CmdPut key val) /\
  decodeCommand (encodeDeleteCmd key) = Some (mkCommand CmdDelete key "") /\
  decodeConfigCmd (encodePutCmd key val) = Some (mkConfigCmd CmdPut "" "") /\
  decodeConfigCmd (encodeDeleteCmd key) = Some (mkConfigCmd CmdDelete "" "") /\
  decodeConfigCmd (encodeConfigCmd t n)
    = Some (mkConfigCmd CmdConfigChange (ConfigChangeType_name t) n) /\
  decodeCommand (encodeConfigCmd t n) = Some (mkCommand CmdConfigChange "" "").
Proof.
  intros Hn. unfold encodePutCmd, encodeDeleteCmd.
  assert (in_int64 CmdPut /\ in_int64 CmdDelete) as [Hp Hd]
    by (split; apply in_int64_small; done).
  rewrite !decodeCommand_encode, !decodeConfigCmd_command by done.
  rewrite decodeConfigCmd_encode, decodeCommand_config by done. done.
Qed.

Lemma command_codecs_witness :
  utf8_valid "n2" = true /\ decodeConfigCmd (encodeConfigCmd ConfigAddNode "n2")
    = Some (mkConfigCmd CmdConfigChange "add" "n2").
Proof.
  split; [reflexivity|].
  exact (proj1 (proj2 (proj2 (proj2 (proj2
    (command_codecs "k" "v" ConfigAddNode "n2" eq_refl)))))).
Defined.
