(* ===== verification/RaftNode.v ===== *)
(** * The state of a raft node

    The [Raft] struct of raft.go with its log helpers and queries.  Fields
    keep their names ([id] is [nodeId]).  Channels have identities: a waiter
    is the number of the channel [AppliedWait] returned, and a channel is
    closed or not.  The three stores are the paths of their files in the
    file system [fs]; [applyCh] is the contents of the buffered channel;
    [goroutines] lists what [go] statements have started, oldest first, with
    the arguments they captured.  The mutex makes each locked region one
    function of the state; the clock is an argument ([now], nanoseconds). *)
From stdpp Require Import gmap strings list.
From Stdlib Require Import ZArith Lia.
From S2P Require Import Prelude Types Stores.

Local Open Scope Z_scope.

(** What a [go] statement starts, with the captured arguments. *)
Inductive goroutine :=
  | GoElectionTimer
  | GoApplier
  | GoMetricsUpdater
  | GoHeartbeatLoop
  | GoBroadcastRequestVote (term : Z)
  | GoSendBatches (peer : NodeID) (term : Z) (leaderID : NodeID)
      (prevLogIndex prevLogTerm : Z) (allEntries : list LogEntry) (freshCommit : Z)
  | GoSendSnapshot (peer : NodeID)
  | GoTransferLeadership (target : NodeID).

Record Raft := mkRaft {
  nodeId : NodeID;
  peers : list NodeID;
  state : RaftState;
  term : Z;
  votes : Z;
  votedFor : NodeID;
  electionReset : Z;
  log : list LogEntry;
  commitIndex : Z;
  lastApplied : Z;
  nextIndex : gmap NodeID Z;
  matchIndex : gmap NodeID Z;
  applyCh : list LogEntry;
  waiters : gmap Z nat;
  leader : NodeID;
  meta : string;
  logStore : string;
  logBaseIndex : Z;
  snapshotStore : string;
  snapshot : option Snapshot;
  snapshotter : bool;
  restorer : bool;
  pipelineSemaphores : gmap NodeID nat;
  removedFromCluster : bool;
  shutdown : bool;
  chanCount : nat;
  closedChans : gset nat;
  goroutines : list goroutine;
  fs : FS
}.

#[export] Instance eta_Raft : Eta Raft := fun r =>
  mkRaft (nodeId r) (peers r) (state r) (term r) (votes r) (votedFor r) (electionReset r)
    (log r) (commitIndex r) (lastApplied r) (nextIndex r) (matchIndex r) (applyCh r)
    (waiters r) (leader r) (meta r) (logStore r) (logBaseIndex r) (snapshotStore r)
    (snapshot r) (snapshotter r) (restorer r) (pipelineSemaphores r) (removedFromCluster r)
    (shutdown r) (chanCount r) (closedChans r) (goroutines r) (fs r).

Definition spawn (g : goroutine) (r : Raft) : Raft :=
  r <| goroutines := goroutines r ++ [g] |>.

(** [_ = r.meta.Save(r.term, r.votedFor, r.peers)]: the error is dropped. *)
Definition saveMeta (r : Raft) : Raft :=
  r <| fs := (MetaStore_Save (meta r) (term r) (votedFor r) (peers r) (fs r)).2 |>.

(** [err := r.logStore.SaveAll(r.log)] *)
Definition saveLog (r : Raft) : option io_error * Raft :=
  let '(err, fs') := LogStore_SaveAll (logStore r) (log r) (fs r) in
  (err, r <| fs := fs' |>).

(** Reading a missing key of a Go map gives the zero value. *)
Definition map_get (m : gmap NodeID Z) (k : NodeID) : Z := default 0 (m !! k).

(** ** Log index helpers *)

Definition lastLogIndex (r : Raft) : Z :=
  match last (log r) with
  | None => logBaseIndex r
  | Some e => Index e
  end.

Definition lastLogTerm (r : Raft) : Z :=
  match last (log r) with
  | None => 0
  | Some e => Term e
  end.

Definition entryAt (r : Raft) (idx : Z) : option LogEntry :=
  match log r with
  | [] => None
  | _ =>
    if idx <? logBaseIndex r then None
    else
      let offset := idx - logBaseIndex r in
      if (offset <? 0) || (Z.of_nat (length (log r)) <=? offset) then None
      else log r !! Z.to_nat offset
  end.

Definition sliceFrom (r : Raft) (from : Z) : list LogEntry :=
  let from := if from <? logBaseIndex r then logBaseIndex r else from in
  let start := from - logBaseIndex r in
  if (start <? 0) || (Z.of_nat (length (log r)) <=? start) then []
  else drop (Z.to_nat start) (log r).

(** ** Queries *)

Definition IsLeader (r : Raft) : bool :=
  bool_decide (state r = Leader) && negb (removedFromCluster r).

Definition LeaderID (r : Raft) : NodeID := leader r.

(** Four seconds, in nanoseconds. *)
Definition maxLeaseAge : Z := 4 * 1000000000.

Definition HasReadLease (now : Z) (r : Raft) : bool :=
  if removedFromCluster r then false
  else if bool_decide (state r = Leader) then true
  else if bool_decide (state r = Follower) && negb (bool_decide (leader r = "")) then
    now - electionReset r <? maxLeaseAge
  else false.

Definition isKnownNode (r : Raft) (n : NodeID) : bool :=
  if bool_decide (n = "") then false
  else if bool_decide (n = nodeId r) then true
  else bool_decide (n ∈ peers r).

Record Status := mkStatus {
  st_ID : string; st_State : string; st_Term : Z; st_LeaderID : string;
  st_CommitIndex : Z; st_LastApplied : Z; st_LogLength : Z }.

Definition Raft_Status (r : Raft) : Status :=
  mkStatus (nodeId r) (RaftState_String (state r)) (term r) (leader r)
    (commitIndex r) (lastApplied r) (Z.of_nat (length (log r))).

Definition GetPeers (r : Raft) : list NodeID := peers r.

Definition SetSnapshotter (r : Raft) : Raft := r <| snapshotter := true |>.
Definition SetSnapshotRestorer (r : Raft) : Raft := r <| restorer := true |>.

(** [total/2 + 1] where [total = len(r.peers) + 1] *)
Definition majority (r : Raft) : Z := (Z.of_nat (length (peers r)) + 1) / 2 + 1.

(** ** The log invariant

    The log is a non-empty run of consecutive indexes whose first entry (a
    placeholder once a snapshot exists) sits at [logBaseIndex]. *)

Definition contiguous (base : Z) (l : list LogEntry) : Prop :=
  forall i e, l !! i = Some e -> Index e = base + Z.of_nat i.

Definition log_wf (r : Raft) : Prop :=
  log r <> [] /\ contiguous (logBaseIndex r) (log r).

Lemma contiguous_nil b : contiguous b [].
Proof. intros i e. by rewrite lookup_nil. Qed.

Lemma contiguous_cons b e l :
  contiguous b (e :: l) <-> Index e = b /\ contiguous (b + 1) l.
Proof.
  split.
  - intros H. split.
    + rewrite (H 0%nat e eq_refl). lia.
    + intros i x Hx. rewrite (H (S i) x Hx). lia.
  - intros [He Hl] [|i] x Hx; simpl in Hx.
    + injection Hx as <-. lia.
    + rewrite (Hl i x Hx). lia.
Qed.

Lemma contiguous_app b l k :
  contiguous b (l ++ k) <-> contiguous b l /\ contiguous (b + Z.of_nat (length l)) k.
Proof.
  revert b. induction l as [|e l IH]; intros b; cbn [app length].
  - replace (b + Z.of_nat 0) with b by lia. pose proof (contiguous_nil b). tauto.
  - rewrite !contiguous_cons, IH.
    replace (b + 1 + Z.of_nat (length l)) with (b + Z.of_nat (S (length l))) by lia. tauto.
Qed.

Lemma contiguous_take b n l : contiguous b l -> contiguous b (take n l).
Proof. intros H i e [_ He]%take_lookup_Some_inv. eauto. Qed.

Lemma contiguous_last b l e :
  contiguous b l -> last l = Some e -> Index e = b + Z.of_nat (length l) - 1.
Proof.
  intros H Hl. rewrite last_lookup_length in Hl. pose proof (lookup_lt_Some _ _ _ Hl).
  rewrite (H _ _ Hl). lia.
Qed.

Lemma lastLogIndex_wf r :
  log_wf r -> lastLogIndex r = logBaseIndex r + Z.of_nat (length (log r)) - 1.
Proof.
  intros [Hne Hc]. unfold lastLogIndex. destruct (last (log r)) as [e|] eqn:E.
  - by rewrite (contiguous_last _ _ _ Hc E).
  - by apply last_None in E.
Qed.

Lemma entryAt_lookup r idx :
  logBaseIndex r <= idx -> entryAt r idx = log r !! Z.to_nat (idx - logBaseIndex r).
Proof.
  intros H. unfold entryAt. destruct (log r) as [|e l] eqn:E; [by rewrite lookup_nil|].
  rewrite <- E. rewrite (proj2 (Z.ltb_ge _ _)) by lia.
  destruct (_ || _) eqn:Ho; [|done].
  symmetry. apply lookup_ge_None. lia.
Qed.

Lemma entryAt_below r idx : idx < logBaseIndex r -> entryAt r idx = None.
Proof.
  intros H. unfold entryAt. destruct (log r); [done|].
  by rewrite (proj2 (Z.ltb_lt _ _)).
Qed.

Lemma entryAt_Some r idx e :
  entryAt r idx = Some e ->
  logBaseIndex r <= idx < logBaseIndex r + Z.of_nat (length (log r)) /\
  log r !! Z.to_nat (idx - logBaseIndex r) = Some e.
Proof.
  intros H. destruct (Z_lt_le_dec idx (logBaseIndex r)).
  - by rewrite entryAt_below in H.
  - rewrite entryAt_lookup in H by done. split; [|done].
    apply lookup_lt_Some in H. lia.
Qed.

(** [entryAt] and the log agree on the numbering: an entry found at an
    absolute index carries that index. *)
Lemma entryAt_Index r idx e :
  log_wf r -> entryAt r idx = Some e -> Index e = idx.
Proof. intros [_ Hc] [Hb He]%entryAt_Some. rewrite (Hc _ _ He). lia. Qed.

Lemma entryAt_is_Some r idx :
  log_wf r -> logBaseIndex r <= idx <= lastLogIndex r -> is_Some (entryAt r idx).
Proof.
  intros Hwf Hb. rewrite lastLogIndex_wf in Hb by done.
  rewrite entryAt_lookup by lia. apply lookup_lt_is_Some. lia.
Qed.

Lemma lastLogIndex_ge r : log_wf r -> logBaseIndex r <= lastLogIndex r.
Proof.
  intros Hwf. rewrite lastLogIndex_wf by done. destruct Hwf as [Hne _].
  destruct (log r); [done|]. simpl. lia.
Qed.

#[export] Hint Resolve contiguous_nil contiguous_take : mimori.

(** Appending the entry after the last one keeps the log well formed. *)
Lemma log_wf_snoc r t d :
  log_wf r -> log_wf (r <| log := log r ++ [mkLogEntry (lastLogIndex r + 1) t d] |>).
Proof.
  intros Hwf. pose proof (lastLogIndex_wf r Hwf) as Hl. destruct Hwf as [Hne Hc].
  split; simpl; [by destruct (log r)|].
  rewrite contiguous_app, contiguous_cons. simpl.
  repeat split; auto with mimori. lia.
Qed.

Lemma foldl_insert_get (ps : list NodeID) v (m : gmap NodeID Z) p :
  (p ∈ ps \/ map_get m p = v) -> map_get (foldl (fun m q => <[q := v]> m) m ps) p = v.
Proof.
  revert m. induction ps as [|q ps IH]; intros m Hp; cbn [foldl].
  { destruct Hp as [[]%not_elem_of_nil|]; done. }
  apply IH. unfold map_get in *. destruct (decide (p = q)) as [->|Hpq].
  - right. by rewrite lookup_insert_eq.
  - destruct Hp as [[->|Hp]%elem_of_cons|Hp]; [done|by left|right]. by rewrite lookup_insert_ne.
Qed.

Lemma foldl_insert_is_Some (ps : list NodeID) v (m : gmap NodeID Z) p :
  p ∈ ps \/ is_Some (m !! p) -> is_Some (foldl (fun m q => <[q := v]> m) m ps !! p).
Proof.
  revert m. induction ps as [|q ps IH]; intros m Hp; cbn [foldl].
  { destruct Hp as [[]%not_elem_of_nil|]; done. }
  apply IH. destruct Hp as [[->|Hp]%elem_of_cons|Hp]; [right; by rewrite lookup_insert_eq|by left|right].
  rewrite lookup_insert_is_Some. destruct (decide (q = p)); auto.
Qed.

(** [sliceFrom] is the part of the log from an absolute index on. *)
Lemma sliceFrom_spec r from i :
  log_wf r -> logBaseIndex r <= from ->
  sliceFrom r from !! i = entryAt r (from + Z.of_nat i).
Proof.
  intros Hwf Hf. unfold sliceFrom. rewrite (proj2 (Z.ltb_ge from _)) by done.
  rewrite entryAt_lookup by lia. destruct (_ || _) eqn:Ho.
  - rewrite lookup_nil. symmetry. apply lookup_ge_None. lia.
  - rewrite lookup_drop. f_equal. lia.
Qed.

(** A node with the given name, peers, role, term and log, at index 0 and
    with an empty disk: the starting point of the concrete examples. *)
Definition example_node (id : NodeID) (ps : list NodeID) (st : RaftState) (t : Z)
    (l : list LogEntry) : Raft :=
  mkRaft id ps st t 0 "" 0 l 0 0 ∅ ∅ [] ∅ "" "m" "l" 0 "s" None false false ∅ false false 0 ∅ []
    (mkFS ∅ []).

(** The log invariant is decidable. *)
Fixpoint contiguousb (base : Z) (l : list LogEntry) : bool :=
  match l with
  | [] => true
  | e :: l' => (Index e =? base) && contiguousb (base + 1) l'
  end.

Lemma contiguousb_spec base l : contiguousb base l = true <-> contiguous base l.
Proof.
  revert base. induction l as [|e l IH]; intros base; cbn [contiguousb].
  - pose proof (contiguous_nil base). tauto.
  - by rewrite contiguous_cons, andb_true_iff, IH, Z.eqb_eq.
Qed.

#[export] Instance contiguous_dec base l : Decision (contiguous base l).
Proof.
  refine (cast_if (decide (contiguousb base l = true))); by rewrite <- contiguousb_spec.
Defined.

#[export] Instance log_wf_dec r : Decision (log_wf r).
Proof. unfold log_wf. apply _. Defined.

(** Decide a closed decidable proposition by evaluation. *)
Ltac by_decide := apply (bool_decide_unpack _); vm_compute; exact I.
