(* ===== verification/Metrics.v ===== *)
(** * Gauges

    internal/raft/metrics.go: [updateMetrics], run by [runMetricsUpdater].  A
    gauge is named by its metric and its labels; setting it replaces its value.
    Gauges are floating-point numbers that hold the integers set exactly up to
    2^53; they are integers here. *)
From stdpp Require Import gmap strings list.
From Stdlib Require Import ZArith Lia.
From S2P Require Import Prelude GoStrings Types Stores Commands RaftNode.

Local Open Scope Z_scope.

Abbreviation gauges := (gmap (string * list string) Z).

Definition set_gauge (name : string) (labels : list string) (v : Z) (g : gauges) : gauges :=
  <[(name, labels) := v]> g.

(** The lag of every tracked peer; the order of the map does not matter. *)
Definition set_lags (lag : Z -> Z) (r : Raft) (g : gauges) : gauges :=
  map_fold (fun peer m g => set_gauge "raft_replication_lag" [nodeId r; peer] (lag m) g) g (matchIndex r).

Definition updateMetrics (r : Raft) (g : gauges) : gauges :=
  let id := nodeId r in
  let g := set_gauge "raft_node_is_leader" [id] (if bool_decide (state r = Leader) then 1 else 0) g in
  let g := set_gauge "raft_term" [id] (term r) g in
  let g := set_gauge "raft_commit_index" [id] (commitIndex r) g in
  let g := set_gauge "raft_last_applied_index" [id] (lastApplied r) g in
  let g := set_gauge "raft_log_length" [id] (Z.of_nat (length (log r))) g in
  let g := set_gauge "raft_log_base_index" [id] (logBaseIndex r) g in
  let g := set_gauge "raft_snapshot_size_bytes" [id]
             match snapshot r with
             | Some s => Z.of_nat (String.length (SnapData s))
             | None => 0
             end g in
  if bool_decide (state r = Leader) then set_lags (fun m => commitIndex r - m) r g
  else set_lags (fun _ => 0) r g.

(** ** What the gauges show *)

Lemma set_lags_lookup lag r g name labels :
  set_lags lag r g !! (name, labels) =
  match labels with
  | [a; peer] =>
    if bool_decide (name = "raft_replication_lag" /\ a = nodeId r) then
      match matchIndex r !! peer with Some m => Some (lag m) | None => g !! (name, labels) end
    else g !! (name, labels)
  | _ => g !! (name, labels)
  end.
Proof.
  unfold set_lags.
  apply (map_fold_weak_ind (fun g' (M : gmap NodeID Z) =>
    g' !! (name, labels) =
    match labels with
    | [a; peer] =>
      if bool_decide (name = "raft_replication_lag" /\ a = nodeId r) then
        match M !! peer with Some m => Some (lag m) | None => g !! (name, labels) end
      else g !! (name, labels)
    | _ => g !! (name, labels)
    end)).
  - destruct labels as [|a [|b [|c l]]]; try done. rewrite lookup_empty. by case_bool_decide.
  - intros peer m M g' Hn IH. unfold set_gauge.
    destruct (decide ((name, labels) = ("raft_replication_lag", [nodeId r; peer]))) as [E|Hne].
    + injection E as -> ->. rewrite lookup_insert_eq, bool_decide_eq_true_2 by done.
      by rewrite lookup_insert_eq.
    + rewrite lookup_insert_ne by congruence. rewrite IH.
      destruct labels as [|a [|b [|c l]]]; try done. case_bool_decide as Hb; [|done].
      destruct Hb as [-> ->]. rewrite lookup_insert_ne; [done|]. congruence.
Qed.

(** The gauges show the node.  After an update the gauges of this node are
    its role, term, indexes, log length and snapshot size; the lag gauge of
    every tracked peer is what the leader's peer still misses of the committed
    entries, and 0 on a node that does not lead; no gauge of another node or of
    an untracked peer changes. *)
Theorem updateMetrics_spec r g :
  let g' := updateMetrics r g in
  g' !! ("raft_node_is_leader", [nodeId r]) = Some (if bool_decide (state r = Leader) then 1 else 0) /\
  g' !! ("raft_term", [nodeId r]) = Some (term r) /\
  g' !! ("raft_commit_index", [nodeId r]) = Some (commitIndex r) /\
  g' !! ("raft_last_applied_index", [nodeId r]) = Some (lastApplied r) /\
  g' !! ("raft_log_length", [nodeId r]) = Some (Z.of_nat (length (log r))) /\
  (forall peer, g' !! ("raft_replication_lag", [nodeId r; peer]) =
     match matchIndex r !! peer with
     | Some m => Some (if bool_decide (state r = Leader) then commitIndex r - m else 0)
     | None => g !! ("raft_replication_lag", [nodeId r; peer])
     end) /\
  (forall name other rest, other <> nodeId r -> g' !! (name, other :: rest) = g !! (name, other :: rest)).
Proof.
  intros g'. unfold g', updateMetrics, set_gauge.
  split_and!;
    try (case_bool_decide; rewrite set_lags_lookup; rewrite ?lookup_insert_ne by congruence;
         by rewrite lookup_insert_eq).
  - intros peer. case_bool_decide; rewrite set_lags_lookup, bool_decide_eq_true_2 by done;
      destruct (matchIndex r !! peer); try done; by rewrite !lookup_insert_ne by done.
  - intros name other rest Hne.
    case_bool_decide; rewrite set_lags_lookup; destruct rest as [|peer [|c l]];
      rewrite ?bool_decide_eq_false_2 by naive_solver; rewrite !lookup_insert_ne by congruence; done.
Qed.
