(* ===== verification/Membership.v ===== *)
(** * Applying membership changes: the configuration section of raft.go

    [applyConfigChangeLocked], [handleConfigChangeIfNeeded] and
    [replayConfigChanges], with the invariant of the peer list (no duplicates,
    never the node itself, replication state for every peer) and the abstract
    view of the configuration as a set. *)
From stdpp Require Import gmap strings list.
From Stdlib Require Import ZArith Lia.
From S2P Require Import Prelude Types Stores Commands RaftNode.

Local Open Scope Z_scope.

Definition applyConfigChangeLocked (now : Z) (isAdd : bool) (nodeID : NodeID) (r : Raft) : Raft :=
  if bool_decide (nodeID = nodeId r) then
    if isAdd then r
    else
      saveMeta
        (r <| removedFromCluster := true |>
           <| state := Follower |>
           <| leader := "" |>
           <| votedFor := "" |>
           <| votes := 0 |>
           <| electionReset := now |>
           <| peers := [] |>
           <| nextIndex := ∅ |>
           <| matchIndex := ∅ |>)
  else
    let r :=
      if isAdd then
        if bool_decide (nodeID ∈ peers r) then r
        else
          r <| peers := peers r ++ [nodeID] |>
            <| nextIndex := <[nodeID := lastLogIndex r + 1]> (nextIndex r) |>
            <| matchIndex := <[nodeID := 0]> (matchIndex r) |>
      else
        r <| peers := filter (fun p => p <> nodeID) (peers r) |>
          <| nextIndex := delete nodeID (nextIndex r) |>
          <| matchIndex := delete nodeID (matchIndex r) |>
          <| pipelineSemaphores := delete nodeID (pipelineSemaphores r) |> in
    saveMeta r.

Definition handleConfigChangeIfNeeded (now : Z) (entry : LogEntry) (r : Raft) : Raft :=
  match decodeConfigCmd (Data entry) with
  | None => r
  | Some cmd =>
    if cfg_Op cmd =? CmdConfigChange then
      applyConfigChangeLocked now (bool_decide (cfg_Type cmd = "add")) (cfg_NodeID cmd) r
    else r
  end.

(** One iteration of the loop of [replayConfigChanges]. *)
Definition replayConfigChange_at (now : Z) (r : Raft) (idx : Z) : Raft :=
  match entryAt r idx with
  | None => r
  | Some entry =>
    match decodeConfigCmd (Data entry) with
    | None => r
    | Some cmd =>
      if cfg_Op cmd =? CmdConfigChange then
        applyConfigChangeLocked now (bool_decide (cfg_Type cmd = "add")) (cfg_NodeID cmd) r
      else r
    end
  end.

Definition replayConfigChanges (now : Z) (r : Raft) : Raft :=
  let startIdx := if logBaseIndex r + 1 <? 1 then 1 else logBaseIndex r + 1 in
  foldl (replayConfigChange_at now) r
    (seqZ startIdx (lastLogIndex r - startIdx + 1)).

(** ** What a membership change leaves alone *)

Lemma saveMeta_fields r :
  nodeId (saveMeta r) = nodeId r /\ peers (saveMeta r) = peers r /\
  state (saveMeta r) = state r /\ term (saveMeta r) = term r /\
  votes (saveMeta r) = votes r /\ votedFor (saveMeta r) = votedFor r /\
  log (saveMeta r) = log r /\ commitIndex (saveMeta r) = commitIndex r /\
  lastApplied (saveMeta r) = lastApplied r /\ logBaseIndex (saveMeta r) = logBaseIndex r.
Proof. repeat split. Qed.

Lemma applyConfigChange_log now add n r :
  log (applyConfigChangeLocked now add n r) = log r /\
  logBaseIndex (applyConfigChangeLocked now add n r) = logBaseIndex r /\
  term (applyConfigChangeLocked now add n r) = term r /\
  nodeId (applyConfigChangeLocked now add n r) = nodeId r /\
  commitIndex (applyConfigChangeLocked now add n r) = commitIndex r /\
  lastApplied (applyConfigChangeLocked now add n r) = lastApplied r.
Proof. unfold applyConfigChangeLocked. split_ifs; repeat split. Qed.

Lemma handleConfigChange_log now e r :
  log (handleConfigChangeIfNeeded now e r) = log r /\
  logBaseIndex (handleConfigChangeIfNeeded now e r) = logBaseIndex r /\
  term (handleConfigChangeIfNeeded now e r) = term r /\
  nodeId (handleConfigChangeIfNeeded now e r) = nodeId r /\
  commitIndex (handleConfigChangeIfNeeded now e r) = commitIndex r /\
  lastApplied (handleConfigChangeIfNeeded now e r) = lastApplied r.
Proof.
  unfold handleConfigChangeIfNeeded. case_match; [|done].
  case_match; [apply applyConfigChange_log|done].
Qed.

(** ** The invariant of the configuration *)

Definition peers_wf (r : Raft) : Prop := NoDup (peers r) /\ nodeId r ∉ peers r.

(** The leader's bookkeeping has an entry for every peer. *)
Definition peers_tracked (r : Raft) : Prop :=
  forall p, p ∈ peers r -> is_Some (nextIndex r !! p) /\ is_Some (matchIndex r !! p).

(** A removed node is a follower. *)
Definition removed_follower (r : Raft) : Prop :=
  removedFromCluster r = true -> state r = Follower.

Definition config_inv (r : Raft) : Prop := peers_wf r /\ peers_tracked r /\ removed_follower r.

Lemma filter_ne_NoDup (n : NodeID) l : NoDup l -> NoDup (filter (fun p => p <> n) l).
Proof. apply NoDup_filter. Qed.

Lemma config_inv_saveMeta r : config_inv r -> config_inv (saveMeta r).
Proof. done. Qed.

Lemma peers_wf_apply now add n r : peers_wf r -> peers_wf (applyConfigChangeLocked now add n r).
Proof.
  intros (Hnd & Hself). unfold applyConfigChangeLocked.
  destruct (bool_decide (n = nodeId r)) eqn:Hn; boolify.
  { destruct add; [done|]. split; simpl; [apply NoDup_nil_2|apply not_elem_of_nil]. }
  destruct add.
  - destruct (bool_decide (n ∈ peers r)) eqn:Hin; boolify; [done|]. split; simpl; [|set_solver].
    apply NoDup_app. split_and!; [done|set_solver|apply NoDup_singleton].
  - split; simpl; [by apply filter_ne_NoDup|]. rewrite list_elem_of_filter. tauto.
Qed.

Lemma removed_follower_apply now add n r :
  removed_follower r -> removed_follower (applyConfigChangeLocked now add n r).
Proof. unfold applyConfigChangeLocked, removed_follower. split_ifs; done. Qed.

Lemma config_inv_apply now add n r :
  config_inv r -> config_inv (applyConfigChangeLocked now add n r).
Proof.
  intros (Hwf & Ht & Hr). split_and!; [by apply peers_wf_apply| |by apply removed_follower_apply].
  unfold applyConfigChangeLocked. destruct (bool_decide (n = nodeId r)) eqn:Hn; boolify.
  { destruct add; [done|]. intros p Hp. simpl in Hp. by apply not_elem_of_nil in Hp. }
  destruct add.
  - destruct (bool_decide (n ∈ peers r)) eqn:Hin; boolify; [done|].
    intros p Hp. simpl in *. destruct (decide (p = n)) as [->|Hpn]; [by simplify_map_eq|].
    rewrite !lookup_insert_ne by done. apply Ht. set_solver.
  - intros p Hp. simpl in *. rewrite list_elem_of_filter in Hp. destruct Hp as [Hpn Hp].
    rewrite !lookup_delete_ne by done. by apply Ht.
Qed.

(** Replaying the log keeps the peers distinct and other than the node. *)
Lemma replay_wf now r :
  peers_wf r -> removed_follower r ->
  peers_wf (replayConfigChanges now r) /\ removed_follower (replayConfigChanges now r).
Proof.
  intros H1 H2. unfold replayConfigChanges. set (l := seqZ _ _). clearbody l. revert r H1 H2.
  induction l as [|idx l IH]; intros r H1 H2; [done|]. simpl. apply IH; unfold replayConfigChange_at;
    repeat case_match; eauto using peers_wf_apply, removed_follower_apply.
Qed.

Lemma config_inv_handle now entry r :
  config_inv r -> config_inv (handleConfigChangeIfNeeded now entry r).
Proof.
  intros H. unfold handleConfigChangeIfNeeded. case_match; [|done].
  case_match; [by apply config_inv_apply|done].
Qed.

(** ** The configuration as a set

    [members] is the set of nodes a configuration consists of; a committed
    change acts on it as a set operation. *)

Definition members (r : Raft) : gset NodeID :=
  (if removedFromCluster r then ∅ else {[nodeId r]}) ∪ list_to_set (peers r).

Definition members_after (self : NodeID) (isAdd : bool) (n : NodeID) (c : gset NodeID)
    : gset NodeID :=
  if bool_decide (n = self) then if isAdd then c else ∅
  else if isAdd then c ∪ {[n]} else c ∖ {[n]}.

Lemma members_apply now add n r :
  members (applyConfigChangeLocked now add n r) = members_after (nodeId r) add n (members r).
Proof.
  unfold applyConfigChangeLocked, members_after, members.
  destruct (bool_decide (n = nodeId r)) eqn:Hn; boolify.
  { destruct add; [done|]. simpl. set_solver. }
  destruct add; simpl.
  - destruct (bool_decide (n ∈ peers r)) eqn:Hin; boolify; simpl.
    + destruct (removedFromCluster r); set_solver.
    + rewrite list_to_set_app_L. destruct (removedFromCluster r); set_solver.
  - apply set_eq. intros x. destruct (removedFromCluster r);
      rewrite ?elem_of_difference, ?elem_of_union, ?elem_of_list_to_set,
        ?list_elem_of_filter, ?elem_of_singleton; set_solver.
Qed.

(** The configuration changes written in a list of entries. *)
Definition config_changes (l : list LogEntry) : list (bool * NodeID) :=
  omap (fun e =>
    match decodeConfigCmd (Data e) with
    | Some cmd =>
      if cfg_Op cmd =? CmdConfigChange
      then Some (bool_decide (cfg_Type cmd = "add"), cfg_NodeID cmd) else None
    | None => None
    end) l.

Definition handle_all (now : Z) (r : Raft) (l : list LogEntry) : Raft :=
  foldl (fun r e => handleConfigChangeIfNeeded now e r) r l.

Lemma members_handle_all now l r :
  members (handle_all now r l) =
  foldl (fun c '(add, n) => members_after (nodeId r) add n c) (members r) (config_changes l).
Proof.
  revert r. induction l as [|e l IH]; intros r; [done|].
  unfold handle_all in *. cbn [foldl]. rewrite IH.
  destruct (handleConfigChange_log now e r) as (_ & _ & _ & -> & _).
  unfold config_changes. cbn [omap list_omap].
  unfold handleConfigChangeIfNeeded. destruct (decodeConfigCmd (Data e)); [|done].
  case_match; [|done]. cbn [foldl]. by rewrite members_apply.
Qed.

Lemma replay_loop now r k :
  log_wf r ->
  foldl (replayConfigChange_at now) r
    (seqZ (logBaseIndex r + Z.of_nat k) (Z.of_nat (length (log r)) - Z.of_nat k))
  = handle_all now r (drop k (log r)).
Proof.
  intros Hwf. remember (drop k (log r)) as l eqn:Hl. revert k r Hwf Hl.
  induction l as [|e l IH]; intros k r Hwf Hl.
  - symmetry in Hl. apply skipn_all_iff in Hl. rewrite seqZ_nil by lia. done.
  - assert (log r !! k = Some e) as Hk.
    { rewrite <- (Nat.add_0_r k), <- lookup_drop, <- Hl. done. }
    pose proof (lookup_lt_Some _ _ _ Hk) as Hlt.
    rewrite seqZ_cons by lia. cbn [foldl]. unfold handle_all. cbn [foldl].
    replace (replayConfigChange_at now r (logBaseIndex r + Z.of_nat k))
      with (handleConfigChangeIfNeeded now e r).
    2: { unfold replayConfigChange_at. rewrite entryAt_lookup by lia.
         replace (Z.to_nat _) with k by lia. by rewrite Hk. }
    destruct (handleConfigChange_log now e r) as (Hlog & Hb & _).
    specialize (IH (S k) (handleConfigChangeIfNeeded now e r)).
    rewrite Hlog, Hb in IH. fold (handle_all now (handleConfigChangeIfNeeded now e r) l).
    rewrite <- IH.
    + f_equal. f_equal; lia.
    + split; rewrite Hlog, ?Hb; apply Hwf.
    + assert (drop 1 (drop k (log r)) = l) as <- by (by rewrite <- Hl).
      rewrite drop_drop. f_equal. lia.
Qed.

Lemma replay_handle_all now r :
  log_wf r -> 0 <= logBaseIndex r ->
  replayConfigChanges now r = handle_all now r (tail (log r)).
Proof.
  intros Hwf Hb. unfold replayConfigChanges. rewrite (proj2 (Z.ltb_ge _ _)) by lia.
  rewrite lastLogIndex_wf by done.
  replace (tail (log r)) with (drop 1 (log r)) by (by destruct (log r)).
  rewrite <- replay_loop by done. f_equal. f_equal; lia.
Qed.

(** The configuration after a list of changes. *)
Definition config_after (self : NodeID) (c : gset NodeID) (l : list (bool * NodeID)) : gset NodeID :=
  foldl (fun c '(add, n) => members_after self add n c) c l.

(** C34: rebuilding the configuration at start-up is the same as applying the
    entries of the log one by one, and as a set the result is the stored
    configuration modified by the logged additions and removals in order.
    (The whole log counts, committed or not.) *)
Theorem replay_is_apply now r :
  log_wf r -> 0 <= logBaseIndex r ->
  replayConfigChanges now r = handle_all now r (tail (log r)) /\
  members (replayConfigChanges now r) =
  config_after (nodeId r) (members r) (config_changes (tail (log r))).
Proof.
  intros Hwf Hb. unfold config_after. rewrite <- (members_handle_all now).
  by rewrite replay_handle_all.
Qed.

(** Whether a node is a member after a change depends on the change or on
    whether it was one before, never on both. *)
Definition decides (self x : NodeID) (ch : bool * NodeID) : option bool :=
  let '(add, n) := ch in
  if decide (n = self) then if add then None else Some false
  else if decide (n = x) then Some add else None.

Lemma members_after_decides self add n c x :
  bool_decide (x ∈ members_after self add n c)
  = default (bool_decide (x ∈ c)) (decides self x (add, n)).
Proof.
  unfold members_after, decides. destruct (decide (n = self)) as [->|Hs].
  - rewrite (bool_decide_eq_true_2 (self = self)) by done. destruct add; simpl; [done|].
    by rewrite bool_decide_eq_false_2 by set_solver.
  - rewrite (bool_decide_eq_false_2 (n = self)) by done.
    destruct (decide (n = x)) as [->|Hx]; destruct add; simpl.
    + by rewrite bool_decide_eq_true_2 by set_solver.
    + by rewrite bool_decide_eq_false_2 by set_solver.
    + apply bool_decide_ext. set_solver.
    + apply bool_decide_ext. set_solver.
Qed.

(** The last change that decides about a node decides it. *)
Fixpoint verdict (self x : NodeID) (l : list (bool * NodeID)) (b : bool) : bool :=
  match l with
  | [] => b
  | ch :: l' => verdict self x l' (default b (decides self x ch))
  end.

Lemma config_after_verdict self x l c :
  bool_decide (x ∈ config_after self c l) = verdict self x l (bool_decide (x ∈ c)).
Proof.
  revert c. induction l as [|[add n] l IH]; intros c; [done|].
  cbn [config_after foldl verdict]. by rewrite <- members_after_decides, <- IH.
Qed.

Lemma verdict_app self x l k b : verdict self x (l ++ k) b = verdict self x k (verdict self x l b).
Proof. revert b. by induction l as [|ch l IH]; intros b; [|apply IH]. Qed.

Lemma verdict_const self x l :
  (forall b, verdict self x l b = b) \/ (exists v, forall b, verdict self x l b = v).
Proof.
  induction l as [|ch l IH]; [by left|]. cbn [verdict].
  destruct (decides self x ch) as [v|]; simpl; [|done].
  right. by exists (verdict self x l v).
Qed.

(** Applying changes again that were already applied, and then the rest, is
    the same as applying all of them once. *)
Lemma config_after_replay self c k l :
  config_after self (config_after self c (take k l)) l = config_after self c l.
Proof.
  apply set_eq. intros x.
  rewrite <- (bool_decide_eq_true (x ∈ config_after _ (config_after _ _ _) _)).
  rewrite <- (bool_decide_eq_true (x ∈ config_after self c l)).
  rewrite !config_after_verdict. rewrite <- (take_drop k l) at 1 3. rewrite !verdict_app.
  by destruct (verdict_const self x (take k l)) as [H|[v H]]; rewrite !H.
Qed.

(** A three-node configuration from which the node removes ["n3"]. *)
Definition example_member : Raft :=
  (example_node "n1" ["n2"; "n3"] Follower 2
    [mkLogEntry 0 0 ""; mkLogEntry 1 1 (encodeConfigCmd ConfigRemoveNode "n3");
     mkLogEntry 2 2 (encodeConfigCmd ConfigAddNode "n4")])
    <| nextIndex := {["n2" := 3; "n3" := 3]} |> <| matchIndex := {["n2" := 0; "n3" := 0]} |>.

Lemma example_member_inv : config_inv example_member.
Proof.
  split_and!; [split|..].
  - by_decide.
  - by_decide.
  - intros p Hp. simpl in Hp. apply elem_of_cons in Hp as [->|Hp]; [split; by eexists|].
    apply list_elem_of_singleton in Hp as ->. split; by eexists.
  - done.
Qed.

Lemma replay_is_apply_witness :
  log_wf example_member /\ 0 <= logBaseIndex example_member /\
  peers (replayConfigChanges 7 example_member) = ["n2"; "n4"] /\
  replayConfigChanges 7 example_member
    = handle_all 7 example_member (tail (log example_member)) /\
  members (replayConfigChanges 7 example_member) =
  config_after (nodeId example_member) (members example_member)
    (config_changes (tail (log example_member))).
Proof.
  assert (log_wf example_member) as H by by_decide.
  split; [exact H|]. split; [done|]. split; [vm_compute; reflexivity|].
  exact (replay_is_apply 7 example_member H ltac:(done)).
Defined.
