(* ===== verification/Election.v ===== *)
(** * Leader election

    raft.go: [startElectionLocked], [becomeLeaderLocked], [handleVoteResponse],
    the election timer; rpc.go: [RequestVote], [TimeoutNow]; rpc_client.go:
    the requests of [broadcastRequestVote].  The lemmas describe, branch by
    branch, what each handler does to the term, the vote and the role. *)
From stdpp Require Import gmap strings list.
From Stdlib Require Import ZArith Lia.
From S2P Require Import Prelude Types Stores RaftNode.

Local Open Scope Z_scope.

(** Milliseconds as nanoseconds. *)
Definition ms (n : Z) : Z := n * 1000000.

(** [time.Duration(1500+rand.Intn(1500)) * time.Millisecond], given the random
    number. *)
Definition randomElectionTimeout (rnd : Z) : Z := ms (1500 + rnd mod 1500).

Definition becomeLeaderLocked (r : Raft) : Raft :=
  let r := r <| state := Leader |> <| leader := nodeId r |> in
  let lastIdx := lastLogIndex r + 1 in
  let r :=
    r <| nextIndex := foldl (fun m p => <[p := lastIdx]> m) (nextIndex r) (peers r) |>
      <| matchIndex := foldl (fun m p => <[p := logBaseIndex r]> m) (matchIndex r) (peers r) |> in
  spawn GoHeartbeatLoop r.

Definition startElectionLocked (now : Z) (r : Raft) : Raft :=
  if removedFromCluster r then r
  else
    let r := r <| state := Candidate |>
               <| term := term r + 1 |>
               <| votedFor := nodeId r |> in
    let r := saveMeta r in
    let r := r <| electionReset := now |> <| votes := 1 |> in
    if majority r <=? votes r then becomeLeaderLocked r
    else spawn (GoBroadcastRequestVote (term r)) r.

Definition handleVoteResponse (resp : RequestVoteResponse) (r : Raft) : Raft :=
  if term r <? rvr_Term resp then
    r <| term := rvr_Term resp |> <| state := Follower |> <| votedFor := "" |>
  else if negb (bool_decide (state r = Candidate)) then r
  else if rvr_VoteGranted resp then
    let r := r <| votes := votes r + 1 |> in
    if majority r <=? votes r then becomeLeaderLocked r else r
  else r.

(** The body of the election timer's loop; the boolean says whether an
    election was started (and a new timeout drawn). *)
Definition electionTimer_tick (now timeout : Z) (r : Raft) : Raft * bool :=
  if removedFromCluster r then (r, false)
  else if bool_decide (state r = Leader) then (r, false)
  else if timeout <=? now - electionReset r then (startElectionLocked now r, true)
  else (r, false).

(** The request the broadcast goroutine of one peer sends: the term is the
    one of the election, the log position is read when it runs. *)
Definition voteRequest (electionTerm : Z) (r : Raft) : RequestVoteRequest :=
  mkRequestVoteRequest (nodeId r) (int32 electionTerm)
    (int32 (lastLogIndex r)) (int32 (lastLogTerm r)).

(** [broadcastRequestVote]: one request per peer, empty peer names skipped. *)
Definition broadcastRequestVote (electionTerm : Z) (r : Raft)
    : list (NodeID * RequestVoteRequest) :=
  map (fun p => (p, voteRequest electionTerm r)) (filter (fun p => p <> "") (peers r)).

(** The common step-down of the RPC handlers on a newer term. *)
Definition bumpTerm (t : Z) (r : Raft) : Raft :=
  if term r <? t then
    saveMeta (r <| term := t |> <| votedFor := "" |> <| state := Follower |>)
  else r.

(** The log comparison of the vote rule. *)
Definition upToDate (req : RequestVoteRequest) (r : Raft) : bool :=
  (lastLogTerm r <? rv_LastLogTerm req)
  || ((rv_LastLogTerm req =? lastLogTerm r) && (lastLogIndex r <=? rv_LastLogIndex req)).

Definition RequestVote (now : Z) (req : RequestVoteRequest) (r : Raft)
    : Raft * RequestVoteResponse :=
  if negb (isKnownNode r (rv_CandidateId req)) then
    (r, mkRequestVoteResponse (int32 (term r)) false)
  else
    let respTerm := int32 (term r) in
    if rv_Term req <? term r then (r, mkRequestVoteResponse respTerm false)
    else
      let r := bumpTerm (rv_Term req) r in
      if negb (upToDate req r) then (r, mkRequestVoteResponse respTerm false)
      else if bool_decide (votedFor r = "") || bool_decide (votedFor r = rv_CandidateId req) then
        let r := r <| votedFor := rv_CandidateId req |> <| electionReset := now |> in
        (saveMeta r, mkRequestVoteResponse respTerm true)
      else (r, mkRequestVoteResponse respTerm false).

Definition TimeoutNow (now : Z) (req : TimeoutNowRequest) (r : Raft)
    : Raft * TimeoutNowResponse :=
  let resp := mkTimeoutNowResponse (int32 (term r)) false in
  if negb (bool_decide (tn_LeaderId req = leader r)) then (r, resp)
  else if tn_Term req <? term r then (r, resp)
  else
    let r := startElectionLocked now (bumpTerm (tn_Term req) r) in
    (r, mkTimeoutNowResponse (int32 (term r)) true).

(** ** The election view of a node

    Terms, votes and roles change in three ways only: not at all, by stepping
    down to a newer term with a fresh vote, or by one of the election
    handlers. *)

Definition same_view (r r' : Raft) : Prop :=
  nodeId r' = nodeId r /\ peers r' = peers r /\ state r' = state r /\
  term r' = term r /\ votes r' = votes r /\ votedFor r' = votedFor r /\
  removedFromCluster r' = removedFromCluster r.

Definition stepped_down (r r' : Raft) : Prop :=
  nodeId r' = nodeId r /\ peers r' = peers r /\ state r' = Follower /\
  term r < term r' /\ votedFor r' = "" /\ removedFromCluster r' = removedFromCluster r.

Definition quiet_step (r r' : Raft) : Prop := same_view r r' \/ stepped_down r r'.

#[export] Instance same_view_refl : Reflexive same_view.
Proof. by intros r. Qed.

#[export] Instance same_view_trans : Transitive same_view.
Proof. unfold same_view. intros a b c. intuition congruence. Qed.

#[export] Instance quiet_step_refl : Reflexive quiet_step.
Proof. intros r. by left. Qed.

#[export] Instance quiet_step_trans : Transitive quiet_step.
Proof.
  unfold quiet_step, same_view, stepped_down. intros a b c [H|H] [K|K]; [left|right..];
    intuition (try congruence); lia.
Qed.

Lemma bumpTerm_quiet t r : quiet_step r (bumpTerm t r).
Proof.
  unfold bumpTerm. destruct (term r <? t) eqn:E; [|done].
  right. unfold stepped_down. simpl. repeat split. lia.
Qed.

Lemma bumpTerm_term t r : term (bumpTerm t r) = Z.max (term r) t.
Proof. unfold bumpTerm. destruct (term r <? t) eqn:E; simpl; lia. Qed.

Lemma bumpTerm_log t r :
  log (bumpTerm t r) = log r /\ logBaseIndex (bumpTerm t r) = logBaseIndex r /\
  commitIndex (bumpTerm t r) = commitIndex r /\ lastApplied (bumpTerm t r) = lastApplied r /\
  nextIndex (bumpTerm t r) = nextIndex r /\ matchIndex (bumpTerm t r) = matchIndex r.
Proof. unfold bumpTerm. by destruct (term r <? t). Qed.

#[export] Hint Resolve bumpTerm_quiet : mimori.

(** ** The vote rule *)

Lemma upToDate_log req r r' :
  log r' = log r -> logBaseIndex r' = logBaseIndex r -> upToDate req r' = upToDate req r.
Proof. intros H1 H2. unfold upToDate, lastLogTerm, lastLogIndex. by rewrite H1, H2. Qed.

Lemma upToDate_bump req t r : upToDate req (bumpTerm t r) = upToDate req r.
Proof. apply upToDate_log; apply bumpTerm_log. Qed.

Definition may_vote (req : RequestVoteRequest) (r : Raft) : Prop :=
  isKnownNode r (rv_CandidateId req) = true /\ term r <= rv_Term req /\
  upToDate req r = true /\
  (term r < rv_Term req \/ votedFor r = "" \/ votedFor r = rv_CandidateId req).

Lemma bumpTerm_votedFor t r :
  term r <= t ->
  (votedFor (bumpTerm t r) = "" \/ votedFor (bumpTerm t r) = votedFor r) /\
  (term r < t -> votedFor (bumpTerm t r) = "") /\
  (term r = t -> votedFor (bumpTerm t r) = votedFor r).
Proof.
  intros H. unfold bumpTerm. destruct (term r <? t) eqn:E; simpl; split_and!;
    first [by auto | intros; lia | done].
Qed.

Lemma RequestVote_decides now req r :
  let '(r', resp) := RequestVote now req r in
  (rvr_VoteGranted resp = true <-> may_vote req r) /\
  (rvr_VoteGranted resp = true ->
     votedFor r' = rv_CandidateId req /\ term r' = rv_Term req /\
     electionReset r' = now) /\
  (rvr_VoteGranted resp = false -> quiet_step r r' /\ electionReset r' = electionReset r) /\
  log r' = log r /\ rvr_Term resp = int32 (term r).
Proof.
  unfold RequestVote, may_vote.
  destruct (isKnownNode r (rv_CandidateId req)) eqn:Hk; cbn [negb];
    [|split_and!; try done; naive_solver].
  destruct (rv_Term req <? term r) eqn:Ht.
  { split_and!; try done. split; [done|]. intros (_ & ? & _). lia. }
  rewrite upToDate_bump. destruct (bumpTerm_log (rv_Term req) r) as (Hlog & _).
  assert (electionReset (bumpTerm (rv_Term req) r) = electionReset r) as Her
    by (unfold bumpTerm; by destruct (term r <? rv_Term req)).
  destruct (bumpTerm_votedFor (rv_Term req) r) as (Hv0 & Hv1 & Hv2); [lia|].
  destruct (upToDate req r) eqn:Hu; cbn [negb].
  2: { split_and!; try done; [naive_solver|]. split; [apply bumpTerm_quiet|done]. }
  destruct (_ || _) eqn:Hv; simpl.
  - split_and!; try done.
    + split; [|done]. intros _. split_and!; try done; [lia|].
      destruct (Z_lt_le_dec (term r) (rv_Term req)) as [|Hge]; [by left|right].
      rewrite Hv2 in Hv by lia. apply orb_true_iff in Hv as [Hv|Hv]; boolify; auto.
    + intros _. split_and!; try done. rewrite bumpTerm_term. lia.
  - split_and!; try done.
    + split; [done|]. intros (_ & _ & _ & Hc).
      apply orb_false_iff in Hv as [Ha Hb]; boolify.
      destruct Hc as [Hc|[Hc|Hc]].
      * by rewrite Hv1 in Ha by done.
      * destruct Hv0 as [Hv0|Hv0]; congruence.
      * destruct Hv0 as [Hv0|Hv0]; congruence.
    + split; [apply bumpTerm_quiet|done].
Qed.

(** C19: the vote rule of [RequestVote].  A vote is granted exactly when the
    candidate is a known node, its term is not stale, its log is at least as
    up to date, and the node has no other vote in that term; then the node
    has recorded the vote, for that candidate, in the candidate's term.  In
    every other case the recorded vote is not given to the candidate: the
    node keeps its vote or, on a newer term, clears it. *)
Theorem RequestVote_rule now req r :
  let '(r', resp) := RequestVote now req r in
  (rvr_VoteGranted resp = true <-> may_vote req r) /\
  (rvr_VoteGranted resp = true ->
     votedFor r' = rv_CandidateId req /\ term r' = rv_Term req /\
     electionReset r' = now) /\
  (rvr_VoteGranted resp = false -> quiet_step r r' /\ electionReset r' = electionReset r) /\
  log r' = log r /\ rvr_Term resp = int32 (term r).
Proof. apply RequestVote_decides. Qed.

(** C40: terms travel as [int32].  Once a candidate's term leaves the 31-bit
    range its vote requests carry a negative term, and every peer with a
    non-negative term refuses them and stays as it is: no election can
    succeed in such a term. *)
Theorem RequestVote_term_overflow now t c r :
  two31 <= t < two32 -> 0 <= term r ->
  RequestVote now (voteRequest t c) r
  = (r, mkRequestVoteResponse (int32 (term r)) false).
Proof.
  intros Ht Hr. unfold RequestVote, voteRequest. cbn [rv_CandidateId rv_Term].
  destruct (isKnownNode r (nodeId c)); [|done]. cbn [negb].
  rewrite int32_wraps by done. rewrite (proj2 (Z.ltb_lt _ _)); [done|].
  unfold two31, two32 in *. lia.
Qed.

Lemma RequestVote_term_overflow_witness :
  exists t c r, (two31 <= t < two32 /\ 0 <= term r) /\
  RequestVote 5 (voteRequest t c) r = (r, mkRequestVoteResponse (int32 (term r)) false).
Proof.
  exists two31, (example_node "n2" ["n1"] Candidate two31 [mkLogEntry 0 0 ""]),
    (example_node "n1" ["n2"] Follower 4 [mkLogEntry 0 0 ""]).
  split; [unfold two31, two32; simpl; lia|].
  apply RequestVote_term_overflow; unfold two31, two32; simpl; lia.
Defined.
