(* ===== verification/Replication.v ===== *)
(** * Log replication

    raft.go: [Propose], [updateCommitIndexLocked]; rpc.go: [AppendEntries];
    rpc_client.go: [sendHeartbeats], [sendAppendEntriesBatch] and the batching
    of [sendBatchesWithPipeline].  A send is split where the code releases the
    mutex: what is captured for the request, and what the response does to
    the state it finds. *)
From stdpp Require Import gmap strings list.
From Stdlib Require Import ZArith Lia.
From S2P Require Import Prelude Types Stores RaftNode Election.

Local Open Scope Z_scope.

(** ** Proposals *)

Definition Propose (cmdData : string) (r : Raft) : Raft * (Z + raft_error) :=
  if negb (bool_decide (state r = Leader)) then (r, inr ErrNotLeader)
  else
    let index := lastLogIndex r + 1 in
    let r := r <| log := log r ++ [mkLogEntry index (term r) cmdData] |> in
    (* a failed save is logged and otherwise ignored *)
    let '(_, r) := saveLog r in
    (r, inl index).

(** ** Commit advancement *)

(** How many nodes hold index [N]: the leader and the peers whose
    [matchIndex] reaches it. *)
Definition replicas (r : Raft) (N : Z) : Z :=
  1 + Z.of_nat (length (filter (fun p => N <= map_get (matchIndex r) p) (peers r))).

(** The loop, from [N] down; [fuel] bounds the number of iterations. *)
Fixpoint commitScan (fuel : nat) (r : Raft) (N : Z) : option Z :=
  match fuel with
  | O => None
  | S fuel' =>
    if commitIndex r <? N then
      match entryAt r N with
      | Some entry =>
        if (Term entry =? term r) && (majority r <=? replicas r N) then Some N
        else commitScan fuel' r (N - 1)
      | None => commitScan fuel' r (N - 1)
      end
    else None
  end.

Definition updateCommitIndexLocked (r : Raft) : Raft :=
  if negb (bool_decide (state r = Leader)) then r
  else
    match commitScan (Z.to_nat (lastLogIndex r - commitIndex r)) r (lastLogIndex r) with
    | Some N => r <| commitIndex := N |>
    | None => r
    end.

(** ** Receiving entries *)

(** The loop body of step 5: skip, keep, or cut the log and append. *)
Definition appendOrOverwrite (base : Z) (l : list LogEntry) (e : LogEntry) : list LogEntry :=
  let offset := Index e - base in
  if offset <? 0 then l
  else if offset <? Z.of_nat (length l) then
    match l !! Z.to_nat offset with
    | Some x => if Term x =? Term e then l else take (Z.to_nat offset) l ++ [e]
    | None => l
    end
  else l ++ [e].

(** Step 4. *)
Definition prevLogMatches (req : AppendEntriesRequest) (r : Raft) : bool :=
  if 0 <? ae_PrevLogIndex req then
    if ae_PrevLogIndex req <? logBaseIndex r then false
    else
      match entryAt r (ae_PrevLogIndex req) with
      | Some entry => Term entry =? ae_PrevLogTerm req
      | None => false
      end
  else true.

(** Step 7. *)
Definition advanceCommit (leaderCommit : Z) (r : Raft) : Raft :=
  if commitIndex r <? leaderCommit then
    let last := lastLogIndex r in
    if leaderCommit <? last then r <| commitIndex := leaderCommit |>
    else r <| commitIndex := last |>
  else r.

Definition AppendEntries (now : Z) (req : AppendEntriesRequest) (r : Raft)
    : Raft * AppendEntriesResponse :=
  let respTerm := int32 (term r) in
  if negb (isKnownNode r (ae_LeaderId req)) then (r, mkAppendEntriesResponse respTerm false)
  else if ae_Term req <? term r then (r, mkAppendEntriesResponse respTerm false)
  else
    let r := bumpTerm (ae_Term req) r in
    let r := r <| leader := ae_LeaderId req |> <| electionReset := now |> in
    if negb (prevLogMatches req r) then (r, mkAppendEntriesResponse respTerm false)
    else
      let r := r <| log := foldl (appendOrOverwrite (logBaseIndex r)) (log r) (ae_Entries req) |> in
      let '(_, r) := saveLog r in
      (advanceCommit (ae_LeaderCommit req) r, mkAppendEntriesResponse respTerm true).

(** ** Sending entries *)

(** The entries from [nextIdx] to [lastIndex], as they go on the wire. *)
Definition pendingEntries (r : Raft) (nextIdx lastIndex : Z) : list LogEntry :=
  omap (fun idx => wire_entry <$> entryAt r idx) (seqZ nextIdx (lastIndex - nextIdx + 1)).

(** [snap != nil && next <= snap.LastIncludedIndex]: the follower needs
    entries that only the snapshot holds. *)
Definition needsSnapshot (r : Raft) (next : Z) : bool :=
  match snapshot r with
  | Some snap => next <=? LastIncludedIndex snap
  | None => false
  end.

(** The part of [sendHeartbeats] done for one peer.  [None] is the run-time
    panic of [make] on a negative capacity. *)
Definition sendHeartbeat_peer (capturedTerm : Z) (leaderID : NodeID) (p : NodeID) (r : Raft)
    : option Raft :=
  if bool_decide (p = "") then Some r
  else
    let nextIdx :=
      if map_get (nextIndex r) p =? 0 then logBaseIndex r + 1 else map_get (nextIndex r) p in
    if needsSnapshot r nextIdx then Some (spawn (GoSendSnapshot p) r)
    else
      let prevLogIndex := nextIdx - 1 in
      let prevLogTerm := from_option Term 0 (entryAt r prevLogIndex) in
      let lastIndex := lastLogIndex r in
      if lastIndex - prevLogIndex <? 0 then None
      else
        Some (spawn (GoSendBatches p capturedTerm leaderID prevLogIndex prevLogTerm
                       (pendingEntries r nextIdx lastIndex) (commitIndex r)) r).

Fixpoint sendHeartbeat_peers (capturedTerm : Z) (leaderID : NodeID) (ps : list NodeID) (r : Raft)
    : option Raft :=
  match ps with
  | [] => Some r
  | p :: ps' =>
    match sendHeartbeat_peer capturedTerm leaderID p r with
    | Some r' => sendHeartbeat_peers capturedTerm leaderID ps' r'
    | None => None
    end
  end.

Definition sendHeartbeats (r : Raft) : option Raft :=
  match sendHeartbeat_peers (term r) (nodeId r) (peers r) r with
  | Some r' => Some (match peers r with [] => updateCommitIndexLocked r' | _ => r' end)
  | None => None
  end.

(** The heartbeat goroutine started by [becomeLeaderLocked] checks the role
    under the mutex and releases it before it sends; [heartbeat_tick] is a
    tick in which nothing happens in between.  The boolean tells whether the
    loop goes on. *)
Definition heartbeat_check (r : Raft) : bool := bool_decide (state r = Leader).

Definition heartbeat_tick (r : Raft) : option (Raft * bool) :=
  if negb (heartbeat_check r) then Some (r, false)
  else (fun r' => (r', true)) <$> sendHeartbeats r.

(** The request [sendAppendEntriesBatch] sends. *)
Definition appendRequest (capturedTerm : Z) (leaderID : NodeID) (prevLogIndex prevLogTerm : Z)
    (entries : list LogEntry) (freshCommit : Z) : AppendEntriesRequest :=
  mkAppendEntriesRequest (int32 capturedTerm) leaderID (int32 prevLogIndex)
    (int32 prevLogTerm) entries (int32 freshCommit).

(** What [sendAppendEntriesBatch] does with the outcome of the RPC ([None]:
    the dial or the call failed), in the state it finds then. *)
Definition sendAppendEntriesBatch (peer : NodeID) (prevLogIndex : Z) (entries : list LogEntry)
    (result : option AppendEntriesResponse) (r : Raft) : Raft * bool :=
  match result with
  | None => (r, false)
  | Some resp =>
    if term r <? aer_Term resp then
      (saveMeta (r <| term := aer_Term resp |> <| state := Follower |> <| votedFor := "" |>), false)
    else if negb (aer_Success resp) then
      if needsSnapshot r (map_get (nextIndex r) peer) then (spawn (GoSendSnapshot peer) r, false)
      else if logBaseIndex r + 1 <? map_get (nextIndex r) peer then
        (r <| nextIndex := <[peer := map_get (nextIndex r) peer - 1]> (nextIndex r) |>, false)
      else (r, false)
    else if negb (bool_decide (peer ∈ peers r)) then (r, false)
    else
      let r :=
        match last entries with
        | Some e =>
          r <| matchIndex := <[peer := Index e]> (matchIndex r) |>
            <| nextIndex := <[peer := Index e + 1]> (nextIndex r) |>
        | None =>
          if logBaseIndex r <=? prevLogIndex then
            r <| matchIndex := <[peer := prevLogIndex]> (matchIndex r) |>
              <| nextIndex := <[peer := prevLogIndex + 1]> (nextIndex r) |>
          else r
        end in
      (updateCommitIndexLocked r, true)
  end.

(** ** Batches

    Each turn of the loop of [sendBatchesWithPipeline] tries to take a permit
    for the next [maxEntriesPerBatch] entries. *)

Inductive select_outcome := Acquired | Full | ShuttingDown.

(** A batch with the previous index and term it is sent with. *)
Record batch := mkBatch { b_prevIdx : Z; b_prevTerm : Z; b_entries : list LogEntry }.

Fixpoint batchLoop (fuel : nat) (sel : nat -> select_outcome) (i : nat)
    (prevIdx prevTerm : Z) (rest : list LogEntry) : list batch :=
  match fuel, rest with
  | O, _ | _, [] => []
  | S fuel', _ =>
    let b := take maxEntriesPerBatch rest in
    let rest' := drop maxEntriesPerBatch rest in
    match sel i with
    | ShuttingDown => []
    | Full => batchLoop fuel' sel (S i) prevIdx prevTerm rest'
    | Acquired =>
      let '(idx', term') :=
        match last b with Some e => (Index e, Term e) | None => (prevIdx, prevTerm) end in
      mkBatch prevIdx prevTerm b :: batchLoop fuel' sel (S i) idx' term' rest'
    end
  end.

(** The batches sent for [allEntries]; an empty list is a bare heartbeat,
    which takes no permit. *)
Definition sendBatchesWithPipeline (sel : nat -> select_outcome)
    (prevLogIndex prevLogTerm : Z) (allEntries : list LogEntry) : list batch :=
  match allEntries with
  | [] => [mkBatch prevLogIndex prevLogTerm []]
  | _ => batchLoop (length allEntries) sel 0 prevLogIndex prevLogTerm allEntries
  end.

(** The semaphore of a peer: a channel of capacity [maxPipelineInflight]. *)
Definition getPipelineSemaphore (peer : NodeID) (r : Raft) : Raft * nat :=
  match pipelineSemaphores r !! peer with
  | Some sem => (r, sem)
  | None =>
    let sem := chanCount r in
    (r <| pipelineSemaphores := <[peer := sem]> (pipelineSemaphores r) |>
       <| chanCount := S (chanCount r) |>, sem)
  end.

(** ** Proposals: lemmas *)

Lemma saveLog_fields r :
  exists fs', saveLog r = ((LogStore_SaveAll (logStore r) (log r) (fs r)).1, r <| fs := fs' |>).
Proof.
  unfold saveLog. destruct (LogStore_SaveAll _ _ _) as [err fs']. by exists fs'.
Qed.

Lemma lookup_snoc_lt {A} (l : list A) x i : (i < length l)%nat -> (l ++ [x]) !! i = l !! i.
Proof. intros. by rewrite lookup_app_l. Qed.

(** [Propose].  On a leader the command is appended as the next entry in
    the leader's term, its index is returned, the entries before it are
    unchanged, the log stays a run of consecutive indexes, and nothing is
    committed by it; on any other node the call fails with [ErrNotLeader] and
    changes nothing. *)
Theorem Propose_spec data r :
  log_wf r ->
  let '(r', res) := Propose data r in
  match res with
  | inl index =>
    state r = Leader /\ index = lastLogIndex r + 1 /\ log_wf r' /\
    lastLogIndex r' = index /\
    entryAt r' index = Some (mkLogEntry index (term r) data) /\
    (forall i, i <= lastLogIndex r -> entryAt r' i = entryAt r i) /\
    commitIndex r' = commitIndex r
  | inr e => state r <> Leader /\ e = ErrNotLeader /\ r' = r
  end.
Proof.
  intros Hwf. unfold Propose. destruct (bool_decide (state r = Leader)) eqn:Hs; boolify;
    cbn [negb]; [|done].
  pose proof (log_wf_snoc r (term r) data Hwf) as Hwf'.
  destruct (saveLog_fields (r <| log := log r ++ [mkLogEntry (lastLogIndex r + 1) (term r) data] |>))
    as [fs' ->].
  pose proof (lastLogIndex_wf r Hwf) as Hl. pose proof (lastLogIndex_ge r Hwf) as Hge.
  split_and!; try done.
  - unfold lastLogIndex at 1. simpl. by rewrite last_snoc.
  - rewrite entryAt_lookup by (simpl; lia). simpl.
    replace (Z.to_nat _) with (length (log r)) by lia.
    by rewrite list_lookup_middle.
  - intros i Hi. destruct (Z_lt_le_dec i (logBaseIndex r)).
    + by rewrite !entryAt_below by done.
    + rewrite !entryAt_lookup by done. simpl. apply lookup_snoc_lt. lia.
Qed.

(** ** Commit advancement: lemmas *)

(** The entry at [N] may be committed: the leader's own term, a majority. *)
Definition committable (r : Raft) (N : Z) : Prop :=
  commitIndex r < N <= lastLogIndex r /\ majority r <= replicas r N /\
  exists e, entryAt r N = Some e /\ Term e = term r.

Lemma commitScan_spec fuel r N :
  (Z.to_nat (N - commitIndex r) <= fuel)%nat -> N <= lastLogIndex r ->
  match commitScan fuel r N with
  | Some M => M <= N /\ committable r M /\ forall K, M < K <= N -> ~ committable r K
  | None => forall K, K <= N -> ~ committable r K
  end.
Proof.
  revert N. induction fuel as [|fuel IH]; intros N Hf HN; cbn [commitScan].
  { intros K HK [[? _] _]. lia. }
  destruct (commitIndex r <? N) eqn:Hc; [|intros K HK [[? _] _]; lia].
  assert (Hstep : ~ committable r N ->
    match commitScan fuel r (N - 1) with
    | Some M => M <= N /\ committable r M /\ forall K, M < K <= N -> ~ committable r K
    | None => forall K, K <= N -> ~ committable r K
    end).
  { intros Hn. specialize (IH (N - 1) ltac:(lia) ltac:(lia)).
    destruct (commitScan fuel r (N - 1)) as [M|].
    - destruct IH as (? & ? & HK). split_and!; [lia|done|].
      intros K HKN. destruct (decide (K = N)) as [->|]; [done|]. apply HK. lia.
    - intros K HKN. destruct (decide (K = N)) as [->|]; [done|]. apply IH. lia. }
  destruct (entryAt r N) as [e|] eqn:He.
  - destruct (_ && _) eqn:Ht.
    + apply andb_true_iff in Ht as [Ht Hm]. split_and!; [lia| |intros; lia].
      split_and!; [lia|lia|lia|]. exists e. split; [done|lia].
    + apply Hstep. intros (_ & Hm & e' & He' & Ht'). simplify_eq.
      apply andb_false_iff in Ht as [Ht|Ht]; lia.
  - apply Hstep. intros (_ & _ & e' & He' & _). congruence.
Qed.

Lemma updateCommit_cases r :
  state r = Leader ->
  exists N, updateCommitIndexLocked r = r <| commitIndex := N |> /\
    ((N = commitIndex r /\ forall K, ~ committable r K) \/
     (committable r N /\ forall K, N < K -> ~ committable r K)).
Proof.
  intros Hs. unfold updateCommitIndexLocked. rewrite bool_decide_eq_true_2 by done. cbn [negb].
  pose proof (commitScan_spec (Z.to_nat (lastLogIndex r - commitIndex r)) r (lastLogIndex r)
                ltac:(lia) ltac:(lia)) as H.
  destruct (commitScan _ _ _) as [M|].
  - destruct H as (? & HM & HK). exists M. split; [done|right]. split; [done|].
    intros K HKM Hc. apply (HK K); [|done]. destruct Hc as [[_ ?] _]. lia.
  - exists (commitIndex r). split; [by destruct r|left]. split; [done|].
    intros K Hc. apply (H K); [|done]. destruct Hc as [[_ ?] _]. lia.
Qed.

(** After the scan nothing more can be committed. *)
Lemma updateCommit_settled r :
  state r = Leader ->
  commitIndex r <= commitIndex (updateCommitIndexLocked r) /\
  forall K, ~ committable (updateCommitIndexLocked r) K.
Proof.
  intros Hs. destruct (updateCommit_cases r Hs) as (N & -> & HN).
  assert (commitIndex r <= N) as Hle by (destruct HN as [[-> _]|[[[? _] _] _]]; lia).
  split; [done|]. intros K [HK HK']. simpl in HK.
  assert (committable r K) as Hc by (split; [change (lastLogIndex (r <| commitIndex := N |>)) with (lastLogIndex r) in HK; lia|done]).
  destruct HN as [[_ H]|[_ H]]; [by apply (H K)|by apply (H K); [lia|]].
Qed.

(** C12: commit advancement.  A leader moves its commit index to the greatest
    index above it that carries an entry of the leader's own term held by a
    majority of the configuration, and leaves it where it is if there is none;
    the commit index never goes back and nothing else changes. *)
Theorem updateCommitIndex_spec r :
  state r = Leader ->
  exists N, updateCommitIndexLocked r = r <| commitIndex := N |> /\
    ((N = commitIndex r /\ forall K, ~ committable r K) \/
     (committable r N /\ forall K, N < K -> ~ committable r K)).
Proof. apply updateCommit_cases. Qed.

Lemma Propose_spec_witness :
  exists r, log_wf r /\ state r = Leader /\
    let '(r', res) := Propose "x" r in
    match res with
    | inl index =>
      state r = Leader /\ index = lastLogIndex r + 1 /\ log_wf r' /\
      lastLogIndex r' = index /\
      entryAt r' index = Some (mkLogEntry index (term r) "x") /\
      (forall i, i <= lastLogIndex r -> entryAt r' i = entryAt r i) /\
      commitIndex r' = commitIndex r
    | inr e => state r <> Leader /\ e = ErrNotLeader /\ r' = r
    end.
Proof.
  pose (r := mkRaft "n1" ["n2"] Leader 3 2 "n1" 0 [mkLogEntry 5 1 ""; mkLogEntry 6 3 "a"] 5 5
    ∅ ∅ [] ∅ "n1" "m" "l" 5 "s" None false false ∅ false false 0 ∅ [] (mkFS ∅ [])).
  assert (log_wf r) as Hwf.
  { split; [done|]. unfold r. simpl. rewrite !contiguous_cons. auto with mimori. }
  exists r. split; [exact Hwf|]. split; [reflexivity|]. exact (Propose_spec "x" r Hwf).
Defined.

Lemma updateCommitIndex_spec_witness :
  exists r, state r = Leader /\ commitIndex (updateCommitIndexLocked r) = 2 /\
    exists N, updateCommitIndexLocked r = r <| commitIndex := N |> /\
    ((N = commitIndex r /\ forall K, ~ committable r K) \/
     (committable r N /\ forall K, N < K -> ~ committable r K)).
Proof.
  pose (r := mkRaft "n1" ["n2"; "n3"] Leader 3 2 "n1" 0
    [mkLogEntry 0 0 ""; mkLogEntry 1 1 "a"; mkLogEntry 2 3 "b"; mkLogEntry 3 3 "c"] 0 0
    ∅ {["n2" := 2; "n3" := 1]} [] ∅ "n1" "m" "l" 0 "s" None false false ∅ false false 0 ∅ []
    (mkFS ∅ [])).
  exists r. split; [reflexivity|]. split; [reflexivity|].
  exact (updateCommitIndex_spec r eq_refl).
Defined.

(** ** Batches: lemmas *)

(** Every batch starts where the one before it ended. *)
Fixpoint batches_chain (p t : Z) (bs : list batch) : Prop :=
  match bs with
  | [] => True
  | b :: bs' =>
    b_prevIdx b = p /\ b_prevTerm b = t /\ (length (b_entries b) <= maxEntriesPerBatch)%nat /\
    exists e, last (b_entries b) = Some e /\ batches_chain (Index e) (Term e) bs'
  end.

Lemma take_batch_last (rest : list LogEntry) :
  rest <> [] -> exists e, last (take maxEntriesPerBatch rest) = Some e.
Proof.
  intros H. destruct (last _) eqn:E; [eauto|].
  apply last_None in E. by destruct rest.
Qed.

Lemma batchLoop_chain fuel sel i p t rest :
  (forall i, sel i = Acquired) -> (length rest <= fuel)%nat ->
  batches_chain p t (batchLoop fuel sel i p t rest) /\
  concat (map b_entries (batchLoop fuel sel i p t rest)) = rest.
Proof.
  intros Hsel. revert i p t rest. induction fuel as [|fuel IH]; intros i p t rest Hf.
  { destruct rest; [done|simpl in Hf; lia]. }
  destruct rest as [|e0 rest0] eqn:Er; [done|]. rewrite <- Er in *.
  assert (rest <> []) as Hne by (by rewrite Er).
  destruct (take_batch_last rest Hne) as [e He].
  assert (batchLoop (S fuel) sel i p t rest =
    mkBatch p t (take maxEntriesPerBatch rest) ::
    batchLoop fuel sel (S i) (Index e) (Term e) (drop maxEntriesPerBatch rest)) as ->.
  { rewrite Er. cbn [batchLoop]. rewrite <- Er, Hsel, He. done. }
  destruct (IH (S i) (Index e) (Term e) (drop maxEntriesPerBatch rest)) as [Hc Hcat].
  { rewrite length_drop. unfold maxEntriesPerBatch. rewrite Er in *. simpl length in *. lia. }
  split.
  - cbn [batches_chain b_prevIdx b_prevTerm b_entries]. split_and!; try done.
    + rewrite length_take. lia.
    + eauto.
  - cbn [map concat b_entries]. rewrite Hcat. apply take_drop.
Qed.

Lemma contiguous_last_next p l e :
  contiguous (p + 1) l -> last l = Some e -> Index e = p + Z.of_nat (length l).
Proof. intros H1 H2. rewrite (contiguous_last _ _ _ H1 H2). lia. Qed.

Lemma chain_contiguous p t bs :
  batches_chain p t bs -> contiguous (p + 1) (concat (map b_entries bs)) ->
  Forall (fun b => contiguous (b_prevIdx b + 1) (b_entries b)) bs.
Proof.
  revert p t. induction bs as [|b bs IH]; intros p t; [by constructor|].
  cbn [batches_chain map concat]. intros (Hp & Ht & Hl & e & He & Hc).
  rewrite contiguous_app. intros [H1 H2]. constructor; [by rewrite Hp|].
  apply (IH (Index e) (Term e) Hc).
  rewrite (contiguous_last_next _ _ _ H1 He).
  by replace (p + Z.of_nat (length (b_entries b)) + 1)
    with (p + 1 + Z.of_nat (length (b_entries b))) by lia.
Qed.

(** Batching without lost permits.  When every turn of the pipeline gets a
    permit, the batches are the pending entries cut into pieces of at most a
    hundred, none lost and in order, each sent with the index and term of the
    entry before it; so a run of consecutive entries gives requests that are
    runs of consecutive entries following their previous index. *)
Theorem batches_cover sel p t entries :
  (forall i, sel i = Acquired) -> entries <> [] -> contiguous (p + 1) entries ->
  let bs := sendBatchesWithPipeline sel p t entries in
  concat (map b_entries bs) = entries /\ batches_chain p t bs /\
  Forall (fun b => contiguous (b_prevIdx b + 1) (b_entries b)) bs.
Proof.
  intros Hsel Hne Hc. unfold sendBatchesWithPipeline.
  destruct entries as [|e l]; [done|].
  destruct (batchLoop_chain (length (e :: l)) sel 0 p t (e :: l) Hsel ltac:(done)) as [H1 H2].
  split_and!; [done|done|]. apply (chain_contiguous p t); [done|]. by rewrite H2.
Qed.

Lemma batches_cover_witness :
  exists sel, (forall i, sel i = Acquired) /\
  let entries := map (fun k => mkLogEntry (Z.of_nat k) 1 "d") (seq 1 201) in
  let bs := sendBatchesWithPipeline sel 0 0 entries in
  map (fun b => (b_prevIdx b, length (b_entries b))) bs = [(0, 100%nat); (100, 100%nat); (200, 1%nat)] /\
  concat (map b_entries bs) = entries /\ batches_chain 0 0 bs /\
  Forall (fun b => contiguous (b_prevIdx b + 1) (b_entries b)) bs.
Proof.
  exists (fun _ => Acquired). split; [reflexivity|]. cbv zeta. split; [reflexivity|].
  apply (batches_cover (fun _ => Acquired) 0 0); [reflexivity|done|].
  intros i e He. apply list_lookup_fmap_Some in He as (k & -> & Hk). simpl.
  apply lookup_seq in Hk. lia.
Defined.
