(* ===== verification/LogMatching.v ===== *)
(** * AppendEntries and the log matching property

    What a follower's log is after [AppendEntries]: the shape invariant, the
    entries it then holds, idempotence, and, between the log a leader sends
    from and the log of the follower, the log matching property of Raft. *)
From stdpp Require Import gmap strings list.
From Stdlib Require Import ZArith Lia.
From S2P Require Import Prelude Types Stores RaftNode Election Replication.

Local Open Scope Z_scope.

(** ** Logs as partial functions from absolute indexes *)

Definition at_index (base : Z) (l : list LogEntry) (idx : Z) : option LogEntry :=
  if idx <? base then None else l !! Z.to_nat (idx - base).

Lemma entryAt_at r idx : entryAt r idx = at_index (logBaseIndex r) (log r) idx.
Proof.
  unfold at_index. destruct (idx <? logBaseIndex r) eqn:E.
  - apply entryAt_below. lia.
  - apply entryAt_lookup. lia.
Qed.

Lemma at_index_ge base l idx :
  base + Z.of_nat (length l) <= idx -> at_index base l idx = None.
Proof.
  intros H. unfold at_index. destruct (idx <? base) eqn:E; [done|].
  apply lookup_ge_None. lia.
Qed.

Lemma at_index_is_Some base l idx :
  base <= idx < base + Z.of_nat (length l) -> exists x, at_index base l idx = Some x.
Proof.
  intros H. unfold at_index. rewrite (proj2 (Z.ltb_ge _ _)) by lia.
  apply lookup_lt_is_Some. lia.
Qed.

Lemma at_index_Some base l idx x :
  at_index base l idx = Some x -> base <= idx < base + Z.of_nat (length l).
Proof.
  unfold at_index. destruct (idx <? base) eqn:E; [done|].
  intros H%lookup_lt_Some. lia.
Qed.

Lemma at_index_app_l base l k idx :
  idx < base + Z.of_nat (length l) -> at_index base (l ++ k) idx = at_index base l idx.
Proof.
  intros H. unfold at_index. destruct (idx <? base) eqn:E; [done|].
  apply lookup_app_l. lia.
Qed.

Lemma at_index_take base n l idx :
  idx < base + Z.of_nat n -> at_index base (take n l) idx = at_index base l idx.
Proof.
  intros H. unfold at_index. destruct (idx <? base) eqn:E; [done|].
  apply lookup_take_lt. lia.
Qed.

Lemma at_index_snoc base l e :
  at_index base (l ++ [e]) (base + Z.of_nat (length l)) = Some e.
Proof.
  unfold at_index. rewrite (proj2 (Z.ltb_ge _ _)) by lia.
  replace (Z.to_nat _) with (length l) by lia. by apply list_lookup_middle.
Qed.

(** The log of a leader that appended one entry. *)
Lemma snoc_entry r d i :
  log_wf r ->
  let e := mkLogEntry (lastLogIndex r + 1) (term r) d in
  at_index (logBaseIndex r) (log r ++ [e]) i =
  if bool_decide (i = lastLogIndex r + 1) then Some e else entryAt r i.
Proof.
  intros Hwf. cbv zeta. pose proof (lastLogIndex_wf r Hwf) as Hl.
  destruct (bool_decide _) eqn:E; boolify.
  - subst. replace (lastLogIndex r + 1) with (logBaseIndex r + Z.of_nat (length (log r))) at 2 by lia.
    apply at_index_snoc.
  - rewrite entryAt_at. destruct (Z_lt_le_dec i (logBaseIndex r + Z.of_nat (length (log r)))).
    + by apply at_index_app_l.
    + rewrite !at_index_ge; [done|lia|]. rewrite length_app. simpl. lia.
Qed.

(** ** One entry *)

(** The three things the loop body can do with an entry that leaves no gap:
    skip it (below the snapshot), find it already there, or make it the last
    entry after the entries before it. *)
Inductive appended (base : Z) (l : list LogEntry) (e : LogEntry) : list LogEntry -> Prop :=
  | appended_skip : Index e < base -> appended base l e l
  | appended_keep x :
      at_index base l (Index e) = Some x -> Term x = Term e -> appended base l e l
  | appended_new :
      base <= Index e ->
      (forall x, at_index base l (Index e) = Some x -> Term x <> Term e) ->
      appended base l e (take (Z.to_nat (Index e - base)) l ++ [e]).

Lemma appendOrOverwrite_cases base l e :
  Index e <= base + Z.of_nat (length l) ->
  appended base l e (appendOrOverwrite base l e).
Proof.
  intros Hgap. unfold appendOrOverwrite.
  destruct (Index e - base <? 0) eqn:H0; [apply appended_skip; lia|].
  assert (at_index base l (Index e) = l !! Z.to_nat (Index e - base)) as Hat.
  { unfold at_index. rewrite (proj2 (Z.ltb_ge _ _)) by lia. done. }
  destruct (Index e - base <? Z.of_nat (length l)) eqn:H1.
  - destruct (l !! Z.to_nat (Index e - base)) as [x|] eqn:Hx.
    + destruct (Term x =? Term e) eqn:Ht.
      * apply appended_keep with x; [done|lia].
      * apply appended_new; [lia|]. rewrite Hat. intros y [= <-]. lia.
    + apply lookup_ge_None in Hx. lia.
  - replace l with (take (Z.to_nat (Index e - base)) l) at 2 by (apply take_ge; lia).
    apply appended_new; [lia|]. rewrite Hat. intros y Hy%lookup_lt_Some. lia.
Qed.

Section one_entry.
Context (base : Z) (l : list LogEntry) (e : LogEntry).
Context (Hc : contiguous base l) (Hgap : Index e <= base + Z.of_nat (length l)).

Local Abbreviation l' := (appendOrOverwrite base l e).

Lemma append_length_take :
  base <= Index e -> length (take (Z.to_nat (Index e - base)) l) = Z.to_nat (Index e - base).
Proof using Hgap. intros. rewrite length_take. lia. Qed.

Lemma append_contiguous : contiguous base l'.
Proof using Hc Hgap.
  destruct (appendOrOverwrite_cases base l e Hgap) as [|x|Hb]; try done.
  rewrite contiguous_app, contiguous_cons, append_length_take by done.
  split_and!; auto with mimori. lia.
Qed.

Lemma append_reaches : base <= Index e -> Index e < base + Z.of_nat (length l').
Proof using Hgap.
  intros Hb. destruct (appendOrOverwrite_cases base l e Hgap) as [|x Hx|]; [lia| |].
  - apply at_index_Some in Hx. lia.
  - rewrite length_app, append_length_take by done. simpl. lia.
Qed.

Lemma append_below idx : idx < Index e -> at_index base l' idx = at_index base l idx.
Proof using Hgap.
  intros Hi. destruct (appendOrOverwrite_cases base l e Hgap) as [|x|Hb]; try done.
  rewrite at_index_app_l by (rewrite append_length_take by done; lia).
  apply at_index_take. lia.
Qed.

Lemma append_at :
  base <= Index e -> exists x, at_index base l' (Index e) = Some x /\ Term x = Term e.
Proof using Hgap.
  intros Hb. destruct (appendOrOverwrite_cases base l e Hgap) as [|x|]; [lia|eauto|].
  exists e. split; [|done].
  replace (Index e) with (base + Z.of_nat (length (take (Z.to_nat (Index e - base)) l)))
    at 2 by (rewrite append_length_take by done; lia).
  apply at_index_snoc.
Qed.

Lemma append_nonempty : l <> [] -> l' <> [].
Proof using Hgap.
  intros Hne. destruct (appendOrOverwrite_cases base l e Hgap); try done.
  by destruct (take _ _).
Qed.
End one_entry.

(** ** The loop *)

Section all_entries.
Context (base : Z).

Local Abbreviation append_all := (foldl (appendOrOverwrite base)).

Lemma append_all_inv es : forall l i0,
  l <> [] -> contiguous base l -> contiguous i0 es -> i0 <= base + Z.of_nat (length l) ->
  append_all l es <> [] /\ contiguous base (append_all l es) /\
  (forall idx, idx < i0 -> at_index base (append_all l es) idx = at_index base l idx) /\
  (forall e, e ∈ es -> base <= Index e ->
     exists x, at_index base (append_all l es) (Index e) = Some x /\ Term x = Term e).
Proof.
  induction es as [|e es IH]; intros l i0 Hne Hc Hes Hi0; cbn [foldl].
  { split_and!; try done. intros e He. by apply not_elem_of_nil in He. }
  apply contiguous_cons in Hes as [He Hes].
  assert (Index e <= base + Z.of_nat (length l)) as Hgap by lia.
  destruct (IH (appendOrOverwrite base l e) (i0 + 1)) as (IH1 & IH2 & IH3 & IH4).
  - by apply append_nonempty.
  - by apply append_contiguous.
  - done.
  - destruct (Z_lt_le_dec (Index e) base).
    + destruct (appendOrOverwrite_cases base l e Hgap); lia.
    + pose proof (append_reaches base l e Hgap). lia.
  - split_and!; try done.
    + intros idx Hidx. rewrite IH3 by lia. apply append_below; [done|lia].
    + intros x [->|Hx]%elem_of_cons Hb; [|by apply IH4].
      rewrite IH3 by lia. by apply append_at.
Qed.

(** Entries that are already there, by index and term, change nothing. *)
Lemma append_all_same es l :
  (forall e, e ∈ es -> Index e < base \/
     exists x, at_index base l (Index e) = Some x /\ Term x = Term e) ->
  append_all l es = l.
Proof.
  intros H. induction es as [|e es IH]; [done|]. cbn [foldl].
  assert (appendOrOverwrite base l e = l) as ->.
  { unfold appendOrOverwrite. destruct (H e) as [Hb|(x & Hx & Ht)]; [set_solver|..].
    - by rewrite (proj2 (Z.ltb_lt _ _)) by lia.
    - pose proof (at_index_Some _ _ _ _ Hx). unfold at_index in Hx.
      rewrite (proj2 (Z.ltb_ge _ _)) in Hx by lia.
      rewrite (proj2 (Z.ltb_ge _ _)), (proj2 (Z.ltb_lt _ _)), Hx by lia.
      by rewrite (proj2 (Z.eqb_eq _ _)). }
  apply IH. intros x Hx. apply H. set_solver.
Qed.
(** The log has the entry, or its snapshot covers it. *)
Definition held (l : list LogEntry) (e : LogEntry) : Prop :=
  Index e < base \/ exists x, at_index base l (Index e) = Some x /\ Term x = Term e.

(** What becomes of log [l] when entries [es] arrive: nothing if they are all
    held; otherwise the log is cut before the first one that is not, and that
    one and all after it follow. *)
Definition merged (l es l' : list LogEntry) : Prop :=
  (Forall (held l) es /\ l' = l) \/
  exists pre e post, es = pre ++ e :: post /\ Forall (held l) pre /\ ~ held l e /\
    l' = take (Z.to_nat (Index e - base)) l ++ e :: post.

Lemma append_all_new es : forall l,
  contiguous (base + Z.of_nat (length l)) es -> append_all l es = l ++ es.
Proof.
  induction es as [|e es IH]; intros l Hc; [by rewrite app_nil_r|].
  apply contiguous_cons in Hc as [He Hc]. cbn [foldl].
  assert (appendOrOverwrite base l e = l ++ [e]) as ->.
  { unfold appendOrOverwrite. rewrite (proj2 (Z.ltb_ge _ _)), (proj2 (Z.ltb_ge _ _)) by lia. done. }
  rewrite IH, <- app_assoc; [done|]. rewrite length_app. simpl.
  by replace (_ + Z.of_nat (length l + 1)) with (base + Z.of_nat (length l) + 1) by lia.
Qed.

Lemma append_all_merged es : forall l i0,
  contiguous i0 es -> i0 <= base + Z.of_nat (length l) -> merged l es (append_all l es).
Proof.
  induction es as [|e es IH]; intros l i0 Hes Hi0; cbn [foldl].
  { left. split; [constructor|done]. }
  apply contiguous_cons in Hes as [He Hes].
  assert (Index e <= base + Z.of_nat (length l)) as Hgap by lia.
  assert (held l e -> merged l (e :: es) (append_all (appendOrOverwrite base l e) es)) as Hheld.
  { intros Hh. assert (appendOrOverwrite base l e = l) as ->.
    { apply (append_all_same [e] l). intros x ->%list_elem_of_singleton. exact Hh. }
    assert (i0 + 1 <= base + Z.of_nat (length l)) as Hn.
    { destruct Hh as [?|(x & Hx%at_index_Some & _)]; lia. }
    destruct (IH l (i0 + 1) Hes Hn) as [[Hf ->]|(pre & x & post & -> & Hf & Hx & ->)].
    - left. split; [by constructor|done].
    - right. exists (e :: pre), x, post. split_and!; try done. by constructor. }
  pose proof (append_length_take base l e Hgap) as Hlen.
  destruct (appendOrOverwrite_cases base l e Hgap) as [Hb|x Hx Ht|Hb Hn].
  - apply Hheld. by left.
  - apply Hheld. right. by exists x.
  - right. exists [], e, es. split_and!; [done|constructor| |].
    + intros [?|(x & Hx & Ht)]; [lia|]. by apply (Hn x).
    + rewrite append_all_new, <- app_assoc; [done|]. rewrite length_app, Hlen by done. simpl.
      by replace (base + Z.of_nat (Z.to_nat (Index e - base) + 1)) with (i0 + 1) by lia.
Qed.
End all_entries.

(** ** The handler *)

Lemma prevLogMatches_log req r r' :
  log r' = log r -> logBaseIndex r' = logBaseIndex r ->
  prevLogMatches req r' = prevLogMatches req r.
Proof.
  intros H1 H2. unfold prevLogMatches. by rewrite !entryAt_at, H1, H2.
Qed.

Definition newCommit (old leaderCommit last : Z) : Z :=
  if old <? leaderCommit then Z.min leaderCommit last else old.

Lemma advanceCommit_eq c r :
  advanceCommit c r = r <| commitIndex := newCommit (commitIndex r) c (lastLogIndex r) |>.
Proof.
  unfold advanceCommit, newCommit.
  destruct (commitIndex r <? c) eqn:E; [|by destruct r].
  destruct (c <? lastLogIndex r) eqn:E2.
  - by rewrite Z.min_l by lia.
  - by rewrite Z.min_r by lia.
Qed.

Lemma AppendEntries_cases now req r r' resp :
  AppendEntries now req r = (r', resp) ->
  quiet_step r r' /\ logBaseIndex r' = logBaseIndex r /\ lastApplied r' = lastApplied r /\
  ((aer_Success resp = false /\ log r' = log r /\ commitIndex r' = commitIndex r) \/
   (aer_Success resp = true /\ term r <= ae_Term req /\ term r' = ae_Term req /\
    leader r' = ae_LeaderId req /\
    prevLogMatches req r = true /\
    log r' = foldl (appendOrOverwrite (logBaseIndex r)) (log r) (ae_Entries req) /\
    commitIndex r' = newCommit (commitIndex r) (ae_LeaderCommit req) (lastLogIndex r'))).
Proof.
  unfold AppendEntries. destruct (isKnownNode r (ae_LeaderId req)); cbn [negb].
  2: { intros [= <- <-]. split_and!; try done. by left. }
  destruct (ae_Term req <? term r) eqn:Ht.
  { intros [= <- <-]. split_and!; try done. by left. }
  pose proof (bumpTerm_quiet (ae_Term req) r) as Hq.
  destruct (bumpTerm_log (ae_Term req) r) as (Hl & Hb & Hci & Hla & _).
  pose proof (bumpTerm_term (ae_Term req) r) as Htm.
  set (b := bumpTerm (ae_Term req) r) in *.
  set (b2 := b <| leader := ae_LeaderId req |> <| electionReset := now |>).
  assert (quiet_step r b2) as Hq2 by (etrans; [exact Hq|by left]).
  rewrite (prevLogMatches_log req r b2) by done.
  destruct (prevLogMatches req r); cbn [negb].
  2: { intros [= <- <-]. split_and!; try done. by left. }
  set (b3 := b2 <| log := _ |>). destruct (saveLog_fields b3) as [fs' ->].
  rewrite advanceCommit_eq. intros [= <- <-].
  split_and!; try done.
  right. simpl. rewrite Hb, Hl. split_and!; try done.
  - lia.
  - rewrite Htm. lia.
  - by rewrite Hci.
Qed.

(** A request whose entries directly follow its previous index. *)
Definition request_wf (req : AppendEntriesRequest) : Prop :=
  contiguous (ae_PrevLogIndex req + 1) (ae_Entries req).

(** A matching previous entry means the request leaves no gap. *)
Lemma prevLogMatches_reaches req r :
  log_wf r -> 0 <= logBaseIndex r -> prevLogMatches req r = true ->
  ae_PrevLogIndex req + 1 <= logBaseIndex r + Z.of_nat (length (log r)).
Proof.
  intros Hwf Hb. unfold prevLogMatches.
  pose proof (lastLogIndex_wf r Hwf). pose proof (lastLogIndex_ge r Hwf).
  destruct (0 <? ae_PrevLogIndex req) eqn:Hp; [|lia].
  destruct (ae_PrevLogIndex req <? logBaseIndex r); [done|].
  destruct (entryAt r (ae_PrevLogIndex req)) as [e|] eqn:He; [|done].
  apply entryAt_Some in He as [He _]. lia.
Qed.

Lemma AppendEntries_shape now req r r' resp :
  log_wf r -> 0 <= logBaseIndex r -> request_wf req ->
  AppendEntries now req r = (r', resp) ->
  log_wf r' /\ logBaseIndex r' = logBaseIndex r /\
  if aer_Success resp then
    (forall idx, idx <= ae_PrevLogIndex req -> entryAt r' idx = entryAt r idx) /\
    (forall e, e ∈ ae_Entries req -> logBaseIndex r <= Index e ->
       exists x, entryAt r' (Index e) = Some x /\ Term x = Term e) /\
    commitIndex r' = newCommit (commitIndex r) (ae_LeaderCommit req) (lastLogIndex r')
  else log r' = log r /\ commitIndex r' = commitIndex r.
Proof.
  intros Hwf Hb0 Hreq E.
  apply AppendEntries_cases in E as (_ & Hb & _ & [(-> & Hl & Hc)|(-> & _ & _ & _ & Hp & Hl & Hc)]).
  - split_and!; try done. unfold log_wf. rewrite Hl, Hb. apply Hwf.
  - pose proof (prevLogMatches_reaches req r Hwf Hb0 Hp) as Hgap.
    destruct Hwf as [Hne Hcont].
    destruct (append_all_inv (logBaseIndex r) (ae_Entries req) (log r)
                (ae_PrevLogIndex req + 1) Hne Hcont Hreq Hgap) as (H1 & H2 & H3 & H4).
    rewrite <- Hl in *. split_and!; try done.
    + unfold log_wf. by rewrite Hb.
    + intros idx Hidx. rewrite !entryAt_at, Hb. apply H3. lia.
    + intros e He Hbe. rewrite entryAt_at, Hb. by apply H4.
Qed.

(** The request is one the follower goes by: from a member, not of an old term,
    and following an entry the follower's log has, with the same term (or the
    start of the log). *)
Definition acceptable (req : AppendEntriesRequest) (r : Raft) : Prop :=
  isKnownNode r (ae_LeaderId req) = true /\ term r <= ae_Term req /\
  (0 < ae_PrevLogIndex req -> logBaseIndex r <= ae_PrevLogIndex req /\
     exists x, entryAt r (ae_PrevLogIndex req) = Some x /\ Term x = ae_PrevLogTerm req).

Lemma prevLogMatches_true req r :
  prevLogMatches req r = true <->
  (0 < ae_PrevLogIndex req -> logBaseIndex r <= ae_PrevLogIndex req /\
     exists x, entryAt r (ae_PrevLogIndex req) = Some x /\ Term x = ae_PrevLogTerm req).
Proof.
  unfold prevLogMatches. destruct (0 <? ae_PrevLogIndex req) eqn:Hp; [|split; [intros _; lia|done]].
  destruct (ae_PrevLogIndex req <? logBaseIndex r) eqn:Hb.
  { split; [done|]. intros H. destruct H; lia. }
  destruct (entryAt r _) as [x|]; [|split; [done|]; intros H; by destruct H as (_ & x & ? & _); [lia|]].
  rewrite Z.eqb_eq. split; [intros Hx _; split; [lia|by exists x]|].
  intros H. by destruct H as (_ & y & [= ->] & ?); [lia|].
Qed.

Lemma AppendEntries_success_iff now req r :
  aer_Success (AppendEntries now req r).2 = true <-> acceptable req r.
Proof.
  unfold acceptable. rewrite <- prevLogMatches_true. unfold AppendEntries.
  destruct (isKnownNode r (ae_LeaderId req)); cbn [negb]; [|split; [done|by intros [? _]]].
  destruct (ae_Term req <? term r) eqn:Ht; [split; [done|intros (_ & ? & _); lia]|].
  destruct (bumpTerm_log (ae_Term req) r) as (Hl & Hb & _).
  rewrite (prevLogMatches_log req r) by done.
  destruct (prevLogMatches req r); cbn [negb]; [|split; [done|by intros (_ & _ & ?)]].
  destruct (saveLog _). split; [|done]. intros _. split_and!; (done || lia).
Qed.

(** C18: what [AppendEntries] does to a follower, for a request whose entries
    follow its previous index.  It is accepted exactly when it comes from a
    member, is not of an old term, and its previous entry is in the log with the
    stated term.  Accepted, it makes the log what Raft prescribes: unchanged if
    every entry sent is already there, otherwise cut before the first one that
    is not and continued with that entry and the ones after it; and the commit
    index follows the leader's, up to the end of the log.  Refused, log and
    commit index are unchanged.  The log stays a run of consecutive indexes and
    its base does not move. *)
Theorem AppendEntries_log now req r :
  log_wf r -> 0 <= logBaseIndex r -> request_wf req ->
  let '(r', resp) := AppendEntries now req r in
  (aer_Success resp = true <-> acceptable req r) /\
  log_wf r' /\ logBaseIndex r' = logBaseIndex r /\
  if aer_Success resp then
    merged (logBaseIndex r) (log r) (ae_Entries req) (log r') /\
    term r' = ae_Term req /\ leader r' = ae_LeaderId req /\
    commitIndex r' = newCommit (commitIndex r) (ae_LeaderCommit req) (lastLogIndex r')
  else log r' = log r /\ commitIndex r' = commitIndex r.
Proof.
  intros Hwf Hb0 Hreq. pose proof (AppendEntries_success_iff now req r) as Hacc.
  destruct (AppendEntries now req r) as [r' resp] eqn:E. split; [exact Hacc|].
  destruct (AppendEntries_shape _ _ _ _ _ Hwf Hb0 Hreq E) as (H1 & H2 & _).
  destruct (AppendEntries_cases _ _ _ _ _ E)
    as (_ & _ & _ & [(-> & Hl & Hc)|(-> & _ & Ht & Hle & Hp & Hl & Hc)]); [done|].
  split_and!; try done. rewrite Hl. eapply append_all_merged; [exact Hreq|].
  by apply prevLogMatches_reaches.
Qed.

(** Every entry of the request is covered by the snapshot or in the log, with
    the same term. *)
Definition already_held (req : AppendEntriesRequest) (r : Raft) : Prop :=
  forall e, e ∈ ae_Entries req -> Index e < logBaseIndex r \/
    exists x, entryAt r (Index e) = Some x /\ Term x = Term e.

(** A request delivered a second time, or late, after its entries are in
    the log never removes anything: if every entry it carries above the
    snapshot is present with the same term, the log is unchanged. *)
Theorem AppendEntries_redelivered now req r :
  already_held req r ->
  log (AppendEntries now req r).1 = log r.
Proof.
  intros H. destruct (AppendEntries now req r) as [r' resp] eqn:E.
  apply AppendEntries_cases in E as (_ & _ & _ & [(_ & Hl & _)|(_ & _ & _ & _ & _ & Hl & _)]);
    simpl; [done|].
  rewrite Hl. apply append_all_same. intros e He.
  destruct (H e He) as [?|(x & Hx & Ht)]; [by left|right].
  exists x. by rewrite <- entryAt_at.
Qed.

Lemma AppendEntries_redelivered_witness :
  exists r req, AppendEntries 9 req r <> (r, (AppendEntries 9 req r).2) /\
    already_held req r /\
    log (AppendEntries 9 req r).1 = log r.
Proof.
  pose (r := mkRaft "n1" ["n2"] Follower 3 0 "" 0
    [mkLogEntry 0 0 ""; mkLogEntry 1 3 "a"; mkLogEntry 2 3 "b"] 0 0 ∅ ∅ [] ∅ "" "m" "l" 0 "s"
    None false false ∅ false false 0 ∅ [] (mkFS ∅ [])).
  pose (req := mkAppendEntriesRequest 3 "n2" 0 0 [mkLogEntry 1 3 "a"] 1).
  assert (already_held req r) as H.
  { intros e [->|He]%elem_of_cons; [|by apply not_elem_of_nil in He].
    right. exists (mkLogEntry 1 3 "a"). split; reflexivity. }
  exists r, req. split; [|split; [exact H|exact (AppendEntries_redelivered 9 req r H)]].
  intros E. apply (f_equal (fun x => commitIndex x.1)) in E. vm_compute in E. discriminate E.
Defined.

Lemma AppendEntries_log_witness :
  exists r req, log_wf r /\ 0 <= logBaseIndex r /\ request_wf req /\
  (aer_Success (AppendEntries 9 req r).2 = true /\ length (log (AppendEntries 9 req r).1) = 3%nat) /\
  let '(r', resp) := AppendEntries 9 req r in
  (aer_Success resp = true <-> acceptable req r) /\
  log_wf r' /\ logBaseIndex r' = logBaseIndex r /\
  if aer_Success resp then
    merged (logBaseIndex r) (log r) (ae_Entries req) (log r') /\
    term r' = ae_Term req /\ leader r' = ae_LeaderId req /\
    commitIndex r' = newCommit (commitIndex r) (ae_LeaderCommit req) (lastLogIndex r')
  else log r' = log r /\ commitIndex r' = commitIndex r.
Proof.
  pose (r := mkRaft "n1" ["n2"] Follower 3 0 "" 0
    [mkLogEntry 4 2 ""; mkLogEntry 5 2 "a"; mkLogEntry 6 2 "b"; mkLogEntry 7 2 "c"] 4 4 ∅ ∅ [] ∅
    "" "m" "l" 4 "s" None false false ∅ false false 0 ∅ [] (mkFS ∅ [])).
  pose (req := mkAppendEntriesRequest 3 "n2" 5 2 [mkLogEntry 6 3 "z"] 6).
  assert (log_wf r) as Hwf.
  { split; [done|]. unfold r. simpl. rewrite !contiguous_cons. auto with mimori. }
  assert (request_wf req) as Hreq.
  { unfold request_wf, req. simpl. rewrite contiguous_cons. auto with mimori. }
  exists r, req. split; [exact Hwf|]. split; [done|]. split; [exact Hreq|].
  split; [split; reflexivity|].
  exact (AppendEntries_log 9 req r Hwf ltac:(done) Hreq).
Defined.

(** ** The log matching property *)

(** The two logs hold the same entries at the indexes up to [i] above both
    snapshots. *)
Definition agree_upto (L F : Raft) (i : Z) : Prop :=
  forall k, logBaseIndex L < k -> logBaseIndex F < k -> k <= i -> entryAt L k = entryAt F k.

(** Entries of the same index and term have the same past. *)
Definition logs_match (L F : Raft) : Prop :=
  forall j x y, entryAt L j = Some x -> entryAt F j = Some y -> Term x = Term y ->
  agree_upto L F j.

(** A request made of the leader's own entries. *)
Definition faithful_request (L : Raft) (req : AppendEntriesRequest) : Prop :=
  request_wf req /\ 0 <= ae_PrevLogIndex req /\
  (forall e, e ∈ ae_Entries req -> entryAt L (Index e) = Some e) /\
  (0 < ae_PrevLogIndex req ->
     exists x, entryAt L (ae_PrevLogIndex req) = Some x /\ Term x = ae_PrevLogTerm req).

Section matching.
Context (L : Raft) (bf : Z).

Definition agree_list (F : list LogEntry) (i : Z) : Prop :=
  forall k, logBaseIndex L < k -> bf < k -> k <= i -> entryAt L k = at_index bf F k.

Definition match_list (F : list LogEntry) : Prop :=
  forall j x y, entryAt L j = Some x -> at_index bf F j = Some y -> Term x = Term y ->
  agree_list F j.

Lemma agree_list_mono F i j : agree_list F j -> i <= j -> agree_list F i.
Proof. intros H Hij k ???. apply H; lia. Qed.

(** One entry of the leader keeps the logs matching and extends the
    agreement by one index. *)
Lemma append_matching F e :
  contiguous bf F -> Index e <= bf + Z.of_nat (length F) ->
  entryAt L (Index e) = Some e -> match_list F -> agree_list F (Index e - 1) ->
  match_list (appendOrOverwrite bf F e) /\
  agree_list (appendOrOverwrite bf F e) (Index e).
Proof.
  intros Hc Hgap HL Hm Ha.
  destruct (appendOrOverwrite_cases bf F e Hgap) as [Hb|x Hx Ht|Hb Hn].
  - split; [done|]. intros k H1 H2 H3. apply Ha; lia.
  - split; [done|]. by apply (Hm _ e x).
  - assert (agree_list (take (Z.to_nat (Index e - bf)) F ++ [e]) (Index e)) as Hagree.
    { intros k H1 H2 H3. destruct (decide (k = Index e)) as [->|Hk].
      - rewrite HL. symmetry.
        replace (Index e) with (bf + Z.of_nat (length (take (Z.to_nat (Index e - bf)) F)))
          at 2 by (rewrite length_take; lia).
        apply at_index_snoc.
      - rewrite at_index_app_l by (rewrite length_take; lia).
        rewrite at_index_take by lia. apply Ha; lia. }
    split; [|done]. intros j x y _ Hy _. apply (agree_list_mono _ _ (Index e)); [done|].
    apply at_index_Some in Hy. rewrite length_app, length_take in Hy. simpl in Hy. lia.
Qed.

Lemma append_all_matching es : forall F i0,
  contiguous bf F -> contiguous i0 es -> i0 <= bf + Z.of_nat (length F) ->
  (forall e, e ∈ es -> entryAt L (Index e) = Some e) ->
  match_list F -> agree_list F (i0 - 1) ->
  match_list (foldl (appendOrOverwrite bf) F es) /\
  agree_list (foldl (appendOrOverwrite bf) F es) (i0 - 1 + Z.of_nat (length es)).
Proof.
  induction es as [|e es IH]; intros F i0 Hc Hes Hgap HL Hm Ha; cbn [foldl].
  { split; [done|]. by replace (i0 - 1 + Z.of_nat (length [])) with (i0 - 1) by (simpl; lia). }
  apply contiguous_cons in Hes as [He Hes].
  assert (Index e <= bf + Z.of_nat (length F)) as Hgap' by lia.
  destruct (append_matching F e) as [Hm' Ha']; try done.
  { apply HL. set_solver. }
  { by rewrite He. }
  destruct (IH (appendOrOverwrite bf F e) (i0 + 1)) as [IH1 IH2].
  - by apply append_contiguous.
  - done.
  - destruct (Z_lt_le_dec (Index e) bf).
    + destruct (appendOrOverwrite_cases bf F e Hgap'); lia.
    + pose proof (append_reaches bf F e Hgap'). lia.
  - intros x Hx. apply HL. set_solver.
  - done.
  - by replace (i0 + 1 - 1) with (Index e) by lia.
  - split; [done|]. cbn [length].
    by replace (i0 - 1 + Z.of_nat (S (length es))) with (i0 + 1 - 1 + Z.of_nat (length es)) by lia.
Qed.
End matching.

Lemma AppendEntries_matches now req L F F' resp :
  log_wf F -> 0 <= logBaseIndex F -> faithful_request L req -> logs_match L F ->
  AppendEntries now req F = (F', resp) ->
  logs_match L F' /\
  (aer_Success resp = true ->
   agree_upto L F' (ae_PrevLogIndex req + Z.of_nat (length (ae_Entries req)))).
Proof.
  intros Hwf HbF (Hreq & Hp0 & HL & Hprev) Hm E.
  apply AppendEntries_cases in E as (_ & Hb & _ & [(-> & Hl & _)|(-> & _ & _ & _ & Hp & Hl & _)]).
  { assert (forall k, entryAt F' k = entryAt F k) as Hsame
      by (intros k; by rewrite !entryAt_at, Hl, Hb).
    split; [|done]. intros j x y. unfold agree_upto. rewrite Hb, Hsame.
    intros Hx Hy Ht k H1 H2 H3. rewrite Hsame. by apply (Hm j x y). }
  pose proof (prevLogMatches_reaches req F Hwf HbF Hp) as Hgap.
  destruct (append_all_matching L (logBaseIndex F) (ae_Entries req) (log F)
              (ae_PrevLogIndex req + 1)) as [H1 H2]; try done.
  - apply Hwf.
  - intros j x y Hx Hy Ht k. rewrite <- entryAt_at in *. by apply (Hm j x y).
  - intros k Hk1 Hk2 Hk3. rewrite <- entryAt_at. unfold prevLogMatches in Hp.
    destruct (0 <? ae_PrevLogIndex req) eqn:Hpos; [|lia].
    destruct (ae_PrevLogIndex req <? logBaseIndex F); [done|].
    destruct (entryAt F (ae_PrevLogIndex req)) as [y|] eqn:Hy; [|done].
    destruct Hprev as (x & Hx & Ht); [lia|].
    apply (Hm (ae_PrevLogIndex req) x y); try done; lia.
  - rewrite <- Hl in H1, H2. split.
    + intros j x y Hx Hy Ht k. rewrite (entryAt_at F'), Hb in *. intros. by apply (H1 j x y).
    + intros _ k Hk1 Hk2 Hk3. rewrite (entryAt_at F'), Hb in *. apply H2; lia.
Qed.

(** C7: replication keeps the log matching property.  When a follower whose
    log matches the leader's handles a request made of the leader's entries,
    its log matches the leader's afterwards; and if it accepts, the two logs
    hold the same entries, contents included, at every index up to the last
    one sent (above both snapshots). *)
Theorem AppendEntries_matching now req L F :
  log_wf F -> 0 <= logBaseIndex F -> faithful_request L req -> logs_match L F ->
  let '(F', resp) := AppendEntries now req F in
  logs_match L F' /\
  (aer_Success resp = true ->
   agree_upto L F' (ae_PrevLogIndex req + Z.of_nat (length (ae_Entries req)))).
Proof.
  intros Hwf HbF Hf Hm. destruct (AppendEntries now req F) as [F' resp] eqn:E.
  by eapply AppendEntries_matches.
Qed.

Lemma AppendEntries_matching_witness :
  exists L F req, log_wf F /\ 0 <= logBaseIndex F /\
  faithful_request L req /\ logs_match L F /\
  log (AppendEntries 9 req F).1 = log L /\
  let '(F', resp) := AppendEntries 9 req F in
  logs_match L F' /\
  (aer_Success resp = true ->
   agree_upto L F' (ae_PrevLogIndex req + Z.of_nat (length (ae_Entries req)))).
Proof.
  pose (node := fun l => mkRaft "n1" ["n2"] Follower 3 0 "" 0 l 0 0 ∅ ∅ [] ∅
    "" "m" "l" 0 "s" None false false ∅ false false 0 ∅ [] (mkFS ∅ [])).
  pose (L := node [mkLogEntry 0 0 ""; mkLogEntry 1 1 "a"; mkLogEntry 2 3 "b"]).
  pose (F := node [mkLogEntry 0 0 ""; mkLogEntry 1 1 "a"; mkLogEntry 2 2 "x"; mkLogEntry 3 2 "y"]).
  pose (req := mkAppendEntriesRequest 3 "n2" 1 1 [mkLogEntry 2 3 "b"] 1).
  assert (log_wf F) as Hwf.
  { split; [done|]. unfold F. simpl. rewrite !contiguous_cons. auto with mimori. }
  assert (faithful_request L req) as Hf.
  { split_and!.
    - unfold request_wf, req. simpl. rewrite contiguous_cons. auto with mimori.
    - done.
    - intros e [->|He]%elem_of_cons; [reflexivity|by apply not_elem_of_nil in He].
    - intros _. exists (mkLogEntry 1 1 "a"). split; reflexivity. }
  assert (logs_match L F) as Hm.
  { intros j x y Hx Hy Ht k H1 H2 H3.
    pose proof (entryAt_Some _ _ _ Hx) as [Hj _]. simpl in Hj, H1, H2.
    destruct (decide (j = 2)) as [->|].
    - vm_compute in Hx, Hy. simplify_eq.
    - replace k with 1 by lia. reflexivity. }
  exists L, F, req. split; [exact Hwf|]. split; [done|].
  split; [exact Hf|]. split; [exact Hm|]. split; [reflexivity|].
  exact (AppendEntries_matching 9 req L F Hwf ltac:(done) Hf Hm).
Defined.
