(* ===== verification/Sending.v ===== *)
(** * The sending side of replication

    What [sendHeartbeats] and [sendBatchesWithPipeline] put on the wire, and
    what a full round (capture, batches, the follower's handler, the leader's
    treatment of the answers) achieves; and what it does when the pipeline
    has no free permit. *)
From stdpp Require Import gmap strings list.
From Stdlib Require Import ZArith Lia.
From S2P Require Import Prelude Types Stores RaftNode Election Replication LogMatching.

Local Open Scope Z_scope.

(** A round for one peer: each batch goes to the follower, whose answer comes
    back to the leader. *)
Definition deliver_one (now : Z) (capturedTerm : Z) (leaderID : NodeID) (freshCommit : Z)
    (p : NodeID) (LF : Raft * Raft) (b : batch) : Raft * Raft :=
  let '(L, F) := LF in
  let '(F', resp) :=
    AppendEntries now (appendRequest capturedTerm leaderID (b_prevIdx b) (b_prevTerm b)
                         (b_entries b) freshCommit) F in
  ((sendAppendEntriesBatch p (b_prevIdx b) (b_entries b) (Some resp) L).1, F').

Definition deliver (now : Z) (capturedTerm : Z) (leaderID : NodeID) (freshCommit : Z)
    (p : NodeID) : Raft * Raft -> list batch -> Raft * Raft :=
  foldl (deliver_one now capturedTerm leaderID freshCommit p).

(** ** The pending entries *)

Definition entry_int32 (e : LogEntry) : Prop := in_int32 (Index e) /\ in_int32 (Term e).

#[export] Instance entry_int32_dec e : Decision (entry_int32 e).
Proof. unfold entry_int32. apply _. Defined.

Definition log_int32 (r : Raft) : Prop := Forall entry_int32 (log r).

Lemma wire_entry_id e : entry_int32 e -> wire_entry e = e.
Proof. intros [H1 H2]. unfold wire_entry. rewrite !int32_id by done. by destruct e. Qed.

Lemma entryAt_int32 r i e : log_int32 r -> entryAt r i = Some e -> entry_int32 e.
Proof.
  intros H [_ He]%entryAt_Some. apply (proj1 (Forall_forall _ _) H).
  by apply list_elem_of_lookup_2 in He.
Qed.

Lemma pendingEntries_drop r k :
  log_wf r -> log_int32 r ->
  pendingEntries r (logBaseIndex r + Z.of_nat k) (lastLogIndex r) = drop k (log r).
Proof.
  intros Hwf Hint. rewrite lastLogIndex_wf by done. unfold pendingEntries.
  remember (drop k (log r)) as l eqn:Hl. revert k Hl. induction l as [|e l IH]; intros k Hl.
  - symmetry in Hl. apply skipn_all_iff in Hl. by rewrite seqZ_nil by lia.
  - assert (log r !! k = Some e) as Hk.
    { rewrite <- (Nat.add_0_r k), <- lookup_drop, <- Hl. done. }
    pose proof (lookup_lt_Some _ _ _ Hk) as Hlt.
    rewrite seqZ_cons by lia. cbn [omap list_omap].
    assert (entryAt r (logBaseIndex r + Z.of_nat k) = Some e) as He.
    { rewrite entryAt_lookup by lia. by replace (Z.to_nat _) with k by lia. }
    rewrite He. cbn [fmap option_fmap option_map].
    rewrite wire_entry_id by (by eapply entryAt_int32). f_equal.
    rewrite <- (IH (S k)).
    + f_equal. f_equal; lia.
    + assert (drop 1 (drop k (log r)) = l) as <- by (by rewrite <- Hl).
      rewrite drop_drop. f_equal. lia.
Qed.

Lemma contiguous_drop b k l :
  contiguous b l -> contiguous (b + Z.of_nat k) (drop k l).
Proof. intros H i e He. rewrite lookup_drop in He. rewrite (H _ _ He). lia. Qed.

Lemma contiguous_entryAt r i e :
  log_wf r -> log r !! i = Some e -> entryAt r (Index e) = Some e.
Proof.
  intros [_ Hc] He. rewrite (Hc _ _ He), entryAt_lookup by lia.
  by replace (Z.to_nat _) with i by lia.
Qed.

(** ** Previous entries of the batches *)

Lemma chain_prev p t bs b :
  batches_chain p t bs -> b ∈ bs ->
  (b_prevIdx b = p /\ b_prevTerm b = t) \/
  exists e, e ∈ concat (map b_entries bs) /\ b_prevIdx b = Index e /\ b_prevTerm b = Term e.
Proof.
  revert p t. induction bs as [|b0 bs IH]; intros p t; [by intros _ ?%not_elem_of_nil|].
  cbn [batches_chain map concat]. intros (Hp & Ht & _ & e & He & Hc) [->|Hb]%elem_of_cons.
  { by left. }
  right. destruct (IH _ _ Hc Hb) as [[-> ->]|(x & Hx & ?)].
  - exists e. split; [|done]. apply elem_of_app. left.
    rewrite last_lookup in He. by apply list_elem_of_lookup_2 in He.
  - exists x. split; [|done]. apply elem_of_app. by right.
Qed.

Lemma elem_of_batch (b : batch) bs e :
  b ∈ bs -> e ∈ b_entries b -> e ∈ concat (map b_entries bs).
Proof.
  intros Hb He. apply list_elem_of_In, in_concat. exists (b_entries b).
  split; [|by apply list_elem_of_In]. apply in_map. by apply list_elem_of_In.
Qed.

(** ** Requests built from a leader's log *)

(** A batch made of the leader's entries that survives the wire format. *)
Definition sendable (L : Raft) (b : batch) : Prop :=
  (forall t lid fc,
     faithful_request L (appendRequest t lid (b_prevIdx b) (b_prevTerm b) (b_entries b) fc)) /\
  contiguous (b_prevIdx b + 1) (b_entries b) /\
  in_int32 (b_prevIdx b) /\ in_int32 (b_prevTerm b) /\ logBaseIndex L <= b_prevIdx b.

Section requests.
Context (L : Raft) (Hwf : log_wf L) (Hint : log_int32 L) (Hbase : 0 <= logBaseIndex L).
Context (nextIdx : Z) (Hnext : logBaseIndex L < nextIdx <= lastLogIndex L + 1).

Local Abbreviation prev := (nextIdx - 1).
Local Abbreviation prevTerm := (from_option Term 0 (entryAt L prev)).
Local Abbreviation pending := (pendingEntries L nextIdx (lastLogIndex L)).

Lemma prev_entry : exists x, entryAt L prev = Some x.
Proof using Hwf Hnext. apply entryAt_is_Some; [done|lia]. Qed.

Lemma pending_eq : pending = drop (Z.to_nat (nextIdx - logBaseIndex L)) (log L).
Proof using Hwf Hint Hnext.
  rewrite <- pendingEntries_drop by done. f_equal. lia.
Qed.

Lemma pending_contiguous : contiguous (prev + 1) pending.
Proof using Hwf Hint Hnext.
  rewrite pending_eq. replace (prev + 1)
    with (logBaseIndex L + Z.of_nat (Z.to_nat (nextIdx - logBaseIndex L))) by lia.
  apply contiguous_drop, Hwf.
Qed.

Lemma pending_elem e : e ∈ pending -> entryAt L (Index e) = Some e /\ entry_int32 e.
Proof using Hwf Hint Hnext.
  rewrite pending_eq. intros [i Hi]%list_elem_of_lookup_1. rewrite lookup_drop in Hi.
  pose proof (contiguous_entryAt L _ _ Hwf Hi) as He.
  split; [done|]. by eapply entryAt_int32.
Qed.

Lemma pending_length : prev + Z.of_nat (length pending) = lastLogIndex L.
Proof using Hwf Hint Hnext.
  rewrite pending_eq, length_drop. rewrite lastLogIndex_wf in * by done. lia.
Qed.

(** What the previous index and term of every request refer to. *)
Definition prev_from_log (b : batch) : Prop :=
  (b_prevIdx b = prev /\ b_prevTerm b = prevTerm) \/
  exists e, e ∈ pending /\ b_prevIdx b = Index e /\ b_prevTerm b = Term e.

Lemma prev_faithful b :
  prev_from_log b ->
  in_int32 (b_prevIdx b) /\ in_int32 (b_prevTerm b) /\ logBaseIndex L <= b_prevIdx b /\
  exists x, entryAt L (b_prevIdx b) = Some x /\ Term x = b_prevTerm b.
Proof using Hwf Hint Hnext.
  intros [[-> ->]|(e & He & -> & ->)].
  - destruct prev_entry as [x Hx]. rewrite Hx. cbn [from_option].
    destruct (entryAt_int32 _ _ _ Hint Hx) as [H1 H2].
    rewrite (entryAt_Index _ _ _ Hwf Hx) in H1. split_and!; try done; [lia|eauto].
  - destruct (pending_elem e He) as [Hx [H1 H2]].
    apply entryAt_Some in Hx as Hb. split_and!; try done; [lia|eauto].
Qed.

Lemma batch_sendable b :
  prev_from_log b ->
  contiguous (b_prevIdx b + 1) (b_entries b) -> (forall e, e ∈ b_entries b -> e ∈ pending) ->
  sendable L b.
Proof using Hwf Hint Hnext Hbase.
  intros Hp Hc Hin. destruct (prev_faithful b Hp) as (H1 & H2 & H3 & H4).
  split_and!; try done. intros t lid fc.
  unfold faithful_request, appendRequest, request_wf.
  cbn [ae_PrevLogIndex ae_PrevLogTerm ae_Entries]. rewrite !int32_id by done.
  split_and!; try done; [lia|]. intros e He. by apply pending_elem, Hin.
Qed.

Lemma all_sendable sel b :
  (forall i, sel i = Acquired) ->
  b ∈ sendBatchesWithPipeline sel prev prevTerm pending -> sendable L b.
Proof using Hwf Hint Hnext Hbase.
  intros Hsel Hb. pose proof pending_contiguous as Hc.
  pose proof (batches_cover sel prev prevTerm pending Hsel) as Hcov.
  destruct (decide (pending = [])) as [Hnil|Hne].
  - rewrite Hnil in Hb. apply list_elem_of_singleton in Hb as ->.
    apply batch_sendable; simpl; [by left|apply contiguous_nil|by intros ??%not_elem_of_nil].
  - destruct (Hcov Hne Hc) as (Hcat & Hch & Hall).
    apply batch_sendable.
    + unfold prev_from_log. rewrite <- Hcat. by eapply chain_prev.
    + by apply (proj1 (Forall_forall _ _) Hall).
    + intros e He. rewrite <- Hcat. by eapply elem_of_batch.
Qed.
End requests.

(** A leader only sends its own log.  For a peer whose next index lies in
    the leader's log, one heartbeat round either sends the snapshot or starts
    the batches; and when every batch gets a pipeline permit, each request
    carries entries of the leader's log, unchanged by the 32-bit wire format
    and directly following a previous index and term taken from that log, and
    together they reach the end of the log. *)
Theorem sendHeartbeat_faithful sel p r :
  log_wf r -> log_int32 r -> 0 <= logBaseIndex r -> p <> "" ->
  logBaseIndex r < map_get (nextIndex r) p <= lastLogIndex r + 1 ->
  (forall i, sel i = Acquired) ->
  sendHeartbeat_peer (term r) (nodeId r) p r = Some (spawn (GoSendSnapshot p) r) \/
  exists prev pt es,
    sendHeartbeat_peer (term r) (nodeId r) p r
      = Some (spawn (GoSendBatches p (term r) (nodeId r) prev pt es (commitIndex r)) r) /\
    prev = map_get (nextIndex r) p - 1 /\
    prev + Z.of_nat (length es) = lastLogIndex r /\
    concat (map b_entries (sendBatchesWithPipeline sel prev pt es)) = es /\
    forall b, b ∈ sendBatchesWithPipeline sel prev pt es ->
      faithful_request r (appendRequest (term r) (nodeId r) (b_prevIdx b) (b_prevTerm b)
                            (b_entries b) (commitIndex r)).
Proof.
  intros Hwf Hint Hb Hp Hn Hsel. unfold sendHeartbeat_peer.
  rewrite bool_decide_eq_false_2 by done. rewrite (proj2 (Z.eqb_neq _ _)) by lia.
  destruct (needsSnapshot r _); [by left|right].
  set (nx := map_get (nextIndex r) p) in *. rewrite (proj2 (Z.ltb_ge _ _)) by lia.
  do 3 eexists. split; [done|]. split; [done|]. split; [by apply pending_length|]. split.
  - destruct (decide (pendingEntries r nx (lastLogIndex r) = [])) as [Hnil|Hne].
    + by rewrite Hnil.
    + eapply (batches_cover sel); [done..|]. by apply pending_contiguous.
  - intros b Hin. by eapply all_sendable.
Qed.

(** ** A round of replication *)

(** The conditions under which the handler accepts, and what it answers. *)
Lemma AppendEntries_accepts now req r :
  isKnownNode r (ae_LeaderId req) = true -> term r <= ae_Term req ->
  prevLogMatches req r = true ->
  (AppendEntries now req r).2 = mkAppendEntriesResponse (int32 (term r)) true.
Proof.
  intros Hk Ht Hp. unfold AppendEntries. rewrite Hk, (proj2 (Z.ltb_ge _ _)) by lia.
  cbn [negb]. rewrite (prevLogMatches_log req r) by apply (bumpTerm_log (ae_Term req) r).
  rewrite Hp. cbn [negb]. by destruct (saveLog _).
Qed.

Lemma isKnownNode_view r r' n :
  nodeId r' = nodeId r -> peers r' = peers r -> isKnownNode r' n = isKnownNode r n.
Proof. intros H1 H2. unfold isKnownNode. by rewrite H1, H2. Qed.

Lemma quiet_step_id r r' : quiet_step r r' -> nodeId r' = nodeId r /\ peers r' = peers r.
Proof. intros [H|H]; split; apply H. Qed.

Lemma updateCommit_fields r :
  exists N, updateCommitIndexLocked r = r <| commitIndex := N |>.
Proof.
  unfold updateCommitIndexLocked. destruct (negb _); [exists (commitIndex r); by destruct r|].
  destruct (commitScan _ _ _); [by eexists|exists (commitIndex r); by destruct r].
Qed.

(** An accepted batch: the leader records the last index sent, and leaves
    nothing that could be committed. *)
Lemma batch_accepted p prev es t r :
  t <= term r -> p ∈ peers r -> logBaseIndex r <= prev -> state r = Leader ->
  let i := from_option Index prev (last es) in
  exists N,
    let r' := r <| matchIndex := <[p := i]> (matchIndex r) |>
                <| nextIndex := <[p := i + 1]> (nextIndex r) |> <| commitIndex := N |> in
    sendAppendEntriesBatch p prev es (Some (mkAppendEntriesResponse t true)) r = (r', true) /\
    commitIndex r <= N /\ forall K, ~ committable r' K.
Proof.
  intros Ht Hp Hb Hs i.
  set (r1 := r <| matchIndex := <[p := i]> (matchIndex r) |>
               <| nextIndex := <[p := i + 1]> (nextIndex r) |>).
  destruct (updateCommit_settled r1 Hs) as [Hle Hset].
  destruct (updateCommit_fields r1) as [N HN]. rewrite HN in Hle, Hset.
  exists N. split; [|by split]. rewrite <- HN.
  unfold sendAppendEntriesBatch. cbn [aer_Term aer_Success].
  rewrite (proj2 (Z.ltb_ge _ _)) by lia. rewrite bool_decide_eq_true_2 by done. cbn [negb].
  unfold r1, i. destruct (last es) as [e|]; cbn [from_option]; [done|].
  by rewrite (proj2 (Z.leb_le _ _)) by lia.
Qed.

Lemma last_index_from prev es :
  contiguous (prev + 1) es ->
  from_option Index prev (last es) = prev + Z.of_nat (length es).
Proof.
  intros Hc. destruct (last es) as [e|] eqn:He; cbn [from_option].
  - by apply contiguous_last_next.
  - apply last_None in He as ->. simpl. lia.
Qed.

(** The leader, as far as its log is concerned. *)
Definition same_log (r r' : Raft) : Prop :=
  log r' = log r /\ logBaseIndex r' = logBaseIndex r /\ peers r' = peers r /\ term r' = term r.

Lemma entryAt_same_log r r' i : same_log r r' -> entryAt r' i = entryAt r i.
Proof. intros (H1 & H2 & _). by rewrite !entryAt_at, H1, H2. Qed.

(** What a round for peer [p] leaves alone on the leader. *)
Definition framed (p : NodeID) (r r' : Raft) : Prop :=
  same_log r r' /\ nodeId r' = nodeId r /\ state r' = state r /\ commitIndex r <= commitIndex r' /\
  (forall q, q <> p -> matchIndex r' !! q = matchIndex r !! q /\ nextIndex r' !! q = nextIndex r !! q).

Section round.
Context (now : Z) (p : NodeID) (L0 : Raft) (lid : NodeID) (fc : Z).
Context (Hwf0 : log_wf L0) (Hb0 : 0 <= logBaseIndex L0) (Hp : p ∈ peers L0).
Context (Ht32 : in_int32 (term L0)) (HLeader : state L0 = Leader).

(** What holds between batches: the follower agrees with the leader up to
    the next batch's previous entry. *)
Definition round_inv (LF : Raft * Raft) (prev prevTerm : Z) : Prop :=
  let '(L, F) := LF in
  framed p L0 L /\ log_wf F /\ 0 <= logBaseIndex F <= prev /\ logs_match L0 F /\
  agree_upto L0 F prev /\ isKnownNode F lid = true /\ 0 <= term F <= term L0 /\
  (0 < prev -> exists y, entryAt F prev = Some y /\ Term y = prevTerm).

Lemma round_prevMatches F prev pt es :
  in_int32 prev -> in_int32 pt -> logBaseIndex F <= prev ->
  (0 < prev -> exists y, entryAt F prev = Some y /\ Term y = pt) ->
  prevLogMatches (appendRequest (term L0) lid prev pt es fc) F = true.
Proof using.
  intros H1 H2 Hb He. unfold prevLogMatches, appendRequest.
  cbn [ae_PrevLogIndex ae_PrevLogTerm]. rewrite !int32_id by done.
  destruct (0 <? prev) eqn:E; [|done]. rewrite (proj2 (Z.ltb_ge _ _)) by lia.
  destruct He as (y & -> & ->); [lia|]. apply Z.eqb_refl.
Qed.

Lemma round_step LF b :
  round_inv LF (b_prevIdx b) (b_prevTerm b) ->
  faithful_request L0 (appendRequest (term L0) lid (b_prevIdx b) (b_prevTerm b) (b_entries b) fc) ->
  in_int32 (b_prevIdx b) -> in_int32 (b_prevTerm b) -> logBaseIndex L0 <= b_prevIdx b ->
  let i := from_option Index (b_prevIdx b) (last (b_entries b)) in
  let t := from_option Term (b_prevTerm b) (last (b_entries b)) in
  let LF' := deliver_one now (term L0) lid fc p LF b in
  round_inv LF' i t /\
  map_get (matchIndex LF'.1) p = i /\ map_get (nextIndex LF'.1) p = i + 1 /\
  (forall K, ~ committable LF'.1 K).
Proof using Hwf0 Hb0 Hp Ht32 HLeader.
  destruct LF as [L F]. intros ((HL & Hid & Hst & Hci & Hoth) & HwfF & HbF & Hm & Ha & Hk & HtF & Hprev) Hf H1 H2 Hbl.
  set (req := appendRequest (term L0) lid (b_prevIdx b) (b_prevTerm b) (b_entries b) fc) in *.
  assert (prevLogMatches req F = true) as Hpm by (apply round_prevMatches; try done; lia).
  assert (ae_Term req = term L0) as Htr by (unfold req; simpl; by apply int32_id).
  assert (ae_PrevLogIndex req = b_prevIdx b) as Hpr by (unfold req; simpl; by apply int32_id).
  pose proof (AppendEntries_accepts now req F Hk ltac:(lia) Hpm) as Hresp.
  unfold deliver_one. fold req.
  destruct (AppendEntries now req F) as [F' resp] eqn:E. simpl in Hresp. subst resp.
  (* the follower *)
  destruct (AppendEntries_shape _ _ _ _ _ HwfF ltac:(lia) (proj1 Hf) E)
    as (HwfF' & HbF' & Hkeep & _).
  destruct (AppendEntries_matches _ _ _ _ _ _ HwfF ltac:(lia) Hf Hm E) as [Hm' Ha'].
  specialize (Ha' eq_refl).
  destruct (AppendEntries_cases _ _ _ _ _ E) as (Hq' & _ & _ & [[? _]|(_ & _ & Ht' & _)]);
    [done|].
  rewrite Hpr in Ha', Hkeep. rewrite Htr in Ht'.
  destruct (batch_accepted p (b_prevIdx b) (b_entries b) (int32 (term F)) L)
    as (N & HN & HciN & Hset).
  { destruct HL as (_ & _ & _ & ->). rewrite int32_id; [lia|].
    unfold in_int32, two31 in *. lia. }
  { by destruct HL as (_ & _ & -> & _). }
  { by destruct HL as (_ & -> & _). }
  { by rewrite Hst. }
  rewrite HN. cbn [fst snd]. split_and!;
    [|unfold map_get; simpl; by rewrite lookup_insert_eq..|exact Hset].
  destruct Hf as (Hreq & _ & HLe & _). unfold request_wf in Hreq. rewrite Hpr in Hreq.
  cbn [ae_Entries req appendRequest] in Hreq, Ha'.
  pose proof (last_index_from _ _ Hreq) as Hi.
  rewrite Hi. split_and!; try done; try (simpl; lia).
  - split_and!; try done; [simpl; lia|]. intros q Hq. simpl.
    rewrite !lookup_insert_ne by done. by apply Hoth.
  - rewrite (isKnownNode_view F) by apply (quiet_step_id _ _ Hq'). done.
  - intros Hpos. destruct (last (b_entries b)) as [e|] eqn:He; cbn [from_option] in *.
    + exists e. split; [|done]. rewrite <- Hi.
      assert (e ∈ b_entries b) as Hin.
      { rewrite last_lookup in He. by apply list_elem_of_lookup_2 in He. }
      assert (0 < length (b_entries b))%nat as Hlen by (destruct (b_entries b); [done|simpl; lia]).
      rewrite <- Ha' by lia. by apply HLe.
    + apply last_None in He. rewrite He in *. simpl in *. rewrite Z.add_0_r in *.
      rewrite Hkeep by lia. apply Hprev. lia.
Qed.

Lemma round_all bs : forall LF prev pt,
  round_inv LF prev pt -> batches_chain prev pt bs -> Forall (sendable L0) bs ->
  let LF' := deliver now (term L0) lid fc p LF bs in
  let i := prev + Z.of_nat (length (concat (map b_entries bs))) in
  (exists t, round_inv LF' i t) /\
  (bs <> [] -> map_get (matchIndex LF'.1) p = i /\ map_get (nextIndex LF'.1) p = i + 1 /\
     (forall K, ~ committable LF'.1 K)).
Proof using Hwf0 Hb0 Hp Ht32 HLeader.
  induction bs as [|b bs IH]; intros LF prev pt Hinv Hch Hs; cbn [deliver foldl map concat].
  { split; [exists pt; simpl; by rewrite Z.add_0_r|done]. }
  destruct Hch as (<- & <- & _ & e & He & Hch).
  apply Forall_cons in Hs as [(Hf & Hc & H1 & H2 & Hb) Hs].
  pose proof (round_step LF b Hinv (Hf _ _ _) H1 H2 Hb) as (Hinv' & Hm & Hn & Hset). rewrite He in *.
  cbn [from_option] in *. pose proof (contiguous_last_next _ _ _ Hc He) as Hi.
  destruct (IH _ _ _ Hinv' Hch Hs) as [[t Ht] Hmn]. rewrite length_app.
  replace (b_prevIdx b + Z.of_nat (length (b_entries b) + length (concat (map b_entries bs))))
    with (Index e + Z.of_nat (length (concat (map b_entries bs)))) by lia.
  split; [by exists t|]. intros _. destruct bs as [|b' bs]; [|by apply Hmn].
  simpl. by rewrite Z.add_0_r.
Qed.
End round.

(** The hypotheses of a round: the leader can serve peer [p] from its log, and
    the follower is ready for it. *)
Definition round_ready (p : NodeID) (L F : Raft) : Prop :=
  let prev := map_get (nextIndex L) p - 1 in
  p ∈ peers L /\ logBaseIndex L < map_get (nextIndex L) p <= lastLogIndex L + 1 /\
  log_wf F /\ 0 <= logBaseIndex F < map_get (nextIndex L) p /\ logs_match L F /\
  isKnownNode F (nodeId L) = true /\ 0 <= term F <= term L /\
  (0 < prev -> exists y, entryAt F prev = Some y /\ Term y = from_option Term 0 (entryAt L prev)).

(** The batches of one heartbeat for [p]. *)
Definition round_batches (sel : nat -> select_outcome) (p : NodeID) (L : Raft) : list batch :=
  let prev := map_get (nextIndex L) p - 1 in
  sendBatchesWithPipeline sel prev (from_option Term 0 (entryAt L prev))
    (pendingEntries L (map_get (nextIndex L) p) (lastLogIndex L)).

Definition replicate (now : Z) (sel : nat -> select_outcome) (p : NodeID) (L F : Raft) : Raft * Raft :=
  deliver now (term L) (nodeId L) (commitIndex L) p (L, F) (round_batches sel p L).

Lemma round_done now sel p L F :
  log_wf L -> log_int32 L -> 0 <= logBaseIndex L -> in_int32 (term L) -> state L = Leader ->
  (forall i, sel i = Acquired) -> round_ready p L F ->
  let '(L', F') := replicate now sel p L F in
  log_wf F' /\ logs_match L F' /\ agree_upto L F' (lastLogIndex L) /\
  map_get (matchIndex L') p = lastLogIndex L /\ map_get (nextIndex L') p = lastLogIndex L + 1 /\
  framed p L L' /\ (forall K, ~ committable L' K).
Proof.
  intros HwfL Hint HbL Ht HLead Hsel (Hp & Hnx & HwfF & HbF & Hm & Hk & HtF & Hprev).
  unfold replicate, round_batches in *.
  set (prev := map_get (nextIndex L) p - 1) in *.
  set (pt := from_option Term 0 (entryAt L prev)) in *.
  set (es := pendingEntries L (map_get (nextIndex L) p) (lastLogIndex L)) in *.
  set (bs := sendBatchesWithPipeline sel prev pt es) in *.
  assert (agree_upto L F prev) as Ha.
  { destruct (prev_entry L HwfL _ Hnx) as [x Hx]. intros k Hk1 Hk2 Hk3.
    destruct Hprev as (y & Hy & Hty); [lia|]. apply (Hm prev x y); try done.
    unfold pt, prev in *. by rewrite Hx in Hty. }
  assert (round_inv p L (nodeId L) (L, F) prev pt) as Hinv by (split_and!; try done; lia).
  assert (Forall (sendable L) bs) as Hs.
  { apply Forall_forall. intros b Hb. by eapply all_sendable. }
  assert (prev + Z.of_nat (length es) = lastLogIndex L) as Hlen by (by apply pending_length).
  enough ((exists t, round_inv p L (nodeId L)
             (deliver now (term L) (nodeId L) (commitIndex L) p (L, F) bs) (lastLogIndex L) t) /\
          map_get (matchIndex (deliver now (term L) (nodeId L) (commitIndex L) p (L, F) bs).1) p
            = lastLogIndex L /\
          map_get (nextIndex (deliver now (term L) (nodeId L) (commitIndex L) p (L, F) bs).1) p
            = lastLogIndex L + 1 /\
          (forall K, ~ committable (deliver now (term L) (nodeId L) (commitIndex L) p (L, F) bs).1 K))
    as ([t Hr] & Hm' & Hn' & Hset).
  { destruct (deliver _ _ _ _ _ _ _) as [L' F'].
    destruct Hr as (? & ? & ? & ? & ? & _). by split_and!. }
  destruct (decide (es = [])) as [Hnil|Hne].
  - assert (bs = [mkBatch prev pt []]) as Hbs by (unfold bs; by rewrite Hnil).
    rewrite Hbs in *. apply Forall_cons in Hs as [(Hf & _ & H1 & H2 & Hb) _].
    pose proof (round_step now p L (nodeId L) (commitIndex L) HwfL HbL Hp Ht HLead (L, F)
      (mkBatch prev pt []) Hinv (Hf _ _ _) H1 H2 Hb) as (Hr & Hmt & Hnt & Hst).
    rewrite Hnil in Hlen. simpl in Hlen. rewrite Z.add_0_r in Hlen.
    rewrite <- Hlen. split; [by exists pt|done].
  - destruct (batches_cover sel prev pt es Hsel Hne) as (Hcat & Hch & _).
    { by apply pending_contiguous. }
    fold bs in Hcat, Hch.
    destruct (round_all now p L (nodeId L) (commitIndex L) HwfL HbL Hp Ht HLead bs (L, F) prev pt
                Hinv Hch Hs) as [Hr Hmn].
    rewrite Hcat, Hlen in Hr, Hmn. split; [done|]. apply Hmn.
    intros Hbs. rewrite Hbs in Hcat. simpl in Hcat. congruence.
Qed.

(** C13: a round of replication that gets its permits brings the follower up to
    date.  Take a leader and a follower that knows it, is in no newer term,
    has a matching log and holds the entry before the peer's next index.
    After the batches of one heartbeat have been delivered and answered, the
    follower's log is well formed and equals the leader's up to the leader's
    last entry, the leader has recorded exactly that index for the peer, and
    its own log and term are unchanged. *)
Theorem replicate_round now sel p L F :
  log_wf L -> log_int32 L -> 0 <= logBaseIndex L -> in_int32 (term L) -> state L = Leader ->
  (forall i, sel i = Acquired) -> round_ready p L F ->
  let '(L', F') := replicate now sel p L F in
  log_wf F' /\ logs_match L F' /\ agree_upto L F' (lastLogIndex L) /\
  map_get (matchIndex L') p = lastLogIndex L /\
  map_get (nextIndex L') p = lastLogIndex L + 1 /\
  log L' = log L /\ logBaseIndex L' = logBaseIndex L /\ term L' = term L.
Proof.
  intros H1 H2 H3 H4 H5 H6 H7. pose proof (round_done now sel p L F H1 H2 H3 H4 H5 H6 H7) as H.
  destruct (replicate now sel p L F) as [L' F'].
  destruct H as (? & ? & ? & ? & ? & ((? & ? & ? & ?) & _) & _). by split_and!.
Qed.

(** ** Concrete rounds *)

(** A leader with three entries and a follower with a conflicting tail. *)
Definition round_leader : Raft :=
  (example_node "n1" ["n2"; "n3"] Leader 3
    [mkLogEntry 0 0 ""; mkLogEntry 1 1 "a"; mkLogEntry 2 3 "b"; mkLogEntry 3 3 "c"])
    <| nextIndex := {["n2" := 2; "n3" := 4]} |> <| matchIndex := {["n2" := 0; "n3" := 0]} |>.

Definition round_follower : Raft :=
  example_node "n2" ["n1"; "n3"] Follower 2
    [mkLogEntry 0 0 ""; mkLogEntry 1 1 "a"; mkLogEntry 2 2 "x"].

Lemma round_match : logs_match round_leader round_follower.
Proof.
  intros j x y Hx Hy Ht k H1 H2 H3.
  pose proof (entryAt_Some _ _ _ Hy) as [Hj _]. cbn in Hj, H1, H2.
  destruct (decide (j = 2)) as [->|].
  - vm_compute in Hx, Hy. simplify_eq.
  - replace k with 1 by lia. reflexivity.
Qed.

Lemma round_leader_int32 : log_int32 round_leader.
Proof. unfold log_int32. by_decide. Qed.

Lemma sendHeartbeat_faithful_witness :
  exists sel r, log_wf r /\ log_int32 r /\ 0 <= logBaseIndex r /\ "n2" <> "" /\
  (logBaseIndex r < map_get (nextIndex r) "n2" <= lastLogIndex r + 1) /\
  (forall i, sel i = Acquired) /\
  (sendHeartbeat_peer (term r) (nodeId r) "n2" r = Some (spawn (GoSendSnapshot "n2") r) \/
   exists prev pt es,
    sendHeartbeat_peer (term r) (nodeId r) "n2" r
      = Some (spawn (GoSendBatches "n2" (term r) (nodeId r) prev pt es (commitIndex r)) r) /\
    prev = map_get (nextIndex r) "n2" - 1 /\
    prev + Z.of_nat (length es) = lastLogIndex r /\
    concat (map b_entries (sendBatchesWithPipeline sel prev pt es)) = es /\
    forall b, b ∈ sendBatchesWithPipeline sel prev pt es ->
      faithful_request r (appendRequest (term r) (nodeId r) (b_prevIdx b) (b_prevTerm b)
                            (b_entries b) (commitIndex r))).
Proof.
  exists (fun _ => Acquired), round_leader.
  assert (log_wf round_leader) as H by by_decide.
  assert (logBaseIndex round_leader < map_get (nextIndex round_leader) "n2"
          <= lastLogIndex round_leader + 1) as Hn by (vm_compute; intuition congruence).
  split; [exact H|]. split; [exact round_leader_int32|]. split; [done|]. split; [done|].
  split; [exact Hn|]. split; [done|].
  apply (sendHeartbeat_faithful (fun _ => Acquired) "n2" round_leader H round_leader_int32);
    done.
Defined.

Lemma round_leader_ready : round_ready "n2" round_leader round_follower.
Proof.
  split_and!; [by_decide|vm_compute; reflexivity|vm_compute; intuition congruence|by_decide|by_decide
    |vm_compute; reflexivity|exact round_match|vm_compute; reflexivity|by_decide|by_decide|].
  intros _. exists (mkLogEntry 1 1 "a"). split; vm_compute; reflexivity.
Qed.

Lemma replicate_round_witness :
  log round_leader <> log round_follower /\
  log (replicate 9 (fun _ => Acquired) "n2" round_leader round_follower).2 = log round_leader /\
  commitIndex (replicate 9 (fun _ => Acquired) "n2" round_leader round_follower).1 = 3 /\
  let '(L', F') := replicate 9 (fun _ => Acquired) "n2" round_leader round_follower in
  log_wf F' /\ logs_match round_leader F' /\ agree_upto round_leader F' (lastLogIndex round_leader) /\
  map_get (matchIndex L') "n2" = lastLogIndex round_leader /\
  map_get (nextIndex L') "n2" = lastLogIndex round_leader + 1 /\
  log L' = log round_leader /\ logBaseIndex L' = logBaseIndex round_leader /\
  term L' = term round_leader.
Proof.
  split; [done|]. split; [vm_compute; reflexivity|]. split; [vm_compute; reflexivity|].
  assert (log_wf round_leader) as HL by by_decide.
  apply (replicate_round 9 (fun _ => Acquired) "n2" round_leader round_follower
    HL round_leader_int32); [done|by_decide|done|done|exact round_leader_ready].
Defined.
