(* ===== verification/Progress.v ===== *)
(** * Progress

    Elections end and proposals commit.  The schedules are spelled out: a
    candidate polls voters one after the other, a leader runs a round of
    replication with one follower after the other ([Sending.replicate]); if the
    nodes reached make up a majority, the candidate leads and the leader's
    newest entry is committed. *)
From stdpp Require Import gmap strings list.
From Stdlib Require Import ZArith Lia.
From S2P Require Import Prelude GoStrings Types Stores Commands RaftNode Membership Election Replication LogMatching Sending.

Local Open Scope Z_scope.

(** ** Elections *)

(** The candidate [C] of election term [T] asks each voter and handles its
    answer; the voters come back in the same order. *)
Fixpoint poll (now T : Z) (C : Raft) (voters : list Raft) : Raft * list Raft :=
  match voters with
  | [] => (C, [])
  | v :: voters =>
    let '(v', resp) := RequestVote now (voteRequest T C) v in
    let '(C', voters') := poll now T (handleVoteResponse resp C) voters in
    (C', v' :: voters')
  end.

(** [C] is running, or has won, the election of term [T] that [r] started. *)
Definition campaigning (r : Raft) (T : Z) (C : Raft) : Prop :=
  nodeId C = nodeId r /\ peers C = peers r /\ log C = log r /\ logBaseIndex C = logBaseIndex r /\
  term C = T /\
  ((state C = Candidate /\ votes C < majority r) \/ (state C = Leader /\ leader C = nodeId r)).

Lemma voteRequest_same T r C :
  nodeId C = nodeId r -> log C = log r -> logBaseIndex C = logBaseIndex r ->
  voteRequest T C = voteRequest T r.
Proof. intros H1 H2 H3. unfold voteRequest, lastLogIndex, lastLogTerm. by rewrite H1, H2, H3. Qed.

Lemma becomeLeader_campaigning r T C :
  nodeId C = nodeId r -> peers C = peers r -> log C = log r -> logBaseIndex C = logBaseIndex r ->
  term C = T -> campaigning r T (becomeLeaderLocked C).
Proof. intros. split_and!; try done. by right. Qed.

(** A vote that can be given is given, for the term of the election. *)
Lemma RequestVote_grants now req v :
  may_vote req v ->
  exists v', RequestVote now req v = (v', mkRequestVoteResponse (int32 (term v)) true) /\
    votedFor v' = rv_CandidateId req /\ term v' = rv_Term req /\ log v' = log v.
Proof.
  intros (Hk & Ht & Hu & Hv). unfold RequestVote. rewrite Hk. cbn [negb].
  rewrite (proj2 (Z.ltb_ge _ _)) by lia. rewrite upToDate_bump, Hu. cbn [negb].
  destruct (bumpTerm_votedFor (rv_Term req) v Ht) as (_ & H1 & H2).
  assert (bool_decide (votedFor (bumpTerm (rv_Term req) v) = "")
          || bool_decide (votedFor (bumpTerm (rv_Term req) v) = rv_CandidateId req) = true) as ->.
  { apply orb_true_iff. rewrite !bool_decide_eq_true.
    destruct (Z.lt_trichotomy (term v) (rv_Term req)) as [Hlt|[Heq|?]]; [left; by apply H1| |lia].
    rewrite (H2 Heq). destruct Hv as [?|Hv]; [lia|done]. }
  eexists. split; [reflexivity|]. split; [done|]. split; [|by apply (bumpTerm_log (rv_Term req) v)].
  simpl. unfold bumpTerm. destruct (term v <? rv_Term req) eqn:E; simpl; lia.
Qed.

(** One more vote. *)
Lemma vote_counted r T t C :
  campaigning r T C -> in_int32 t -> t <= T ->
  let C' := handleVoteResponse (mkRequestVoteResponse (int32 t) true) C in
  campaigning r T C' /\ (state C = Leader -> state C' = Leader) /\
  (state C' = Leader \/ votes C' = votes C + 1).
Proof.
  intros (H1 & H2 & H3 & H4 & H5 & H6) Ht32 Ht C'. unfold C', handleVoteResponse.
  cbn [rvr_Term rvr_VoteGranted]. rewrite int32_id, (proj2 (Z.ltb_ge _ _)) by (done || lia).
  destruct H6 as [[Hs Hv]|[Hs Hl]]; rewrite Hs.
  - rewrite bool_decide_eq_true_2 by done. cbn [negb].
    change (majority (C <| votes := votes C + 1 |>)) with (majority C).
    assert (majority C = majority r) as -> by (unfold majority; by rewrite H2).
    destruct (majority r <=? votes (C <| votes := votes C + 1 |>)) eqn:E; simpl in E.
    + split; [by apply becomeLeader_campaigning|]. split; [done|by left].
    + split; [|split; [done|by right]]. split_and!; try done. left. split; [done|simpl; lia].
  - rewrite bool_decide_eq_false_2 by done. cbn [negb]. split; [|by auto].
    split_and!; try done. by right.
Qed.

Lemma poll_spec now r T voters : forall C,
  campaigning r T C -> in_int32 T ->
  Forall (fun v => may_vote (voteRequest T r) v /\ in_int32 (term v)) voters ->
  let '(C', voters') := poll now T C voters in
  campaigning r T C' /\ Forall (fun v => votedFor v = nodeId r /\ term v = T) voters' /\
  (state C = Leader \/ majority r <= votes C + Z.of_nat (length voters) -> state C' = Leader).
Proof.
  induction voters as [|v voters IH]; intros C HC HT Hv; cbn [poll].
  { split; [done|]. split; [done|]. destruct HC as (_ & _ & _ & _ & _ & [[_ ?]|[? _]]); [|done].
    intros [?|Hm]; [done|]. simpl in Hm. lia. }
  apply Forall_cons in Hv as [[Hmay Hv32] Hv].
  rewrite (voteRequest_same T r C) by apply HC.
  destruct (RequestVote_grants now _ v Hmay) as (v' & -> & Hvote & Hterm & _).
  assert (term v <= T) as Hle.
  { destruct Hmay as (_ & Ht & _). cbn in Ht. by rewrite int32_id in Ht. }
  destruct (vote_counted r T (term v) C HC Hv32 Hle) as (HC1 & Hkeep & Hcount).
  specialize (IH _ HC1 HT Hv). destruct (poll now T (handleVoteResponse _ C) voters) as [C' voters'].
  destruct IH as (K1 & K2 & K3). split; [done|]. split.
  { apply Forall_cons. split; [|done]. cbn in Hvote, Hterm. split; [done|].
    by rewrite Hterm, int32_id. }
  intros Hm. apply K3. destruct Hm as [Hs|Hm]; [by left; apply Hkeep|].
  destruct Hcount as [?| ->]; [by left|right]. cbn [length] in Hm. lia.
Qed.

Lemma startElection_campaigning now r :
  removedFromCluster r = false ->
  let C := startElectionLocked now r in
  campaigning r (term r + 1) C /\ (state C = Leader \/ votes C = 1).
Proof.
  intros Hr C. unfold C, startElectionLocked. rewrite Hr.
  match goal with |- context [majority ?x <=? votes ?y] =>
    change (majority x) with (majority r); change (votes y) with 1 end.
  destruct (majority r <=? 1) eqn:E.
  - split; [by apply becomeLeader_campaigning|by left].
  - split; [|by right]. split_and!; try done. left. split; [done|simpl; lia].
Qed.

(** C10: elections can be won.  When the election timer of a member fires and it
    then reaches voters that, with itself, make up a majority and may vote for
    it (they know it, are in no later term, hold no newer log and gave no vote
    to another candidate of that term), it becomes leader of the next term,
    names itself as leader and keeps its log; every voter asked has given it
    its vote in that term. *)
Theorem election_succeeds now timeout r voters :
  removedFromCluster r = false -> state r <> Leader -> timeout <= now - electionReset r ->
  in_int32 (term r + 1) ->
  Forall (fun v => may_vote (voteRequest (term r + 1) r) v /\ in_int32 (term v)) voters ->
  majority r <= 1 + Z.of_nat (length voters) ->
  let '(C, started) := electionTimer_tick now timeout r in
  let '(L, voters') := poll now (term C) C voters in
  started = true /\ state L = Leader /\ term L = term r + 1 /\ leader L = nodeId r /\
  nodeId L = nodeId r /\ log L = log r /\
  Forall (fun v => votedFor v = nodeId r /\ term v = term r + 1) voters'.
Proof.
  intros Hr Hs Hto HT Hv Hm. unfold electionTimer_tick.
  rewrite Hr, bool_decide_eq_false_2, (proj2 (Z.leb_le _ _)) by done.
  destruct (startElection_campaigning now r Hr) as [HC Hvotes].
  assert (term (startElectionLocked now r) = term r + 1) as -> by apply HC.
  pose proof (poll_spec now r (term r + 1) voters _ HC HT Hv) as Hp.
  destruct (poll now (term r + 1) (startElectionLocked now r) voters) as [L voters'].
  destruct Hp as ((H1 & H2 & H3 & H4 & H5 & H6) & Hf & Hl).
  assert (state L = Leader) as HL.
  { apply Hl. destruct Hvotes as [?| ->]; [by left|by right]. }
  split_and!; try done. by destruct H6 as [[? _]|[_ ?]]; [congruence|].
Qed.

(** ** Commitment *)

(** The leader runs a round with one follower after the other. *)
Fixpoint replicate_all (now : Z) (sel : nat -> select_outcome) (L : Raft)
    (fs : list (NodeID * Raft)) : Raft * list Raft :=
  match fs with
  | [] => (L, [])
  | (p, F) :: fs =>
    let '(L1, F') := replicate now sel p L F in
    let '(L', fs') := replicate_all now sel L1 fs in
    (L', F' :: fs')
  end.

Lemma round_ready_framed p q L L' F :
  framed p L L' -> q <> p -> round_ready q L F -> round_ready q L' F.
Proof.
  intros ((E1 & E2 & E3 & E4) & E5 & _ & _ & Hoth) Hq Hr.
  destruct (Hoth q Hq) as [_ En].
  assert (lastLogIndex L' = lastLogIndex L) as El by (unfold lastLogIndex; by rewrite E1, E2).
  assert (forall i, entryAt L' i = entryAt L i) as Ee
    by (intros i; by apply entryAt_same_log).
  unfold round_ready in *. unfold map_get in *. rewrite En, E2, E3, E4, E5, El, Ee.
  destruct Hr as (H1 & H2 & H3 & H4 & H5 & H6 & H7 & H8). split_and!; try done; try lia.
  intros i x y Hx Hy. rewrite Ee in Hx. intros Ht k Hk1 Hk2 Hk3. rewrite Ee. rewrite E2 in *.
  by apply (H5 i x y Hx Hy Ht k).
Qed.

(** What the leader must be for its rounds to work. *)
Definition serving (L : Raft) : Prop :=
  log_wf L /\ log_int32 L /\ 0 <= logBaseIndex L /\ in_int32 (term L) /\ state L = Leader.

Lemma serving_framed p L L' : framed p L L' -> serving L -> serving L'.
Proof.
  intros ((E1 & E2 & _ & E4) & _ & Es & _) (H1 & H2 & H3 & H4 & H5).
  unfold serving, log_wf, log_int32 in *. by rewrite E1, E2, E4, Es.
Qed.

Lemma agree_same_log L L' F i : same_log L L' -> agree_upto L' F i -> agree_upto L F i.
Proof.
  intros Hs Ha k H1 H2 H3. rewrite <- (entryAt_same_log L L' k Hs). apply Ha; try done.
  by destruct Hs as (_ & -> & _).
Qed.

Lemma replicate_all_spec now sel fs : forall L,
  serving L -> (forall i, sel i = Acquired) -> NoDup fs.*1 ->
  Forall (fun pF => round_ready pF.1 L pF.2) fs ->
  let '(L', fs') := replicate_all now sel L fs in
  same_log L L' /\ state L' = Leader /\
  (forall p, p ∈ fs.*1 -> map_get (matchIndex L') p = lastLogIndex L) /\
  (forall p, p ∉ fs.*1 -> matchIndex L' !! p = matchIndex L !! p) /\
  Forall (fun F => log_wf F /\ agree_upto L F (lastLogIndex L)) fs' /\ length fs' = length fs /\
  ((forall K, ~ committable L K) \/ fs <> [] -> forall K, ~ committable L' K).
Proof.
  induction fs as [|[p F] fs IH]; intros L HL Hsel Hnd Hr; cbn [replicate_all].
  { split_and!; try done; [by apply HL| |by intros [?|?]]. intros p Hp. by apply not_elem_of_nil in Hp. }
  cbn [fmap list_fmap fst] in Hnd. apply NoDup_cons in Hnd as [Hnp Hnd].
  apply Forall_cons in Hr as [Hr Hrs]. cbn [fst snd] in Hr.
  pose proof HL as (H1 & H2 & H3 & H4 & H5).
  pose proof (round_done now sel p L F H1 H2 H3 H4 H5 Hsel Hr) as Hd.
  destruct (replicate now sel p L F) as [L1 F1].
  destruct Hd as (HwfF & _ & Hag & Hmatch & _ & Hfr & Hset).
  pose proof (serving_framed p L L1 Hfr HL) as HL1.
  assert (Forall (fun pF => round_ready pF.1 L1 pF.2) fs) as Hrs1.
  { clear IH. apply Forall_forall. intros [q G] Hin. rewrite Forall_forall in Hrs. cbn [fst snd].
    apply (round_ready_framed p q L); [done| |exact (Hrs (q, G) Hin)].
    intros ->. apply Hnp, list_elem_of_fmap. by exists (p, G). }
  specialize (IH L1 HL1 Hsel Hnd Hrs1).
  destruct (replicate_all now sel L1 fs) as [L' fs'].
  destruct IH as (K1 & K2 & K3 & K4 & K5 & K6 & K7).
  destruct Hfr as (Hs & _ & _ & _ & Hoth).
  assert (lastLogIndex L1 = lastLogIndex L) as El
    by (destruct Hs as (E1 & E2 & _); unfold lastLogIndex; by rewrite E1, E2).
  rewrite El in *. cbn [fmap list_fmap fst length]. split_and!; try done.
  - destruct K1 as (? & ? & ? & ?), Hs as (? & ? & ? & ?). split_and!; congruence.
  - intros q [->|Hq]%elem_of_cons; [|by apply K3].
    unfold map_get in *. by rewrite (K4 p Hnp).
  - intros q Hq. apply not_elem_of_cons in Hq as [Hqp Hq].
    rewrite (K4 q Hq). by apply Hoth.
  - apply Forall_cons. split; [done|]. eapply Forall_impl; [exact K5|].
    intros G [? Hg]. split; [done|]. by apply (agree_same_log L L1).
  - by rewrite K6.
  - intros _. apply K7. by left.
Qed.

(** C9: proposals commit.  A leader whose newest entry is of its own term runs
    one round of replication with followers that, with itself, make up a
    majority (each ready for its round, every batch getting its permit).  Then
    that entry, and everything before it, is committed on the leader, which
    still leads with an unchanged log, and every follower reached holds the
    leader's entries up to it. *)
Theorem majority_commits now sel L fs e :
  serving L -> (forall i, sel i = Acquired) -> NoDup fs.*1 ->
  Forall (fun pF => round_ready pF.1 L pF.2) fs -> fs <> [] ->
  majority L <= 1 + Z.of_nat (length fs) ->
  entryAt L (lastLogIndex L) = Some e -> Term e = term L ->
  let '(L', fs') := replicate_all now sel L fs in
  lastLogIndex L <= commitIndex L' /\ state L' = Leader /\ log L' = log L /\
  length fs' = length fs /\
  Forall (fun F => log_wf F /\ agree_upto L F (lastLogIndex L)) fs'.
Proof.
  intros HL Hsel Hnd Hr Hne Hm He Ht.
  pose proof (replicate_all_spec now sel fs L HL Hsel Hnd Hr) as H.
  destruct (replicate_all now sel L fs) as [L' fs'].
  destruct H as (Hs & K2 & K3 & _ & K5 & K6 & K7).
  pose proof Hs as (E1 & E2 & E3 & E4).
  assert (lastLogIndex L' = lastLogIndex L) as El by (unfold lastLogIndex; by rewrite E1, E2).
  split_and!; try done. destruct (Z_le_gt_dec (lastLogIndex L) (commitIndex L')) as [?|Hgt]; [done|].
  exfalso. apply (K7 (or_intror Hne) (lastLogIndex L)). rewrite <- El. split; [lia|]. split.
  - assert (majority L' = majority L) as -> by (unfold majority; by rewrite E3).
    unfold replicas. rewrite E3, El. etrans; [exact Hm|]. apply Z.add_le_mono_l, Nat2Z.inj_le.
    rewrite <- (length_fmap fst fs). apply submseteq_length, NoDup_submseteq; [done|].
    intros p Hp. apply list_elem_of_filter. split; [by rewrite (K3 p Hp)|].
    apply list_elem_of_fmap in Hp as ([q F] & -> & Hin).
    rewrite Forall_forall in Hr. by apply (Hr (q, F)).
  - exists e. rewrite El, (entryAt_same_log L L') by done. by rewrite E4.
Qed.

(** ** A cluster of three *)

Definition voter_2 : Raft := example_node "n2" ["n1"; "n3"] Follower 1 [mkLogEntry 0 0 ""; mkLogEntry 1 1 "a"].

Definition hopeful : Raft :=
  example_node "n1" ["n2"; "n3"] Follower 1 [mkLogEntry 0 0 ""; mkLogEntry 1 1 "a"; mkLogEntry 2 1 "b"].

Lemma election_succeeds_witness :
  majority hopeful = 2 /\
  let '(C, started) := electionTimer_tick (ms 9000) (ms 1500) hopeful in
  let '(L, voters') := poll (ms 9000) (term C) C [voter_2] in
  started = true /\ state L = Leader /\ term L = term hopeful + 1 /\ leader L = nodeId hopeful /\
  nodeId L = nodeId hopeful /\ log L = log hopeful /\
  Forall (fun v => votedFor v = nodeId hopeful /\ term v = term hopeful + 1) voters'.
Proof.
  split; [reflexivity|].
  apply (election_succeeds (ms 9000) (ms 1500) hopeful [voter_2]).
  - reflexivity.
  - discriminate.
  - vm_compute. discriminate.
  - by_decide.
  - apply Forall_singleton. split; [|by_decide]. split_and!; [reflexivity|vm_compute; discriminate|reflexivity|].
    left. vm_compute. reflexivity.
  - vm_compute. discriminate.
Defined.

Lemma majority_commits_witness :
  majority round_leader = 2 /\
  let '(L', fs') := replicate_all 9 (fun _ => Acquired) round_leader [("n2", round_follower)] in
  lastLogIndex round_leader <= commitIndex L' /\ state L' = Leader /\ log L' = log round_leader /\
  length fs' = 1%nat /\
  Forall (fun F => log_wf F /\ agree_upto round_leader F (lastLogIndex round_leader)) fs'.
Proof.
  split; [reflexivity|].
  destruct (entryAt round_leader (lastLogIndex round_leader)) as [e|] eqn:He; [|discriminate He].
  apply (majority_commits 9 (fun _ => Acquired) round_leader [("n2", round_follower)] e).
  - split; [by_decide|]. split; [exact round_leader_int32|]. split; [by_decide|].
    split; [by_decide|reflexivity].
  - done.
  - apply NoDup_singleton.
  - apply Forall_singleton. exact round_leader_ready.
  - discriminate.
  - vm_compute. discriminate.
  - exact He.
  - vm_compute in He. injection He as <-. reflexivity.
Defined.
