(* ===== verification/SnapshotOps.v ===== *)
(** * Snapshots and log compaction

    raft.go: [createSnapshotLocked], [ForceSnapshot]; rpc.go:
    [InstallSnapshot]; rpc_client.go: [sendSnapshotToFollower].  The
    application's callbacks are outside the raft package: what the snapshotter
    returned is an argument, and the bytes handed to the restorer are a
    result. *)
From stdpp Require Import gmap strings list.
From Stdlib Require Import ZArith Lia.
From S2P Require Import Prelude Types Stores RaftNode Election Replication LogMatching.

Local Open Scope Z_scope.

(** The placeholder at the snapshot boundary, then the entries after it. *)
Definition compactLog (idx t : Z) (l : list LogEntry) : list LogEntry :=
  mkLogEntry idx t "" :: filter (fun e => idx < Index e) l.

(** [nowUnix] is [time.Now().Unix()]; [state] is the snapshotter's result,
    [None] for an error. *)
Definition createSnapshotLocked (nowUnix : Z) (stateBytes : option string) (r : Raft) : Raft :=
  if negb (snapshotter r) then r
  else
    match entryAt r (lastApplied r) with
    | None => r
    | Some entry =>
      if lastApplied r <? 0 then r
      else
        match stateBytes with
        | None => r
        | Some data =>
          let snap := mkSnapshot (lastApplied r) (Term entry) nowUnix data in
          let '(err, fs') := SnapshotStore_Save (snapshotStore r) snap (fs r) in
          let r := r <| fs := fs' |> in
          match err with
          | Some _ => r
          | None =>
            let r := r <| snapshot := Some snap |>
                       <| log := compactLog (LastIncludedIndex snap) (LastIncludedTerm snap) (log r) |>
                       <| logBaseIndex := LastIncludedIndex snap |> in
            (saveLog r).2
          end
        end
    end.

Definition ForceSnapshot (nowUnix : Z) (stateBytes : option string) (r : Raft) : Raft :=
  createSnapshotLocked nowUnix stateBytes r.

(** The third component is what the restorer, if there is one, is given. *)
Definition InstallSnapshot (nowUnix : Z) (req : InstallSnapshotRequest) (r : Raft)
    : Raft * InstallSnapshotResponse * option string :=
  let resp := mkInstallSnapshotResponse (int32 (term r)) in
  if is_Term req <? term r then (r, resp, None)
  else
    let r := bumpTerm (is_Term req) r in
    let snap := mkSnapshot (is_LastIncludedIndex req) (is_LastIncludedTerm req) nowUnix (is_Data req) in
    (* a failed save is logged and otherwise ignored *)
    let r := r <| fs := (SnapshotStore_Save (snapshotStore r) snap (fs r)).2 |> in
    let r := r <| snapshot := Some snap |>
               <| log := compactLog (LastIncludedIndex snap) (LastIncludedTerm snap) (log r) |>
               <| logBaseIndex := LastIncludedIndex snap |> in
    let r := (saveLog r).2 in
    let r := r <| commitIndex := LastIncludedIndex snap |>
               <| lastApplied := LastIncludedIndex snap |> in
    (r, resp, if restorer r then Some (SnapData snap) else None).

(** ** Sending a snapshot

    The goroutine releases the mutex twice: it picks the snapshot, makes the
    call, and records the outcome in the state it finds then. *)

(** In memory, else from the store. *)
Definition snapshotToSend (r : Raft) : option Snapshot * Raft :=
  match snapshot r with
  | Some s => (Some s, r)
  | None =>
    let '((s, err), fs') := SnapshotStore_Load (snapshotStore r) (fs r) in
    (match err with Some _ => None | None => s end, r <| fs := fs' |>)
  end.

Definition snapshotRequest (snap : Snapshot) (r : Raft) : InstallSnapshotRequest :=
  mkInstallSnapshotRequest (int32 (term r)) (nodeId r) (int32 (LastIncludedIndex snap))
    (int32 (LastIncludedTerm snap)) (SnapData snap).

(** After the call, whether it succeeded ([Some]) or failed ([None]). *)
Definition snapshotSent (p : NodeID) (snap : Snapshot) (result : option InstallSnapshotResponse)
    (r : Raft) : Raft :=
  r <| matchIndex := <[p := LastIncludedIndex snap]> (matchIndex r) |>
    <| nextIndex := <[p := LastIncludedIndex snap + 1]> (nextIndex r) |>.

(** ** Compaction *)

Lemma filter_after base idx l :
  contiguous base l ->
  filter (fun e => idx < Index e) l = drop (Z.to_nat (idx + 1 - base)) l.
Proof.
  revert base. induction l as [|e l IH]; intros base Hc; [by rewrite drop_nil|].
  apply contiguous_cons in Hc as [He Hc]. rewrite filter_cons.
  destruct (decide (idx < Index e)) as [Hlt|Hge].
  - rewrite (IH _ Hc). replace (Z.to_nat (idx + 1 - (base + 1))) with 0%nat by lia.
    by replace (Z.to_nat (idx + 1 - base)) with 0%nat by lia.
  - rewrite (IH _ Hc).
    by replace (Z.to_nat (idx + 1 - base)) with (S (Z.to_nat (idx + 1 - (base + 1)))) by lia.
Qed.

Lemma compactLog_wf base idx t l :
  contiguous base l -> base <= idx -> contiguous idx (compactLog idx t l).
Proof.
  intros Hc Hb. apply contiguous_cons. split; [done|]. rewrite (filter_after base) by done.
  intros i e He. rewrite lookup_drop in He. rewrite (Hc _ _ He). lia.
Qed.

(** Above the snapshot nothing changes. *)
Lemma compactLog_above base idx t l k :
  contiguous base l -> base <= idx -> idx < k ->
  at_index idx (compactLog idx t l) k = at_index base l k.
Proof.
  intros Hc Hb Hk. unfold at_index. rewrite !(proj2 (Z.ltb_ge _ _)) by lia.
  unfold compactLog. rewrite (filter_after base) by done.
  replace (Z.to_nat (k - idx)) with (S (Z.to_nat (k - idx - 1))) by lia. rewrite <- lookup_tail. cbn [tail].
  rewrite lookup_drop. f_equal. lia.
Qed.

Lemma compactLog_at idx t l : at_index idx (compactLog idx t l) idx = Some (mkLogEntry idx t "").
Proof.
  unfold at_index. rewrite (proj2 (Z.ltb_ge _ _)) by lia. by rewrite Z.sub_diag.
Qed.

Lemma compactLog_length base idx t l :
  contiguous base l -> base <= idx ->
  idx + Z.of_nat (length (compactLog idx t l)) - 1
  = Z.max idx (base + Z.of_nat (length l) - 1).
Proof.
  intros Hc Hb. unfold compactLog. cbn [length]. rewrite (filter_after base), length_drop by done.
  lia.
Qed.

(** The state after the log was cut at [idx]. *)
Definition compacted (idx t : Z) (r r' : Raft) : Prop :=
  log r' = compactLog idx t (log r) /\ logBaseIndex r' = idx.

Lemma compacted_spec idx t r r' :
  log_wf r -> logBaseIndex r <= idx -> compacted idx t r r' ->
  log_wf r' /\ lastLogIndex r' = Z.max idx (lastLogIndex r) /\
  (forall k, idx < k -> entryAt r' k = entryAt r k) /\
  entryAt r' idx = Some (mkLogEntry idx t "").
Proof.
  intros Hwf Hb [Hl Hbase]. destruct Hwf as [Hne Hc] eqn:E.
  assert (log_wf r') as Hwf'.
  { split; rewrite ?Hbase, Hl; [done|]. by eapply compactLog_wf. }
  split_and!; [done|..].
  - rewrite !lastLogIndex_wf, Hl, Hbase by done. by apply compactLog_length.
  - intros k Hk. rewrite !entryAt_at, Hl, Hbase. by apply compactLog_above.
  - rewrite entryAt_at, Hl, Hbase. apply compactLog_at.
Qed.

(** ** Creating a snapshot *)

Lemma createSnapshot_cases now st r :
  (exists fs', createSnapshotLocked now st r = r <| fs := fs' |>) \/
  (exists entry data fs',
     snapshotter r = true /\ st = Some data /\ 0 <= lastApplied r /\
     entryAt r (lastApplied r) = Some entry /\
     createSnapshotLocked now st r =
       r <| snapshot := Some (mkSnapshot (lastApplied r) (Term entry) now data) |>
         <| log := compactLog (lastApplied r) (Term entry) (log r) |>
         <| logBaseIndex := lastApplied r |> <| fs := fs' |>).
Proof.
  assert (exists fs', r = r <| fs := fs' |>) as Hsame by (exists (fs r); by destruct r).
  unfold createSnapshotLocked. destruct (snapshotter r) eqn:Hs; cbn [negb]; [|by left].
  destruct (entryAt r (lastApplied r)) as [entry|] eqn:He; [|by left].
  destruct (lastApplied r <? 0) eqn:Hneg; [by left|].
  destruct st as [data|]; [|by left].
  destruct (SnapshotStore_Save _ _ _) as [err fs1]. destruct err; [left; by eexists|right].
  cbn [LastIncludedIndex LastIncludedTerm].
  destruct (saveLog_fields (r <| fs := fs1 |>
    <| snapshot := Some (mkSnapshot (lastApplied r) (Term entry) now data) |>
    <| log := compactLog (lastApplied r) (Term entry) (log r) |>
    <| logBaseIndex := lastApplied r |>)) as [fs' Hf].
  exists entry, data, fs'. split_and!; try done; [lia|]. simpl in Hf |- *. by rewrite Hf.
Qed.

(** C22: taking a snapshot only compacts.  Either the in-memory state is
    unchanged (no snapshotter, nothing applied to cut at, the snapshotter or
    the save failed), or the snapshot covers exactly the applied prefix with
    the term of its last entry and the snapshotter's bytes; in both cases the
    log stays well formed, keeps its last index and every entry above the
    applied index, its base is at most the applied index, and term, vote,
    role, commit and applied index do not change. *)
Theorem createSnapshot_spec now st r :
  log_wf r ->
  let r' := createSnapshotLocked now st r in
  log_wf r' /\ lastLogIndex r' = lastLogIndex r /\ same_view r r' /\
  commitIndex r' = commitIndex r /\ lastApplied r' = lastApplied r /\
  (forall k, lastApplied r < k -> entryAt r' k = entryAt r k) /\
  ((log r' = log r /\ logBaseIndex r' = logBaseIndex r /\ snapshot r' = snapshot r) \/
   (exists entry data, st = Some data /\ entryAt r (lastApplied r) = Some entry /\
      logBaseIndex r' = lastApplied r /\
      snapshot r' = Some (mkSnapshot (lastApplied r) (Term entry) now data) /\
      entryAt r' (lastApplied r) = Some (mkLogEntry (lastApplied r) (Term entry) ""))).
Proof.
  intros Hwf r'. subst r'.
  destruct (createSnapshot_cases now st r) as [[fs' ->]|(e & d & fs' & Hs & -> & H0 & He & ->)].
  { split_and!; try done. by left. }
  set (r' := _ <| fs := fs' |>).
  pose proof (entryAt_Some _ _ _ He) as [Hb _].
  destruct (compacted_spec (lastApplied r) (Term e) r r' Hwf) as (H1 & H2 & H3 & H4);
    [lia|done|].
  split_and!; try done.
  - rewrite H2, lastLogIndex_wf by done. lia.
  - right. by exists e, d.
Qed.

(** ** Installing a snapshot *)

Lemma InstallSnapshot_cases now req r :
  let '(r', resp, fed) := InstallSnapshot now req r in
  resp = mkInstallSnapshotResponse (int32 (term r)) /\
  if is_Term req <? term r then r' = r /\ fed = None
  else
    quiet_step r r' /\ term r' = is_Term req /\
    compacted (is_LastIncludedIndex req) (is_LastIncludedTerm req) r r' /\
    commitIndex r' = is_LastIncludedIndex req /\ lastApplied r' = is_LastIncludedIndex req /\
    snapshot r' = Some (mkSnapshot (is_LastIncludedIndex req) (is_LastIncludedTerm req) now
                          (is_Data req)) /\
    fed = (if restorer r then Some (is_Data req) else None).
Proof.
  unfold InstallSnapshot. destruct (is_Term req <? term r) eqn:Ht; [done|].
  pose proof (bumpTerm_quiet (is_Term req) r) as Hq.
  pose proof (bumpTerm_term (is_Term req) r) as Htm.
  destruct (bumpTerm_log (is_Term req) r) as (Hl & _).
  assert (restorer (bumpTerm (is_Term req) r) = restorer r) as Hr
    by (unfold bumpTerm; by destruct (term r <? is_Term req)).
  set (b := bumpTerm (is_Term req) r) in *. cbn [LastIncludedIndex LastIncludedTerm SnapData].
  match goal with |- context [saveLog ?x] => destruct (saveLog_fields x) as [fs' ->] end.
  split; [done|]. simpl. rewrite Hl, Hr. split_and!; try done.
  rewrite Htm. lia.
Qed.

(** C23: [InstallSnapshot].  A request from an older term changes nothing and
    reaches no restorer.  Otherwise, for a snapshot at or above the current
    base, the log stays well formed with the snapshot's index and term as its
    base, the entries after the snapshot are kept unchanged, commit and
    applied index are the snapshot's, and the restorer is given exactly the
    bytes that were sent. *)
Theorem InstallSnapshot_spec now req r :
  log_wf r -> logBaseIndex r <= is_LastIncludedIndex req ->
  let '(r', resp, fed) := InstallSnapshot now req r in
  isr_Term resp = int32 (term r) /\
  if is_Term req <? term r then r' = r /\ fed = None
  else
    log_wf r' /\ term r' = is_Term req /\
    logBaseIndex r' = is_LastIncludedIndex req /\
    entryAt r' (is_LastIncludedIndex req)
      = Some (mkLogEntry (is_LastIncludedIndex req) (is_LastIncludedTerm req) "") /\
    (forall k, is_LastIncludedIndex req < k -> entryAt r' k = entryAt r k) /\
    lastLogIndex r' = Z.max (is_LastIncludedIndex req) (lastLogIndex r) /\
    commitIndex r' = is_LastIncludedIndex req /\ lastApplied r' = is_LastIncludedIndex req /\
    fed = (if restorer r then Some (is_Data req) else None).
Proof.
  intros Hwf Hb. pose proof (InstallSnapshot_cases now req r) as H.
  destruct (InstallSnapshot now req r) as [[r' resp] fed]. destruct H as [-> H].
  split; [done|]. destruct (is_Term req <? term r); [done|].
  destruct H as (_ & Ht & Hc & Hci & Hla & _ & Hf).
  destruct (compacted_spec _ _ _ _ Hwf Hb Hc) as (H1 & H2 & H3 & H4).
  split_and!; try done. apply Hc.
Qed.

(** ** Stale snapshots

    The handler compares terms only, so a delayed or repeated request of the
    current term takes a node back. *)

(** A node that has a snapshot at 5 and has applied 7, and the snapshot at 3
    that an earlier call of the same leader carried. *)
Definition stale_node : Raft :=
  (example_node "n2" ["n1"; "n3"] Follower 1
    [mkLogEntry 5 1 ""; mkLogEntry 6 1 "f"; mkLogEntry 7 1 "g"])
    <| logBaseIndex := 5 |> <| commitIndex := 7 |> <| lastApplied := 7 |>
    <| restorer := true |>.

Definition stale_request : InstallSnapshotRequest := mkInstallSnapshotRequest 1 "n1" 3 1 "old".

(** A delayed snapshot undoes committed work.  A node that has committed
    and applied up to index 7 accepts an older snapshot (index 3) of the same
    term: its commit and applied index go back to 3, the restorer is given
    the old state, and its log is no longer a run of consecutive indexes: at
    index 4, the next to be applied, it finds the empty placeholder of the
    newer snapshot, and at index 5 entry 6. *)
Theorem InstallSnapshot_stale_regresses :
  let '(r', resp, fed) := InstallSnapshot 9 stale_request stale_node in
  log_wf stale_node /\ commitIndex stale_node = 7 /\ lastApplied stale_node = 7 /\
  commitIndex r' = 3 /\ lastApplied r' = 3 /\ fed = Some "old" /\ ~ log_wf r' /\
  entryAt r' 4 = Some (mkLogEntry 5 1 "") /\ entryAt r' 5 = Some (mkLogEntry 6 1 "f").
Proof.
  destruct (InstallSnapshot 9 stale_request stale_node) as [[r' resp] fed] eqn:E.
  assert (log_wf stale_node) as Hwf by by_decide.
  vm_compute in E. injection E as <- <- <-. split; [exact Hwf|].
  split_and!; try reflexivity.
  intros [_ Hc]. specialize (Hc 1%nat _ eq_refl). discriminate Hc.
Qed.

(** ** A snapshot that never arrives *)

Lemma needsSnapshot_sent p snap res r :
  snapshot r = Some snap ->
  needsSnapshot (snapshotSent p snap res r)
    (map_get (nextIndex (snapshotSent p snap res r)) p) = false.
Proof.
  intros Hs. unfold needsSnapshot, snapshotSent, map_get. simpl.
  rewrite Hs, lookup_insert_eq. simpl. lia.
Qed.

(** A failed snapshot transfer is never retried.  Once the leader has
    tried to send its snapshot to a peer, the outcome does not matter: it
    counts the peer as having it, so it sends entries after the snapshot, a
    follower whose log ends before the snapshot refuses them, and the refusal
    leaves the leader's state exactly as it was; the snapshot is not
    scheduled again. *)
Theorem snapshot_lost_forever p snap res now L F t fc es :
  snapshot L = Some snap -> logBaseIndex L = LastIncludedIndex snap ->
  p <> "" -> log_wf L -> 0 < LastIncludedIndex snap ->
  in_int32 (LastIncludedIndex snap) -> in_int32 (term F) -> term F <= term L ->
  log_wf F -> lastLogIndex F < LastIncludedIndex snap ->
  let L' := snapshotSent p snap res L in
  let prev := LastIncludedIndex snap in
  let pt := from_option Term 0 (entryAt L prev) in
  let resp := (AppendEntries now (appendRequest t (nodeId L) prev pt es fc) F).2 in
  sendHeartbeat_peer t (nodeId L) p L'
    = Some (spawn (GoSendBatches p t (nodeId L) prev pt
              (pendingEntries L (prev + 1) (lastLogIndex L)) (commitIndex L)) L') /\
  aer_Success resp = false /\
  sendAppendEntriesBatch p prev es (Some resp) L' = (L', false).
Proof.
  intros Hs Hb Hp HwfL Hpos Hi32 Ht32 Ht HwfF HlF L' prev pt resp.
  assert (map_get (nextIndex L') p = prev + 1) as Hn.
  { unfold L', snapshotSent, map_get. simpl. by rewrite lookup_insert_eq. }
  pose proof (needsSnapshot_sent p snap res L Hs) as Hns. fold L' in Hns. rewrite Hn in Hns.
  pose proof (lastLogIndex_ge L HwfL).
  assert (resp = mkAppendEntriesResponse (int32 (term F)) false) as Hresp.
  { assert (prevLogMatches (appendRequest t (nodeId L) prev pt es fc) F = false) as Hpm.
    { unfold prevLogMatches. cbn [ae_PrevLogIndex appendRequest].
      rewrite int32_id by done. rewrite (proj2 (Z.ltb_lt 0 prev)) by done.
      destruct (prev <? logBaseIndex F); [done|].
      destruct (entryAt F prev) as [y|] eqn:Hy; [|done].
      apply entryAt_Some in Hy as [Hy _]. rewrite lastLogIndex_wf in HlF by done.
      unfold prev in Hy. lia. }
    unfold resp, AppendEntries. destruct (negb (isKnownNode _ _)); [done|].
    destruct (_ <? term F); [done|].
    rewrite (prevLogMatches_log _ F) by apply (bumpTerm_log _ F).
    by rewrite Hpm. }
  split_and!.
  - unfold sendHeartbeat_peer. rewrite bool_decide_eq_false_2 by done.
    rewrite Hn. rewrite (proj2 (Z.eqb_neq _ _)) by lia. rewrite Hns.
    replace (prev + 1 - 1) with prev by lia.
    change (lastLogIndex L') with (lastLogIndex L). unfold prev in *.
    rewrite (proj2 (Z.ltb_ge _ _)) by lia. done.
  - by rewrite Hresp.
  - rewrite Hresp. unfold sendAppendEntriesBatch. cbn [aer_Term aer_Success].
    change (term L') with (term L). rewrite int32_id by done.
    rewrite (proj2 (Z.ltb_ge _ _)) by lia. cbn [negb]. rewrite Hn, Hns.
    change (logBaseIndex L') with (logBaseIndex L). rewrite Hb.
    rewrite (proj2 (Z.ltb_ge _ _)); [done|]. unfold prev. lia.
Qed.

(** ** Concrete runs *)

Definition snap_node : Raft :=
  (example_node "n1" ["n2"; "n3"] Leader 2
    [mkLogEntry 0 0 ""; mkLogEntry 1 1 "a"; mkLogEntry 2 2 "b"; mkLogEntry 3 2 "c"])
    <| commitIndex := 3 |> <| lastApplied := 2 |> <| snapshotter := true |>.

Lemma createSnapshot_spec_witness :
  let r := snap_node in
  let st := Some "kv" in
  let r' := createSnapshotLocked 9 st r in
  log_wf r /\ log r' = [mkLogEntry 2 2 ""; mkLogEntry 3 2 "c"] /\
  (log_wf r' /\ lastLogIndex r' = lastLogIndex r /\ same_view r r' /\
   commitIndex r' = commitIndex r /\ lastApplied r' = lastApplied r /\
   (forall k, lastApplied r < k -> entryAt r' k = entryAt r k) /\
   ((log r' = log r /\ logBaseIndex r' = logBaseIndex r /\ snapshot r' = snapshot r) \/
    (exists entry data, st = Some data /\ entryAt r (lastApplied r) = Some entry /\
       logBaseIndex r' = lastApplied r /\
       snapshot r' = Some (mkSnapshot (lastApplied r) (Term entry) 9 data) /\
       entryAt r' (lastApplied r) = Some (mkLogEntry (lastApplied r) (Term entry) "")))).
Proof.
  cbv zeta. assert (log_wf snap_node) as H by by_decide.
  split; [exact H|]. split; [vm_compute; reflexivity|].
  exact (createSnapshot_spec 9 (Some "kv") snap_node H).
Defined.

Lemma InstallSnapshot_spec_witness :
  let r := snap_node in
  let req := mkInstallSnapshotRequest 5 "n2" 2 2 "kv" in
  log_wf r /\ logBaseIndex r <= is_LastIncludedIndex req /\
  log (InstallSnapshot 9 req r).1.1 = [mkLogEntry 2 2 ""; mkLogEntry 3 2 "c"] /\
  let '(r', resp, fed) := InstallSnapshot 9 req r in
  isr_Term resp = int32 (term r) /\
  if is_Term req <? term r then r' = r /\ fed = None
  else
    log_wf r' /\ term r' = is_Term req /\
    logBaseIndex r' = is_LastIncludedIndex req /\
    entryAt r' (is_LastIncludedIndex req)
      = Some (mkLogEntry (is_LastIncludedIndex req) (is_LastIncludedTerm req) "") /\
    (forall k, is_LastIncludedIndex req < k -> entryAt r' k = entryAt r k) /\
    lastLogIndex r' = Z.max (is_LastIncludedIndex req) (lastLogIndex r) /\
    commitIndex r' = is_LastIncludedIndex req /\ lastApplied r' = is_LastIncludedIndex req /\
    fed = (if restorer r then Some (is_Data req) else None).
Proof.
  cbv zeta. assert (log_wf snap_node) as H by by_decide.
  split; [exact H|]. split; [done|]. split; [vm_compute; reflexivity|].
  apply (InstallSnapshot_spec 9 (mkInstallSnapshotRequest 5 "n2" 2 2 "kv") snap_node H). done.
Defined.

(** A leader with a snapshot at 5 whose transfer to an empty follower failed. *)
Definition lost_leader : Raft :=
  (example_node "n1" ["n2"; "n3"] Leader 1 [mkLogEntry 5 1 ""; mkLogEntry 6 1 "f"])
    <| logBaseIndex := 5 |> <| snapshot := Some (mkSnapshot 5 1 0 "kv") |>.

Definition lost_follower : Raft := example_node "n2" ["n1"; "n3"] Follower 1 [mkLogEntry 0 0 ""].

Lemma snapshot_lost_forever_witness :
  let snap := mkSnapshot 5 1 0 "kv" in
  let L := lost_leader in
  let F := lost_follower in
  let L' := snapshotSent "n2" snap None L in
  let prev := LastIncludedIndex snap in
  let pt := from_option Term 0 (entryAt L prev) in
  let es := pendingEntries L 6 6 in
  let resp := (AppendEntries 9 (appendRequest 1 (nodeId L) prev pt es 0) F).2 in
  sendHeartbeat_peer 1 (nodeId L) "n2" L'
    = Some (spawn (GoSendBatches "n2" 1 (nodeId L) prev pt
              (pendingEntries L (prev + 1) (lastLogIndex L)) (commitIndex L)) L') /\
  aer_Success resp = false /\
  sendAppendEntriesBatch "n2" prev es (Some resp) L' = (L', false).
Proof.
  intros snap L F.
  assert (log_wf L) as HL by by_decide. assert (log_wf F) as HF by by_decide.
  apply (snapshot_lost_forever "n2" snap None 9 L F 1 0);
    first [exact HL | exact HF | reflexivity | by_decide | (vm_compute; congruence)].
Defined.
