(* ===== verification/Applier.v ===== *)
(** * Applying committed entries

    raft.go: [runApplier] and [AppliedWait].  The applier holds the mutex in
    two regions of its loop: it takes the next committed entry
    ([applier_take]), sends it on [applyCh] with the mutex released
    ([applier_send]), then wakes the waiter and may take a snapshot
    ([applier_finish]). *)
From stdpp Require Import gmap strings list.
From Stdlib Require Import ZArith Lia.
From S2P Require Import Prelude Types Stores Commands RaftNode Membership Election Replication LogMatching SnapshotOps.

Local Open Scope Z_scope.

(** [make(chan LogEntry, 128)] *)
Definition applyChCap : nat := 128.

(** The first locked region: [None] when nothing is committed, or when the
    next entry is not in the log (the loop then sleeps and tries again). *)
Definition applier_take (now : Z) (r : Raft) : option (LogEntry * Raft) :=
  if lastApplied r <? commitIndex r then
    let nextIndex := lastApplied r + 1 in
    match entryAt r nextIndex with
    | None => None
    | Some entry =>
      Some (entry, handleConfigChangeIfNeeded now entry (r <| lastApplied := nextIndex |>))
    end
  else None.

Inductive send_result := Sent (r : Raft) | Blocked | SendPanics.

(** [r.applyCh <- entry]: [Stop] closes the channel, and a send on a closed
    channel panics. *)
Definition applier_send (entry : LogEntry) (r : Raft) : send_result :=
  if shutdown r then SendPanics
  else if bool_decide (length (applyCh r) < applyChCap)%nat
  then Sent (r <| applyCh := applyCh r ++ [entry] |>)
  else Blocked.

(** [close(ch); delete(r.waiters, r.lastApplied)] *)
Definition wakeWaiter (r : Raft) : Raft :=
  match waiters r !! lastApplied r with
  | Some ch =>
    r <| closedChans := {[ch]} ∪ closedChans r |>
      <| waiters := delete (lastApplied r) (waiters r) |>
  | None => r
  end.

(** The second locked region. *)
Definition applier_finish (nowUnix : Z) (stateBytes : option string) (r : Raft) : Raft :=
  let r := wakeWaiter r in
  if bool_decide (state r = Leader) && (snapshotCheckThreshold <=? lastApplied r - logBaseIndex r)
  then createSnapshotLocked nowUnix stateBytes r
  else r.

(** The consumer's side of the channel. *)
Definition applyCh_recv (r : Raft) : option (LogEntry * Raft) :=
  match applyCh r with
  | e :: l => Some (e, r <| applyCh := l |>)
  | [] => None
  end.

(** The inner loop while nobody else runs and the consumer keeps up: the
    entries it delivers and the state it leaves.  [fuel] bounds the number of
    turns. *)
Fixpoint applierLoop (fuel : nat) (now nowUnix : Z) (stateBytes : option string) (r : Raft)
    : list LogEntry * Raft :=
  match fuel with
  | O => ([], r)
  | S fuel' =>
    match applier_take now r with
    | None => ([], r)
    | Some (entry, r) =>
      let '(es, r) := applierLoop fuel' now nowUnix stateBytes
                        (applier_finish nowUnix stateBytes r) in
      (entry :: es, r)
    end
  end.

Definition AppliedWait (index : Z) (r : Raft) : Raft * nat :=
  let ch := chanCount r in
  let r := r <| chanCount := S ch |> in
  if index <=? lastApplied r then (r <| closedChans := {[ch]} ∪ closedChans r |>, ch)
  else (r <| waiters := <[index := ch]> (waiters r) |>, ch).

(** ** What a turn of the loop preserves *)

Lemma wakeWaiter_fields r :
  log (wakeWaiter r) = log r /\ logBaseIndex (wakeWaiter r) = logBaseIndex r /\
  commitIndex (wakeWaiter r) = commitIndex r /\ lastApplied (wakeWaiter r) = lastApplied r /\
  same_view r (wakeWaiter r).
Proof. unfold wakeWaiter. by destruct (waiters r !! lastApplied r). Qed.

Lemma createSnapshot_waiters now st r :
  waiters (createSnapshotLocked now st r) = waiters r /\
  closedChans (createSnapshotLocked now st r) = closedChans r.
Proof.
  destruct (createSnapshot_cases now st r) as [[fs' ->]|(e & d & fs' & _ & _ & _ & _ & ->)]; done.
Qed.

Lemma handleConfigChange_waiters now e r :
  waiters (handleConfigChangeIfNeeded now e r) = waiters r /\
  closedChans (handleConfigChangeIfNeeded now e r) = closedChans r.
Proof.
  unfold handleConfigChangeIfNeeded. case_match; [|done]. case_match; [|done].
  unfold applyConfigChangeLocked. split_ifs; done.
Qed.

Lemma handleConfigChange_channel now e r :
  applyCh (handleConfigChangeIfNeeded now e r) = applyCh r.
Proof.
  unfold handleConfigChangeIfNeeded. case_match; [|done]. case_match; [|done].
  unfold applyConfigChangeLocked. split_ifs; done.
Qed.

(** One turn, from [r] to [r'], delivering [e]. *)
Definition applier_turn (r : Raft) (e : LogEntry) (r' : Raft) : Prop :=
  log_wf r' /\ lastLogIndex r' = lastLogIndex r /\ commitIndex r' = commitIndex r /\
  lastApplied r' = lastApplied r + 1 /\ logBaseIndex r' <= lastApplied r' /\
  entryAt r (lastApplied r + 1) = Some e /\
  (forall k, lastApplied r' < k -> entryAt r' k = entryAt r k) /\
  waiters r' = delete (lastApplied r') (waiters r) /\
  closedChans r ⊆ closedChans r' /\
  (forall ch, waiters r !! lastApplied r' = Some ch -> ch ∈ closedChans r').

Lemma createSnapshot_log now st r :
  log_wf r -> logBaseIndex r <= lastApplied r ->
  let r' := createSnapshotLocked now st r in
  log_wf r' /\ lastLogIndex r' = lastLogIndex r /\ commitIndex r' = commitIndex r /\
  lastApplied r' = lastApplied r /\ logBaseIndex r' <= lastApplied r' /\
  (forall k, lastApplied r < k -> entryAt r' k = entryAt r k).
Proof.
  intros Hwf Hb. cbv zeta.
  destruct (createSnapshot_cases now st r) as [[fs' ->]|(e & d & fs' & _ & _ & _ & He & ->)].
  { by split_and!. }
  match goal with |- log_wf ?x /\ _ => set (r' := x) end.
  destruct (compacted_spec (lastApplied r) (Term e) r r' Hwf Hb) as (H1 & H2 & H3 & _); [done|].
  pose proof (entryAt_Some _ _ _ He) as [Hlt _].
  split_and!; try done.
  rewrite H2, lastLogIndex_wf by done. lia.
Qed.

Lemma applier_finish_spec now st r :
  log_wf r -> logBaseIndex r <= lastApplied r ->
  let r' := applier_finish now st r in
  log_wf r' /\ lastLogIndex r' = lastLogIndex r /\ commitIndex r' = commitIndex r /\
  lastApplied r' = lastApplied r /\ logBaseIndex r' <= lastApplied r' /\
  (forall k, lastApplied r < k -> entryAt r' k = entryAt r k) /\
  waiters r' = delete (lastApplied r) (waiters r) /\ closedChans r ⊆ closedChans r' /\
  (forall ch, waiters r !! lastApplied r = Some ch -> ch ∈ closedChans r').
Proof.
  intros Hwf Hb. cbv zeta.
  destruct (wakeWaiter_fields r) as (Hl & Hbw & Hc & Ha & _).
  assert (log_wf (wakeWaiter r)) as Hwf' by (unfold log_wf; by rewrite Hl, Hbw).
  assert (forall k, entryAt (wakeWaiter r) k = entryAt r k) as He
    by (intros k; by rewrite !entryAt_at, Hl, Hbw).
  assert (lastLogIndex (wakeWaiter r) = lastLogIndex r) as Hli
    by (unfold lastLogIndex; by rewrite Hl, Hbw).
  assert (waiters (wakeWaiter r) = delete (lastApplied r) (waiters r) /\
    closedChans r ⊆ closedChans (wakeWaiter r) /\
    (forall ch, waiters r !! lastApplied r = Some ch -> ch ∈ closedChans (wakeWaiter r))) as Hw.
  { unfold wakeWaiter. destruct (waiters r !! lastApplied r) as [c|] eqn:E; simpl.
    - split_and!; [done|set_solver|]. intros ch [= <-]. set_solver.
    - split_and!; [|done|done]. by rewrite delete_id. }
  unfold applier_finish.
  destruct (_ && _).
  - pose proof (createSnapshot_log now st (wakeWaiter r) Hwf' ltac:(lia))
      as (H1 & H2 & H3 & H4 & H5 & H6).
    destruct (createSnapshot_waiters now st (wakeWaiter r)) as [-> ->].
    rewrite H2, H3, H4, Hli, Hc, Ha in *. split_and!; try done; try apply Hw.
    intros k Hk. rewrite H6, He by lia. done.
  - rewrite Hli, Hc, Ha, Hbw. split_and!; try done; try apply Hw.
Qed.

Lemma applier_turn_spec now nowUnix st r e r1 :
  log_wf r -> logBaseIndex r <= lastApplied r -> applier_take now r = Some (e, r1) ->
  applier_turn r e (applier_finish nowUnix st r1).
Proof.
  intros Hwf Hb. unfold applier_take.
  destruct (lastApplied r <? commitIndex r); [|done].
  destruct (entryAt r (lastApplied r + 1)) as [x|] eqn:He; [|done].
  intros [= <- <-].
  set (r0 := r <| lastApplied := lastApplied r + 1 |>).
  destruct (handleConfigChange_log now x r0) as (Hl & Hbb & _ & _ & Hc & Ha).
  destruct (handleConfigChange_waiters now x r0) as [Hw Hcl].
  set (r1 := handleConfigChangeIfNeeded now x r0) in *.
  assert (log_wf r1) as Hwf1 by (unfold log_wf; by rewrite Hl, Hbb).
  assert (lastApplied r1 = lastApplied r + 1) as Ha1 by done.
  assert (logBaseIndex r1 = logBaseIndex r) as Hb1 by done.
  pose proof (applier_finish_spec nowUnix st r1 Hwf1 ltac:(lia))
    as (H1 & H2 & H3 & H4 & H5 & H6 & H7 & H8 & H9).
  assert (lastLogIndex r1 = lastLogIndex r) as Hli by (unfold lastLogIndex; by rewrite Hl, Hbb).
  unfold applier_turn. rewrite H2, H3, H4, Ha1 in *. rewrite Hw, Hcl in *. simpl in *.
  split_and!; try done.
  intros k Hk. rewrite H6 by done. by rewrite !entryAt_at, Hl, Hbb.
Qed.

(** ** The loop *)

Lemma applier_take_Some now r :
  log_wf r -> logBaseIndex r <= lastApplied r -> lastApplied r < commitIndex r ->
  commitIndex r <= lastLogIndex r -> exists e r1, applier_take now r = Some (e, r1).
Proof.
  intros Hwf Hb Hlt Hle. unfold applier_take. rewrite (proj2 (Z.ltb_lt _ _)) by done.
  destruct (entryAt_is_Some r (lastApplied r + 1) Hwf) as [e ->]; [lia|eauto].
Qed.

Lemma applierLoop_spec now nowUnix st n : forall r,
  log_wf r -> logBaseIndex r <= lastApplied r -> commitIndex r <= lastLogIndex r ->
  n = Z.to_nat (commitIndex r - lastApplied r) ->
  let '(es, r') := applierLoop n now nowUnix st r in
  length es = n /\
  (forall i, (i < n)%nat -> es !! i = entryAt r (lastApplied r + 1 + Z.of_nat i)) /\
  lastApplied r' = Z.max (lastApplied r) (commitIndex r) /\ commitIndex r' = commitIndex r /\
  log_wf r' /\ closedChans r ⊆ closedChans r' /\
  (forall k, commitIndex r < k -> entryAt r' k = entryAt r k) /\
  (forall i ch, waiters r !! i = Some ch -> lastApplied r < i <= commitIndex r ->
     ch ∈ closedChans r').
Proof.
  induction n as [|n IH]; intros r Hwf Hb Hle Hn; cbn [applierLoop].
  { split_and!; try done; try lia; intros; lia. }
  destruct (applier_take_Some now r) as (e & r1 & Ht); try done; [lia|]. rewrite Ht.
  pose proof (applier_turn_spec now nowUnix st r e r1 Hwf Hb Ht)
    as (H1 & H2 & H3 & H4 & H5 & H6 & H7 & H8 & H9 & H10).
  specialize (IH (applier_finish nowUnix st r1) H1 H5 ltac:(lia) ltac:(lia)).
  destruct (applierLoop n now nowUnix st _) as [es r'].
  destruct IH as (K1 & K2 & K3 & K4 & K5 & K6 & K7 & K8). rewrite H3, H4 in *.
  split_and!; try done; try lia.
  - simpl. by rewrite K1.
  - intros [|i] Hi; simpl.
    + by rewrite Z.add_0_r.
    + rewrite K2, H7 by lia. f_equal. lia.
  - set_solver.
  - intros k Hk. rewrite K7, H7 by lia. done.
  - intros i ch Hw Hi. destruct (decide (i = lastApplied r + 1)) as [->|Hne].
    + apply K6. by apply H10.
    + apply (K8 i); [|lia]. rewrite H8. by rewrite lookup_delete_ne by lia.
Qed.

(** C21: the applier delivers every committed entry exactly once, in order.
    From a well-formed log, running the loop as long as entries are committed
    delivers precisely the entries after the last applied index up to the
    commit index, in index order; afterwards everything committed is applied,
    every waiter for one of those indexes has been woken, and the entries
    above the commit index are as before, also when a snapshot was taken and
    when membership changes were applied on the way. *)
Theorem applier_drains now nowUnix st r :
  log_wf r -> logBaseIndex r <= lastApplied r -> lastApplied r <= commitIndex r <= lastLogIndex r ->
  let '(es, r') := applierLoop (Z.to_nat (commitIndex r - lastApplied r)) now nowUnix st r in
  Z.of_nat (length es) = commitIndex r - lastApplied r /\
  (forall k e, lastApplied r < k <= commitIndex r ->
     es !! Z.to_nat (k - lastApplied r - 1) = Some e <-> entryAt r k = Some e) /\
  contiguous (lastApplied r + 1) es /\
  lastApplied r' = commitIndex r /\ commitIndex r' = commitIndex r /\ log_wf r' /\
  (forall k, commitIndex r < k -> entryAt r' k = entryAt r k) /\
  (forall i ch, waiters r !! i = Some ch -> lastApplied r < i <= commitIndex r ->
     ch ∈ closedChans r').
Proof.
  intros Hwf Hb [Hac Hcl].
  pose proof (applierLoop_spec now nowUnix st _ r Hwf Hb Hcl eq_refl) as H.
  destruct (applierLoop _ now nowUnix st r) as [es r'].
  destruct H as (H1 & H2 & H3 & H4 & H5 & _ & H7 & H8).
  split_and!; try done; try lia.
  - intros k e Hk. rewrite H2 by lia.
    by replace (lastApplied r + 1 + Z.of_nat (Z.to_nat (k - lastApplied r - 1))) with k by lia.
  - intros i e He. pose proof (lookup_lt_Some _ _ _ He). rewrite H2 in He by lia.
    by apply (entryAt_Index r).
Qed.

(** A leader with 60 committed entries, one of them a membership change, and
    a waiter for index 60; the loop also takes a snapshot at index 50. *)
Definition apply_node : Raft :=
  (example_node "n1" ["n2"; "n3"] Leader 1
    (map (fun k => mkLogEntry (Z.of_nat k) 1
            (if bool_decide (k = 7%nat) then encodeConfigCmd ConfigRemoveNode "n3" else "d"))
       (seq 0 62)))
    <| commitIndex := 60 |> <| waiters := {[60 := 0%nat]} |> <| chanCount := 1%nat |>
    <| snapshotter := true |>.

Lemma applier_drains_witness :
  let r := apply_node in
  log_wf r /\ logBaseIndex r <= lastApplied r /\ lastApplied r <= commitIndex r <= lastLogIndex r /\
  let res := applierLoop (Z.to_nat (commitIndex r - lastApplied r)) 9 9 (Some "kv") r in
  (logBaseIndex res.2 = 50 /\ peers res.2 = ["n2"]) /\
  let '(es, r') := res in
  Z.of_nat (length es) = commitIndex r - lastApplied r /\
  (forall k e, lastApplied r < k <= commitIndex r ->
     es !! Z.to_nat (k - lastApplied r - 1) = Some e <-> entryAt r k = Some e) /\
  contiguous (lastApplied r + 1) es /\
  lastApplied r' = commitIndex r /\ commitIndex r' = commitIndex r /\ log_wf r' /\
  (forall k, commitIndex r < k -> entryAt r' k = entryAt r k) /\
  (forall i ch, waiters r !! i = Some ch -> lastApplied r < i <= commitIndex r ->
     ch ∈ closedChans r').
Proof.
  cbv zeta. assert (log_wf apply_node) as Hwf by by_decide.
  assert (lastApplied apply_node <= commitIndex apply_node <= lastLogIndex apply_node) as Hc
    by (vm_compute; intuition congruence).
  split; [exact Hwf|]. split; [done|]. split; [exact Hc|].
  split; [split; vm_compute; reflexivity|].
  apply (applier_drains 9 9 (Some "kv") apply_node Hwf); done.
Defined.

(** ** Waiters *)

(** [AppliedWait].  The channel returned is fresh; it is closed at once
    exactly when the index is already applied, and otherwise it is the waiter
    registered for that index.  No other channel changes, except that a
    waiter already registered for the same index is forgotten. *)
Theorem AppliedWait_spec index r :
  (forall c, c ∈ closedChans r -> (c < chanCount r)%nat) ->
  let '(r', ch) := AppliedWait index r in
  ch = chanCount r /\ chanCount r' = S (chanCount r) /\
  (ch ∈ closedChans r' <-> index <= lastApplied r) /\
  closedChans r' ∖ {[ch]} = closedChans r /\
  waiters r' = (if index <=? lastApplied r then waiters r else <[index := ch]> (waiters r)).
Proof.
  intros Hfresh. unfold AppliedWait. simpl.
  assert (chanCount r ∉ closedChans r) as Hn by (intros H%Hfresh; lia).
  destruct (index <=? lastApplied r) eqn:E; simpl; split_and!; try done; try set_solver by lia.
Qed.

Lemma AppliedWait_spec_witness :
  let r := apply_node in
  (forall c, c ∈ closedChans r -> (c < chanCount r)%nat) /\
  let '(r', ch) := AppliedWait 61 r in
  ch = chanCount r /\ chanCount r' = S (chanCount r) /\
  (ch ∈ closedChans r' <-> 61 <= lastApplied r) /\
  closedChans r' ∖ {[ch]} = closedChans r /\
  waiters r' = (if 61 <=? lastApplied r then waiters r else <[61 := ch]> (waiters r)).
Proof.
  cbv zeta.
  assert (forall c, c ∈ closedChans apply_node -> (c < chanCount apply_node)%nat) as H
    by (intros c Hc; cbn in Hc; set_solver).
  split; [exact H|]. exact (AppliedWait_spec 61 apply_node H).
Defined.

(** Clients are woken, and snapshots are cut, when an entry is put on the
    channel, not when the store has it.  For any entry the applier takes and
    sends, right after the second locked region the entry is still in the
    channel, unread by the consumer, while its waiter is already woken; and a
    snapshot taken then claims to include that entry. *)
Theorem woken_before_applied now nowUnix st r e r1 r2 :
  log_wf r -> logBaseIndex r <= lastApplied r ->
  applier_take now r = Some (e, r1) -> applier_send e r1 = Sent r2 ->
  let r3 := applier_finish nowUnix st r2 in
  last (applyCh r3) = Some e /\
  (forall ch, waiters r !! Index e = Some ch -> ch ∈ closedChans r3) /\
  (logBaseIndex r3 <> logBaseIndex r2 ->
     exists snap, snapshot r3 = Some snap /\ LastIncludedIndex snap = Index e).
Proof.
  intros Hwf Hb Ht Hs. unfold applier_take in Ht.
  destruct (lastApplied r <? commitIndex r); [|done].
  destruct (entryAt r (lastApplied r + 1)) as [x|] eqn:He; [|done].
  injection Ht as <- Hr1.
  pose proof (entryAt_Index _ _ _ Hwf He) as Hidx.
  set (r0 := r <| lastApplied := lastApplied r + 1 |>) in *.
  destruct (handleConfigChange_log now x r0) as (Hl & Hbb & _ & _ & Hc & Ha).
  destruct (handleConfigChange_waiters now x r0) as [Hw Hcl]. rewrite Hr1 in *.
  unfold applier_send in Hs. destruct (shutdown r1); [done|].
  destruct (bool_decide _); [|done]. injection Hs as <-.
  set (r2 := r1 <| applyCh := applyCh r1 ++ [x] |>) in *.
  assert (applyCh (wakeWaiter r2) = applyCh r1 ++ [x] /\
          lastApplied (wakeWaiter r2) = Index x /\
          logBaseIndex (wakeWaiter r2) = logBaseIndex r2) as (H1 & H2 & H3).
  { unfold wakeWaiter. rewrite Hidx. change (lastApplied r2) with (lastApplied r1).
    by destruct (waiters r2 !! lastApplied r1). }
  assert (forall ch, waiters r !! Index x = Some ch -> ch ∈ closedChans (wakeWaiter r2)) as H4.
  { intros ch Hch. unfold wakeWaiter. change (lastApplied r2) with (lastApplied r1).
    change (waiters r2) with (waiters r1). rewrite Ha, Hw. simpl. rewrite <- Hidx, Hch.
    simpl. set_solver. }
  cbv zeta. unfold applier_finish.
  destruct (_ && _).
  2: { rewrite H1, last_snoc. split_and!; try done. }
  destruct (createSnapshot_waiters nowUnix st (wakeWaiter r2)) as [_ ->].
  destruct (createSnapshot_cases nowUnix st (wakeWaiter r2))
    as [[fs' ->]|(en & d & fs' & _ & _ & _ & _ & ->)]; simpl; rewrite ?H1, ?last_snoc;
    split_and!; try done.
  intros _. eexists. split; [done|]. done.
Qed.

Definition wake_node : Raft := apply_node <| lastApplied := 49 |> <| waiters := {[50 := 0%nat]} |>.

Definition wake_r1 : Raft := wake_node <| lastApplied := 50 |>.

Definition wake_r2 : Raft := wake_r1 <| applyCh := [mkLogEntry 50 1 "d"] |>.

Lemma woken_before_applied_witness :
  applier_take 9 wake_node = Some (mkLogEntry 50 1 "d", wake_r1) /\
  applier_send (mkLogEntry 50 1 "d") wake_r1 = Sent wake_r2 /\
  let r3 := applier_finish 9 (Some "kv") wake_r2 in
  logBaseIndex r3 = 50 /\
  last (applyCh r3) = Some (mkLogEntry 50 1 "d") /\
  (forall ch, waiters wake_node !! Index (mkLogEntry 50 1 "d") = Some ch -> ch ∈ closedChans r3) /\
  (logBaseIndex r3 <> logBaseIndex wake_r2 ->
     exists snap, snapshot r3 = Some snap /\
       LastIncludedIndex snap = Index (mkLogEntry 50 1 "d")).
Proof.
  assert (log_wf wake_node) as Hwf by by_decide.
  assert (applier_take 9 wake_node = Some (mkLogEntry 50 1 "d", wake_r1)) as H1
    by (vm_compute; reflexivity).
  assert (applier_send (mkLogEntry 50 1 "d") wake_r1 = Sent wake_r2) as H2
    by (vm_compute; reflexivity).
  split; [exact H1|]. split; [exact H2|]. cbv zeta. split; [vm_compute; reflexivity|].
  apply (woken_before_applied 9 9 (Some "kv") wake_node _ wake_r1 wake_r2 Hwf); done.
Defined.
