(* ===== verification/Instruments.v ===== *)
(** * Counters, histograms and the registry

    The metrics declared in internal/raft/metrics.go and the places of raft.go
    and rpc.go that count: a metric is registered once, under a name, with a
    fixed number of labels; registering a name twice, or asking for a child with
    another number of label values, is a run-time panic ([None] here).  The
    counted operations wrap the ones of the components. *)
From stdpp Require Import gmap strings list.
From Stdlib Require Import ZArith Lia.
From S2P Require Import Prelude GoStrings Types Stores Commands RaftNode Metrics Election Replication SnapshotOps Applier.

Local Open Scope Z_scope.

Inductive metric_kind := GaugeVec | CounterVec | HistogramVec (buckets : list Z).

(** [prometheus.ExponentialBuckets]; bounds are in microseconds. *)
Definition exponentialBuckets (start factor : Z) (count : nat) : list Z :=
  map (fun k => start * factor ^ Z.of_nat k) (seq 0 count).

Record metric := mkMetric { m_kind : metric_kind; m_name : string; m_labels : list string }.

(** The [var] block, in the order of its initialisation. *)
Definition declared : list metric :=
  [mkMetric GaugeVec "raft_node_is_leader" ["node_id"];
   mkMetric GaugeVec "raft_term" ["node_id"];
   mkMetric GaugeVec "raft_commit_index" ["node_id"];
   mkMetric GaugeVec "raft_last_applied_index" ["node_id"];
   mkMetric GaugeVec "raft_log_length" ["node_id"];
   mkMetric GaugeVec "raft_log_base_index" ["node_id"];
   mkMetric CounterVec "raft_proposals_total" ["node_id"; "status"];
   mkMetric CounterVec "raft_applied_total" ["node_id"];
   mkMetric CounterVec "raft_snapshots_created_total" ["node_id"];
   mkMetric CounterVec "raft_snapshots_installed_total" ["node_id"];
   mkMetric GaugeVec "raft_snapshot_size_bytes" ["node_id"];
   mkMetric (HistogramVec (exponentialBuckets 1000 2 10))
     "raft_rpc_request_vote_duration_seconds" ["node_id"];
   mkMetric (HistogramVec (exponentialBuckets 1000 2 10))
     "raft_rpc_append_entries_duration_seconds" ["node_id"];
   mkMetric (HistogramVec (exponentialBuckets 10000 2 10))
     "raft_rpc_install_snapshot_duration_seconds" ["node_id"];
   mkMetric CounterVec "raft_rpc_errors_total" ["node_id"; "rpc_type"; "error_type"];
   mkMetric GaugeVec "raft_replication_lag" ["node_id"; "peer"]].

(** The default registry. *)
Abbreviation registry := (gmap string metric).

(** [promauto.New...]: a name that is taken panics. *)
Definition register (reg : registry) (m : metric) : option registry :=
  match reg !! m_name m with
  | Some _ => None
  | None => Some (<[m_name m := m]> reg)
  end.

Fixpoint register_all (reg : registry) (l : list metric) : option registry :=
  match l with
  | [] => Some reg
  | m :: l' => reg' ← register reg m; register_all reg' l'
  end.

(** What the metrics of the process have recorded: counts, and durations in
    microseconds. *)
Record recorded_metrics := mkMetrics {
  counts : gmap (string * list string) Z;
  observed : gmap (string * list string) (list Z) }.

#[export] Instance eta_recorded_metrics : Eta recorded_metrics :=
  fun m => mkMetrics (counts m) (observed m).

Definition count_of (m : recorded_metrics) (name : string) (labels : list string) : Z :=
  default 0 (counts m !! (name, labels)).

Section instruments.
Context (reg : registry).

(** [WithLabelValues]: the child of a metric. *)
Definition WithLabelValues (name : string) (values : list string) : option (metric * (string * list string)) :=
  m ← reg !! name;
  if bool_decide (length values = length (m_labels m)) then Some (m, (name, values)) else None.

Definition Inc (name : string) (values : list string) (s : recorded_metrics) : option recorded_metrics :=
  '(m, k) ← WithLabelValues name values;
  match m_kind m with
  | CounterVec => Some (s <| counts := <[k := default 0 (counts s !! k) + 1]> (counts s) |>)
  | _ => None
  end.

Definition Observe (name : string) (values : list string) (d : Z) (s : recorded_metrics)
    : option recorded_metrics :=
  '(m, k) ← WithLabelValues name values;
  match m_kind m with
  | HistogramVec _ => Some (s <| observed := <[k := default [] (observed s !! k) ++ [d]]> (observed s) |>)
  | _ => None
  end.

(** ** The counted operations *)

Definition counted_Propose (d : string) (r : Raft) (s : recorded_metrics)
    : option (Raft * (Z + raft_error) * recorded_metrics) :=
  if negb (bool_decide (state r = Leader)) then
    s ← Inc "raft_proposals_total" [nodeId r; "not_leader"] s;
    Some (Propose d r, s)
  else
    s ← Inc "raft_proposals_total" [nodeId r; "success"] s;
    Some (Propose d r, s).

(** After the send on the channel. *)
Definition counted_send (e : LogEntry) (r : Raft) (s : recorded_metrics)
    : option (send_result * recorded_metrics) :=
  match applier_send e r with
  | Sent r' => s ← Inc "raft_applied_total" [nodeId r] s; Some (Sent r', s)
  | other => Some (other, s)
  end.

(** The end of [createSnapshotLocked] is reached. *)
Definition snapshot_reached (now : Z) (st : option string) (r : Raft) : bool :=
  match entryAt r (lastApplied r), st with
  | Some entry, Some data =>
    snapshotter r && negb (lastApplied r <? 0) &&
    bool_decide ((SnapshotStore_Save (snapshotStore r)
                    (mkSnapshot (lastApplied r) (Term entry) now data) (fs r)).1 = None)
  | _, _ => false
  end.

Definition counted_createSnapshot (now : Z) (st : option string) (r : Raft) (s : recorded_metrics)
    : option (Raft * recorded_metrics) :=
  let r' := createSnapshotLocked now st r in
  if snapshot_reached now st r then
    s ← Inc "raft_snapshots_created_total" [nodeId r] s; Some (r', s)
  else Some (r', s).

Definition counted_InstallSnapshot (now : Z) (req : InstallSnapshotRequest) (r : Raft)
    (s : recorded_metrics) :=
  let res := InstallSnapshot now req r in
  if is_Term req <? term r then Some (res, s)
  else s ← Inc "raft_snapshots_installed_total" [nodeId r] s; Some (res, s).

(** The durations are recorded when the handler returns, on every path. *)
Definition timed_RequestVote (now d : Z) (req : RequestVoteRequest) (r : Raft) (s : recorded_metrics) :=
  let res := RequestVote now req r in
  s ← Observe "raft_rpc_request_vote_duration_seconds" [nodeId r] d s; Some (res, s).

Definition timed_AppendEntries (now d : Z) (req : AppendEntriesRequest) (r : Raft) (s : recorded_metrics) :=
  let res := AppendEntries now req r in
  s ← Observe "raft_rpc_append_entries_duration_seconds" [nodeId r] d s; Some (res, s).
End instruments.

(** ** No panics, and what the counters show *)

Definition default_registry : registry := list_to_map (map (fun m => (m_name m, m)) declared).

Lemma declared_registers : register_all ∅ declared = Some default_registry.
Proof. vm_compute. reflexivity. Qed.

Definition incremented (name : string) (values : list string) (s : recorded_metrics) : recorded_metrics :=
  s <| counts := <[(name, values) := count_of s name values + 1]> (counts s) |>.

Definition timed (name : string) (values : list string) (d : Z) (s : recorded_metrics) : recorded_metrics :=
  s <| observed := <[(name, values) := default [] (observed s !! (name, values)) ++ [d]]> (observed s) |>.

Lemma count_incremented name values s name' values' :
  count_of (incremented name values s) name' values' =
  count_of s name' values' + if bool_decide ((name', values') = (name, values)) then 1 else 0.
Proof.
  unfold count_of at 1, incremented. simpl. case_bool_decide as E.
  - injection E as -> ->. by rewrite lookup_insert_eq.
  - rewrite lookup_insert_ne by congruence. unfold count_of. lia.
Qed.

Lemma counted_Propose_eq d r s :
  counted_Propose default_registry d r s =
  Some (Propose d r, incremented "raft_proposals_total"
    [nodeId r; if bool_decide (state r = Leader) then "success" else "not_leader"] s).
Proof. unfold counted_Propose. by destruct (bool_decide (state r = Leader)). Qed.

(** Whether the snapshot was taken shows in the state. *)
Lemma snapshot_reached_taken now st r :
  let r' := createSnapshotLocked now st r in
  if snapshot_reached now st r
  then logBaseIndex r' = lastApplied r /\ is_Some (snapshot r')
  else exists fs', r' = r <| fs := fs' |>.
Proof.
  assert (exists fs', r = r <| fs := fs' |>) as Hsame by (exists (fs r); by destruct r).
  cbv zeta. unfold snapshot_reached, createSnapshotLocked.
  destruct (entryAt r (lastApplied r)) as [e|]; [|by destruct (negb _)].
  destruct (snapshotter r); [|by destruct st]. cbn [negb].
  destruct st as [data|]; [|by destruct (_ <? 0)].
  destruct (lastApplied r <? 0); [done|]. cbn [negb andb].
  destruct (SnapshotStore_Save _ _ _) as [[err|] fs1] eqn:E; simpl; [by eexists|].
  by match goal with |- context [saveLog ?x] => destruct (saveLog_fields x) as [fs' ->] end.
Qed.

Lemma gauges_declared r name labels :
  is_Some (updateMetrics r ∅ !! (name, labels)) ->
  exists m, default_registry !! name = Some m /\ m_kind m = GaugeVec /\ length labels = length (m_labels m).
Proof.
  unfold updateMetrics, set_gauge. intros H.
  assert (forall lag g, is_Some (set_lags lag r g !! (name, labels)) ->
            (name = "raft_replication_lag" /\ length labels = 2%nat) \/ is_Some (g !! (name, labels))) as Hlag.
  { intros lag g. rewrite set_lags_lookup. destruct labels as [|a [|b [|c l]]]; try (intros ?; by right).
    destruct (bool_decide (name = _ /\ a = _)) eqn:Hb; intros ?; [left|by right].
    apply bool_decide_eq_true_1 in Hb as [-> _]. done. }
  assert ((name = "raft_replication_lag" /\ length labels = 2%nat) \/
    name ∈ ["raft_node_is_leader"; "raft_term"; "raft_commit_index"; "raft_last_applied_index";
            "raft_log_length"; "raft_log_base_index"; "raft_snapshot_size_bytes"] /\ length labels = 1%nat) as Hcase.
  { destruct (bool_decide (state r = Leader)); apply Hlag in H as [?|[x H]]; try (by left); right;
      rewrite !lookup_insert_Some in H;
      repeat (destruct H as [[[= <- <-] _]|[_ H]]; [split; [set_solver|done]|]); done. }
  destruct Hcase as [[-> ->]|[Hin ->]]; [by eexists|].
  repeat (apply elem_of_cons in Hin as [->|Hin]; [by eexists|]). by apply not_elem_of_nil in Hin.
Qed.

(** The instruments never interfere.  Registering the declared metrics does not
    panic, nor does any use of them: every gauge that is set is a declared gauge
    with its number of labels, and every counted or timed operation returns
    exactly what the operation itself returns, with its counter one higher or
    its duration added, and no other. *)
Theorem instruments_transparent s r :
  register_all ∅ declared = Some default_registry /\
  (forall name labels, is_Some (updateMetrics r ∅ !! (name, labels)) ->
     exists m, default_registry !! name = Some m /\ m_kind m = GaugeVec /\
       length labels = length (m_labels m)) /\
  (forall d, counted_Propose default_registry d r s =
     Some (Propose d r, incremented "raft_proposals_total"
       [nodeId r; if bool_decide (state r = Leader) then "success" else "not_leader"] s)) /\
  (forall e r', applier_send e r = Sent r' ->
     counted_send default_registry e r s = Some (Sent r', incremented "raft_applied_total" [nodeId r] s)) /\
  (forall now st, counted_createSnapshot default_registry now st r s =
     Some (createSnapshotLocked now st r,
           if snapshot_reached now st r then incremented "raft_snapshots_created_total" [nodeId r] s else s)) /\
  (forall now req, counted_InstallSnapshot default_registry now req r s =
     Some (InstallSnapshot now req r,
           if is_Term req <? term r then s else incremented "raft_snapshots_installed_total" [nodeId r] s)) /\
  (forall now d req, timed_RequestVote default_registry now d req r s =
     Some (RequestVote now req r, timed "raft_rpc_request_vote_duration_seconds" [nodeId r] d s)) /\
  (forall now d req, timed_AppendEntries default_registry now d req r s =
     Some (AppendEntries now req r, timed "raft_rpc_append_entries_duration_seconds" [nodeId r] d s)).
Proof.
  split; [apply declared_registers|]. split; [apply gauges_declared|]. split_and!.
  - intros d. apply counted_Propose_eq.
  - intros e r' H. unfold counted_send. by rewrite H.
  - intros now st. unfold counted_createSnapshot. by destruct (snapshot_reached now st r).
  - intros now req. unfold counted_InstallSnapshot. by destruct (is_Term req <? term r).
  - done.
  - done.
Qed.

(** ** Proposals are counted *)

Fixpoint counted_proposals (ds : list string) (r : Raft) (s : recorded_metrics)
    : option (Raft * recorded_metrics) :=
  match ds with
  | [] => Some (r, s)
  | d :: ds' => '((r', _), s') ← counted_Propose default_registry d r s; counted_proposals ds' r' s'
  end.

Lemma Propose_length d r :
  let r' := (Propose d r).1 in
  nodeId r' = nodeId r /\ state r' = state r /\
  Z.of_nat (length (log r')) = Z.of_nat (length (log r)) + if bool_decide (state r = Leader) then 1 else 0.
Proof.
  cbv zeta. unfold Propose. destruct (bool_decide (state r = Leader)); cbn [negb]; [|simpl; split_and!; [done..|lia]].
  match goal with |- context [saveLog ?x] => destruct (saveLog_fields x) as [fs' ->] end. simpl.
  rewrite length_app. simpl. split_and!; [done..|lia].
Qed.

(** The proposal counters are exact.  After any series of proposals the counter
    of accepted ones has grown by the number of entries that were appended, and
    the two counters together by the number of proposals made. *)
Theorem proposals_counted ds : forall r s,
  exists r' s', counted_proposals ds r s = Some (r', s') /\
  count_of s' "raft_proposals_total" [nodeId r; "success"]
    - count_of s "raft_proposals_total" [nodeId r; "success"]
    = Z.of_nat (length (log r')) - Z.of_nat (length (log r)) /\
  count_of s' "raft_proposals_total" [nodeId r; "success"]
    + count_of s' "raft_proposals_total" [nodeId r; "not_leader"]
    = count_of s "raft_proposals_total" [nodeId r; "success"]
    + count_of s "raft_proposals_total" [nodeId r; "not_leader"] + Z.of_nat (length ds).
Proof.
  induction ds as [|d ds IH]; intros r s; cbn [counted_proposals].
  { exists r, s. split; [done|]. simpl. lia. }
  rewrite counted_Propose_eq. cbn [mbind option_bind].
  destruct (Propose_length d r) as (Hid & _ & Hlen). destruct (Propose d r) as [r1 res]. cbn [fst] in *.
  set (s1 := incremented _ _ s). destruct (IH r1 s1) as (r' & s' & -> & H1 & H2). rewrite Hid in *.
  exists r', s'. split; [done|]. unfold s1 in *. rewrite !count_incremented in *. cbn [length].
  destruct (bool_decide (state r = Leader));
    rewrite ?(bool_decide_eq_true_2 _ eq_refl) in *;
    rewrite ?(bool_decide_eq_false_2 (_ = _)) in * by (by intros [=]); lia.
Qed.
