(* ===== verification/Admin.v ===== *)
(** * Administrative operations

    raft.go: [proposeConfigChange], [AddNodeInternal], [RemoveNodeInternal],
    [TransferLeadershipInternal] and its goroutine; rpc.go: the gRPC handlers
    [AddNode], [RemoveNode], [TransferLeadership].  A blocking call is split
    where it waits: what it does until it has its channel, and the error it
    returns when the channel is closed or the timer fires first. *)
From stdpp Require Import gmap strings list.
From Stdlib Require Import ZArith Lia.
From S2P Require Import Prelude GoStrings Types Stores Commands RaftNode Membership Election Replication LogMatching SnapshotOps Applier.

Local Open Scope Z_scope.

(** ** Membership changes *)

Definition proposeConfigChange (changeType : ConfigChangeType) (nodeID : NodeID) (r : Raft)
    : Raft * (Z + raft_error) :=
  if negb (bool_decide (state r = Leader)) then (r, inr ErrNotLeader)
  else
    let refused :=
      match changeType with
      | ConfigRemoveNode =>
        if bool_decide (length (peers r) <= 0)%nat then Some ErrCannotRemoveLastPeer
        else if negb (bool_decide (nodeID ∈ peers r)) then Some ErrNodeNotInCluster
        else None
      | ConfigAddNode => None
      end in
    match refused with
    | Some err => (r, inr err)
    | None =>
      let index := lastLogIndex r + 1 in
      let r := r <| log := log r ++ [mkLogEntry index (term r) (encodeConfigCmd changeType nodeID)] |> in
      let '(err, r) := saveLog r in
      match err with
      | Some _ => (r, inr ErrPersist)
      | None => (r, inl index)
      end
    end.

(** Up to the [select]: the channel to wait on, or the error.  [None] is the
    panic of [sendHeartbeats]. *)
Definition configChange_begin (changeType : ConfigChangeType) (nodeID : NodeID) (r : Raft)
    : option (Raft * (nat + raft_error)) :=
  match proposeConfigChange changeType nodeID r with
  | (r, inr err) => Some (r, inr err)
  | (r, inl index) =>
    match sendHeartbeats r with
    | None => None
    | Some r => let '(r, ch) := AppliedWait index r in Some (r, inl ch)
    end
  end.

(** After the [select]: [woken] if the channel was closed in time. *)
Definition AddNodeInternal_end (woken : bool) : option raft_error :=
  if woken then None else Some ErrAddNodeTimedOut.

(** The second component: the connection to the removed node is dropped from
    the pool. *)
Definition RemoveNodeInternal_end (woken : bool) : option raft_error * bool :=
  if woken then (None, true) else (Some ErrRemoveNodeTimedOut, false).

(** ** Leadership transfer *)

Definition TransferLeadershipInternal (targetNodeID : NodeID) (r : Raft)
    : Raft * option raft_error :=
  if negb (bool_decide (state r = Leader)) then (r, Some ErrNotLeader)
  else if bool_decide (targetNodeID = nodeId r) then (r, Some ErrTransferToSelf)
  else if negb (bool_decide (targetNodeID ∈ peers r)) then (r, Some ErrTargetNotInCluster)
  else
    match matchIndex r !! targetNodeID with
    | Some matchIdx =>
      if matchIdx <? commitIndex r then (r, Some ErrTargetNotCaughtUp)
      else (spawn (GoTransferLeadership targetNodeID) r, None)
    | None => (r, Some ErrTargetNotTracked)
    end.

(** The goroutine: the request it sends once the target is dialled, and what
    the answer does ([None]: the dial or the call failed). *)
Definition timeoutNowRequest (r : Raft) : TimeoutNowRequest :=
  mkTimeoutNowRequest (int32 (term r)) (nodeId r).

Definition transferAnswered (target : NodeID) (result : option TimeoutNowResponse) (r : Raft) : Raft :=
  match result with
  | None => r
  | Some resp =>
    if term r <? tnr_Term resp then
      saveMeta (r <| term := tnr_Term resp |> <| state := Follower |> <| votedFor := "" |>
                  <| leader := target |>)
    else r
  end.

(** ** The gRPC handlers

    [internal] is the outcome of the internal call, made only on a leader. *)

Definition adminResponse (osText : string) (internal : option raft_error) : AdminResponse :=
  match internal with
  | Some err => mkAdminResponse false (error_String osText err)
  | None => mkAdminResponse true ""
  end.

Definition TransferLeadership (osText : string) (target : NodeID) (r : Raft) : Raft * AdminResponse :=
  if negb (IsLeader r) then (r, mkAdminResponse false "not leader")
  else
    let '(r, err) := TransferLeadershipInternal target r in
    (r, adminResponse osText err).

(** [AddNode] and [RemoveNode] until they answer or wait. *)
Definition configChangeRPC_begin (osText : string) (changeType : ConfigChangeType)
    (nodeID : NodeID) (r : Raft) : option (Raft * (nat + AdminResponse)) :=
  if negb (IsLeader r) then Some (r, inr (mkAdminResponse false "not leader"))
  else
    match configChange_begin changeType nodeID r with
    | None => None
    | Some (r, inl ch) => Some (r, inl ch)
    | Some (r, inr err) => Some (r, inr (adminResponse osText (Some err)))
    end.

Definition AddNode_end (osText : string) (woken : bool) : AdminResponse :=
  adminResponse osText (AddNodeInternal_end woken).

Definition RemoveNode_end (osText : string) (woken : bool) : AdminResponse :=
  adminResponse osText (RemoveNodeInternal_end woken).1.

(** ** Membership proposals *)

(** The reason a proposal is refused before anything is changed. *)
Definition config_refusal (changeType : ConfigChangeType) (nodeID : NodeID) (r : Raft)
    : option raft_error :=
  if decide (state r = Leader) then
    match changeType with
    | ConfigAddNode => None
    | ConfigRemoveNode =>
      if decide (peers r = []) then Some ErrCannotRemoveLastPeer
      else if decide (nodeID ∈ peers r) then None else Some ErrNodeNotInCluster
    end
  else Some ErrNotLeader.

Lemma proposeConfigChange_cases changeType nodeID r :
  match config_refusal changeType nodeID r with
  | Some err => proposeConfigChange changeType nodeID r = (r, inr err)
  | None =>
    state r = Leader /\
    exists fs', proposeConfigChange changeType nodeID r =
      (r <| log := log r ++ [mkLogEntry (lastLogIndex r + 1) (term r)
                               (encodeConfigCmd changeType nodeID)] |> <| fs := fs' |>,
       match (LogStore_SaveAll (logStore r)
                (log r ++ [mkLogEntry (lastLogIndex r + 1) (term r)
                             (encodeConfigCmd changeType nodeID)]) (fs r)).1 with
       | Some _ => inr ErrPersist
       | None => inl (lastLogIndex r + 1)
       end)
  end.
Proof.
  unfold config_refusal, proposeConfigChange.
  destruct (decide (state r = Leader)) as [Hs|Hs];
    [rewrite bool_decide_eq_true_2 by done|by rewrite bool_decide_eq_false_2 by done].
  cbn [negb].
  assert (forall l, exists fs', saveLog (r <| log := l |>) =
    ((LogStore_SaveAll (logStore r) l (fs r)).1, r <| log := l |> <| fs := fs' |>)) as Hsave.
  { intros l. destruct (saveLog_fields (r <| log := l |>)) as [fs' Hf]. by exists fs'. }
  destruct (Hsave (log r ++ [mkLogEntry (lastLogIndex r + 1) (term r)
              (encodeConfigCmd changeType nodeID)])) as [fs' Hf].
  destruct changeType; cycle 1.
  - destruct (decide (peers r = [])) as [Hp|Hp].
    { by rewrite Hp, bool_decide_eq_true_2 by (simpl; lia). }
    rewrite bool_decide_eq_false_2 by (destruct (peers r); [done|simpl; lia]).
    destruct (decide (nodeID ∈ peers r));
      [rewrite bool_decide_eq_true_2 by done|by rewrite bool_decide_eq_false_2 by done].
    cbn [negb]. split; [done|]. exists fs'. rewrite Hf.
    by destruct (LogStore_SaveAll _ _ _) as [[?|] ?].
  - split; [done|]. exists fs'. rewrite Hf.
    by destruct (LogStore_SaveAll _ _ _) as [[?|] ?].
Qed.

(** C32: proposing a membership change.  The proposal is refused, with nothing
    changed, exactly when the node is not leader, or a removal is asked for in
    a one-node cluster or for a node that is not a peer.  Otherwise the change
    is the next log entry in the leader's term and the rest of the log, the
    peer list, role, term and vote are untouched: the configuration in force
    changes only when the entry is applied.  (If saving the log fails the
    caller gets an error, but the entry is in the log all the same.) *)
Theorem proposeConfigChange_spec changeType nodeID r :
  log_wf r ->
  let '(r', res) := proposeConfigChange changeType nodeID r in
  match config_refusal changeType nodeID r with
  | Some err => r' = r /\ res = inr err
  | None =>
    let e := mkLogEntry (lastLogIndex r + 1) (term r) (encodeConfigCmd changeType nodeID) in
    (res = inl (lastLogIndex r + 1) \/ res = inr ErrPersist) /\
    log_wf r' /\ same_view r r' /\ commitIndex r' = commitIndex r /\
    (forall i, entryAt r' i = if bool_decide (i = lastLogIndex r + 1) then Some e else entryAt r i)
  end.
Proof.
  intros Hwf. pose proof (proposeConfigChange_cases changeType nodeID r) as H.
  destruct (config_refusal changeType nodeID r); [by rewrite H|].
  destruct H as (_ & fs' & ->).
  split; [case_match; auto|]. split; [by apply log_wf_snoc|].
  split_and!; try done. intros i. rewrite entryAt_at. simpl. by rewrite (snoc_entry r).
Qed.

(** A membership change reaches its effect.  When a proposal for a valid
    UTF-8 node name succeeds, the entry in the leader's log, applied by any
    node in any state, performs exactly that addition or removal on the
    node's configuration. *)
Theorem config_change_effect changeType nodeID r r' i :
  log_wf r -> utf8_valid nodeID = true ->
  proposeConfigChange changeType nodeID r = (r', inl i) ->
  exists e, entryAt r' i = Some e /\
  forall now node,
    members (handleConfigChangeIfNeeded now e node)
    = members_after (nodeId node) (bool_decide (changeType = ConfigAddNode)) nodeID (members node).
Proof.
  intros Hwf Hu Hp. pose proof (proposeConfigChange_cases changeType nodeID r) as H.
  destruct (config_refusal changeType nodeID r); [by rewrite H in Hp|].
  destruct H as (_ & fs' & H). rewrite H in Hp. injection Hp as <- Hi.
  destruct (LogStore_SaveAll _ _ _).1; [done|]. injection Hi as <-.
  eexists. split.
  - rewrite entryAt_at. simpl. rewrite (snoc_entry r) by done.
    by rewrite bool_decide_eq_true_2.
  - intros now node. unfold handleConfigChangeIfNeeded. cbn [Data].
    rewrite decodeConfigCmd_encode by done. cbn [cfg_Op cfg_Type cfg_NodeID].
    rewrite Z.eqb_refl, members_apply. by destruct changeType.
Qed.

Definition admin_leader : Raft :=
  (example_node "n1" ["n2"; "n3"] Leader 4 [mkLogEntry 0 0 ""; mkLogEntry 1 4 "a"])
    <| matchIndex := {["n2" := 1; "n3" := 0]} |> <| commitIndex := 1 |> <| leader := "n1" |>.

Lemma proposeConfigChange_spec_witness :
  let r := admin_leader in
  log_wf r /\ config_refusal ConfigRemoveNode "n3" r = None /\
  let '(r', res) := proposeConfigChange ConfigRemoveNode "n3" r in
  match config_refusal ConfigRemoveNode "n3" r with
  | Some err => r' = r /\ res = inr err
  | None =>
    let e := mkLogEntry (lastLogIndex r + 1) (term r) (encodeConfigCmd ConfigRemoveNode "n3") in
    (res = inl (lastLogIndex r + 1) \/ res = inr ErrPersist) /\
    log_wf r' /\ same_view r r' /\ commitIndex r' = commitIndex r /\
    (forall i, entryAt r' i = if bool_decide (i = lastLogIndex r + 1) then Some e else entryAt r i)
  end.
Proof.
  cbv zeta. assert (log_wf admin_leader) as H by by_decide.
  split; [exact H|]. split; [vm_compute; reflexivity|].
  exact (proposeConfigChange_spec ConfigRemoveNode "n3" admin_leader H).
Defined.

Lemma config_change_effect_witness :
  exists r', proposeConfigChange ConfigAddNode "n4" admin_leader = (r', inl 2) /\
  exists e, entryAt r' 2 = Some e /\
  forall now node,
    members (handleConfigChangeIfNeeded now e node)
    = members_after (nodeId node) (bool_decide (ConfigAddNode = ConfigAddNode)) "n4" (members node).
Proof.
  assert (log_wf admin_leader) as H by by_decide.
  assert ((proposeConfigChange ConfigAddNode "n4" admin_leader).2 = inl 2) as H2
    by (vm_compute; reflexivity).
  destruct (proposeConfigChange ConfigAddNode "n4" admin_leader) as [r' res] eqn:E.
  simpl in H2. subst res. exists r'. split; [reflexivity|].
  exact (config_change_effect ConfigAddNode "n4" admin_leader r' 2 H eq_refl E).
Defined.

(** ** Leadership transfer: the handshake *)

(** The reason a transfer is refused. *)
Definition transfer_refusal (target : NodeID) (r : Raft) : option raft_error :=
  if decide (state r = Leader) then
    if decide (target = nodeId r) then Some ErrTransferToSelf
    else if decide (target ∈ peers r) then
      match matchIndex r !! target with
      | None => Some ErrTargetNotTracked
      | Some m => if decide (m < commitIndex r) then Some ErrTargetNotCaughtUp else None
      end
    else Some ErrTargetNotInCluster
  else Some ErrNotLeader.

Lemma TransferLeadershipInternal_eq target r :
  TransferLeadershipInternal target r =
  match transfer_refusal target r with
  | Some err => (r, Some err)
  | None => (spawn (GoTransferLeadership target) r, None)
  end.
Proof.
  unfold TransferLeadershipInternal, transfer_refusal.
  repeat (first [case_bool_decide | case_decide]; cbn [negb]; try done).
  destruct (matchIndex r !! target) as [m|]; [|done].
  destruct (decide (m < commitIndex r)); [by rewrite (proj2 (Z.ltb_lt _ _))|].
  by rewrite (proj2 (Z.ltb_ge _ _)) by lia.
Qed.

(** C33: leadership transfer hands over.  A transfer to a peer that is not known
    to hold every committed entry, to the node itself or to a stranger is
    refused with its reason and changes nothing.  When it is accepted and the
    target, which follows this leader, handles the request, the target starts
    an election in the next term with its own vote, and its answer makes the
    old leader a follower of that term which points clients to the target. *)
Theorem leadership_transfer now target r F :
  in_int32 (term r + 1) -> 0 <= term r ->
  nodeId F = target -> leader F = nodeId r -> term F <= term r -> removedFromCluster F = false ->
  peers F <> [] ->
  let '(r1, err) := TransferLeadershipInternal target r in
  match transfer_refusal target r with
  | Some e => r1 = r /\ err = Some e
  | None =>
    err = None /\
    let '(F', resp) := TimeoutNow now (timeoutNowRequest r1) F in
    let r2 := transferAnswered target (Some resp) r1 in
    tnr_Success resp = true /\
    state F' = Candidate /\ term F' = term r + 1 /\ votedFor F' = target /\
    last (goroutines F') = Some (GoBroadcastRequestVote (term r + 1)) /\
    state r2 = Follower /\ term r2 = term r + 1 /\ leader r2 = target /\ votedFor r2 = ""
  end.
Proof.
  intros Hi Ht0 Hid Hlead Ht Hrem Hpeers. rewrite TransferLeadershipInternal_eq.
  destruct (transfer_refusal target r); [done|]. split; [done|].
  assert (in_int32 (term r)) as Hi' by (unfold in_int32, two31 in *; lia).
  unfold TimeoutNow, timeoutNowRequest, spawn. cbn [tn_LeaderId tn_Term]. simpl.
  rewrite Hlead, bool_decide_eq_true_2 by done. cbn [negb]. rewrite int32_id by done.
  rewrite (proj2 (Z.ltb_ge _ _)) by lia.
  pose proof (bumpTerm_term (term r) F) as Hbt. rewrite Z.max_r in Hbt by lia.
  pose proof (bumpTerm_quiet (term r) F) as Hq.
  assert (nodeId (bumpTerm (term r) F) = target /\ peers (bumpTerm (term r) F) = peers F /\
          removedFromCluster (bumpTerm (term r) F) = false) as (B1 & B2 & B3).
  { destruct Hq as [(?&?&_&_&_&_&?)|(?&?&_&_&_&?)]; split_and!; congruence. }
  set (b := bumpTerm (term r) F) in *. unfold startElectionLocked. rewrite B3.
  rewrite (proj2 (Z.leb_gt _ _)).
  2: { unfold majority. simpl. rewrite B2. destruct (peers F); [done|]. simpl.
       pose proof (Z.div_le_mono 2 (Z.pos (Pos.of_succ_nat (length l)) + 1) 2).
       change (2 / 2) with 1 in *. lia. }
  simpl. rewrite Hbt, B1. rewrite int32_id by done. unfold transferAnswered. cbn [tnr_Term].
  rewrite (proj2 (Z.ltb_lt _ _)) by (simpl; lia). simpl. rewrite last_snoc.
  by split_and!.
Qed.

Lemma leadership_transfer_witness :
  let r := admin_leader in
  let F := (example_node "n2" ["n1"; "n3"] Follower 3 [mkLogEntry 0 0 ""; mkLogEntry 1 4 "a"])
             <| leader := "n1" |> in
  transfer_refusal "n2" r = None /\ transfer_refusal "n3" r = Some ErrTargetNotCaughtUp /\
  let '(r1, err) := TransferLeadershipInternal "n2" r in
  match transfer_refusal "n2" r with
  | Some e => r1 = r /\ err = Some e
  | None =>
    err = None /\
    let '(F', resp) := TimeoutNow 9 (timeoutNowRequest r1) F in
    let r2 := transferAnswered "n2" (Some resp) r1 in
    tnr_Success resp = true /\
    state F' = Candidate /\ term F' = term r + 1 /\ votedFor F' = "n2" /\
    last (goroutines F') = Some (GoBroadcastRequestVote (term r + 1)) /\
    state r2 = Follower /\ term r2 = term r + 1 /\ leader r2 = "n2" /\ votedFor r2 = ""
  end.
Proof.
  intros r F. split; [vm_compute; reflexivity|]. split; [vm_compute; reflexivity|].
  apply (leadership_transfer 9 "n2" r F);
    first [reflexivity | by_decide | (vm_compute; congruence)].
Defined.
