(* ===== verification/Boot.v ===== *)
(** * Starting and stopping a node

    raft.go: [New] and [Stop].  [New] reads the three files of the data
    directory; the theorems relate what it builds to what a node had in
    memory when it last wrote them. *)
From stdpp Require Import gmap strings list.
From Stdlib Require Import ZArith Lia.
From S2P Require Import Prelude GoStrings GoJson Types Stores Commands RaftNode Membership Election Replication LogMatching SnapshotOps.

Local Open Scope Z_scope.

(** [path.Join], for a data directory that is already in its shortest form. *)
Definition joinPath (dir name : string) : string :=
  if bool_decide (dir = "") then name else dir +:+ "/" +:+ name.

(** The log and its base, aligned with the snapshot if there is one. *)
Definition alignLog (entries : list LogEntry) (snap : option Snapshot) : list LogEntry * Z :=
  match snap with
  | None => (entries, from_option Index 0 (head entries))
  | Some s =>
    match entries with
    | e :: es =>
      if Index e =? LastIncludedIndex s then
        (mkLogEntry (LastIncludedIndex s) (LastIncludedTerm s) (Data e) :: es, LastIncludedIndex s)
      else
        (mkLogEntry (LastIncludedIndex s) (LastIncludedTerm s) "" :: e :: es, LastIncludedIndex s)
    | [] => ([mkLogEntry (LastIncludedIndex s) (LastIncludedTerm s) ""], LastIncludedIndex s)
    end
  end.

Definition New (now : Z) (id : NodeID) (initial : list NodeID) (dataDir : string) (fs0 : FS) : Raft :=
  let metaPath := joinPath dataDir "raft-meta.json" in
  let logPath := joinPath dataDir "raft-log.json" in
  let snapPath := joinPath dataDir "raft-snap.json" in
  let '((t, vf, savedPeers, _), fs1) := MetaStore_Load metaPath fs0 in
  let ps := match savedPeers with [] => initial | _ => savedPeers end in
  (* a failed load is logged and leaves no entries *)
  let '((loaded, _), fs2) := LogStore_Load logPath fs1 in
  let entries := match loaded with [] => [mkLogEntry 0 0 ""] | _ => loaded end in
  let '((snap, _), fs3) := SnapshotStore_Load snapPath fs2 in
  let '(l, base) := alignLog entries snap in
  let r :=
    mkRaft id ps Follower t 0 vf now l 0 0 ∅ ∅ [] ∅ "" metaPath logPath base snapPath snap
      false false ∅ false false 0 ∅ [] fs3 in
  let r := replayConfigChanges now r in
  let r :=
    r <| nextIndex := foldl (fun m p => <[p := lastLogIndex r + 1]> m) (nextIndex r) (peers r) |>
      <| matchIndex := foldl (fun m p => <[p := 0]> m) (matchIndex r) (peers r) |> in
  let r :=
    match snap with
    | Some s => r <| commitIndex := LastIncludedIndex s |> <| lastApplied := LastIncludedIndex s |>
    | None => r
    end in
  spawn GoMetricsUpdater (spawn GoApplier (spawn GoElectionTimer r)).

(** [Stop], guarded by a [sync.Once]: both channels are closed once. *)
Definition Stop (r : Raft) : Raft := r <| shutdown := true |>.

(** ** What is on disk *)

(** The three files hold the node's state and there are no faults to come. *)
Definition on_disk (r : Raft) : Prop :=
  faults (fs r) = [] /\
  (MetaStore_Load (meta r) (fs r)).1 = (term r, votedFor r, peers r, None) /\
  (LogStore_Load (logStore r) (fs r)).1 = (log r, None) /\
  (SnapshotStore_Load (snapshotStore r) (fs r)).1 = (snapshot r, None).

(** The snapshot in memory, if any, is the base of the log. *)
Definition snapshot_base (r : Raft) : Prop :=
  match snapshot r with
  | None => True
  | Some s =>
    LastIncludedIndex s = logBaseIndex r /\
    exists l, log r = mkLogEntry (LastIncludedIndex s) (LastIncludedTerm s) "" :: l
  end.

Definition paths_in (dir : string) (r : Raft) : Prop :=
  meta r = joinPath dir "raft-meta.json" /\ logStore r = joinPath dir "raft-log.json" /\
  snapshotStore r = joinPath dir "raft-snap.json".

Lemma ReadFile_faultless path fs : faults fs = [] -> (ReadFile path fs).2 = fs.
Proof. intros H. unfold ReadFile, next_fault. rewrite H. by destruct (files fs !! path). Qed.

Lemma MetaStore_Load_fs path fs : faults fs = [] -> (MetaStore_Load path fs).2 = fs.
Proof.
  intros H. unfold MetaStore_Load. pose proof (ReadFile_faultless path fs H) as Hr.
  destruct (ReadFile path fs) as [[b|e] fs']; simpl in Hr; subst; [|done].
  by destruct (unmarshal _ _ b).
Qed.

Lemma LogStore_Load_fs path fs : faults fs = [] -> (LogStore_Load path fs).2 = fs.
Proof.
  intros H. unfold LogStore_Load. pose proof (ReadFile_faultless path fs H) as Hr.
  destruct (ReadFile path fs) as [[b|[]] fs']; simpl in Hr; subst; [|done|done].
  destruct (parse_json b); [|done]. by destruct (decode_log j).
Qed.

Lemma SnapshotStore_Load_fs path fs : faults fs = [] -> (SnapshotStore_Load path fs).2 = fs.
Proof.
  intros H. unfold SnapshotStore_Load. pose proof (ReadFile_faultless path fs H) as Hr.
  destruct (ReadFile path fs) as [[b|[]] fs']; simpl in Hr; subst; [|done|done].
  by destruct (unmarshal _ _ b).
Qed.

Lemma alignLog_aligned r :
  log_wf r -> snapshot_base r -> alignLog (log r) (snapshot r) = (log r, logBaseIndex r).
Proof.
  intros [Hne Hc] Hs. unfold alignLog, snapshot_base in *.
  destruct (snapshot r) as [s|].
  - destruct Hs as [Hb [l Hl]]. rewrite Hl, Z.eqb_refl. simpl. by rewrite <- Hb.
  - destruct (log r) as [|e l]; [done|]. apply contiguous_cons in Hc as [He _].
    simpl. by rewrite He.
Qed.

(** ** Recovery *)

Lemma handle_all_log now l r :
  log (handle_all now r l) = log r /\ logBaseIndex (handle_all now r l) = logBaseIndex r /\
  term (handle_all now r l) = term r /\ nodeId (handle_all now r l) = nodeId r /\
  commitIndex (handle_all now r l) = commitIndex r /\
  lastApplied (handle_all now r l) = lastApplied r.
Proof.
  revert r. induction l as [|e l IH]; intros r; [done|]. unfold handle_all in *. cbn [foldl].
  destruct (IH (handleConfigChangeIfNeeded now e r)) as (-> & -> & -> & -> & -> & ->).
  apply handleConfigChange_log.
Qed.

(** Replaying membership changes keeps the vote, unless one of them removed
    the node. *)
Lemma handleConfigChange_view now e r :
  let r' := handleConfigChangeIfNeeded now e r in
  snapshot r' = snapshot r /\ (state r = Follower -> state r' = Follower) /\
  (removedFromCluster r' = false ->
     removedFromCluster r = false /\ votedFor r' = votedFor r).
Proof.
  cbv zeta. unfold handleConfigChangeIfNeeded. case_match; [|done]. case_match; [|done].
  unfold applyConfigChangeLocked. split_ifs; done.
Qed.

Lemma handle_all_removed now l r :
  removedFromCluster r = true -> removedFromCluster (handle_all now r l) = true.
Proof.
  revert r. induction l as [|e l IH]; intros r Hr; [done|].
  change (handle_all now r (e :: l)) with (handle_all now (handleConfigChangeIfNeeded now e r) l).
  apply IH. destruct (handleConfigChange_view now e r) as (_ & _ & H).
  destruct (removedFromCluster (handleConfigChangeIfNeeded now e r)); [done|].
  destruct H; congruence.
Qed.

Lemma handle_all_view now l r :
  let r' := handle_all now r l in
  snapshot r' = snapshot r /\ (state r = Follower -> state r' = Follower) /\
  (removedFromCluster r' = false -> votedFor r' = votedFor r).
Proof.
  revert r. induction l as [|e l IH]; intros r; [done|]. cbv zeta.
  change (handle_all now r (e :: l)) with (handle_all now (handleConfigChangeIfNeeded now e r) l).
  destruct (handleConfigChange_view now e r) as (Hs & Hst & Hv).
  destruct (IH (handleConfigChangeIfNeeded now e r)) as (H1 & H2 & H3).
  split_and!.
  - by rewrite H1.
  - auto.
  - intros Hr. rewrite H3 by done. apply Hv.
    destruct (removedFromCluster (handleConfigChangeIfNeeded now e r)) eqn:E; [|done].
    by rewrite handle_all_removed in Hr.
Qed.

Lemma handle_all_snapshotter now l r : snapshotter (handle_all now r l) = snapshotter r.
Proof.
  revert r. induction l as [|e l IH]; intros r; [done|].
  change (handle_all now r (e :: l)) with (handle_all now (handleConfigChangeIfNeeded now e r) l).
  rewrite IH. unfold handleConfigChangeIfNeeded. case_match; [|done]. case_match; [|done].
  unfold applyConfigChangeLocked. by split_ifs.
Qed.

(** What [New] builds before it replays membership changes. *)
Definition booted (now : Z) (id : NodeID) (r : Raft) (fs3 : FS) : Raft :=
  mkRaft id (peers r) Follower (term r) 0 (votedFor r) now (log r) 0 0 ∅ ∅ [] ∅ ""
    (meta r) (logStore r) (logBaseIndex r) (snapshotStore r) (snapshot r)
    false false ∅ false false 0 ∅ [] fs3.

Lemma New_from_disk now id initial dir r :
  on_disk r -> paths_in dir r -> log_wf r -> 0 <= logBaseIndex r -> snapshot_base r ->
  peers r <> [] ->
  exists h nx mx gs,
    h = handle_all now (booted now id r (fs r)) (tail (log r)) /\
    (forall p, p ∈ peers h -> map_get nx p = lastLogIndex h + 1) /\
    New now id initial dir (fs r) =
      h <| nextIndex := nx |> <| matchIndex := mx |>
        <| commitIndex := from_option LastIncludedIndex (commitIndex h) (snapshot r) |>
        <| lastApplied := from_option LastIncludedIndex (lastApplied h) (snapshot r) |>
        <| goroutines := gs |>.
Proof.
  intros (Hf & Hm & Hl & Hs) (P1 & P2 & P3) Hwf Hb Hsb Hp.
  unfold New. rewrite <- P1, <- P2, <- P3.
  pose proof (MetaStore_Load_fs (meta r) (fs r) Hf) as F1.
  destruct (MetaStore_Load (meta r) (fs r)) as [x fs1]. simpl in Hm, F1. subst x fs1.
  pose proof (LogStore_Load_fs (logStore r) (fs r) Hf) as F2.
  destruct (LogStore_Load (logStore r) (fs r)) as [x fs2]. simpl in Hl, F2. subst x fs2.
  pose proof (SnapshotStore_Load_fs (snapshotStore r) (fs r) Hf) as F3.
  destruct (SnapshotStore_Load (snapshotStore r) (fs r)) as [x fs3]. simpl in Hs, F3. subst x fs3.
  replace (match peers r with [] => initial | _ => peers r end) with (peers r)
    by (by destruct (peers r)).
  replace (match log r with [] => [mkLogEntry 0 0 ""] | _ => log r end) with (log r)
    by (destruct Hwf as [Hne _]; by destruct (log r)).
  rewrite alignLog_aligned by done. fold (booted now id r (fs r)).
  rewrite replay_handle_all by done.
  change (log (booted now id r (fs r))) with (log r).
  remember (handle_all now (booted now id r (fs r)) (tail (log r))) as h eqn:Hh. clear Hh.
  eexists h, (foldl (fun m p => <[p := lastLogIndex h + 1]> m) (nextIndex h) (peers h)),
    (foldl (fun m p => <[p := 0]> m) (matchIndex h) (peers h)),
    (((goroutines h ++ [GoElectionTimer]) ++ [GoApplier]) ++ [GoMetricsUpdater]).
  split; [done|]. split; [intros p Hpp; apply foldl_insert_get; by left|].
  destruct (snapshot r) as [s|]; cbn [from_option]; by destruct h.
Qed.

(** C14: a restart loses nothing that was saved.  If the files of the data
    directory hold a node's term, vote, peers, log and snapshot, [New] builds
    a follower with the same term, log, log base and snapshot, that has
    applied exactly what the snapshot covers, and with the same vote (unless
    the log removes the node itself).  Its configuration is the one obtained
    by applying every membership change of the log to whatever configuration
    the saved one was computed from, also when the saved one already contains
    some of those changes. *)
Theorem restart_recovers now initial dir r :
  on_disk r -> paths_in dir r -> log_wf r -> 0 <= logBaseIndex r -> snapshot_base r ->
  peers r <> [] -> removedFromCluster r = false ->
  let r' := New now (nodeId r) initial dir (fs r) in
  state r' = Follower /\ term r' = term r /\ log r' = log r /\
  logBaseIndex r' = logBaseIndex r /\ log_wf r' /\ snapshot r' = snapshot r /\
  (removedFromCluster r' = false -> votedFor r' = votedFor r) /\
  lastApplied r' = from_option LastIncludedIndex 0 (snapshot r) /\
  commitIndex r' = lastApplied r' /\
  (forall c0 k, members r = config_after (nodeId r) c0 (take k (config_changes (tail (log r)))) ->
     members r' = config_after (nodeId r) c0 (config_changes (tail (log r)))).
Proof.
  intros Hd Hpa Hwf Hb Hsb Hp Hrm r'. subst r'.
  destruct (New_from_disk now (nodeId r) initial dir r Hd Hpa Hwf Hb Hsb Hp)
    as (h & nx & mx & gs & Hh & _ & ->).
  set (b := booted now (nodeId r) r (fs r)) in *.
  destruct (handle_all_log now (tail (log r)) b) as (H1 & H2 & H3 & H4 & H5 & H6).
  destruct (handle_all_view now (tail (log r)) b) as (V1 & V2 & V3).
  pose proof (members_handle_all now (tail (log r)) b) as Hmem.
  rewrite <- Hh in *. simpl.
  split_and!; try done.
  - by apply V2.
  - unfold log_wf. simpl. rewrite H1, H2. exact Hwf.
  - by rewrite H6.
  - by rewrite H5, H6.
  - intros c0 k Hk. unfold members in *. simpl. rewrite Hmem. simpl.
    rewrite Hrm in Hk. rewrite Hk. apply config_after_replay.
Qed.

(** ** Durability of proposals *)

Lemma write_and_rename_quiet path data fs :
  faults fs = [] ->
  write_and_rename path data fs =
  (None, fs <| files := <[path := data]> (delete (tmp_path path) (<[tmp_path path := data]> (files fs))) |>).
Proof.
  intros Hf. unfold write_and_rename, WriteFile, Rename, next_fault. rewrite Hf. simpl.
  rewrite Hf. simpl. by rewrite lookup_insert_eq.
Qed.

Lemma quiet_id fs : faults fs = [] -> quiet fs = fs.
Proof. destruct fs. unfold quiet. simpl. by intros ->. Qed.

Lemma joinPath_inj dir a b : joinPath dir a = joinPath dir b -> a = b.
Proof.
  unfold joinPath. case_bool_decide; [done|]. intros H1.
  by apply (inj (String.app dir)) in H1 as [= ->].
Qed.

Lemma tmp_joinPath dir a : tmp_path (joinPath dir a) = joinPath dir (a +:+ ".tmp").
Proof. unfold tmp_path, joinPath. case_bool_decide; [done|]. by rewrite !sapp_assoc. Qed.

(** A load depends on the contents of its file only. *)
Lemma load_same path fs fs' :
  faults fs = [] -> faults fs' = [] -> files fs' !! path = files fs !! path ->
  (MetaStore_Load path fs').1 = (MetaStore_Load path fs).1 /\
  (SnapshotStore_Load path fs').1 = (SnapshotStore_Load path fs).1.
Proof.
  intros H1 H2 Hp.
  unfold MetaStore_Load, SnapshotStore_Load, ReadFile, next_fault. rewrite H1, H2, Hp.
  destruct (files fs !! path) as [b|]; [|done]. split; by destruct (unmarshal _ _ b).
Qed.

Lemma Propose_on_disk data r r' i dir :
  on_disk r -> paths_in dir r -> log_wf r -> snapshot_base r -> Forall entry_int64 (log r') ->
  Propose data r = (r', inl i) ->
  on_disk r' /\ paths_in dir r' /\ log_wf r' /\ snapshot_base r' /\
  logBaseIndex r' = logBaseIndex r /\ peers r' = peers r /\ nodeId r' = nodeId r /\
  entryAt r' i = Some (mkLogEntry i (term r) data).
Proof.
  intros (Hf & Hm & Hl & Hs) (P1 & P2 & P3) Hwf Hsb Hi64 HP. unfold Propose in HP.
  destruct (negb _); [done|].
  set (l' := log r ++ [mkLogEntry (lastLogIndex r + 1) (term r) data]) in *.
  unfold saveLog in HP. simpl in HP.
  destruct (LogStore_SaveAll (logStore r) l' (fs r)) as [err fs'] eqn:E.
  injection HP as <- <-. cbn in Hi64.
  pose proof E as E'. unfold LogStore_SaveAll in E'. rewrite write_and_rename_quiet in E' by done.
  injection E' as Herr Hfs. rewrite <- Herr in E.
  pose proof (LogStore_saved _ _ _ _ _ Hi64 E) as Hload.
  apply write_and_rename_file in E as [_ Hother].
  assert (faults fs' = []) as Hf' by (by rewrite <- Hfs). rewrite quiet_id in Hload by done.
  assert (forall name, name <> "raft-log.json" -> name <> "raft-log.json.tmp" ->
    files fs' !! joinPath dir name = files (fs r) !! joinPath dir name) as Hname.
  { intros name N1 N2. apply Hother; rewrite P2, ?tmp_joinPath; by intros ?%joinPath_inj. }
  split_and!; try done.
  - split_and!; try done; simpl.
    + rewrite <- Hm. rewrite P1 in *. by apply load_same, Hname.
    + rewrite <- Hs. rewrite P3 in *. by apply load_same, Hname.
  - by apply log_wf_snoc.
  - unfold snapshot_base in *. simpl. destruct (snapshot r); [|done].
    destruct Hsb as [Hb [l Hll]]. split; [done|]. unfold l'. rewrite Hll. by eexists.
  - rewrite entryAt_at. simpl. unfold l'.
    rewrite (snoc_entry r) by done. by rewrite bool_decide_eq_true_2.
Qed.

(** C15: an accepted proposal that was saved survives a crash.  After a leader
    accepts a command with no file-system fault, a restart from its disk finds
    the entry at the returned index. *)
Theorem proposal_survives_restart now initial dir data r r' i :
  on_disk r -> paths_in dir r -> log_wf r -> 0 <= logBaseIndex r -> snapshot_base r ->
  peers r <> [] -> Forall entry_int64 (log r') ->
  Propose data r = (r', inl i) ->
  entryAt (New now (nodeId r) initial dir (fs r')) i = Some (mkLogEntry i (term r) data).
Proof.
  intros Hd Hpa Hwf Hb Hsb Hp Hi64 HP.
  destruct (Propose_on_disk data r r' i dir Hd Hpa Hwf Hsb Hi64 HP)
    as (Hd' & Hpa' & Hwf' & Hsb' & Hb' & Hp' & Hid & He).
  destruct (New_from_disk now (nodeId r') initial dir r' Hd' Hpa' Hwf' ltac:(lia) Hsb' ltac:(congruence))
    as (h & nx & mx & gs & Hh & _ & HN).
  rewrite Hid in HN. rewrite HN, entryAt_at. simpl.
  destruct (handle_all_log now (tail (log r')) (booted now (nodeId r') r' (fs r')))
    as (H1 & H2 & _). rewrite <- Hh in H1, H2. rewrite H1, H2.
  simpl. by rewrite <- entryAt_at.
Qed.

(** ** Concrete restarts *)

(** A leader whose files were written by the stores themselves. *)
Definition disk_node : Raft :=
  let r := (example_node "n1" ["n2"; "n4"] Leader 3
             [mkLogEntry 0 0 ""; mkLogEntry 1 2 (encodeConfigCmd ConfigAddNode "n4");
              mkLogEntry 2 3 "a"])
             <| meta := "d/raft-meta.json" |> <| logStore := "d/raft-log.json" |>
             <| snapshotStore := "d/raft-snap.json" |> <| votedFor := "n1" |> in
  (saveLog (saveMeta r)).2.

Lemma disk_node_ok :
  on_disk disk_node /\ paths_in "d" disk_node /\ log_wf disk_node /\ snapshot_base disk_node.
Proof.
  split; [|split; [|split]].
  - split; [|split; [|split]]; vm_compute; reflexivity.
  - split; [|split]; vm_compute; reflexivity.
  - by_decide.
  - exact I.
Qed.

Lemma restart_recovers_witness :
  let r := disk_node in
  let r' := New 9 (nodeId r) [] "d" (fs r) in
  (on_disk r /\ paths_in "d" r /\ log_wf r /\ 0 <= logBaseIndex r /\ snapshot_base r /\
   peers r <> [] /\ removedFromCluster r = false) /\
  peers r' = ["n2"; "n4"] /\
  (state r' = Follower /\ term r' = term r /\ log r' = log r /\
   logBaseIndex r' = logBaseIndex r /\ log_wf r' /\ snapshot r' = snapshot r /\
   (removedFromCluster r' = false -> votedFor r' = votedFor r) /\
   lastApplied r' = from_option LastIncludedIndex 0 (snapshot r) /\
   commitIndex r' = lastApplied r' /\
   (forall c0 k, members r = config_after (nodeId r) c0 (take k (config_changes (tail (log r)))) ->
      members r' = config_after (nodeId r) c0 (config_changes (tail (log r))))).
Proof.
  intros r r'. destruct disk_node_ok as (H1 & H2 & H3 & H4).
  assert (0 <= logBaseIndex r) as H5 by (vm_compute; congruence).
  assert (peers r <> []) as H6 by (vm_compute; congruence).
  assert (removedFromCluster r = false) as H7 by (vm_compute; reflexivity).
  split; [by split_and!|]. split; [vm_compute; reflexivity|].
  exact (restart_recovers 9 [] "d" disk_node H1 H2 H3 H5 H4 H6 H7).
Defined.

Lemma proposal_survives_restart_witness :
  exists r', Propose "b" disk_node = (r', inl 3) /\
  entryAt (New 9 (nodeId disk_node) [] "d" (fs r')) 3
    = Some (mkLogEntry 3 (term disk_node) "b").
Proof.
  destruct disk_node_ok as (H1 & H2 & H3 & H4).
  assert ((Propose "b" disk_node).2 = inl 3) as Hi by (vm_compute; reflexivity).
  assert (Forall entry_int64 (log (Propose "b" disk_node).1)) as H64.
  { apply Forall_forall. intros e He. vm_compute in He.
    repeat (apply elem_of_cons in He as [->|He]; [vm_compute; intuition congruence|]).
    by apply not_elem_of_nil in He. }
  destruct (Propose "b" disk_node) as [r' res] eqn:E. simpl in Hi, H64. subst res.
  exists r'. split; [reflexivity|].
  apply (proposal_survives_restart 9 [] "d" "b" disk_node r' 3 H1 H2 H3);
    try done; vm_compute; congruence.
Defined.

(** ** A crash between the two saves of a compaction *)

Definition torn_node : Raft :=
  let r := (example_node "n1" ["n2"; "n3"] Leader 1
             (map (fun k => mkLogEntry (Z.of_nat k) 1 "d") (seq 0 8)))
             <| meta := "d/raft-meta.json" |> <| logStore := "d/raft-log.json" |>
             <| snapshotStore := "d/raft-snap.json" |> <| snapshotter := true |>
             <| commitIndex := 7 |> <| lastApplied := 5 |> in
  let r := (saveLog (saveMeta r)).2 in
  (* the snapshot is written and renamed; the write of the log then fails *)
  r <| fs := mkFS (files (fs r)) [NoFault; NoFault; Fault None] |>.

(** A crash after the snapshot was saved and before the log was leaves a
    directory the node cannot read back.  The restarted node puts the
    snapshot's placeholder in front of the whole old log: its log is not a run
    of consecutive indexes, index 6 is answered with entry 0, and the applier
    would deliver that entry as the next one. *)
Theorem torn_compaction_misaligns :
  let r := createSnapshotLocked 9 (Some "kv") torn_node in
  let r' := New 9 "n1" ["n2"; "n3"] "d" (fs r) in
  log_wf torn_node /\ log_wf r /\ entryAt r 6 = Some (mkLogEntry 6 1 "d") /\
  ~ log_wf r' /\ lastApplied r' = 5 /\ entryAt r' 6 = Some (mkLogEntry 0 1 "d").
Proof.
  cbv zeta. assert (log_wf torn_node) as H1 by by_decide.
  assert (log_wf (createSnapshotLocked 9 (Some "kv") torn_node)) as H2 by by_decide.
  split; [exact H1|]. split; [exact H2|]. split; [vm_compute; reflexivity|].
  split; [|split; vm_compute; reflexivity].
  intros [_ Hc%contiguousb_spec]. vm_compute in Hc. discriminate Hc.
Qed.
