(* ===== verification/Node.v ===== *)
(** * The node as a state machine

    Every locked region of the raft package is an event; [handle] runs it.
    The invariants here hold along every sequence of events: the term never
    goes back, a vote is never changed within a term, a removed node stays a
    follower, and, as long as the other nodes respect what this one has
    committed, the log invariant and the order of the three indexes. *)
From stdpp Require Import gmap strings list.
From Stdlib Require Import ZArith Lia.
From S2P Require Import Prelude GoStrings Types Stores Commands RaftNode Membership Election Replication LogMatching Sending SnapshotOps Applier Admin Boot.

Local Open Scope Z_scope.

Inductive event :=
  | EvElectionTick (now timeout : Z)
  | EvRequestVote (now : Z) (req : RequestVoteRequest)
  | EvVoteResponse (resp : RequestVoteResponse)
  | EvAppendEntries (now : Z) (req : AppendEntriesRequest)
  | EvInstallSnapshot (now : Z) (req : InstallSnapshotRequest)
  | EvTimeoutNow (now : Z) (req : TimeoutNowRequest)
  | EvPropose (data : string)
  | EvConfigChange (t : ConfigChangeType) (n : NodeID)
  | EvTransfer (target : NodeID)
  | EvTransferAnswered (target : NodeID) (res : option TimeoutNowResponse)
  | EvHeartbeatPeer (capturedTerm : Z) (leaderID p : NodeID)
  | EvSingleNodeCommit
  | EvPipelineSemaphore (p : NodeID)
  | EvBatchAnswered (p : NodeID) (prev : Z) (es : list LogEntry) (res : option AppendEntriesResponse)
  | EvSnapshotPicked
  | EvSnapshotSent (p : NodeID) (s : Snapshot) (res : option InstallSnapshotResponse)
  | EvApplierTake (now : Z)
  | EvApplierSend (e : LogEntry)
  | EvApplierFinish (now : Z) (st : option string)
  | EvConsume
  | EvAppliedWait (i : Z)
  | EvForceSnapshot (now : Z) (st : option string)
  | EvSetSnapshotter
  | EvSetSnapshotRestorer
  | EvStop.

(** [None]: the event cannot happen in this state, or panics. *)
Definition handle (ev : event) (r : Raft) : option Raft :=
  match ev with
  | EvElectionTick now timeout => Some (electionTimer_tick now timeout r).1
  | EvRequestVote now req => Some (RequestVote now req r).1
  | EvVoteResponse resp => Some (handleVoteResponse resp r)
  | EvAppendEntries now req => Some (AppendEntries now req r).1
  | EvInstallSnapshot now req => Some (InstallSnapshot now req r).1.1
  | EvTimeoutNow now req => Some (TimeoutNow now req r).1
  | EvPropose data => Some (Propose data r).1
  | EvConfigChange t n => Some (proposeConfigChange t n r).1
  | EvTransfer n => Some (TransferLeadershipInternal n r).1
  | EvTransferAnswered n res => Some (transferAnswered n res r)
  | EvHeartbeatPeer t lid p => sendHeartbeat_peer t lid p r
  | EvSingleNodeCommit => Some (updateCommitIndexLocked r)
  | EvPipelineSemaphore p => Some (getPipelineSemaphore p r).1
  | EvBatchAnswered p prev es res => Some (sendAppendEntriesBatch p prev es res r).1
  | EvSnapshotPicked => Some (snapshotToSend r).2
  | EvSnapshotSent p s res => Some (snapshotSent p s res r)
  | EvApplierTake now => snd <$> applier_take now r
  | EvApplierSend e => match applier_send e r with Sent r' => Some r' | _ => None end
  | EvApplierFinish now st => Some (applier_finish now st r)
  | EvConsume => snd <$> applyCh_recv r
  | EvAppliedWait i => Some (AppliedWait i r).1
  | EvForceSnapshot now st => Some (ForceSnapshot now st r)
  | EvSetSnapshotter => Some (SetSnapshotter r)
  | EvSetSnapshotRestorer => Some (SetSnapshotRestorer r)
  | EvStop => Some (Stop r)
  end.

(** A run of events. *)
Inductive reaches : Raft -> list event -> Raft -> Prop :=
  | reaches_nil r : reaches r [] r
  | reaches_cons r r' r'' ev evs :
      handle ev r = Some r' -> reaches r' evs r'' -> reaches r (ev :: evs) r''.

(** ** What each event does to terms, votes and roles *)

(** Becoming a candidate, or at once a leader, in the next term. *)
Definition started_election (r r' : Raft) : Prop :=
  nodeId r' = nodeId r /\ peers r' = peers r /\ term r' = term r + 1 /\
  votedFor r' = nodeId r /\ votes r' = 1 /\ removedFromCluster r = false /\
  removedFromCluster r' = false /\
  state r' = (if majority r <=? 1 then Leader else Candidate).

Lemma startElection_view now r :
  removedFromCluster r = true /\ startElectionLocked now r = r \/
  started_election r (startElectionLocked now r).
Proof.
  unfold startElectionLocked. destruct (removedFromCluster r) eqn:Hr; [by left|right].
  match goal with |- context [majority ?x <=? votes ?x] =>
    change (majority x <=? votes x) with (majority r <=? 1) end.
  destruct (majority r <=? 1) eqn:E; unfold started_election; rewrite E; by split_and!.
Qed.

Lemma Propose_view d r : same_view r (Propose d r).1.
Proof.
  unfold Propose. destruct (negb _); [done|].
  match goal with |- context [saveLog ?x] => destruct (saveLog_fields x) as [fs' ->] end. done.
Qed.

Lemma proposeConfigChange_view t n r : same_view r (proposeConfigChange t n r).1.
Proof.
  pose proof (proposeConfigChange_cases t n r) as H.
  destruct (config_refusal t n r); [by rewrite H|].
  destruct H as (_ & fs' & ->). done.
Qed.

Lemma transfer_view n r : same_view r (TransferLeadershipInternal n r).1.
Proof. rewrite TransferLeadershipInternal_eq. by destruct (transfer_refusal n r). Qed.

Lemma transferAnswered_quiet n res r : quiet_step r (transferAnswered n res r).
Proof.
  unfold transferAnswered. destruct res as [resp|]; [|done].
  destruct (term r <? tnr_Term resp) eqn:E; [|done].
  right. unfold stepped_down. simpl. split_and!; try done. lia.
Qed.

Lemma sendHeartbeat_view t lid p r r' :
  sendHeartbeat_peer t lid p r = Some r' -> exists gs, r' = r <| goroutines := gs |>.
Proof.
  unfold sendHeartbeat_peer. intros H. cbv zeta in H. repeat case_match; simplify_eq;
    try (by eexists). exists (goroutines r'). by destruct r'.
Qed.

Lemma updateCommit_view r : same_view r (updateCommitIndexLocked r).
Proof. by destruct (updateCommit_fields r) as [N ->]. Qed.

Lemma batchAnswered_quiet p prev es res r :
  quiet_step r (sendAppendEntriesBatch p prev es res r).1.
Proof.
  unfold sendAppendEntriesBatch. destruct res as [resp|]; [|done].
  destruct (term r <? aer_Term resp) eqn:Et.
  { right. unfold stepped_down. simpl. split_and!; try done. lia. }
  destruct (negb (aer_Success resp)); [by split_ifs; left|].
  destruct (negb _); [done|]. cbv zeta. cbn [fst].
  left. etrans; [|apply updateCommit_view]. destruct (last es); [done|].
  by destruct (logBaseIndex r <=? prev).
Qed.

Lemma createSnapshot_view now st r : same_view r (createSnapshotLocked now st r).
Proof.
  by destruct (createSnapshot_cases now st r) as [[fs' ->]|(e & d & fs' & _ & _ & _ & _ & ->)].
Qed.

Lemma applier_finish_view now st r : same_view r (applier_finish now st r).
Proof.
  unfold applier_finish. destruct (wakeWaiter_fields r) as (_ & _ & _ & _ & H).
  destruct (_ && _); [|done]. etrans; [exact H|apply createSnapshot_view].
Qed.

Lemma InstallSnapshot_quiet now req r : quiet_step r (InstallSnapshot now req r).1.1.
Proof.
  pose proof (InstallSnapshot_cases now req r) as H.
  destruct (InstallSnapshot now req r) as [[r' resp] fed]. destruct H as [_ H]. simpl.
  destruct (is_Term req <? term r); [by destruct H as [-> _]|]. apply H.
Qed.

Lemma AppendEntries_quiet now req r : quiet_step r (AppendEntries now req r).1.
Proof.
  destruct (AppendEntries now req r) as [r' resp] eqn:E.
  apply (AppendEntries_cases _ _ _ _ _ E).
Qed.

#[export] Hint Resolve Propose_view proposeConfigChange_view transfer_view transferAnswered_quiet
  updateCommit_view batchAnswered_quiet createSnapshot_view applier_finish_view
  InstallSnapshot_quiet AppendEntries_quiet : mimori.

(** ** Terms and votes *)

(** From [r] to [r'] the term has not gone back and, within a term, a vote
    that was given has not been changed (a node that is removed from the
    cluster gives up its vote). *)
Definition vote_ok (r r' : Raft) : Prop :=
  nodeId r' = nodeId r /\ term r <= term r' /\
  (removedFromCluster r = true -> removedFromCluster r' = true) /\
  (term r' = term r -> votedFor r <> "" -> removedFromCluster r' = false ->
     votedFor r' = votedFor r).

#[export] Instance vote_ok_refl : Reflexive vote_ok.
Proof. intros r. by split_and!. Qed.

#[export] Instance vote_ok_trans : Transitive vote_ok.
Proof.
  intros a b c (N1 & T1 & R1 & V1) (N2 & T2 & R2 & V2). split_and!; [congruence|lia|auto|].
  intros Ht Hv Hr. assert (removedFromCluster b = false) as Hb.
  { destruct (removedFromCluster b) eqn:E; [|done]. rewrite R2 in Hr; [done|done]. }
  assert (votedFor b = votedFor a) as Hva by (apply V1; [lia|done..]).
  rewrite V2; [done|lia|congruence|done].
Qed.

Lemma quiet_vote_ok r r' : quiet_step r r' -> vote_ok r r'.
Proof.
  intros [(?&?&?&?&?&?&?)|(?&?&?&?&?&?)]; split_and!; try congruence; try lia; intros; lia.
Qed.

Lemma same_view_vote_ok r r' : same_view r r' -> vote_ok r r'.
Proof. intros H. apply quiet_vote_ok. by left. Qed.

Lemma startElection_vote_ok now r : vote_ok r (startElectionLocked now r).
Proof.
  destruct (startElection_view now r) as [[_ ->]|(H1&H2&H3&H4&H5&H6&H7&H8)]; [done|].
  split_and!; try congruence; intros; lia.
Qed.

Lemma RequestVote_vote_ok now req r : vote_ok r (RequestVote now req r).1.
Proof.
  unfold RequestVote. destruct (negb (isKnownNode _ _)); [done|].
  destruct (rv_Term req <? term r) eqn:Et; [done|].
  pose proof (bumpTerm_quiet (rv_Term req) r) as Hq. apply quiet_vote_ok in Hq.
  destruct (negb (upToDate _ _)); [done|].
  destruct (_ || _) eqn:Hv; [|done]. simpl. etrans; [exact Hq|].
  split_and!; try done. simpl. intros _ Hne _.
  apply orb_true_iff in Hv as [Hv|Hv]; boolify; congruence.
Qed.

Lemma handleVoteResponse_vote_ok resp r : vote_ok r (handleVoteResponse resp r).
Proof.
  unfold handleVoteResponse. destruct (term r <? rvr_Term resp) eqn:Et.
  { split_and!; simpl; try done; intros; lia. }
  destruct (negb _); [done|]. destruct (rvr_VoteGranted resp); [|done].
  cbv zeta. destruct (_ <=? _); by split_and!.
Qed.

Lemma handleConfigChange_vote_ok now e r : vote_ok r (handleConfigChangeIfNeeded now e r).
Proof.
  destruct (handleConfigChange_log now e r) as (_ & _ & Ht & Hn & _).
  destruct (handleConfigChange_view now e r) as (_ & _ & Hv).
  split_and!; [done|lia| |].
  - intros Hr. destruct (removedFromCluster (handleConfigChangeIfNeeded now e r)); [done|].
    destruct Hv; congruence.
  - intros _ _ Hr. by apply Hv.
Qed.

Lemma handle_vote_ok ev r r' : handle ev r = Some r' -> vote_ok r r'.
Proof.
  destruct ev; cbn [handle]; intros H;
    try (injection H as <-;
         first [ apply same_view_vote_ok; auto with mimori; done
               | apply quiet_vote_ok; auto with mimori; done
               | apply RequestVote_vote_ok
               | apply handleVoteResponse_vote_ok ]).
  - injection H as <-. unfold electionTimer_tick. split_ifs; try done.
    apply startElection_vote_ok.
  - injection H as <-. unfold TimeoutNow. split_ifs; try done. simpl.
    etrans; [apply quiet_vote_ok, bumpTerm_quiet|apply startElection_vote_ok].
  - by destruct (sendHeartbeat_view _ _ _ _ _ H) as [gs ->].
  - injection H as <-. apply same_view_vote_ok. unfold getPipelineSemaphore.
    by destruct (pipelineSemaphores r !! p).
  - injection H as <-. apply same_view_vote_ok. unfold snapshotToSend.
    destruct (snapshot r); [done|]. by destruct (SnapshotStore_Load _ _) as [[? ?] ?].
  - unfold applier_take in H. destruct (_ <? _); [|done].
    destruct (entryAt _ _); [|done]. injection H as <-.
    etrans; [|apply handleConfigChange_vote_ok]. by apply same_view_vote_ok.
  - unfold applier_send in H. destruct (shutdown r); [done|].
    destruct (bool_decide _); [|done]. injection H as <-. by apply same_view_vote_ok.
  - unfold applyCh_recv in H. destruct (applyCh r); [done|]. injection H as <-.
    by apply same_view_vote_ok.
  - injection H as <-. apply same_view_vote_ok. unfold AppliedWait. by destruct (_ <=? _).
Qed.

(** C11: one vote per term.  Along any sequence of events of a node, whatever
    requests, answers and timeouts it meets, its term never goes back, and
    once it has voted in a term its vote in that term never changes, as long as
    the node is not removed from the cluster.  (Applying its own removal clears
    the vote; the node then stays marked as removed.) *)
Theorem one_vote_per_term r evs r' :
  reaches r evs r' ->
  term r <= term r' /\
  (removedFromCluster r = true -> removedFromCluster r' = true) /\
  (term r' = term r -> votedFor r <> "" -> removedFromCluster r' = false ->
     votedFor r' = votedFor r).
Proof.
  intros H. assert (vote_ok r r') as (_ & H1 & H2 & H3); [|done].
  induction H as [|r r1 r2 ev evs Hh _ IH]; [done|].
  etrans; [by eapply handle_vote_ok|exact IH].
Qed.

(** ** The configuration along a run *)

(** What keeps the membership invariant: same peers, no bookkeeping lost, and
    a node that is or becomes removed a follower. *)
Definition config_kept (r r' : Raft) : Prop :=
  nodeId r' = nodeId r /\ peers r' = peers r /\
  dom (nextIndex r) ⊆ dom (nextIndex r') /\ dom (matchIndex r) ⊆ dom (matchIndex r') /\
  (removedFromCluster r' = true ->
     removedFromCluster r = true /\ (state r' = state r \/ state r' = Follower)).

#[export] Instance config_kept_refl : Reflexive config_kept.
Proof. intros r. split_and!; try done. auto. Qed.

#[export] Instance config_kept_trans : Transitive config_kept.
Proof.
  intros a b c (A1 & A2 & A3 & A4 & A5) (B1 & B2 & B3 & B4 & B5).
  split_and!; [congruence|congruence|set_solver|set_solver|].
  intros Hc. destruct (B5 Hc) as [Hb Hs]. destruct (A5 Hb) as [Ha Hs']. split; [done|].
  destruct Hs as [->|]; [done|by right].
Qed.

Lemma config_inv_kept r r' : config_kept r r' -> config_inv r -> config_inv r'.
Proof.
  intros (H1 & H2 & H3 & H4 & H5) ((Hnd & Hself) & Ht & Hr). split_and!; [split|..].
  - by rewrite H2.
  - by rewrite H1, H2.
  - intros p Hp. rewrite H2 in Hp. destruct (Ht p Hp) as [Hn Hm].
    rewrite <- !elem_of_dom in *. set_solver.
  - intros Hrem. destruct (H5 Hrem) as [Hrr [->|]]; [by apply Hr|done].
Qed.

(** Events that leave the bookkeeping alone. *)
Lemma config_kept_quiet r r' :
  quiet_step r r' -> nextIndex r' = nextIndex r -> matchIndex r' = matchIndex r ->
  config_kept r r'.
Proof.
  intros H Hn Hm. split_and!; [apply (quiet_step_id _ _ H)..|by rewrite Hn|by rewrite Hm|].
  destruct H as [(?&?&?&?&?&?&?)|(?&?&?&?&?&?)]; intros; split; try congruence; auto.
Qed.

Lemma foldl_insert_dom (ps : list NodeID) v (m : gmap NodeID Z) :
  dom m ⊆ dom (foldl (fun m p => <[p := v]> m) m ps).
Proof.
  revert m. induction ps as [|p ps IH]; intros m; [done|]. cbn [foldl].
  etrans; [|apply IH]. rewrite dom_insert_L. set_solver.
Qed.

Lemma becomeLeader_kept r :
  removedFromCluster r = false -> config_kept r (becomeLeaderLocked r).
Proof.
  intros Hr. split_and!; try done; simpl; try apply foldl_insert_dom. congruence.
Qed.

Lemma startElection_kept now r : config_kept r (startElectionLocked now r).
Proof.
  unfold startElectionLocked. destruct (removedFromCluster r) eqn:Hr; [done|].
  match goal with |- context [becomeLeaderLocked ?x] => set (y := x) end.
  assert (config_kept r y) as Hy by (split_and!; simpl; try done; congruence).
  destruct (_ <=? _); etrans; try exact Hy.
  - by apply becomeLeader_kept.
  - split_and!; simpl; try done. congruence.
Qed.

Lemma bumpTerm_kept t r : config_kept r (bumpTerm t r).
Proof.
  apply config_kept_quiet; [apply bumpTerm_quiet|..]; apply (bumpTerm_log t r).
Qed.

Lemma RequestVote_kept now req r : config_kept r (RequestVote now req r).1.
Proof.
  unfold RequestVote. split_ifs; try done; apply (bumpTerm_kept (rv_Term req)).
Qed.

Lemma handleVoteResponse_kept resp r :
  removed_follower r -> config_kept r (handleVoteResponse resp r).
Proof.
  intros Hrf. unfold handleVoteResponse. destruct (_ <? _).
  { split_and!; simpl; try done. auto. }
  destruct (bool_decide (state r = Candidate)) eqn:Hs; boolify; [|done]. cbn [negb].
  destruct (rvr_VoteGranted resp); [|done].
  assert (removedFromCluster r = false) as Hr.
  { destruct (removedFromCluster r) eqn:E; [|done]. rewrite (Hrf E) in Hs. done. }
  cbv zeta. destruct (_ <=? _); split_and!; simpl; try done; try apply foldl_insert_dom;
    congruence.
Qed.

Lemma batchAnswered_kept p prev es res r :
  config_kept r (sendAppendEntriesBatch p prev es res r).1.
Proof.
  assert (forall r' N, config_kept r r' -> config_kept r (r' <| commitIndex := N |>)) as Hci
    by (intros r' N H; apply H).
  assert (forall m n, dom (matchIndex r) ⊆ dom m -> dom (nextIndex r) ⊆ dom n ->
    config_kept r (r <| matchIndex := m |> <| nextIndex := n |>)) as Hins
    by (intros; split_and!; simpl; try done; auto).
  unfold sendAppendEntriesBatch. destruct res as [resp|]; [|done].
  destruct (term r <? aer_Term resp); [split_and!; simpl; try done; auto|].
  destruct (negb (aer_Success resp)).
  { split_ifs; try done; [split_and!; simpl; try done; auto|].
    split_and!; simpl; try done; [rewrite dom_insert_L; set_solver|auto]. }
  destruct (negb _); [done|]. cbv zeta. cbn [fst].
  match goal with |- context [updateCommitIndexLocked ?x] =>
    destruct (updateCommit_fields x) as [N ->] end.
  apply Hci. destruct (last es); [apply Hins; rewrite dom_insert_L; set_solver|].
  destruct (logBaseIndex r <=? prev); [apply Hins; rewrite dom_insert_L; set_solver|done].
Qed.

Lemma AppendEntries_kept now req r : config_kept r (AppendEntries now req r).1.
Proof.
  apply config_kept_quiet; [apply AppendEntries_quiet|..]; unfold AppendEntries;
    split_ifs; try done; try (apply (bumpTerm_log (ae_Term req) r));
    match goal with |- context [saveLog ?x] => destruct (saveLog_fields x) as [fs' ->] end;
    rewrite advanceCommit_eq; apply (bumpTerm_log (ae_Term req) r).
Qed.

Lemma InstallSnapshot_kept now req r : config_kept r (InstallSnapshot now req r).1.1.
Proof.
  apply config_kept_quiet; [apply InstallSnapshot_quiet|..]; unfold InstallSnapshot;
    destruct (_ <? _); try done;
    match goal with |- context [saveLog ?x] => destruct (saveLog_fields x) as [fs' ->] end;
    apply (bumpTerm_log (is_Term req) r).
Qed.

Lemma same_log_kept r r' :
  same_view r r' -> nextIndex r' = nextIndex r -> matchIndex r' = matchIndex r -> config_kept r r'.
Proof. intros H. apply config_kept_quiet. by left. Qed.

Lemma createSnapshot_kept now st r : config_kept r (createSnapshotLocked now st r).
Proof.
  by destruct (createSnapshot_cases now st r) as [[fs' ->]|(e & d & fs' & _ & _ & _ & _ & ->)];
    apply same_log_kept.
Qed.

Lemma handle_config_inv ev r r' : handle ev r = Some r' -> config_inv r -> config_inv r'.
Proof.
  intros H Hinv. pose proof Hinv as (_ & _ & Hrf).
  destruct ev; cbn [handle] in H;
    try (injection H as <-; eapply config_inv_kept; [|exact Hinv];
         first [ apply RequestVote_kept | by apply handleVoteResponse_kept
               | apply AppendEntries_kept | apply InstallSnapshot_kept
               | apply batchAnswered_kept | apply createSnapshot_kept | done ]).
  - injection H as <-. eapply config_inv_kept; [|exact Hinv].
    unfold electionTimer_tick. split_ifs; try done. apply startElection_kept.
  - injection H as <-. eapply config_inv_kept; [|exact Hinv].
    unfold TimeoutNow. split_ifs; try done. simpl.
    etrans; [apply bumpTerm_kept|apply startElection_kept].
  - injection H as <-. eapply config_inv_kept; [|exact Hinv].
    apply same_log_kept; [apply Propose_view|..]; unfold Propose; split_ifs; try done;
      by match goal with |- context [saveLog ?x] => destruct (saveLog_fields x) as [fs' ->] end.
  - injection H as <-. eapply config_inv_kept; [|exact Hinv].
    pose proof (proposeConfigChange_cases t n r) as Hc. destruct (config_refusal t n r);
      [by rewrite Hc|]. destruct Hc as (_ & fs' & ->). by apply same_log_kept.
  - injection H as <-. eapply config_inv_kept; [|exact Hinv].
    rewrite TransferLeadershipInternal_eq.
    by destruct (transfer_refusal target r); apply same_log_kept.
  - injection H as <-. eapply config_inv_kept; [|exact Hinv].
    apply config_kept_quiet; [apply transferAnswered_quiet|..]; unfold transferAnswered;
      by repeat case_match.
  - destruct (sendHeartbeat_view _ _ _ _ _ H) as [gs ->]. exact Hinv.
  - injection H as <-. destruct (updateCommit_fields r) as [N ->]. exact Hinv.
  - injection H as <-. unfold getPipelineSemaphore. by destruct (pipelineSemaphores r !! p).
  - injection H as <-. unfold snapshotToSend. destruct (snapshot r); [done|].
    by destruct (SnapshotStore_Load _ _) as [[? ?] ?].
  - injection H as <-. eapply config_inv_kept; [|exact Hinv].
    split_and!; simpl; try done; rewrite ?dom_insert_L; try set_solver; auto.
  - unfold applier_take in H. destruct (_ <? _); [|done].
    destruct (entryAt _ _); [|done]. injection H as <-. by apply config_inv_handle.
  - unfold applier_send in H. destruct (shutdown r); [done|].
    destruct (bool_decide _); [|done]. by injection H as <-.
  - injection H as <-. unfold applier_finish. eapply config_inv_kept; [|exact Hinv].
    assert (config_kept r (wakeWaiter r)) as Hw
      by (unfold wakeWaiter; by destruct (waiters r !! lastApplied r); apply same_log_kept).
    destruct (_ && _); [|exact Hw]. etrans; [exact Hw|apply createSnapshot_kept].
  - unfold applyCh_recv in H. destruct (applyCh r); [done|]. by injection H as <-.
  - injection H as <-. unfold AppliedWait. by destruct (_ <=? _).
  - by injection H as <-.
  - by injection H as <-.
  - by injection H as <-.
Qed.

(** The peers [New] starts from: the saved ones if there are any, otherwise the
    ones it is given. *)
Definition configured (initial : list NodeID) (dataDir : string) (fs0 : FS) : list NodeID :=
  match (MetaStore_Load (joinPath dataDir "raft-meta.json") fs0).1.1.2 with
  | [] => initial
  | savedPeers => savedPeers
  end.

(** [New] establishes the invariant if these peers are distinct and other than
    the node, whatever log it replays. *)
Lemma New_config_inv now id initial dir fs0 :
  NoDup (configured initial dir fs0) -> id ∉ configured initial dir fs0 ->
  config_inv (New now id initial dir fs0).
Proof.
  unfold configured, New. intros Hnd Hself.
  destruct (MetaStore_Load _ fs0) as [[[[t vf] saved] err] fs1]. cbn [fst snd] in Hnd, Hself.
  destruct (LogStore_Load _ fs1) as [[loaded err2] fs2].
  destruct (SnapshotStore_Load _ fs2) as [[snap err3] fs3].
  destruct (alignLog _ snap) as [l base].
  match goal with |- context [replayConfigChanges now ?x] => set (r0 := x) end.
  assert (peers_wf (replayConfigChanges now r0) /\ removed_follower (replayConfigChanges now r0))
    as [Hwf Hrf] by (apply replay_wf; [by destruct saved|done]).
  set (r1 := replayConfigChanges now r0) in *. clearbody r1.
  assert (forall v, peers_tracked (r1 <| nextIndex := foldl (fun m p => <[p := v]> m) (nextIndex r1) (peers r1) |>
            <| matchIndex := foldl (fun m p => <[p := 0]> m) (matchIndex r1) (peers r1) |>)) as Ht.
  { intros v p Hp. simpl in *. split; apply foldl_insert_is_Some; by left. }
  destruct snap; split_and!; first [exact Hwf|exact Hrf|apply Ht].
Qed.

(** C20: the membership invariant holds in every reachable state.  Of a node that
    [New] starts with distinct peers other than itself, along any sequence of
    events, committed membership changes included: the peer list stays free of
    duplicates and of the node itself, every peer has its replication state (so
    the leader never reads a missing entry), and a node that was removed is a
    follower: it never leads again.  ([New] itself does not check its peers.) *)
Theorem config_inv_reachable now id initial dir fs0 evs r' :
  NoDup (configured initial dir fs0) -> id ∉ configured initial dir fs0 ->
  reaches (New now id initial dir fs0) evs r' ->
  config_inv r' /\ (removedFromCluster r' = true -> IsLeader r' = false /\ state r' = Follower).
Proof.
  intros Hnd Hself H. assert (config_inv r') as Hinv.
  { pose proof (New_config_inv now id initial dir fs0 Hnd Hself) as Hi.
    induction H as [|r r1 r2 ev evs Hh _ IH]; [done|]. by eapply IH, handle_config_inv. }
  split; [done|]. intros Hr. destruct Hinv as (_ & _ & Hrf). rewrite <- (Hrf Hr).
  unfold IsLeader. rewrite (Hrf Hr). by rewrite bool_decide_eq_false_2.
Qed.

(** ** The log and the three indexes along a run *)

(** The order of base, applied, committed and last index. *)
Definition index_inv (r : Raft) : Prop :=
  log_wf r /\ 0 <= logBaseIndex r <= lastApplied r /\
  lastApplied r <= commitIndex r <= lastLogIndex r.

(** The entries of a request agree with what the node has committed. *)
Definition respects_commit (req : AppendEntriesRequest) (r : Raft) : Prop :=
  forall e, e ∈ ae_Entries req -> logBaseIndex r <= Index e <= commitIndex r ->
  exists x, entryAt r (Index e) = Some x /\ Term x = Term e.

(** What the rest of the cluster has to respect: entries follow their previous
    index and do not contradict committed ones, snapshots are not older than
    what is committed. *)
Definition ev_ok (ev : event) (r : Raft) : Prop :=
  match ev with
  | EvAppendEntries _ req => request_wf req /\ respects_commit req r
  | EvInstallSnapshot _ req => is_Term req < term r \/ commitIndex r <= is_LastIncludedIndex req
  | _ => True
  end.

Inductive reaches_ok : Raft -> list event -> Raft -> Prop :=
  | reaches_ok_nil r : reaches_ok r [] r
  | reaches_ok_cons r r' r'' ev evs :
      ev_ok ev r -> handle ev r = Some r' -> reaches_ok r' evs r'' ->
      reaches_ok r (ev :: evs) r''.

(** Committed entries survive the append loop. *)
Lemma append_all_keeps base c es : forall l i0,
  contiguous base l -> contiguous i0 es -> i0 <= base + Z.of_nat (length l) ->
  (forall e, e ∈ es -> base <= Index e <= c ->
     exists x, at_index base l (Index e) = Some x /\ Term x = Term e) ->
  forall idx, idx <= c ->
  at_index base (foldl (appendOrOverwrite base) l es) idx = at_index base l idx.
Proof.
  induction es as [|e es IH]; intros l i0 Hc Hes Hi0 Hresp idx Hidx; [done|]. cbn [foldl].
  apply contiguous_cons in Hes as [He Hes].
  assert (Index e <= base + Z.of_nat (length l)) as Hgap by lia.
  assert (forall k, k <= c -> at_index base (appendOrOverwrite base l e) k = at_index base l k)
    as Hstep.
  { intros k Hk. destruct (Z_lt_le_dec k (Index e)) as [|Hge]; [by apply append_below|].
    destruct (Z_lt_le_dec (Index e) base) as [Hlt|Hge'].
    - destruct (appendOrOverwrite_cases base l e Hgap); try done. lia.
    - destruct (Hresp e) as (x & Hx & Ht); [set_solver|lia|].
      change (appendOrOverwrite base l e) with (foldl (appendOrOverwrite base) l [e]).
      rewrite append_all_same; [done|]. intros e' [->|Hn]%elem_of_cons;
        [right; eauto|by apply not_elem_of_nil in Hn]. }
  rewrite (IH _ (i0 + 1)); [by apply Hstep|by apply append_contiguous|done| |  |done].
  - destruct (Z_lt_le_dec (Index e) base).
    + destruct (appendOrOverwrite_cases base l e Hgap); lia.
    + pose proof (append_reaches base l e Hgap). lia.
  - intros e' He' Hb. rewrite Hstep by lia. apply Hresp; [set_solver|done].
Qed.

Lemma entryAt_le_last r i e : log_wf r -> entryAt r i = Some e -> i <= lastLogIndex r.
Proof. intros Hwf [Hb _]%entryAt_Some. rewrite lastLogIndex_wf by done. lia. Qed.

Lemma newCommit_bounds old c last :
  old <= last -> old <= newCommit old c last <= last.
Proof. unfold newCommit. destruct (old <? c) eqn:E; lia. Qed.

Lemma AppendEntries_index now req r :
  index_inv r -> request_wf req -> respects_commit req r ->
  let r' := (AppendEntries now req r).1 in
  index_inv r' /\ commitIndex r <= commitIndex r' /\
  (forall k, k <= commitIndex r -> entryAt r' k = entryAt r k).
Proof.
  intros (Hwf & Hb & Hac) Hreq Hresp. cbv zeta.
  destruct (AppendEntries now req r) as [r' resp] eqn:E. cbn [fst].
  pose proof (AppendEntries_shape _ _ _ _ _ Hwf ltac:(lia) Hreq E) as (Hwf' & Hb' & _).
  apply AppendEntries_cases in E as (_ & _ & Hla & [(_ & Hl & Hc)|(_ & _ & _ & _ & Hp & Hl & Hc)]).
  - assert (lastLogIndex r' = lastLogIndex r) as Hlast
      by (unfold lastLogIndex; by rewrite Hl, Hb').
    unfold index_inv. split_and!; try done; try lia. intros k _. by rewrite !entryAt_at, Hl, Hb'.
  - pose proof (prevLogMatches_reaches req r Hwf ltac:(lia) Hp) as Hgap.
    assert (forall k, k <= commitIndex r -> entryAt r' k = entryAt r k) as Hkeep.
    { intros k Hk. rewrite !entryAt_at, Hb', Hl.
      apply (append_all_keeps _ (commitIndex r) _ _ (ae_PrevLogIndex req + 1)); try done.
      - apply Hwf.
      - intros e He Hbe. destruct (Hresp e He Hbe) as (x & Hx & Ht). exists x.
        by rewrite <- entryAt_at. }
    assert (commitIndex r <= lastLogIndex r') as Hcl.
    { destruct (entryAt_is_Some r (commitIndex r) Hwf) as [e He]; [lia|].
      apply (entryAt_le_last r' _ e Hwf'). by rewrite Hkeep. }
    pose proof (newCommit_bounds _ (ae_LeaderCommit req) _ Hcl) as Hnc. rewrite <- Hc in Hnc.
    unfold index_inv. split_and!; try done; lia.
Qed.

(** Events that leave log, base and indexes alone. *)
Definition same_indexes (r r' : Raft) : Prop :=
  log r' = log r /\ logBaseIndex r' = logBaseIndex r /\ commitIndex r' = commitIndex r /\
  lastApplied r' = lastApplied r.

#[export] Instance same_indexes_refl : Reflexive same_indexes.
Proof. by intros r. Qed.

#[export] Instance same_indexes_trans : Transitive same_indexes.
Proof. unfold same_indexes. intros a b c. intuition congruence. Qed.

(** What every event guarantees: the invariant, and progress only. *)
Definition index_step (r r' : Raft) : Prop :=
  index_inv r' /\ commitIndex r <= commitIndex r' /\ lastApplied r <= lastApplied r' /\
  logBaseIndex r <= logBaseIndex r' /\
  (forall k e, logBaseIndex r' < k <= commitIndex r -> entryAt r k = Some e -> entryAt r' k = Some e).

Lemma same_indexes_step r r' : index_inv r -> same_indexes r r' -> index_step r r'.
Proof.
  intros (Hwf & Hb & Hac) (H1 & H2 & H3 & H4).
  assert (lastLogIndex r' = lastLogIndex r) as Hl by (unfold lastLogIndex; by rewrite H1, H2).
  unfold index_step, index_inv. split_and!; try lia.
  - unfold log_wf. by rewrite H1, H2.
  - intros k e _ He. by rewrite entryAt_at, H1, H2, <- entryAt_at.
Qed.

Lemma snoc_index_step r d : index_inv r ->
  forall fs', index_step r (r <| log := log r ++ [mkLogEntry (lastLogIndex r + 1) (term r) d] |>
                              <| fs := fs' |>).
Proof.
  intros (Hwf & Hb & Hac) fs'. pose proof (log_wf_snoc r (term r) d Hwf) as Hwf'.
  set (r' := _ <| fs := fs' |>).
  assert (lastLogIndex r' = lastLogIndex r + 1) as Hl
    by (unfold lastLogIndex at 1, r'; simpl; by rewrite last_snoc).
  unfold index_step, index_inv. split_and!; try done; try (simpl; lia).
  - intros k e Hk He. rewrite entryAt_at. unfold r'. simpl. rewrite (snoc_entry r) by done.
    rewrite bool_decide_eq_false_2 by lia. done.
Qed.

Lemma updateCommit_bounds r :
  commitIndex r <= lastLogIndex r ->
  exists N, updateCommitIndexLocked r = r <| commitIndex := N |> /\
    commitIndex r <= N <= lastLogIndex r.
Proof.
  intros Hle. assert (r = r <| commitIndex := commitIndex r |>) as Hsame by (by destruct r).
  unfold updateCommitIndexLocked. destruct (negb _); [exists (commitIndex r); split; [done|lia]|].
  pose proof (commitScan_spec (Z.to_nat (lastLogIndex r - commitIndex r)) r (lastLogIndex r)
                ltac:(lia) ltac:(lia)) as H.
  destruct (commitScan _ _ _) as [N|]; [|exists (commitIndex r); split; [done|lia]].
  exists N. split; [done|]. destruct H as (_ & [[? ?] _] & _). lia.
Qed.

Lemma commit_index_step r N :
  index_inv r -> commitIndex r <= N <= lastLogIndex r -> index_step r (r <| commitIndex := N |>).
Proof.
  intros (Hwf & Hb & Hac) HN. unfold index_step, index_inv.
  change (lastLogIndex (r <| commitIndex := N |>)) with (lastLogIndex r).
  split_and!; try done; simpl; lia.
Qed.

#[export] Instance index_step_trans : Transitive index_step.
Proof.
  intros a b c (A1 & A2 & A3 & A4 & A5) (B1 & B2 & B3 & B4 & B5).
  unfold index_step. split_and!; try done; try lia.
  intros k e Hk He. apply B5; [lia|]. apply A5; [lia|done].
Qed.

Lemma createSnapshot_index_step now st r :
  index_inv r -> index_step r (createSnapshotLocked now st r).
Proof.
  intros Hinv. destruct (createSnapshot_cases now st r)
    as [[fs' ->]|(e & d & fs' & _ & _ & _ & He & ->)]; [by apply same_indexes_step|].
  destruct Hinv as (Hwf & Hb & Hac).
  match goal with |- index_step r ?x => set (r' := x) end.
  destruct (compacted_spec (lastApplied r) (Term e) r r' Hwf) as (H1 & H2 & H3 & _); [lia|done|].
  unfold index_step, index_inv. split_and!; try done; try (simpl; lia).
  intros k x Hk Hx. rewrite H3; [done|]. simpl in Hk. lia.
Qed.

Lemma InstallSnapshot_index_step now req r :
  index_inv r -> is_Term req < term r \/ commitIndex r <= is_LastIncludedIndex req ->
  index_step r (InstallSnapshot now req r).1.1.
Proof.
  intros Hinv Hok. pose proof (InstallSnapshot_cases now req r) as H.
  destruct (InstallSnapshot now req r) as [[r' resp] fed]. destruct H as [_ H]. simpl.
  destruct (is_Term req <? term r) eqn:Et.
  { destruct H as [-> _]. by apply same_indexes_step. }
  destruct H as (_ & _ & Hc & Hci & Hla & _). destruct Hinv as (Hwf & Hb & Hac).
  pose proof (proj2 Hc) as Hbase.
  destruct (compacted_spec (is_LastIncludedIndex req) (is_LastIncludedTerm req) r r' Hwf
              ltac:(lia) Hc) as (H1 & H2 & H3 & _).
  unfold index_step, index_inv. split_and!; try done; try lia.
Qed.

Lemma batchAnswered_index_step p prev es res r :
  index_inv r -> index_step r (sendAppendEntriesBatch p prev es res r).1.
Proof.
  intros Hinv. unfold sendAppendEntriesBatch.
  destruct res as [resp|]; [|by apply same_indexes_step].
  destruct (term r <? aer_Term resp); [by apply same_indexes_step|].
  destruct (negb (aer_Success resp)); [split_ifs; by apply same_indexes_step|].
  destruct (negb _); [by apply same_indexes_step|]. cbv zeta. cbn [fst].
  match goal with |- context [updateCommitIndexLocked ?x] => set (y := x) end.
  assert (same_indexes r y) as Hy
    by (unfold y; destruct (last es); [done|]; by destruct (logBaseIndex r <=? prev)).
  pose proof (same_indexes_step r y Hinv Hy) as Hstep. pose proof Hstep as (Hyi & _).
  destruct (updateCommit_bounds y) as (N & -> & HN); [apply Hyi|].
  etrans; [exact Hstep|]. by apply commit_index_step.
Qed.

Lemma take_index_step now r e r' :
  index_inv r -> applier_take now r = Some (e, r') -> index_step r r'.
Proof.
  intros (Hwf & Hb & Hac) H. unfold applier_take in H.
  destruct (lastApplied r <? commitIndex r) eqn:E; [|done].
  destruct (entryAt r (lastApplied r + 1)) as [x|] eqn:He; [|done]. injection H as <- <-.
  set (r0 := r <| lastApplied := lastApplied r + 1 |>).
  assert (index_inv r0) as Hinv0 by (unfold index_inv; change (lastLogIndex r0) with (lastLogIndex r);
        split_and!; try done; simpl; lia).
  assert (index_step r r0) as H0 by (unfold index_step; split_and!; try done; simpl; lia).
  etrans; [exact H0|]. apply same_indexes_step; [done|].
  destruct (handleConfigChange_log now x r0) as (H1 & H2 & _ & _ & H3 & H4). done.
Qed.

Lemma startElection_indexes now r : same_indexes r (startElectionLocked now r).
Proof. unfold startElectionLocked. split_ifs; done. Qed.

Lemma bumpTerm_indexes t r : same_indexes r (bumpTerm t r).
Proof. unfold bumpTerm. by destruct (term r <? t). Qed.

Lemma handle_index_step ev r r' :
  index_inv r -> ev_ok ev r -> handle ev r = Some r' -> index_step r r'.
Proof.
  intros Hinv Hok H.
  destruct ev; cbn [handle ev_ok] in *;
    try (injection H as <-; by apply same_indexes_step);
    try (injection H as <-;
         first [ by apply batchAnswered_index_step | by apply createSnapshot_index_step
               | by apply InstallSnapshot_index_step ]).
  - injection H as <-. apply same_indexes_step; [done|]. unfold electionTimer_tick.
    split_ifs; try done. apply startElection_indexes.
  - injection H as <-. apply same_indexes_step; [done|]. unfold RequestVote.
    split_ifs; try done; apply (bumpTerm_indexes (rv_Term req)).
  - injection H as <-. apply same_indexes_step; [done|]. unfold handleVoteResponse.
    split_ifs; done.
  - injection H as <-. destruct Hok as [Hreq Hresp].
    destruct (AppendEntries_index now req r Hinv Hreq Hresp) as (H1 & H2 & H3).
    destruct (AppendEntries now req r) as [r' resp] eqn:E. cbn [fst] in *.
    pose proof (AppendEntries_cases _ _ _ _ _ E) as (_ & Hb & Hla & _).
    unfold index_step. split_and!; try done; try lia. intros k e Hk He. by rewrite H3 by lia.
  - injection H as <-. apply same_indexes_step; [done|]. unfold TimeoutNow.
    split_ifs; try done. simpl. etrans; [apply bumpTerm_indexes|apply startElection_indexes].
  - injection H as <-. unfold Propose. destruct (negb _); [by apply same_indexes_step|].
    match goal with |- context [saveLog ?x] => destruct (saveLog_fields x) as [fs' ->] end.
    by apply snoc_index_step.
  - injection H as <-. pose proof (proposeConfigChange_cases t n r) as Hc.
    destruct (config_refusal t n r); [rewrite Hc; by apply same_indexes_step|].
    destruct Hc as (_ & fs' & ->). by apply snoc_index_step.
  - injection H as <-. apply same_indexes_step; [done|].
    rewrite TransferLeadershipInternal_eq. by destruct (transfer_refusal target r).
  - injection H as <-. apply same_indexes_step; [done|]. unfold transferAnswered.
    by repeat case_match.
  - destruct (sendHeartbeat_view _ _ _ _ _ H) as [gs ->]. by apply same_indexes_step.
  - injection H as <-. destruct (updateCommit_bounds r) as (N & -> & HN); [apply Hinv|].
    by apply commit_index_step.
  - injection H as <-. apply same_indexes_step; [done|]. unfold getPipelineSemaphore.
    by destruct (pipelineSemaphores r !! p).
  - injection H as <-. apply same_indexes_step; [done|]. unfold snapshotToSend.
    destruct (snapshot r); [done|]. by destruct (SnapshotStore_Load _ _) as [[? ?] ?].
  - destruct (applier_take now r) as [[e r1]|] eqn:E; [|done]. injection H as <-.
    by eapply take_index_step.
  - unfold applier_send in H. destruct (shutdown r); [done|].
    destruct (bool_decide _); [|done]. injection H as <-. by apply same_indexes_step.
  - injection H as <-. unfold applier_finish.
    assert (index_step r (wakeWaiter r)) as Hw
      by (apply same_indexes_step; [done|]; split_and!; apply (wakeWaiter_fields r)).
    destruct (_ && _); [|done]. etrans; [exact Hw|]. by apply createSnapshot_index_step, Hw.
  - unfold applyCh_recv in H. destruct (applyCh r); [done|]. injection H as <-.
    by apply same_indexes_step.
  - injection H as <-. apply same_indexes_step; [done|]. unfold AppliedWait.
    by destruct (_ <=? _).
Qed.


(** ** What the consumer of [applyCh] sees *)

(** Where the applier goroutine is: at the top of its loop, holding an entry
    it has taken, or past the send. *)
Inductive applier_pc := PcLoop | PcSending (e : LogEntry) | PcSent.

(** The node, its applier, and the entries the consumer has received. *)
Record system := mkSystem { sys_node : Raft; sys_pc : applier_pc; sys_out : list LogEntry }.

(** Events of the other goroutines, snapshot transfers to this node apart. *)
Definition other_event (ev : event) : Prop :=
  match ev with
  | EvInstallSnapshot _ _ | EvApplierTake _ | EvApplierSend _ | EvApplierFinish _ _ | EvConsume =>
    False
  | _ => True
  end.

Inductive sys_step : system -> system -> Prop :=
  | sys_take now r e r' out :
      applier_take now r = Some (e, r') ->
      sys_step (mkSystem r PcLoop out) (mkSystem r' (PcSending e) out)
  | sys_send r e r' out :
      applier_send e r = Sent r' ->
      sys_step (mkSystem r (PcSending e) out) (mkSystem r' PcSent out)
  | sys_finish now st r out :
      sys_step (mkSystem r PcSent out) (mkSystem (applier_finish now st r) PcLoop out)
  | sys_recv r e r' pc out :
      applyCh_recv r = Some (e, r') ->
      sys_step (mkSystem r pc out) (mkSystem r' pc (out ++ [e]))
  | sys_other ev r r' pc out :
      other_event ev -> ev_ok ev r -> handle ev r = Some r' ->
      sys_step (mkSystem r pc out) (mkSystem r' pc out).

(** Received, in the channel, and in the applier's hands. *)
Definition in_order (s : system) : list LogEntry :=
  sys_out s ++ applyCh (sys_node s) ++
  match sys_pc s with PcSending e => [e] | _ => [] end.

Definition sys_inv (a0 : Z) (s : system) : Prop :=
  index_inv (sys_node s) /\
  contiguous (a0 + 1) (in_order s) /\
  Z.of_nat (length (in_order s)) = lastApplied (sys_node s) - a0 /\
  forall e, e ∈ in_order s -> logBaseIndex (sys_node s) < Index e ->
    entryAt (sys_node s) (Index e) = Some e.

Definition same_channel (r r' : Raft) : Prop :=
  applyCh r' = applyCh r /\ lastApplied r' = lastApplied r.

Lemma same_channel_bump t r : same_channel r (bumpTerm t r).
Proof. unfold bumpTerm. by destruct (term r <? t). Qed.

Lemma same_channel_election now r : same_channel r (startElectionLocked now r).
Proof. unfold startElectionLocked. split_ifs; done. Qed.

Lemma createSnapshot_channel now st r : same_channel r (createSnapshotLocked now st r).
Proof.
  by destruct (createSnapshot_cases now st r) as [[fs' ->]|(e & d & fs' & _ & _ & _ & _ & ->)].
Qed.

Lemma applier_finish_channel now st r : same_channel r (applier_finish now st r).
Proof.
  assert (same_channel r (wakeWaiter r)) as [H1 H2]
    by (unfold wakeWaiter; by destruct (waiters r !! lastApplied r)).
  unfold applier_finish. destruct (_ && _); [|done].
  destruct (createSnapshot_channel now st (wakeWaiter r)) as [H3 H4]. split; congruence.
Qed.

Lemma other_channel ev r r' :
  other_event ev -> handle ev r = Some r' -> same_channel r r'.
Proof.
  intros Ho H.
  destruct ev; cbn [handle other_event] in *; try done; try (injection H as <-; done).
  - injection H as <-. unfold electionTimer_tick. split_ifs; try done.
    apply same_channel_election.
  - injection H as <-. unfold RequestVote. split_ifs; try done;
      apply (same_channel_bump (rv_Term req)).
  - injection H as <-. unfold handleVoteResponse. split_ifs; done.
  - injection H as <-. unfold AppendEntries. split_ifs; try done;
      try (apply (same_channel_bump (ae_Term req)));
      match goal with |- context [saveLog ?x] => destruct (saveLog_fields x) as [fs' ->] end;
      rewrite advanceCommit_eq; apply (same_channel_bump (ae_Term req)).
  - injection H as <-. unfold TimeoutNow. split_ifs; try done. simpl.
    destruct (same_channel_election now (bumpTerm (tn_Term req) r)) as [H1 H2].
    destruct (same_channel_bump (tn_Term req) r) as [H3 H4]. split; congruence.
  - injection H as <-. unfold Propose. destruct (negb _); [done|].
    by match goal with |- context [saveLog ?x] => destruct (saveLog_fields x) as [fs' ->] end.
  - injection H as <-. pose proof (proposeConfigChange_cases t n r) as Hc.
    destruct (config_refusal t n r); [by rewrite Hc|]. by destruct Hc as (_ & fs' & ->).
  - injection H as <-. rewrite TransferLeadershipInternal_eq.
    by destruct (transfer_refusal target r).
  - injection H as <-. unfold transferAnswered. by repeat case_match.
  - by destruct (sendHeartbeat_view _ _ _ _ _ H) as [gs ->].
  - injection H as <-. by destruct (updateCommit_fields r) as [N ->].
  - injection H as <-. unfold getPipelineSemaphore. by destruct (pipelineSemaphores r !! p).
  - injection H as <-. unfold sendAppendEntriesBatch. destruct res as [resp|]; [|done].
    split_ifs; try done; destruct (last es); split_ifs;
      match goal with |- context [updateCommitIndexLocked ?x] =>
        destruct (updateCommit_fields x) as [N ->] end; done.
  - injection H as <-. unfold snapshotToSend. destruct (snapshot r); [done|].
    by destruct (SnapshotStore_Load _ _) as [[? ?] ?].
  - injection H as <-. unfold AppliedWait. by destruct (_ <=? _).
  - injection H as <-. apply createSnapshot_channel.
Qed.

(** The delivered entries stay those of the log when the node moves on. *)
Lemma delivered_kept a0 s s' :
  sys_inv a0 s -> index_step (sys_node s) (sys_node s') ->
  lastApplied (sys_node s') = lastApplied (sys_node s) -> in_order s' = in_order s ->
  sys_inv a0 s'.
Proof.
  intros (Hi & Hc & Hl & He) (Hi' & _ & _ & Hb & Hk) Hla Hin.
  unfold sys_inv. rewrite Hin. split_and!; try done; [by rewrite Hla|].
  intros e Hin' Hbe. apply Hk; [|apply He; [done|lia]]. split; [done|].
  apply list_elem_of_lookup_1 in Hin' as [i Hlk].
  rewrite (Hc _ _ Hlk). apply lookup_lt_Some in Hlk. destruct Hi as (_ & _ & ?). lia.
Qed.

Lemma sys_take_inv a0 now r e r' out :
  sys_inv a0 (mkSystem r PcLoop out) -> applier_take now r = Some (e, r') ->
  sys_inv a0 (mkSystem r' (PcSending e) out).
Proof.
  intros (Hi & Hc & Hl & He) H. pose proof (take_index_step now r e r' Hi H) as (Hi' & _).
  unfold applier_take in H. destruct (_ <? _) eqn:Hlt; [|done].
  destruct (entryAt r (lastApplied r + 1)) as [x|] eqn:Hx; [|done]. injection H as <- Hr'.
  destruct (handleConfigChange_log now x (r <| lastApplied := lastApplied r + 1 |>))
    as (H1 & H2 & _ & _ & _ & H3).
  pose proof (handleConfigChange_channel now x (r <| lastApplied := lastApplied r + 1 |>)) as Hch.
  rewrite Hr' in *. simpl in H1, H2, H3, Hch. cbn [sys_node sys_out] in *.
  assert (in_order (mkSystem r' (PcSending x) out) = in_order (mkSystem r PcLoop out) ++ [x]) as Hin.
  { unfold in_order. cbn [sys_node sys_out sys_pc]. rewrite Hch, app_nil_r. by rewrite app_assoc. }
  pose proof (entryAt_Index r _ x (proj1 Hi) Hx) as Hidx.
  unfold sys_inv. rewrite Hin. cbn [sys_node]. split_and!; try done.
  - apply contiguous_app. split; [done|]. apply contiguous_cons.
    split; [lia|apply contiguous_nil].
  - rewrite length_app, H3. simpl. lia.
  - intros y Hy Hb. rewrite entryAt_at, H1, H2, <- entryAt_at.
    apply elem_of_app in Hy as [Hy|Hy%list_elem_of_singleton].
    + apply He; [done|]. by rewrite <- H2.
    + subst y. by rewrite Hidx.
Qed.

Lemma sys_step_inv a0 s s' : sys_inv a0 s -> sys_step s s' -> sys_inv a0 s'.
Proof.
  intros Hinv Hstep. pose proof Hinv as (Hi & _).
  destruct Hstep as [now r e r' out H|r e r' out H|now st r out|r e r' pc out H
                    |ev r r' pc out Ho Hok H]; cbn [sys_node] in Hi.
  - by eapply sys_take_inv.
  - unfold applier_send in H. destruct (shutdown r); [done|].
    destruct (bool_decide _); [|done]. injection H as <-.
    eapply delivered_kept; [exact Hinv|by apply same_indexes_step|done|].
    unfold in_order. simpl. by rewrite app_nil_r.
  - destruct (applier_finish_channel now st r) as [Hch Hla].
    eapply delivered_kept; [exact Hinv| |done|].
    + by apply (handle_index_step (EvApplierFinish now st) r).
    + unfold in_order. cbn [sys_node sys_pc sys_out]. by rewrite Hch.
  - unfold applyCh_recv in H. destruct (applyCh r) as [|x l] eqn:E; [done|].
    injection H as <- <-.
    eapply delivered_kept; [exact Hinv|by apply same_indexes_step|done|].
    unfold in_order. cbn [sys_node sys_pc sys_out]. rewrite E. simpl. by rewrite <- app_assoc.
  - destruct (other_channel ev r r' Ho H) as [Hch Hla].
    eapply delivered_kept; [exact Hinv| |done|].
    + by apply (handle_index_step ev).
    + unfold in_order. cbn [sys_node sys_pc sys_out]. by rewrite Hch.
Qed.


(** ** Concrete runs *)

(** A follower that voted for ["n2"] in term 2 and is then asked by ["n3"]. *)
Definition voter : Raft :=
  (example_node "n1" ["n2"; "n3"] Follower 2 [mkLogEntry 0 0 ""]) <| votedFor := "n2" |>.

Definition second_ask : event := EvRequestVote 7 (mkRequestVoteRequest "n3" 2 5 2).

Lemma one_vote_per_term_witness :
  exists r', reaches voter [second_ask] r' /\ votedFor voter <> "" /\ term r' = term voter /\
  term voter <= term r' /\
  (removedFromCluster voter = true -> removedFromCluster r' = true) /\
  (term r' = term voter -> votedFor voter <> "" -> removedFromCluster r' = false ->
     votedFor r' = votedFor voter).
Proof.
  exists (RequestVote 7 (mkRequestVoteRequest "n3" 2 5 2) voter).1.
  assert (reaches voter [second_ask] (RequestVote 7 (mkRequestVoteRequest "n3" 2 5 2) voter).1) as H
    by (econstructor; [reflexivity|constructor]).
  split; [exact H|]. split; [done|]. split; [reflexivity|].
  exact (one_vote_per_term voter [second_ask] _ H).
Defined.

(** A node, started on an empty disk, that receives and applies its own removal,
    then meets an election timeout. *)
Definition started_node : Raft := New 0 "n1" ["n2"] "d" (mkFS ∅ []).

Definition leaving_events : list event :=
  [EvAppendEntries 4 (mkAppendEntriesRequest 1 "n2" 0 0
     [mkLogEntry 1 1 (encodeConfigCmd ConfigRemoveNode "n1")] 1);
   EvApplierTake 5; EvElectionTick (ms 9000) (ms 1500)].

Definition left_node : Raft :=
  default started_node (foldl (fun o ev => o ≫= handle ev) (Some started_node) leaving_events).

Lemma config_inv_reachable_witness :
  (peers started_node = ["n2"] /\ removedFromCluster left_node = true /\ peers left_node = []) /\
  (config_inv left_node /\
   (removedFromCluster left_node = true -> IsLeader left_node = false /\ state left_node = Follower)).
Proof.
  split; [split_and!; vm_compute; reflexivity|].
  apply (config_inv_reachable 0 "n1" ["n2"] "d" (mkFS ∅ []) leaving_events).
  - by_decide.
  - by_decide.
  - eapply reaches_cons; [reflexivity|]. eapply reaches_cons; [vm_compute; reflexivity|].
    eapply reaches_cons; [reflexivity|]. vm_compute. constructor.
Defined.

(** A follower with a committed entry and an uncommitted one that a new leader
    replaces. *)
Definition final_node : Raft :=
  (example_node "n1" ["n2"; "n3"] Follower 2
    [mkLogEntry 0 0 ""; mkLogEntry 1 1 "a"; mkLogEntry 2 2 "x"]) <| commitIndex := 1 |>.

Definition final_request : AppendEntriesRequest :=
  mkAppendEntriesRequest 3 "n2" 0 0 [mkLogEntry 1 1 "a"; mkLogEntry 2 3 "b"] 2.

Lemma final_node_inv : index_inv final_node.
Proof. unfold index_inv. split_and!; [by_decide|vm_compute; congruence..]. Qed.

Lemma final_request_ok now : ev_ok (EvAppendEntries now final_request) final_node.
Proof.
  split; [unfold request_wf; by_decide|].
  intros e [->|[->|He%not_elem_of_nil]%elem_of_cons]%elem_of_cons Hb; [| |done].
  - exists (mkLogEntry 1 1 "a"). split; reflexivity.
  - simpl in Hb. lia.
Qed.


