(* ===== verification/ElectionSafety.v ===== *)
(** * Election safety of a cluster

    Nodes with a fixed membership exchange vote requests and answers; the
    other events of [Node] happen at any time.  [broadcastRequestVote] makes
    one call per peer and election, so each request is answered, and each
    answer counted, at most once; messages may be lost, delayed and reordered,
    and whatever log position a request carries is allowed.  Terms fit the 32
    bits of the wire.

    [handleVoteResponse] does not look at the election an answer belongs to.
    The cluster is therefore parametrised by [timely]: whether an answer only
    reaches a candidate that is still in the term it asked for (what the
    300 ms call timeout against the 1.5 s election timeout is meant to give).
    Timely clusters have at most one leader per term; others do not. *)
From stdpp Require Import gmap strings list.
From Stdlib Require Import ZArith Lia.
From S2P Require Import Prelude Types Stores RaftNode Membership Election Replication LogMatching Sending SnapshotOps Applier Admin Boot Node.

Local Open Scope Z_scope.

(** A vote request on its way: candidate, voter, term. *)
Definition ask : Type := NodeID * NodeID * Z.

Record cluster := mkCluster {
  nodes : gmap NodeID Raft;
  asks : list ask;
  answers : list (ask * RequestVoteResponse)
}.

(** The requests an election started by [i] sends out. *)
Definition election_asks (i : NodeID) (r r' : Raft) : list ask :=
  if decide (term r < term r' /\ state r' = Candidate)
  then map (fun p => (i, p, term r')) (filter (fun p => p <> "") (peers r'))
  else [].

(** Events other than elections, votes and membership changes. *)
Definition quiet_event (ev : event) : Prop :=
  match ev with
  | EvElectionTick _ _ | EvRequestVote _ _ | EvVoteResponse _ | EvTimeoutNow _ _ => False
  | _ => True
  end.

Inductive cstep (timely : bool) : cluster -> cluster -> Prop :=
  | c_tick C i r now timeout r' :
      nodes C !! i = Some r -> (electionTimer_tick now timeout r).1 = r' ->
      cstep timely C (mkCluster (<[i := r']> (nodes C)) (asks C ++ election_asks i r r') (answers C))
  | c_timeoutNow C i r now req r' :
      nodes C !! i = Some r -> (TimeoutNow now req r).1 = r' ->
      cstep timely C (mkCluster (<[i := r']> (nodes C)) (asks C ++ election_asks i r r') (answers C))
  | c_ask C as1 as2 c v t req rv now rv' resp :
      asks C = as1 ++ (c, v, t) :: as2 -> rv_CandidateId req = c ->
      in_int32 t -> rv_Term req = int32 t ->
      nodes C !! v = Some rv -> RequestVote now req rv = (rv', resp) ->
      cstep timely C
        (mkCluster (<[v := rv']> (nodes C)) (as1 ++ as2) (answers C ++ [((c, v, t), resp)]))
  | c_answer C an1 an2 c v t resp rc :
      answers C = an1 ++ ((c, v, t), resp) :: an2 -> nodes C !! c = Some rc ->
      (timely = true -> term rc = t) ->
      cstep timely C
        (mkCluster (<[c := handleVoteResponse resp rc]> (nodes C)) (asks C) (an1 ++ an2))
  | c_lose_ask C as1 as2 a :
      asks C = as1 ++ a :: as2 ->
      cstep timely C (mkCluster (nodes C) (as1 ++ as2) (answers C))
  | c_lose_answer C an1 an2 a :
      answers C = an1 ++ a :: an2 ->
      cstep timely C (mkCluster (nodes C) (asks C) (an1 ++ an2))
  | c_other C i r ev r' :
      nodes C !! i = Some r -> quiet_event ev -> handle ev r = Some r' ->
      (forall now, ev = EvApplierTake now -> same_view r r') ->
      cstep timely C (mkCluster (<[i := r']> (nodes C)) (asks C) (answers C)).

(** A fresh cluster: followers in term 0 that agree on the membership. *)
Definition initial (members : list NodeID) (C : cluster) : Prop :=
  NoDup members /\ ("" ∉ members) /\ asks C = [] /\ answers C = [] /\
  forall i r, nodes C !! i = Some r ->
    nodeId r = i /\ (i :: peers r) ≡ₚ members /\ state r = Follower /\ removedFromCluster r = false.

(** ** The invariant *)

(** A vote that was given: voter, term, candidate. *)
Definition vote : Type := NodeID * Z * NodeID.

Definition pending (C : cluster) : list ask := asks C ++ map fst (answers C).

Section invariant.
Context (members : list NodeID).

Definition node_ok (i : NodeID) (r : Raft) : Prop :=
  nodeId r = i /\ (i :: peers r) ≡ₚ members /\ removedFromCluster r = false.

(** The votes a candidate or leader has counted are votes of distinct members
    in its term, and no message of one of those voters is still on its way. *)
Definition tally (V : list vote) (P : list ask) (i : NodeID) (r : Raft) : Prop :=
  state r <> Follower ->
  exists L, NoDup L /\ L ⊆ members /\ votes r = Z.of_nat (length L) /\
    (forall x, x ∈ L -> (x, term r, i) ∈ V) /\
    (forall x, (i, x, term r) ∈ P -> x ∉ L) /\
    (state r = Leader -> majority r <= votes r).

(** The ghost votes are the nodes' own records. *)
Definition vote_recorded (C : cluster) (w : vote) : Prop :=
  let '(v, t, c) := w in
  c <> "" /\ exists r, nodes C !! v = Some r /\ t <= term r /\ (t = term r -> votedFor r = c).

Definition ask_ok (C : cluster) (a : ask) : Prop :=
  let '(c, v, t) := a in
  exists r, nodes C !! c = Some r /\ v ∈ peers r /\ t <= term r.

Record election_inv (C : cluster) (V : list vote) : Prop := {
  inv_nodes : forall i r, nodes C !! i = Some r -> node_ok i r;
  inv_tally : forall i r, nodes C !! i = Some r -> tally V (pending C) i r;
  inv_votes : forall w, w ∈ V -> vote_recorded C w;
  inv_unique : forall v t c c', (v, t, c) ∈ V -> (v, t, c') ∈ V -> c = c';
  inv_asks : forall a, a ∈ pending C -> ask_ok C a;
  inv_nodup : NoDup (pending C);
  inv_granted : forall c v t resp,
    ((c, v, t), resp) ∈ answers C -> rvr_VoteGranted resp = true -> (v, t, c) ∈ V
}.
End invariant.

(** ** Preservation *)

Lemma majority_peers r r' : peers r' = peers r -> majority r' = majority r.
Proof. unfold majority. by intros ->. Qed.

(** What a vote request does to the voter. *)
Lemma RequestVote_view now req r r' resp :
  RequestVote now req r = (r', resp) ->
  (rvr_VoteGranted resp = false /\ quiet_step r r') \/
  (rvr_VoteGranted resp = true /\ exists m,
     quiet_step r m /\ term m = rv_Term req /\
     (votedFor m = "" \/ votedFor m = rv_CandidateId req) /\
     nodeId r' = nodeId m /\ peers r' = peers m /\ state r' = state m /\ term r' = term m /\
     votes r' = votes m /\ removedFromCluster r' = removedFromCluster m /\
     votedFor r' = rv_CandidateId req).
Proof.
  unfold RequestVote. destruct (negb (isKnownNode _ _)); [intros [= <- <-]; by left|].
  destruct (rv_Term req <? term r) eqn:Et; [intros [= <- <-]; by left|].
  pose proof (bumpTerm_quiet (rv_Term req) r) as Hq.
  pose proof (bumpTerm_term (rv_Term req) r) as Ht.
  destruct (negb (upToDate _ _)); [intros [= <- <-]; by left|].
  destruct (_ || _) eqn:Hv; intros [= <- <-]; [right|by left].
  split; [done|]. exists (bumpTerm (rv_Term req) r). simpl. split_and!; try done; [lia|].
  apply orb_true_iff in Hv as [Hv|Hv]; boolify; auto.
Qed.

(** What an answer does to the candidate. *)
Lemma handleVoteResponse_view resp r :
  quiet_step r (handleVoteResponse resp r) \/
  (state r = Candidate /\ rvr_VoteGranted resp = true /\
   let r' := handleVoteResponse resp r in
   nodeId r' = nodeId r /\ peers r' = peers r /\ term r' = term r /\
   removedFromCluster r' = removedFromCluster r /\ votedFor r' = votedFor r /\
   votes r' = votes r + 1 /\ (state r' = Leader -> majority r <= votes r + 1)).
Proof.
  unfold handleVoteResponse. destruct (term r <? rvr_Term resp) eqn:Et.
  { left. right. unfold stepped_down. simpl. split_and!; try done. lia. }
  destruct (bool_decide (state r = Candidate)) eqn:Hs; boolify; [|by left]. cbn [negb].
  destruct (rvr_VoteGranted resp); [right|by left]. split; [done|]. split; [done|]. cbv zeta.
  change (majority (r <| votes := votes r + 1 |>)) with (majority r).
  change (votes (r <| votes := votes r + 1 |>)) with (votes r + 1).
  destruct (majority r <=? votes r + 1) eqn:Em; simpl; split_and!; try done; intros; first [lia|congruence].
Qed.

Lemma handle_quiet ev r r' :
  quiet_event ev -> (forall now, ev = EvApplierTake now -> same_view r r') ->
  handle ev r = Some r' -> quiet_step r r'.
Proof.
  intros Hq Ht H.
  destruct ev; cbn [handle quiet_event] in *; try done;
    try (injection H as <-; auto with mimori; done);
    try (injection H as <-; left; auto with mimori; done).
  - destruct (sendHeartbeat_view _ _ _ _ _ H) as [gs ->]. by left.
  - injection H as <-. left. unfold getPipelineSemaphore.
    by destruct (pipelineSemaphores r !! p).
  - injection H as <-. left. unfold snapshotToSend. destruct (snapshot r); [done|].
    by destruct (SnapshotStore_Load _ _) as [[? ?] ?].
  - left. by apply (Ht now).
  - unfold applier_send in H. destruct (shutdown r); [done|].
    destruct (bool_decide _); [|done]. injection H as <-. by left.
  - unfold applyCh_recv in H. destruct (applyCh r); [done|]. injection H as <-. by left.
  - injection H as <-. left. unfold AppliedWait. by destruct (_ <=? _).
Qed.

Section preservation.
Context (members : list NodeID) (Hne : "" ∉ members) (Hnd : NoDup members).

Local Abbreviation inv := (election_inv members).

(** One node changes; votes are only added; messages come from that node's
    own election or were there before. *)
Lemma inv_update C V C' V' i r r' :
  inv C V -> nodes C !! i = Some r -> nodes C' = <[i := r']> (nodes C) ->
  V ⊆ V' ->
  nodeId r' = nodeId r -> peers r' = peers r ->
  removedFromCluster r' = removedFromCluster r -> term r <= term r' ->
  (forall w, w ∈ V' -> w ∈ V \/ vote_recorded C' w) ->
  (forall t c, (i, t, c) ∈ V -> t = term r' -> votedFor r' = c) ->
  (forall v t c c', (v, t, c) ∈ V' -> (v, t, c') ∈ V' -> c = c') ->
  tally members V' (pending C') i r' ->
  NoDup (pending C') ->
  (forall a, a ∈ pending C' -> a ∈ pending C \/ exists p, a = (i, p, term r') /\ p ∈ peers r) ->
  (forall c v t resp, ((c, v, t), resp) ∈ answers C' -> rvr_VoteGranted resp = true ->
     (v, t, c) ∈ V') ->
  inv C' V'.
Proof using.
  intros [In It Iv Iu Ia Id Ig] Hi Hn HV E1 E2 E3 E4 Hw Hv Hu Ht HN Hm Hg.
  constructor; try done.
  - intros j rj. rewrite Hn, lookup_insert_Some. intros [[<- <-]|[_ Hj]]; [|by apply In].
    destruct (In i r Hi) as (A1 & A2 & A3). split_and!; [congruence|by rewrite E2|congruence].
  - intros j rj. rewrite Hn, lookup_insert_Some. intros [[<- <-]|[Hij Hj]]; [done|].
    intros Hs. destruct (It j rj Hj Hs) as (L & L1 & L2 & L3 & L4 & L5 & L6).
    exists L. split_and!; try done.
    + intros x Hx. by apply HV, L4.
    + intros x Hx. apply L5. destruct (Hm _ Hx) as [|(p & [= Heq] & _)]; congruence.
  - intros w Hw'. destruct (Hw w Hw') as [Hold|]; [|done].
    pose proof (Iv w Hold) as Hr. destruct w as [[v t] c]. destruct Hr as (Hc & rv & Hrv & Htv & Hvf).
    split; [done|]. rewrite Hn. destruct (decide (v = i)) as [->|Hvi].
    + exists r'. rewrite lookup_insert_eq. simplify_eq. split_and!; [done|lia|].
      intros Heq. by apply (Hv t c).
    + exists rv. by rewrite lookup_insert_ne.
  - intros [[c v] t] Ha. unfold ask_ok. destruct (Hm _ Ha) as [Hold|(p & [= -> -> ->] & Hp)].
    + destruct (Ia _ Hold) as (rc & Hrc & Hp & Htc). rewrite Hn.
      destruct (decide (c = i)) as [->|Hci].
      * exists r'. rewrite lookup_insert_eq. simplify_eq. rewrite E2. split_and!; [done|done|lia].
      * exists rc. by rewrite lookup_insert_ne.
    + exists r'. rewrite Hn, lookup_insert_eq, E2. split_and!; [done|done|lia].
Qed.

(** Events that are quiet for the election. *)
Lemma inv_quiet C V C' i r r' :
  inv C V -> nodes C !! i = Some r -> nodes C' = <[i := r']> (nodes C) -> quiet_step r r' ->
  NoDup (pending C') -> (forall a, a ∈ pending C' -> a ∈ pending C) ->
  (forall c v t resp, ((c, v, t), resp) ∈ answers C' -> rvr_VoteGranted resp = true ->
     (v, t, c) ∈ V) ->
  inv C' V.
Proof using.
  intros Hinv Hi Hn Hq HN Hm Hg.
  assert (forall t c, (i, t, c) ∈ V -> t <= term r /\ (t = term r -> votedFor r = c)) as Hrec.
  { intros t c Hw. destruct (inv_votes _ _ _ Hinv _ Hw) as (_ & r0 & Hr0 & ?). by simplify_eq. }
  eapply (inv_update C V C' V i r r'); try done.
  - apply (quiet_step_id _ _ Hq).
  - apply (quiet_step_id _ _ Hq).
  - destruct Hq as [Hq|Hq]; apply Hq.
  - destruct Hq as [(_&_&_&?&_)|(_&_&_&?&_)]; lia.
  - by left.
  - intros t c Hw ->. destruct (Hrec _ _ Hw) as [Hle Hvf].
    destruct Hq as [(_&_&_&Ht&_&Hvv&_)|(_&_&_&?&_)]; [|lia].
    rewrite Hvv. by apply Hvf.
  - apply (inv_unique _ _ _ Hinv).
  - destruct Hq as [(_&Hp&Hs&Ht&Hvt&_)|(_&_&Hs&_)]; [|by intros ?].
    intros Hst. rewrite Hs in Hst.
    destruct (inv_tally _ _ _ Hinv i r Hi Hst) as (L & L1 & L2 & L3 & L4 & L5 & L6).
    exists L. rewrite Ht, Hvt, Hs, (majority_peers r) by done. split_and!; try done.
    intros x Hx. apply L5. by apply Hm.
  - intros a Ha. left. by apply Hm.
Qed.

Lemma node_facts C V i r :
  inv C V -> nodes C !! i = Some r ->
  nodeId r = i /\ i <> "" /\ i ∈ members /\ (i ∉ peers r) /\ NoDup (peers r) /\
  (forall p, p ∈ peers r -> p ∈ members).
Proof using Hne Hnd.
  intros Hinv Hi. destruct (inv_nodes _ _ _ Hinv i r Hi) as (H1 & H2 & H3).
  assert (NoDup (i :: peers r)) as Hp by (by rewrite H2).
  apply NoDup_cons in Hp as [Hp1 Hp2].
  assert (i ∈ members) as Hm by (rewrite <- H2; set_solver).
  split_and!; try done.
  - by intros ->.
  - intros p Hp. rewrite <- H2. set_solver.
Qed.

Lemma recorded C V i r t c :
  inv C V -> nodes C !! i = Some r -> (i, t, c) ∈ V ->
  c <> "" /\ t <= term r /\ (t = term r -> votedFor r = c).
Proof using.
  intros Hinv Hi Hw. destruct (inv_votes _ _ _ Hinv _ Hw) as (? & r0 & Hr0 & ?). by simplify_eq.
Qed.

(** A node starts an election, possibly after having stepped down. *)
Lemma inv_elect C V i r m r' :
  inv C V -> nodes C !! i = Some r -> quiet_step r m -> started_election m r' ->
  inv (mkCluster (<[i := r']> (nodes C)) (asks C ++ election_asks i r r') (answers C))
      ((i, term r', i) :: V).
Proof using Hne Hnd.
  intros Hinv Hi Hq (S1 & S2 & S3 & S4 & S5 & S6 & S7 & S8).
  destruct (node_facts C V i r Hinv Hi) as (N1 & N2 & N3 & N4 & N5 & N6).
  destruct (quiet_step_id _ _ Hq) as [Q1 Q2].
  assert (term r <= term m /\ removedFromCluster m = removedFromCluster r) as [Q3 Q4].
  { destruct Hq as [(_&_&_&?&_&_&?)|(_&_&_&?&_&?)]; split; try lia; done. }
  assert (forall p, (i, p, term r') ∉ pending C) as Hfresh.
  { intros p Hp. destruct (inv_asks _ _ _ Hinv _ Hp) as (r0 & Hr0 & _ & Ht).
    simplify_eq. lia. }
  assert (forall a, a ∈ election_asks i r r' ->
            exists p, a = (i, p, term r') /\ p ∈ peers r) as Hel.
  { intros a Ha. unfold election_asks in Ha. case_decide; [|by apply not_elem_of_nil in Ha].
    apply list_elem_of_fmap in Ha as (p & -> & Hp). apply list_elem_of_filter in Hp as [_ Hp].
    exists p. split; [done|]. by rewrite <- Q2, <- S2. }
  assert (NoDup (election_asks i r r')) as Hnde.
  { unfold election_asks. case_decide; [|constructor].
    apply NoDup_fmap_2_strong; [by intros ???? [= ->]|]. apply NoDup_filter.
    by rewrite S2, Q2. }
  assert (forall a, a ∈ pending (mkCluster (<[i := r']> (nodes C))
              (asks C ++ election_asks i r r') (answers C)) ->
            a ∈ pending C \/ a ∈ election_asks i r r') as Hpend.
  { intros a. unfold pending. simpl. rewrite !elem_of_app. tauto. }
  eapply (inv_update C V _ _ i r r'); simpl; try done; try lia; try congruence.
  - set_solver.
  - intros w [->|Hw]%elem_of_cons; [right|by left]. split; [done|].
    exists r'. simpl. rewrite lookup_insert_eq. split_and!; [done|lia|]. intros _. congruence.
  - intros t c Hw ->. destruct (recorded C V i r _ _ Hinv Hi Hw) as (_ & ? & _). lia.
  - intros v t c c' H1%elem_of_cons H2%elem_of_cons.
    destruct H1 as [H1|H1], H2 as [H2|H2]; simplify_eq; try done.
    + destruct (recorded C V _ r _ _ Hinv Hi H2) as (_ & ? & _). lia.
    + destruct (recorded C V _ r _ _ Hinv Hi H1) as (_ & ? & _). lia.
    + by eapply (inv_unique _ _ _ Hinv).
  - intros Hs. exists [i]. split_and!.
    + apply NoDup_singleton.
    + set_solver.
    + done.
    + intros x ->%list_elem_of_singleton. set_solver.
    + intros x Hx Hxi%list_elem_of_singleton. subst x.
      destruct (Hpend _ Hx) as [Hx'|Hx']; [by apply (Hfresh i)|].
      destruct (Hel _ Hx') as (p & [= <-] & Hp). done.
    + intros HL. rewrite S8 in HL. rewrite (majority_peers m) by done.
      destruct (majority m <=? 1) eqn:Em; [lia|done].
  - unfold pending. simpl. rewrite <- app_assoc, (Permutation_app_comm (election_asks i r r')).
    rewrite app_assoc. apply NoDup_app. split_and!; [apply (inv_nodup _ _ _ Hinv)| |done].
    intros a Ha Ha'. destruct (Hel a Ha') as (p & -> & _). by apply (Hfresh p).
  - intros a Ha. destruct (Hpend _ Ha) as [|Ha']; [by left|right]. by apply Hel.
  - intros c v t resp Hin Hg. apply elem_of_cons. right. by eapply (inv_granted _ _ _ Hinv).
Qed.

(** A voter handles a request. *)
Lemma inv_ask C V as1 as2 c v t req rv now rv' resp :
  inv C V -> asks C = as1 ++ (c, v, t) :: as2 -> rv_CandidateId req = c -> rv_Term req = t ->
  nodes C !! v = Some rv -> RequestVote now req rv = (rv', resp) ->
  inv (mkCluster (<[v := rv']> (nodes C)) (as1 ++ as2) (answers C ++ [((c, v, t), resp)]))
      (if rvr_VoteGranted resp then (v, t, c) :: V else V).
Proof using Hne Hnd.
  intros Hinv Has Hid Ht Hv HR.
  set (C' := mkCluster _ _ _).
  assert (pending C' ≡ₚ pending C) as Hperm.
  { unfold pending, C'. cbn [asks answers]. rewrite Has, map_app. cbn [map fst].
    rewrite (Permutation_app_comm (map fst (answers C)) [(c, v, t)]).
    rewrite <- (Permutation_middle as1 as2). cbn [app].
    by rewrite <- Permutation_middle. }
  assert (NoDup (pending C')) as Hnd' by (rewrite Hperm; apply (inv_nodup _ _ _ Hinv)).
  assert (forall a, a ∈ pending C' -> a ∈ pending C) as Hsub by (intros a; by rewrite Hperm).
  assert (c <> "") as N2.
  { destruct (inv_asks _ _ _ Hinv (c, v, t)) as (rc & Hc & _).
    { unfold pending. rewrite Has. set_solver. }
    apply (node_facts C V c rc Hinv Hc). }
  destruct (RequestVote_view _ _ _ _ _ HR) as [[Hg Hq]|(Hg & m & Hq & M1 & M2 & M3 & M4 & M5 & M6 & M7 & M8 & M9)];
    rewrite Hg.
  { eapply (inv_quiet C V C' v rv rv'); try done.
    intros c0 v0 t0 resp0. unfold C'. cbn [answers]. rewrite elem_of_app, list_elem_of_singleton.
    intros [Hin|[= -> -> -> ->]] Hg'; [by eapply (inv_granted _ _ _ Hinv)|congruence]. }
  rewrite Ht in M1. rewrite Hid in M2, M9.
  assert (forall c0, (v, t, c0) ∈ V -> c0 = c) as Hsame.
  { intros c0 Hw. destruct (recorded C V v rv _ _ Hinv Hv Hw) as (Hc0 & Hle & Hvf).
    destruct Hq as [(_&_&_&Q4&_&Q6&_)|(_&_&_&Q4&_)]; [|lia].
    rewrite Q6, Hvf in M2 by lia. by destruct M2. }
  destruct (quiet_step_id _ _ Hq) as [Q1 Q2].
  assert (term rv <= term m /\ removedFromCluster m = removedFromCluster rv) as [Q3 Q5].
  { destruct Hq as [(_&_&_&?&_&_&?)|(_&_&_&?&_&?)]; split; try lia; done. }
  eapply (inv_update C V C' _ v rv rv'); try done; try congruence; try lia.
  - set_solver.
  - intros w [->|Hw]%elem_of_cons; [right|by left]. split; [done|].
    exists rv'. unfold C'. cbn [nodes]. rewrite lookup_insert_eq. split_and!; [done|lia|done].
  - intros t0 c0 Hw Heq. rewrite M9. symmetry. apply Hsame. by rewrite <- M1, <- M6, <- Heq.
  - intros v0 t0 c0 c0' H1%elem_of_cons H2%elem_of_cons.
    destruct H1 as [H1|H1], H2 as [H2|H2]; simplify_eq; try done.
    + symmetry. by apply Hsame.
    + by apply Hsame.
    + by eapply (inv_unique _ _ _ Hinv).
  - intros Hs. rewrite M5 in Hs. destruct Hq as [(_&_&S3&S4&S5&_)|(_&_&S3&_)]; [|done].
    rewrite S3 in Hs. destruct (inv_tally _ _ _ Hinv v rv Hv Hs) as (L & L1 & L2 & L3 & L4 & L5 & L6).
    exists L. rewrite M6, M7, S4, S5, M5, S3, (majority_peers rv) by congruence.
    split_and!; try done.
    + intros x Hx. apply elem_of_cons. right. by apply L4.
    + intros x Hx. by apply L5, Hsub.
  - intros a Ha. left. by apply Hsub.
  - intros c0 v0 t0 resp0. unfold C'. cbn [answers]. rewrite elem_of_app, list_elem_of_singleton.
    intros [Hin|[= -> -> -> ->]] Hg'; apply elem_of_cons; [right|by left].
    by eapply (inv_granted _ _ _ Hinv).
Qed.

(** A message is lost. *)
Lemma inv_fewer C V C' a :
  inv C V -> nodes C' = nodes C -> pending C ≡ₚ a :: pending C' ->
  (forall x, x ∈ answers C' -> x ∈ answers C) -> inv C' V.
Proof using Hne Hnd.
  intros [In It Iv Iu Ia Id Ig] Hn Hp Han. rewrite Hp in Id. apply NoDup_cons in Id as [_ Id].
  assert (forall x, x ∈ pending C' -> x ∈ pending C) as Hsub
    by (intros x Hx; rewrite Hp; set_solver).
  constructor; try done.
  - intros i r. rewrite Hn. apply In.
  - intros i r Hi Hs. rewrite Hn in Hi.
    destruct (It i r Hi Hs) as (L & L1 & L2 & L3 & L4 & L5 & L6).
    exists L. split_and!; try done. intros x Hx. by apply L5, Hsub.
  - intros [[v t] c] Hw. unfold vote_recorded. rewrite Hn. by apply (Iv (v, t, c)).
  - intros [[c v] t] Ha. unfold ask_ok. rewrite Hn. apply (Ia (c, v, t)). by apply Hsub.
  - intros c v t resp Hin. apply Ig. by apply Han.
Qed.

(** A timely answer reaches the candidate. *)
Lemma inv_answer C V an1 an2 c v t resp rc :
  inv C V -> answers C = an1 ++ ((c, v, t), resp) :: an2 -> nodes C !! c = Some rc ->
  term rc = t ->
  inv (mkCluster (<[c := handleVoteResponse resp rc]> (nodes C)) (asks C) (an1 ++ an2)) V.
Proof using Hne Hnd.
  intros Hinv Han Hc Ht. set (C' := mkCluster _ _ _).
  assert (pending C ≡ₚ (c, v, t) :: pending C') as Hperm.
  { unfold pending, C'. cbn [asks answers]. rewrite Han, !map_app. cbn [map fst].
    rewrite app_assoc, <- Permutation_middle. by rewrite <- app_assoc. }
  pose proof (inv_nodup _ _ _ Hinv) as Hnd0. rewrite Hperm in Hnd0.
  apply NoDup_cons in Hnd0 as [Hnew Hnd'].
  assert (forall a, a ∈ pending C' -> a ∈ pending C) as Hsub
    by (intros a Ha; rewrite Hperm; set_solver).
  assert (forall c0 v0 t0 r0, ((c0, v0, t0), r0) ∈ answers C' -> rvr_VoteGranted r0 = true ->
            (v0, t0, c0) ∈ V) as Hgr.
  { intros c0 v0 t0 r0 Hin Hg. eapply (inv_granted _ _ _ Hinv); [|done]. rewrite Han.
    unfold C' in Hin. cbn [answers] in Hin. set_solver. }
  destruct (handleVoteResponse_view resp rc) as [Hq|(Hs & Hg & N1 & N2 & N3 & N4 & N5 & N6 & N7)].
  { by eapply (inv_quiet C V C' c rc). }
  assert ((c, v, t) ∈ pending C) as Hin by (rewrite Hperm; set_solver).
  assert ((v, t, c) ∈ V) as Hvote.
  { eapply (inv_granted _ _ _ Hinv); [|exact Hg]. rewrite Han. set_solver. }
  destruct (node_facts C V c rc Hinv Hc) as (_ & _ & _ & _ & _ & Hpm).
  destruct (inv_asks _ _ _ Hinv _ Hin) as (r0 & Hr0 & Hvp & _). simplify_eq.
  eapply (inv_update C V C' V c rc (handleVoteResponse resp rc)); try done; try lia.
  - by left.
  - intros t0 c0 Hw Heq. rewrite N5.
    destruct (recorded C V c rc _ _ Hinv Hc Hw) as (_ & _ & Hvf). apply Hvf. congruence.
  - apply (inv_unique _ _ _ Hinv).
  - intros _. destruct (inv_tally _ _ _ Hinv c rc Hc) as (L & L1 & L2 & L3 & L4 & L5 & L6);
      [congruence|].
    exists (v :: L). rewrite N3, N6, (majority_peers rc) by done. split_and!; try done.
    + apply NoDup_cons. split; [|done]. by apply L5.
    + intros x [->|Hx]%elem_of_cons; [by apply Hpm|by apply L2].
    + cbn [length]. lia.
    + intros x [->|Hx]%elem_of_cons; [done|by apply L4].
    + intros x Hx [->|Hxl]%elem_of_cons; [done|]. by apply (L5 x); [apply Hsub|].
  - intros a Ha. left. by apply Hsub.
Qed.

(** A node acts without starting an election. *)
Lemma inv_idle C V i r r' :
  inv C V -> nodes C !! i = Some r -> quiet_step r r' ->
  inv (mkCluster (<[i := r']> (nodes C)) (asks C ++ election_asks i r r') (answers C)) V.
Proof using Hne Hnd.
  intros Hinv Hi Hq. replace (election_asks i r r') with (@nil ask).
  2: { unfold election_asks. rewrite decide_False; [done|].
       destruct Hq as [(_&_&_&?&_)|(_&_&Hf&_)]; [lia|]. rewrite Hf. by intros []. }
  rewrite app_nil_r. eapply (inv_quiet C V _ i r r'); try done.
  - apply (inv_nodup _ _ _ Hinv).
  - apply (inv_granted _ _ _ Hinv).
Qed.

(** Two majorities of the members have a member in common. *)
Lemma majority_quorums_meet C V i r L K :
  inv C V -> nodes C !! i = Some r ->
  NoDup L -> NoDup K -> L ⊆ members -> K ⊆ members ->
  majority r <= Z.of_nat (length L) -> majority r <= Z.of_nat (length K) ->
  exists x, x ∈ L /\ x ∈ K.
Proof using.
  intros Hinv Hi A1 B1 A2 B2 A3 B3.
  destruct (inv_nodes _ _ _ Hinv i r Hi) as (_ & Pi & _). apply Permutation_length in Pi.
  cbn [length] in Pi. unfold majority in A3, B3.
  apply (majorities_meet members L K A1 B1 A2 B2).
  pose proof (Z.div_mod (Z.of_nat (length (peers r)) + 1) 2 ltac:(lia)).
  pose proof (Z.mod_pos_bound (Z.of_nat (length (peers r)) + 1) 2 ltac:(lia)). lia.
Qed.

Lemma majority_members C V i r :
  inv C V -> nodes C !! i = Some r -> majority r = Z.of_nat (length members) / 2 + 1.
Proof using.
  intros Hinv Hi. destruct (inv_nodes _ _ _ Hinv i r Hi) as (_ & Pi & _).
  apply Permutation_length in Pi. cbn [length] in Pi. unfold majority. f_equal. f_equal. lia.
Qed.

(** Two leaders of one term are one node: their votes share a voter. *)
Lemma quorums_share C V i ri t ci cj Li Lj :
  inv C V -> nodes C !! i = Some ri ->
  NoDup Li -> NoDup Lj -> Li ⊆ members -> Lj ⊆ members ->
  majority ri <= Z.of_nat (length Li) -> majority ri <= Z.of_nat (length Lj) ->
  (forall x, x ∈ Li -> (x, t, ci) ∈ V) -> (forall x, x ∈ Lj -> (x, t, cj) ∈ V) -> ci = cj.
Proof using.
  intros Hinv Hi A1 B1 A2 B2 A3 B3 A4 B4.
  destruct (majority_quorums_meet C V i ri Li Lj) as (x & Hx & Hx'); try done.
  eapply (inv_unique _ _ _ Hinv x t); [by apply A4|by apply B4].
Qed.

Lemma leaders_unique C V i j ri rj :
  inv C V -> nodes C !! i = Some ri -> nodes C !! j = Some rj ->
  state ri = Leader -> state rj = Leader -> term ri = term rj -> i = j.
Proof using.
  intros Hinv Hi Hj Hli Hlj Ht.
  destruct (inv_tally _ _ _ Hinv i ri Hi) as (Li & A1 & A2 & A3 & A4 & _ & A6); [congruence|].
  destruct (inv_tally _ _ _ Hinv j rj Hj) as (Lj & B1 & B2 & B3 & B4 & _ & B6); [congruence|].
  specialize (A6 Hli). specialize (B6 Hlj).
  rewrite (majority_members C V j rj), <- (majority_members C V i ri) in B6 by done.
  eapply (quorums_share C V i ri (term ri) i j Li Lj); try done; [lia|lia|].
  by rewrite Ht.
Qed.

(** What a timer or a transfer does. *)
Lemma tick_view now timeout r :
  quiet_step r (electionTimer_tick now timeout r).1 \/
  started_election r (electionTimer_tick now timeout r).1.
Proof using.
  unfold electionTimer_tick. split_ifs; try by left.
  destruct (startElection_view now r) as [[_ ->]|Hs]; [by left|by right].
Qed.

Lemma TimeoutNow_view now req r :
  quiet_step r (TimeoutNow now req r).1 \/
  exists m, quiet_step r m /\ started_election m (TimeoutNow now req r).1.
Proof using.
  unfold TimeoutNow. split_ifs; try by left. simpl.
  pose proof (bumpTerm_quiet (tn_Term req) r) as Hq.
  destruct (startElection_view now (bumpTerm (tn_Term req) r)) as [[_ ->]|Hs]; [by left|].
  right. by exists (bumpTerm (tn_Term req) r).
Qed.

Lemma cstep_inv C V C' : inv C V -> cstep true C C' -> exists V', inv C' V'.
Proof using Hne Hnd.
  intros Hinv Hstep. destruct Hstep as
    [C i r now timeout r' Hi Hr'|C i r now req r' Hi Hr'|C as1 as2 c v t req rv now rv' resp Has Hid H32 Ht Hv HR
    |C an1 an2 c v t resp rc Han Hc Ht|C as1 as2 a Has|C an1 an2 a Han|C i r ev r' Hi Hev Hh Htake].
  - subst r'. destruct (tick_view now timeout r) as [Hq|Hs].
    + exists V. by apply inv_idle.
    + eexists. by eapply inv_elect.
  - subst r'. destruct (TimeoutNow_view now req r) as [Hq|(m & Hq & Hs)].
    + exists V. by apply inv_idle.
    + eexists. by eapply inv_elect.
  - rewrite int32_id in Ht by done. eexists. by eapply inv_ask.
  - exists V. eapply inv_answer; eauto.
  - exists V.
    assert (pending C ≡ₚ a :: pending (mkCluster (nodes C) (as1 ++ as2) (answers C))) as Hp.
    { unfold pending. cbn [asks answers]. rewrite Has. by rewrite <- (Permutation_middle as1 as2). }
    by eapply inv_fewer.
  - exists V.
    assert (pending C ≡ₚ a.1 :: pending (mkCluster (nodes C) (asks C) (an1 ++ an2))) as Hp.
    { unfold pending. cbn [asks answers]. rewrite Han, !map_app. cbn [map].
      rewrite app_assoc, <- Permutation_middle. by rewrite <- app_assoc. }
    eapply inv_fewer; try done. intros x Hx. rewrite Han. set_solver.
  - exists V. eapply (inv_quiet C V _ i r r'); try done.
    + by eapply handle_quiet.
    + apply (inv_nodup _ _ _ Hinv).
    + apply (inv_granted _ _ _ Hinv).
Qed.
End preservation.

Lemma initial_inv members C : initial members C -> election_inv members C [].
Proof.
  intros (Hnd & Hne & Ha & Han & Hn). assert (pending C = []) as Hp by (unfold pending; by rewrite Ha, Han).
  constructor.
  - intros i r Hi. destruct (Hn i r Hi) as (? & ? & _ & ?). by split_and!.
  - intros i r Hi Hs. destruct (Hn i r Hi) as (_ & _ & ? & _). done.
  - by intros w ?%not_elem_of_nil.
  - by intros v t c c' ?%not_elem_of_nil.
  - rewrite Hp. by intros a ?%not_elem_of_nil.
  - rewrite Hp. constructor.
  - rewrite Han. by intros c v t resp ?%not_elem_of_nil.
Qed.

(** C2: election safety.  In a cluster with a fixed membership whose vote
    answers are timely, whatever timeouts, leadership transfers, lost,
    delayed and reordered messages and other requests occur, no two nodes are
    ever leader in the same term (terms below 2^31, as the wire carries them). *)
Theorem election_safety members C C' i j ri rj :
  initial members C -> rtc (cstep true) C C' ->
  nodes C' !! i = Some ri -> nodes C' !! j = Some rj ->
  state ri = Leader -> state rj = Leader -> term ri = term rj -> i = j.
Proof.
  intros Hinit Hrun Hi Hj Hli Hlj Ht.
  assert (exists V, election_inv members C' V) as [V Hinv].
  { destruct (Hinit) as (Hnd & Hne & _). apply initial_inv in Hinit as H0. clear Hi Hj Hinit.
    revert H0. generalize (@nil vote).
    induction Hrun as [C|C C1 C2 Hs _ IH]; intros V H0; [by exists V|].
    destruct (cstep_inv members Hne Hnd C V C1 H0 Hs) as [V1 H1]. by eapply IH. }
  by eapply leaders_unique.
Qed.

(** ** Concrete elections *)

(** Runs given as lists of actions: a timer fires, the [k]-th request is
    handled, the [k]-th answer arrives. *)
Inductive action := ATick (i : NodeID) (now : Z) | AAsk (k : nat) (now : Z) | AAnswer (k : nat).

Definition act (timely : bool) (a : action) (C : cluster) : option cluster :=
  match a with
  | ATick i now =>
    r ← nodes C !! i;
    let r' := (electionTimer_tick now (ms 1500) r).1 in
    Some (mkCluster (<[i := r']> (nodes C)) (asks C ++ election_asks i r r') (answers C))
  | AAsk k now =>
    '(c, v, t) ← asks C !! k;
    rc ← nodes C !! c; rv ← nodes C !! v;
    if decide (in_int32 t) then if decide (nodeId rc = c) then
      let res := RequestVote now (voteRequest t rc) rv in
      Some (mkCluster (<[v := res.1]> (nodes C)) (take k (asks C) ++ drop (S k) (asks C))
              (answers C ++ [((c, v, t), res.2)]))
    else None else None
  | AAnswer k =>
    '((c, v, t), resp) ← answers C !! k;
    rc ← nodes C !! c;
    if decide (timely = true /\ term rc <> t) then None
    else Some (mkCluster (<[c := handleVoteResponse resp rc]> (nodes C)) (asks C)
                 (take k (answers C) ++ drop (S k) (answers C)))
  end.

Lemma act_sound timely a C C' : act timely a C = Some C' -> cstep timely C C'.
Proof.
  destruct a as [i now|k now|k]; cbn [act]; intros H.
  - destruct (nodes C !! i) as [r|] eqn:Hi; [|done]. injection H as <-.
    by apply (c_tick _ C i r now (ms 1500)).
  - destruct (asks C !! k) as [[[c v] t]|] eqn:Hk; [|done]. simpl in H.
    destruct (nodes C !! c) as [rc|] eqn:Hc; [|done]. simpl in H.
    destruct (nodes C !! v) as [rv|] eqn:Hv; [|done]. simpl in H.
    destruct (decide (in_int32 t)); [|done].
    destruct (decide (nodeId rc = c)) as [Hid|]; [|done]. injection H as <-.
    eapply (c_ask _ C (take k (asks C)) (drop (S k) (asks C)) c v t (voteRequest t rc) rv now); try done.
    + symmetry. by apply take_drop_middle.
    + by destruct (RequestVote _ _ _).
  - destruct (answers C !! k) as [[[[c v] t] resp]|] eqn:Hk; [|done]. simpl in H.
    destruct (nodes C !! c) as [rc|] eqn:Hc; [|done]. simpl in H.
    destruct (decide _) as [|Hd]; [done|]. injection H as <-.
    eapply (c_answer _ C (take k (answers C)) (drop (S k) (answers C)) c v t resp rc); try done.
    + symmetry. by apply take_drop_middle.
    + intros ->. destruct (decide (term rc = t)); [done|]. by destruct Hd.
Qed.

Fixpoint acts (timely : bool) (l : list action) (C : cluster) : option cluster :=
  match l with
  | [] => Some C
  | a :: l' => C' ← act timely a C; acts timely l' C'
  end.

Lemma acts_sound timely l C C' : acts timely l C = Some C' -> rtc (cstep timely) C C'.
Proof.
  revert C. induction l as [|a l IH]; intros C H; cbn [acts] in H.
  - injection H as <-. apply rtc_refl.
  - destruct (act timely a C) as [C1|] eqn:E; [|done]. simpl in H.
    eapply rtc_l; [by apply (act_sound timely a)|by apply IH].
Qed.

Definition three : list NodeID := ["n1"; "n2"; "n3"].

Definition fresh (i : NodeID) (ps : list NodeID) : Raft :=
  example_node i ps Follower 0 [mkLogEntry 0 0 ""].

Definition trio : cluster :=
  mkCluster {["n1" := fresh "n1" ["n2"; "n3"]; "n2" := fresh "n2" ["n1"; "n3"];
              "n3" := fresh "n3" ["n1"; "n2"]]} [] [].

Lemma trio_initial : initial three trio.
Proof.
  split_and!; [by_decide|by_decide|done|done|].
  intros i r Hi. unfold trio in Hi. cbn [nodes] in Hi.
  rewrite !lookup_insert_Some in Hi. rewrite lookup_singleton_Some in Hi.
  destruct Hi as [[<- <-]|[_ [[<- <-]|[_ [<- <-]]]]]; split_and!; try done; simpl.
  - apply Permutation_swap.
  - unfold three. rewrite (Permutation_cons_append ["n1"; "n2"] "n3"). done.
Qed.

(** What the observer sees of a node. *)
Definition role (C : cluster) (i : NodeID) : option (RaftState * Z) :=
  (fun r => (state r, term r)) <$> nodes C !! i.

(** ["n1"] asks, ["n2"] grants, the answer arrives in time. *)
Lemma election_safety_witness :
  exists C', rtc (cstep true) trio C' /\ initial three trio /\
  role C' "n1" = Some (Leader, 1) /\ role C' "n3" = Some (Follower, 0) /\
  (forall i j ri rj, nodes C' !! i = Some ri -> nodes C' !! j = Some rj ->
     state ri = Leader -> state rj = Leader -> term ri = term rj -> i = j).
Proof.
  destruct (acts true [ATick "n1" (ms 2000); AAsk 0 (ms 2001); AAnswer 0] trio) as [C'|] eqn:E;
    [|vm_compute in E; discriminate E].
  exists C'. pose proof (acts_sound _ _ _ _ E) as Hrun.
  split; [exact Hrun|]. split; [exact trio_initial|].
  split; [vm_compute in E; injection E as <-; vm_compute; reflexivity|].
  split; [vm_compute in E; injection E as <-; vm_compute; reflexivity|].
  intros i j ri rj. exact (election_safety three trio C' i j ri rj trio_initial Hrun).
Defined.

(** C37: a late vote elects a second leader.  Without timely answers the same
    handlers let two nodes lead in one term: ["n1"] asks in term 1, times out
    and asks again in term 2; the vote ["n2"] gave it in term 1 arrives now,
    is counted, and makes it leader of term 2; ["n3"] then wins term 2 with
    the vote ["n2"] gives it there. *)
Theorem late_vote_two_leaders :
  exists members C C', initial members C /\ rtc (cstep false) C C' /\
    role C' "n1" = Some (Leader, 2) /\ role C' "n3" = Some (Leader, 2).
Proof.
  destruct (acts false
    [ATick "n1" (ms 2000); AAsk 0 (ms 2001); ATick "n1" (ms 4000); AAnswer 0;
     ATick "n3" (ms 4001); ATick "n3" (ms 6000); AAsk 6 (ms 6001); AAnswer 0] trio)
    as [C'|] eqn:E; [|vm_compute in E; discriminate E].
  exists three, trio, C'. split; [exact trio_initial|]. split; [by eapply acts_sound|].
  vm_compute in E. injection E as <-. split; vm_compute; reflexivity.
Qed.
