(* ===== verification/LogPrefix.v ===== *)
(** * Logs as prefixes of the logs of leaders

    The list side of the safety argument.  [lead] maps a term to the log its
    leader has built; a log is [sound] if each of its entries, with everything
    before it, was taken from the log of the leader of its term.  Two sound logs
    have the log matching property; what [AppendEntries] does to a log is either
    nothing or replacing it by a prefix of the sender's; and a log that is at
    least as up to date as another (the test of [RequestVote]) holds what the
    other holds, unless a later leader has dropped it. *)
From stdpp Require Import gmap strings list.
From Stdlib Require Import ZArith Lia.
From S2P Require Import Prelude Types Stores RaftNode Election Replication LogMatching.

Local Open Scope Z_scope.

(** The placeholder every log starts with. *)
Definition origin : LogEntry := mkLogEntry 0 0 "".

(** ** Agreement up to an index *)

(** Both logs reach position [N] and hold the same entries up to it. *)
Definition agree (N : nat) (l k : list LogEntry) : Prop :=
  (N < length k)%nat /\ forall j, (j <= N)%nat -> l !! j = k !! j.

Lemma agree_lt N l k : agree N l k -> (N < length l)%nat.
Proof. intros [H1 H2]. apply lookup_lt_is_Some. rewrite H2 by done. by apply lookup_lt_is_Some. Qed.

Lemma agree_refl N l : (N < length l)%nat -> agree N l l.
Proof. by split. Qed.

Lemma agree_sym N l k : agree N l k -> agree N k l.
Proof. intros H. split; [by eapply agree_lt|]. intros j Hj. symmetry. by apply H. Qed.

Lemma agree_trans N a b c : agree N a b -> agree N b c -> agree N a c.
Proof. intros [H1 H2] [H3 H4]. split; [done|]. intros j Hj. rewrite H2 by done. by apply H4. Qed.

Lemma agree_mono N M l k : agree N l k -> (M <= N)%nat -> agree M l k.
Proof. intros [H1 H2] HM. split; [lia|]. intros j Hj. apply H2. lia. Qed.

Lemma agree_app_r N l k k' : agree N l k -> agree N l (k ++ k').
Proof.
  intros [H1 H2]. split; [rewrite length_app; lia|]. intros j Hj.
  rewrite lookup_app_l by lia. by apply H2.
Qed.

Lemma agree_take N n k : (N < n)%nat -> (N < length k)%nat -> agree N (take n k) k.
Proof. intros H1 H2. split; [done|]. intros j Hj. by rewrite lookup_take_lt by lia. Qed.

Lemma agree_dec N l k : Decision (agree N l k).
Proof.
  destruct (decide ((N < length k)%nat)) as [Hlt|]; [|right; by intros [? _]].
  destruct (decide (take (S N) l = take (S N) k)) as [E|E].
  - left. split; [done|]. intros j Hj.
    rewrite <- (lookup_take_lt l (S N) j), <- (lookup_take_lt k (S N) j) by lia. by rewrite E.
  - right. intros [_ H]. apply E. apply list_eq. intros j.
    destruct (decide ((j <= N)%nat)).
    + rewrite !lookup_take_lt by lia. by apply H.
    + by rewrite !lookup_take_ge by lia.
Qed.

(** The term of the entry at a position. *)
Definition term_at (l : list LogEntry) (N : nat) (t : Z) : Prop :=
  exists e, l !! N = Some e /\ Term e = t.

Lemma term_at_lt l N t : term_at l N t -> (N < length l)%nat.
Proof. intros (e & He & _). by eapply lookup_lt_Some. Qed.

Lemma term_at_agree N M l k t : agree N l k -> (M <= N)%nat -> term_at k M t -> term_at l M t.
Proof. intros [_ H] HM (e & He & Ht). exists e. by rewrite H. Qed.

Lemma term_at_app l k N t : term_at l N t -> term_at (l ++ k) N t.
Proof.
  intros (e & He & Ht). exists e. split; [|done]. by apply lookup_app_l_Some.
Qed.

Lemma term_at_app_inv l k N t :
  (N < length l)%nat -> term_at (l ++ k) N t -> term_at l N t.
Proof. intros HN (e & He & Ht). exists e. by rewrite lookup_app_l in He. Qed.

Lemma term_at_det l N t u : term_at l N t -> term_at l N u -> t = u.
Proof. intros (e & He & <-) (e' & He' & <-). congruence. Qed.

(** ** Leaders' logs *)

Section lead.
Context (lead : gmap Z (list LogEntry)).

Definition sound (l : list LogEntry) : Prop :=
  l !! 0%nat = Some origin /\ contiguous 0 l /\
  forall k e, l !! k = Some e -> (0 < k)%nat ->
    exists L, lead !! Term e = Some L /\ agree k l L.

(** Leaders' logs are sound, and their terms are those of real elections. *)
Definition lead_ok : Prop :=
  forall t L, lead !! t = Some L ->
    1 <= t /\ sound L /\ forall k e, L !! k = Some e -> Term e <= t.

Context (Hlead : lead_ok).

Lemma sound_length l : sound l -> (0 < length l)%nat.
Proof using. intros [H _]. by eapply lookup_lt_Some. Qed.

(** Terms do not decrease along a sound log. *)
Lemma sound_terms l j k e e' :
  sound l -> l !! j = Some e -> l !! k = Some e' -> (j <= k)%nat -> Term e <= Term e'.
Proof using Hlead.
  intros (H0 & _ & Hs) Hj Hk Hjk. destruct (decide (k = 0%nat)) as [->|Hk0].
  { assert (j = 0%nat) as -> by lia. simplify_eq. lia. }
  destruct (Hs k e' Hk ltac:(lia)) as (L & HL & _ & Ha).
  destruct (Hlead _ _ HL) as (_ & _ & Ht). apply (Ht j). rewrite <- Ha by lia. done.
Qed.

(** Log matching: the same term at an index means the same past. *)
Lemma sound_match l k N x y :
  sound l -> sound k -> l !! N = Some x -> k !! N = Some y -> Term x = Term y -> agree N l k.
Proof using.
  intros (L0 & _ & Hl) (K0 & _ & Hk) Hx Hy Ht. destruct (decide (N = 0%nat)) as [->|HN].
  { split; [by eapply lookup_lt_Some|]. intros j Hj. assert (j = 0%nat) as -> by lia. congruence. }
  destruct (Hl N x Hx ltac:(lia)) as (L & HL & A1). destruct (Hk N y Hy ltac:(lia)) as (K & HK & A2).
  rewrite Ht in HL. simplify_eq. eapply agree_trans; [exact A1|by apply agree_sym].
Qed.

Lemma sound_take l n : sound l -> (0 < n)%nat -> sound (take n l).
Proof using.
  intros (H0 & Hc & Hs) Hn. split_and!.
  - by rewrite lookup_take_lt by lia.
  - by apply contiguous_take.
  - intros k e [Hk He]%take_lookup_Some_inv Hk0.
    destruct (Hs k e He Hk0) as (L & HL & A). exists L. split; [done|].
    eapply agree_trans; [|exact A]. apply agree_take; [done|]. by eapply lookup_lt_Some.
Qed.

(** An entry in the term of the leader whose log it is in. *)
Lemma term_up L t N M :
  lead !! t = Some L -> term_at L N t -> (N <= M)%nat -> (M < length L)%nat -> term_at L M t.
Proof using Hlead.
  intros HL (e & He & Ht) HNM HM. destruct (Hlead _ _ HL) as (_ & Hs & Hle).
  apply lookup_lt_is_Some in HM as [x Hx]. exists x. split; [done|].
  pose proof (sound_terms L N M e x Hs He Hx HNM). pose proof (Hle M x Hx). lia.
Qed.

Lemma term_at_pos l s N : sound l -> 1 <= s -> term_at l N s -> (0 < N)%nat.
Proof using.
  intros (H0 & _) Hs (e & He & Ht). destruct N; [|lia]. exfalso.
  rewrite H0 in He. injection He as <-. simpl in Ht. lia.
Qed.

(** The last term and index of a log. *)
Lemma sound_last l :
  sound l -> exists e, last l = Some e /\ l !! (length l - 1)%nat = Some e /\
    Index e = Z.of_nat (length l) - 1.
Proof using.
  intros Hs. pose proof (sound_length l Hs) as Hl. destruct Hs as (_ & Hc & _).
  destruct (last l) as [e|] eqn:E; [|apply last_None in E; subst; simpl in Hl; lia].
  exists e. rewrite last_lookup in E. replace (pred (length l)) with (length l - 1)%nat in E by lia.
  split_and!; try done. rewrite (Hc _ _ E). lia.
Qed.

(** The heart of leader completeness.  Log [w] holds what the leader of term
    [s] had built up to [N], an entry of that term; log [c] is at least as up
    to date as [w] and stems from terms up to [t].  Then [c] holds it too,
    unless the leader of a term between dropped it. *)
Lemma up_to_date_holds (w c L : list LogEntry) s t N x y :
  lead !! s = Some L -> term_at L N s -> sound w -> sound c -> agree N w L ->
  last w = Some x -> last c = Some y ->
  (Term x < Term y \/ (Term y = Term x /\ (length w <= length c)%nat)) -> Term y <= t ->
  agree N c L \/ exists u U, s < u <= t /\ lead !! u = Some U /\ ~ agree N U L.
Proof using Hlead.
  intros HL HN Hw Hc Ha Hx Hy Hup Hyt.
  destruct (sound_last w Hw) as (x' & Hx' & Hxl & _). simplify_eq.
  destruct (sound_last c Hc) as (y' & Hy' & Hyl & _). simplify_eq.
  pose proof (sound_length w Hw) as Hwl. pose proof (sound_length c Hc) as Hcl.
  pose proof (agree_lt _ _ _ Ha) as HNw.
  assert (s <= Term x) as Hsx.
  { destruct (term_at_agree N N w L s Ha ltac:(lia) HN) as (e & He & <-).
    eapply (sound_terms w N); [done..|lia]. }
  destruct (Hlead _ _ HL) as (Hs1 & HsL & _).
  destruct Hup as [Hlt|[Heq Hlen]].
  - (* a later last term *)
    destruct (decide (length c = 1%nat)) as [Hc1|Hc1].
    { replace (length c - 1)%nat with 0%nat in Hyl by lia.
      destruct Hc as (Hc0 & _). rewrite Hc0 in Hyl. injection Hyl as <-. simpl in Hlt. lia. }
    destruct (proj2 (proj2 Hc) _ _ Hyl ltac:(lia)) as (U & HU & HcU).
    destruct (agree_dec N U L) as [HUL|HUL].
    2: { right. exists (Term y), U. split_and!; try done; lia. }
    left. destruct (le_lt_dec (length c) N) as [Hshort|Hlong].
    + exfalso. destruct (Hlead _ _ HU) as (_ & HsU & _).
      destruct (term_at_agree N N U L s HUL ltac:(lia) HN) as (e & He & Hes).
      assert (U !! (length c - 1)%nat = Some y) as HyU by (rewrite <- (proj2 HcU) by lia; done).
      pose proof (sound_terms U _ _ _ _ HsU HyU He ltac:(lia)). lia.
    + eapply agree_trans; [|exact HUL]. eapply agree_mono; [exact HcU|lia].
  - (* the same last term *)
    left. assert (w !! (length w - 1)%nat = Some x) as Hx1 by done.
    destruct (decide (length c = 1%nat)) as [Hc1|Hc1].
    { pose proof (term_at_pos L s N HsL Hs1 HN). lia. }
    destruct (decide (length w = 1%nat)) as [Hw1|Hw1].
    { pose proof (term_at_pos L s N HsL Hs1 HN). lia. }
    destruct (proj2 (proj2 Hw) _ _ Hxl ltac:(lia)) as (U & HU & HwU).
    destruct (proj2 (proj2 Hc) _ _ Hyl ltac:(lia)) as (U' & HU' & HcU).
    rewrite Heq in HU'. simplify_eq.
    eapply agree_trans; [|exact Ha]. eapply agree_trans; [eapply agree_mono; [exact HcU|lia]|].
    apply agree_sym. eapply agree_mono; [exact HwU|lia].
Qed.
End lead.

(** ** Growing leaders' logs *)

(** Leaders only append entries of their own term; new terms may appear. *)
Definition grows (lead lead' : gmap Z (list LogEntry)) : Prop :=
  forall t L, lead !! t = Some L ->
    exists k, lead' !! t = Some (L ++ k) /\ Forall (fun e => Term e = t) k.

#[export] Instance grows_refl : Reflexive grows.
Proof. intros lead t L HL. exists []. by rewrite app_nil_r. Qed.

#[export] Instance grows_trans : Transitive grows.
Proof.
  intros a b c H1 H2 t L HL. destruct (H1 _ _ HL) as (k & Hk & Fk).
  destruct (H2 _ _ Hk) as (m & Hm & Fm). exists (k ++ m). rewrite app_assoc. split; [done|].
  by apply Forall_app.
Qed.

Lemma grows_insert lead t L : lead !! t = None -> grows lead (<[t := L]> lead).
Proof.
  intros Hn u U HU. exists []. rewrite app_nil_r, lookup_insert_ne by congruence. done.
Qed.

Lemma grows_snoc lead t L e :
  lead !! t = Some L -> Term e = t -> grows lead (<[t := L ++ [e]]> lead).
Proof.
  intros HL He u U HU. destruct (decide (u = t)) as [->|Hne].
  - exists [e]. rewrite lookup_insert_eq. simplify_eq. split; [done|]. by repeat constructor.
  - exists []. by rewrite app_nil_r, lookup_insert_ne.
Qed.

Lemma sound_grows lead lead' l : grows lead lead' -> sound lead l -> sound lead' l.
Proof.
  intros Hg (H0 & Hc & Hs). split_and!; try done. intros k e He Hk.
  destruct (Hs k e He Hk) as (L & HL & A). destruct (Hg _ _ HL) as (x & Hx & _).
  exists (L ++ x). split; [done|]. by apply agree_app_r.
Qed.

(** A leader appends the next entry. *)
Lemma sound_snoc lead t l e :
  sound lead l -> lead !! t = Some l -> Index e = Z.of_nat (length l) -> Term e = t ->
  sound (<[t := l ++ [e]]> lead) (l ++ [e]).
Proof.
  intros Hs Ht Hi He. pose proof (sound_length _ _ Hs) as Hlen.
  pose proof (sound_grows _ _ _ (grows_snoc lead t l e Ht He) Hs) as (H0 & Hc & H).
  split_and!.
  - by rewrite lookup_app_l by lia.
  - rewrite contiguous_app, contiguous_cons. split_and!; [done|lia|apply contiguous_nil].
  - intros k x Hx Hk. destruct (decide ((k < length l)%nat)) as [Hlt|Hge].
    + rewrite lookup_app_l in Hx by done. destruct (H k x Hx Hk) as (L & HL & Ha).
      exists L. split; [done|]. by apply agree_sym, agree_app_r, agree_sym.
    + rewrite lookup_app_r in Hx by lia. apply list_lookup_singleton_Some in Hx as [Hk0 <-].
      rewrite He, lookup_insert_eq. eexists. split; [done|]. apply agree_refl.
      rewrite length_app. simpl. lia.
Qed.

(** A later leader that lacks an entry goes on lacking it. *)
Lemma disagree_grows N s u (L U k m : list LogEntry) :
  s < u -> term_at L N s -> Forall (fun e => Term e = u) k ->
  ~ agree N U L -> ~ agree N (U ++ k) (L ++ m).
Proof.
  intros Hsu HN Hk Hna Ha. apply Hna. pose proof (term_at_lt _ _ _ HN) as HL.
  assert (agree N (U ++ k) L) as Ha'.
  { eapply agree_trans; [exact Ha|]. split; [done|]. intros j Hj. by rewrite lookup_app_l by lia. }
  destruct (le_lt_dec (length U) N) as [Hle|Hlt].
  - exfalso. destruct (term_at_agree N N (U ++ k) L s Ha' ltac:(lia) HN) as (e & He & Hes).
    rewrite lookup_app_r in He by done. apply list_elem_of_lookup_2 in He.
    pose proof (proj1 (Forall_forall _ _) Hk e He). simpl in *. lia.
  - split; [done|]. intros j Hj. rewrite <- (proj2 Ha' j Hj). by rewrite lookup_app_l by lia.
Qed.

(** ** Appending a slice of a leader's log *)

(** The entries of [es] are those of [L] after position [p]. *)
Definition slice (L : list LogEntry) (p : nat) (es : list LogEntry) : Prop :=
  (p + length es < length L)%nat /\
  forall k e, es !! k = Some e -> L !! (S p + k)%nat = Some e.

Lemma slice_cons L p e es :
  slice L p (e :: es) -> L !! S p = Some e /\ slice L (S p) es.
Proof.
  intros [H1 H2]. split.
  - rewrite <- (Nat.add_0_r (S p)). by apply (H2 0%nat).
  - split; [simpl in H1; lia|]. intros k x Hx.
    replace (S (S p) + k)%nat with (S p + S k)%nat by lia. by apply H2.
Qed.

Section append.
Context (L : list LogEntry) (HcL : contiguous 0 L).

Local Abbreviation append_all := (foldl (appendOrOverwrite 0)).

Lemma append_position l p e :
  L !! p = Some e ->
  appendOrOverwrite 0 l e =
  match l !! p with
  | Some x => if Term x =? Term e then l else take p l ++ [e]
  | None => l ++ [e]
  end.
Proof using HcL.
  intros He. unfold appendOrOverwrite. rewrite (HcL _ _ He).
  replace (0 + Z.of_nat p - 0) with (Z.of_nat p) by lia. rewrite Nat2Z.id.
  rewrite (proj2 (Z.ltb_ge _ _)) by lia. destruct (l !! p) as [x|] eqn:Ex.
  - apply lookup_lt_Some in Ex as Hlt. rewrite (proj2 (Z.ltb_lt _ _)) by lia. done.
  - apply lookup_ge_None in Ex. rewrite (proj2 (Z.ltb_ge _ _)) by lia. done.
Qed.

(** A prefix of [L] is extended entry by entry. *)
Lemma append_prefix es : forall p,
  slice L p es -> append_all (take (S p) L) es = take (S p + length es) L.
Proof using HcL.
  induction es as [|e es IH]; intros p Hs; cbn [foldl].
  { by rewrite Nat.add_0_r. }
  destruct (slice_cons _ _ _ _ Hs) as [He Hs'].
  rewrite (append_position _ (S p) e He), lookup_take_ge by lia.
  assert (take (S p) L ++ [e] = take (S (S p)) L) as -> by (symmetry; by apply take_S_r).
  rewrite IH by done. f_equal. simpl. lia.
Qed.

Lemma append_slice es : forall l p,
  agree p l L -> slice L p es ->
  (forall N x y, l !! N = Some x -> L !! N = Some y -> Term x = Term y -> agree N l L) ->
  (append_all l es = l /\ agree (p + length es) l L) \/
  (append_all l es = take (S p + length es) L /\
   exists k, (p < k <= p + length es)%nat /\ ~ agree k l L).
Proof using HcL.
  induction es as [|e es IH]; intros l p Ha Hs Hm; cbn [foldl].
  { left. split; [done|]. by rewrite Nat.add_0_r. }
  destruct (slice_cons _ _ _ _ Hs) as [He Hs'].
  rewrite (append_position _ (S p) e He).
  assert (forall l', (l' = take (S p) l ++ [e]) -> ~ agree (S p) l L ->
    append_all l' es = take (S p + length (e :: es)) L /\
    exists k, (p < k <= p + length (e :: es))%nat /\ ~ agree k l L) as Hcut.
  { intros l' -> Hna. split; [|exists (S p); split; [simpl; lia|done]].
    replace (take (S p) l ++ [e]) with (take (S (S p)) L).
    - rewrite append_prefix by done. f_equal. simpl. lia.
    - rewrite (take_S_r L (S p) e He). f_equal. apply list_eq. intros j.
      destruct (le_lt_dec (S p) j); [by rewrite !lookup_take_ge by lia|].
      rewrite !lookup_take_lt by lia. symmetry. apply Ha. lia. }
  destruct (l !! S p) as [x|] eqn:Ex.
  - destruct (Z.eqb_spec (Term x) (Term e)) as [Ht|Ht].
    + pose proof (Hm _ _ _ Ex He Ht) as Ha'. destruct (IH l (S p) Ha' Hs' Hm) as [[-> H2]|[-> (k & Hk & Hn)]].
      * left. split; [done|]. by replace (p + length (e :: es))%nat with (S p + length es)%nat by (simpl; lia).
      * right. split; [f_equal; simpl; lia|]. exists k. split; [simpl; lia|done].
    + right. apply Hcut; [done|]. intros [_ Hag]. rewrite (Hag (S p)) in Ex by lia. congruence.
  - right. apply Hcut.
    + apply lookup_ge_None in Ex. by rewrite take_ge by lia.
    + intros Hag%agree_lt. apply lookup_ge_None in Ex. lia.
Qed.

(** What the log then holds: the slice, and everything up to an index on which
    it and [L] agreed with some third log. *)
Lemma append_keeps l p es N k :
  agree p l L -> slice L p es ->
  (forall N x y, l !! N = Some x -> L !! N = Some y -> Term x = Term y -> agree N l L) ->
  agree N l k -> agree N L k -> agree N (append_all l es) k.
Proof using HcL.
  intros Ha Hs Hm H1 H2. destruct (append_slice es l p Ha Hs Hm) as [[-> _]|[-> (j & Hj & Hn)]]; [done|].
  eapply agree_trans; [|exact H2]. apply agree_take; [|by eapply agree_lt].
  destruct (le_lt_dec j N); [|lia]. exfalso. apply Hn.
  eapply agree_mono; [|exact l0]. eapply agree_trans; [exact H1|by apply agree_sym].
Qed.

Lemma append_holds l p es :
  agree p l L -> slice L p es ->
  (forall N x y, l !! N = Some x -> L !! N = Some y -> Term x = Term y -> agree N l L) ->
  agree (p + length es) (append_all l es) L.
Proof using HcL.
  intros Ha Hs Hm. destruct (append_slice es l p Ha Hs Hm) as [[-> H]|[-> _]]; [done|].
  destruct Hs as [Hlen _]. apply agree_take; lia.
Qed.

Lemma append_sound lead l p es :
  sound lead l -> sound lead L -> agree p l L -> slice L p es ->
  sound lead (append_all l es).
Proof using HcL.
  intros Hl HL Ha Hs.
  destruct (append_slice es l p Ha Hs) as [[-> _]|[-> _]]; [|done|].
  - intros N x y Hx Hy Ht. by apply (sound_match lead l L N x y).
  - apply sound_take; [done|lia].
Qed.
End append.
