(* ===== verification/RaftCluster.v ===== *)
(** * A cluster that elects leaders and replicates logs

    The nodes of [ElectionSafety] with the rest of the protocol: vote requests
    carry the log position their goroutine captured, leaders accept proposals
    and send batches, followers handle them, answers come back, nodes restart
    from their disks.  Every transition runs the functions of the raft package.
    Requests and answers may be lost, delayed, repeated and reordered.

    Membership is fixed and no snapshot is taken (cmd/mimorid installs no
    snapshotter), and terms and indexes on the wire fit 32 bits.

    Within these limits the code can still do six things Raft does not allow
    for.  They are the [hazard]s, and the transitions are parametrised by which
    of them a run may show:
    - [LateVote]: the answer to a vote request is counted in a later term
      ([handleVoteResponse] does not look at the term it was asked in);
    - [LateReply]: the same for the answer to a batch
      ([sendAppendEntriesBatch]);
    - [DeposedRound]: [sendHeartbeats] runs after the node has lost the
      leadership its caller checked, or takes the entries in another term than
      the one it sampled: each is a locked region of its own;
    - [SkippedBatch]: a batch that finds the pipeline full is left out and the
      next one is sent after the same previous entry;
    - [UncheckedTail]: a batch announces a commit index beyond its own last
      entry, and the follower commits up to the end of its log;
    - [StaleDisk]: a node restarts from a disk that does not hold its state,
      because a save failed or was never made.
    The safety theorems are about runs with none of them; that each one by
    itself breaks safety is proved in [Hazards]. *)
From stdpp Require Import gmap strings list.
From Stdlib Require Import ZArith Lia.
From S2P Require Import Prelude Types Stores RaftNode Membership Election Replication LogMatching Sending SnapshotOps Applier Admin Boot Node ElectionSafety LogPrefix.

Local Open Scope Z_scope.

(** A batch on its way from a leader to a follower. *)
Record append_msg := mkAppendMsg {
  am_from : NodeID; am_to : NodeID; am_term : Z; am_batch : batch; am_commit : Z }.

Definition am_request (m : append_msg) : AppendEntriesRequest :=
  appendRequest (am_term m) (am_from m) (b_prevIdx (am_batch m)) (b_prevTerm (am_batch m))
    (b_entries (am_batch m)) (am_commit m).

(** Besides the nodes and what is on the network: the vote requests captured
    by their goroutines, the heartbeat goroutines that found their node leading,
    and the rounds they started, with the term and the peers sampled. *)
Record world := mkWorld {
  net : cluster;
  captured : list (ask * RequestVoteRequest);
  ticks : list NodeID;
  rounds : list (NodeID * Z * list NodeID);
  sent : list append_msg;
  replied : list (append_msg * AppendEntriesResponse) }.

#[export] Instance eta_world : Eta world :=
  fun w => mkWorld (net w) (captured w) (ticks w) (rounds w) (sent w) (replied w).

Definition put (i : NodeID) (r : Raft) (C : cluster) : cluster :=
  mkCluster (<[i := r]> (nodes C)) (asks C) (answers C).

(** Events besides elections, replication and proposals. *)
Definition background (ev : event) : Prop :=
  match ev with
  | EvTransfer _ | EvTransferAnswered _ _ | EvHeartbeatPeer _ _ _ | EvPipelineSemaphore _
  | EvApplierTake _ | EvApplierSend _ | EvApplierFinish _ _ | EvConsume | EvAppliedWait _
  | EvForceSnapshot _ _ | EvSetSnapshotRestorer | EvStop => True
  | _ => False
  end.

Inductive hazard :=
  | LateVote | LateReply | DeposedRound | SkippedBatch | UncheckedTail | StaleDisk.

#[export] Instance hazard_eq_dec : EqDecision hazard.
Proof. solve_decision. Defined.

(** The hazards a run may show. *)
Definition no_hazard (h : hazard) : bool := false.
Definition only (h0 h : hazard) : bool := bool_decide (h = h0).

Section steps.
Context (may : hazard -> bool).

Inductive wstep : world -> world -> Prop :=
  | w_elect W i r r' :
      nodes (net W) !! i = Some r ->
      (exists now timeout, (electionTimer_tick now timeout r).1 = r') \/
      (exists now req, (TimeoutNow now req r).1 = r') ->
      wstep W (W <| net := mkCluster (<[i := r']> (nodes (net W)))
                             (asks (net W) ++ election_asks i r r') (answers (net W)) |>)
  | w_capture W c v t rc :
      (c, v, t) ∈ asks (net W) -> nodes (net W) !! c = Some rc ->
      in_int32 t -> in_int32 (lastLogIndex rc) -> in_int32 (lastLogTerm rc) ->
      wstep W (W <| captured := ((c, v, t), voteRequest t rc) :: captured W |>)
  | w_ask W as1 as2 c v t req rv now rv' resp :
      asks (net W) = as1 ++ (c, v, t) :: as2 -> ((c, v, t), req) ∈ captured W ->
      nodes (net W) !! v = Some rv -> RequestVote now req rv = (rv', resp) ->
      wstep W (W <| net := mkCluster (<[v := rv']> (nodes (net W))) (as1 ++ as2)
                             (answers (net W) ++ [((c, v, t), resp)]) |>)
  | w_answer W an1 an2 c v t resp rc :
      answers (net W) = an1 ++ ((c, v, t), resp) :: an2 -> nodes (net W) !! c = Some rc ->
      (may LateVote = false -> term rc = t) ->
      wstep W (W <| net := mkCluster (<[c := handleVoteResponse resp rc]> (nodes (net W)))
                             (asks (net W)) (an1 ++ an2) |>)
  | w_propose W i r d :
      nodes (net W) !! i = Some r ->
      wstep W (W <| net := put i (Propose d r).1 (net W) |>)
  | w_check W i r :
      nodes (net W) !! i = Some r -> heartbeat_check r = true ->
      wstep W (W <| ticks := i :: ticks W |>)
  | w_round W i r :
      i ∈ ticks W -> nodes (net W) !! i = Some r ->
      wstep W (W <| rounds := (i, term r, peers r) :: rounds W |>)
  | w_send W i t ps r p sel prev pt es b :
      (i, t, ps) ∈ rounds W -> nodes (net W) !! i = Some r -> p ∈ ps ->
      (may DeposedRound = false -> state r = Leader /\ term r = t) ->
      log_int32 r -> in_int32 t -> in_int32 (commitIndex r) ->
      sendHeartbeat_peer t (nodeId r) p r
        = Some (spawn (GoSendBatches p t (nodeId r) prev pt es (commitIndex r)) r) ->
      (may SkippedBatch = false -> forall k, sel k = Acquired) ->
      b ∈ sendBatchesWithPipeline sel prev pt es ->
      (may UncheckedTail = false -> commitIndex r <= b_prevIdx b + Z.of_nat (length (b_entries b))) ->
      wstep W (W <| sent := mkAppendMsg i p t b (commitIndex r) :: sent W |>)
  | w_append W m now r r' resp :
      m ∈ sent W -> nodes (net W) !! am_to m = Some r ->
      AppendEntries now (am_request m) r = (r', resp) ->
      wstep W (W <| net := put (am_to m) r' (net W) |> <| replied := (m, resp) :: replied W |>)
  | w_reply W m resp r :
      (m, resp) ∈ replied W -> nodes (net W) !! am_from m = Some r ->
      (may LateReply = false -> state r = Leader -> term r = am_term m) ->
      wstep W (W <| net := put (am_from m)
                 (sendAppendEntriesBatch (am_to m) (b_prevIdx (am_batch m))
                    (b_entries (am_batch m)) (Some resp) r).1 (net W) |>)
  | w_commit W i r :
      nodes (net W) !! i = Some r ->
      wstep W (W <| net := put i (updateCommitIndexLocked r) (net W) |>)
  | w_restart W i r now initial dir :
      nodes (net W) !! i = Some r -> (may StaleDisk = false -> on_disk r) ->
      paths_in dir r -> peers r <> [] ->
      peers (New now i initial dir (fs r)) = peers r ->
      removedFromCluster (New now i initial dir (fs r)) = false ->
      wstep W (W <| net := put i (New now i initial dir (fs r)) (net W) |>)
  | w_other W i r ev r' :
      nodes (net W) !! i = Some r -> background ev -> handle ev r = Some r' ->
      (forall now, ev = EvApplierTake now -> r' = r <| lastApplied := lastApplied r + 1 |>) ->
      wstep W (W <| net := put i r' (net W) |>).
End steps.

(** A fresh cluster with empty logs. *)
Definition fresh_world (members : list NodeID) (W : world) : Prop :=
  initial members (net W) /\ captured W = [] /\ ticks W = [] /\ rounds W = [] /\ sent W = [] /\ replied W = [] /\
  forall i r, nodes (net W) !! i = Some r ->
    log r = [origin] /\ logBaseIndex r = 0 /\ term r = 0 /\ commitIndex r = 0 /\
    lastApplied r = 0 /\ snapshot r = None /\ snapshotter r = false /\ forall p, 0 <= map_get (nextIndex r) p.

(** ** The invariant

    Three ghost records: the votes given, the leaders' logs, and the
    acknowledgements [(x, s, M)]: node [x], in term [s], held the log of that
    term's leader up to [M], an entry of term [s]. *)
Definition ack : Type := NodeID * Z * nat.

Section invariant.
Context (members : list NodeID).

Definition quorum (Q : list NodeID) : Prop :=
  NoDup Q /\ Q ⊆ members /\ Z.of_nat (length members) / 2 + 1 <= Z.of_nat (length Q).

Section ghost.
Context (lead : gmap Z (list LogEntry)) (A : list ack).

Definition acked (x : NodeID) (s : Z) (N : nat) : Prop :=
  exists M, (N <= M)%nat /\ (x, s, M) ∈ A.

(** The leader of a term between [s] and [b] does not hold [S] up to [N]. *)
Definition dropped (s : Z) (S : list LogEntry) (N : nat) (b : Z) : Prop :=
  exists u U, s < u <= b /\ lead !! u = Some U /\ ~ agree N U S.

(** Log [l] holds what [x] acknowledged before term [t], up to entries a leader
    of a term up to [b] has dropped. *)
Definition holds_acks (x : NodeID) (t : Z) (l : list LogEntry) (b : Z) : Prop :=
  forall s M N S, (x, s, M) ∈ A -> s < t -> (N <= M)%nat -> lead !! s = Some S ->
    term_at S N s -> agree N l S \/ dropped s S N b.

(** A majority acknowledged [N], an entry of term [s], in that term. *)
Definition chosen (s : Z) (S : list LogEntry) (N : nat) : Prop :=
  term_at S N s /\ exists Q, quorum Q /\ forall x, x ∈ Q -> acked x s N.

(** Log [l] holds a chosen prefix of length [c], chosen in a term up to [t]. *)
Definition committed (c : Z) (l : list LogEntry) (t : Z) : Prop :=
  c <= 0 \/ exists s S N, lead !! s = Some S /\ s <= t /\ chosen s S N /\
    c <= Z.of_nat N /\ agree (Z.to_nat c) l S.

Definition node_inv (r : Raft) : Prop :=
  sound lead (log r) /\ logBaseIndex r = 0 /\ 0 <= term r /\ (state r = Candidate -> 1 <= term r) /\
  (forall k e, log r !! k = Some e -> Term e <= term r) /\
  snapshot r = None /\ snapshotter r = false /\
  (forall p, p ∈ peers r -> 0 <= map_get (nextIndex r) p) /\
  (state r = Leader -> lead !! term r = Some (log r)).

(** What the leader [i] in state [r] has recorded is acknowledged. *)
Definition leader_inv (i : NodeID) (r : Raft) : Prop :=
  state r = Leader ->
  (forall N, term_at (log r) N (term r) -> acked i (term r) N) /\
  (forall p, p ∈ peers r -> map_get (matchIndex r) p < Z.of_nat (length (log r)) /\
     forall N, Z.of_nat N <= map_get (matchIndex r) p ->
       term_at (log r) N (term r) -> acked p (term r) N).

(** The batch is a slice of the leader's log. *)
Definition msg_inv (m : append_msg) : Prop :=
  exists L p, lead !! am_term m = Some L /\ b_prevIdx (am_batch m) = Z.of_nat p /\
    ((0 < p)%nat -> term_at L p (b_prevTerm (am_batch m))) /\ slice L p (b_entries (am_batch m)) /\
    contiguous (Z.of_nat p + 1) (b_entries (am_batch m)) /\
    in_int32 (am_term m) /\ in_int32 (Z.of_nat p) /\ in_int32 (b_prevTerm (am_batch m)) /\
    in_int32 (am_commit m) /\
    am_commit m <= Z.of_nat (p + length (b_entries (am_batch m))) /\
    committed (am_commit m) L (am_term m).

Definition reply_inv (mr : append_msg * AppendEntriesResponse) : Prop :=
  msg_inv mr.1 /\
  (aer_Success mr.2 = true -> forall L N, lead !! am_term mr.1 = Some L ->
     Z.of_nat N <= b_prevIdx (am_batch mr.1) + Z.of_nat (length (b_entries (am_batch mr.1))) ->
     term_at L N (am_term mr.1) -> acked (am_to mr.1) (am_term mr.1) N).

(** A candidate still to be elected holds what its voters acknowledged. *)
Definition vote_inv (C : cluster) (w : vote) : Prop :=
  let '(x, t, c) := w in
  forall rc, nodes C !! c = Some rc -> t <= term rc /\
    (state rc = Candidate -> term rc = t -> lead !! t = None -> holds_acks x t (log rc) t).

Definition captured_inv (C : cluster) (a : ask * RequestVoteRequest) : Prop :=
  let '((c, v, t), req) := a in
  rv_CandidateId req = c /\ rv_Term req = t /\
  forall rc, nodes C !! c = Some rc -> t <= term rc /\
    (state rc = Candidate -> term rc = t -> lead !! t = None ->
     rv_LastLogIndex req = lastLogIndex rc /\ rv_LastLogTerm req = lastLogTerm rc).

Definition won_inv (C : cluster) (V : list vote) (t : Z) (L : list LogEntry) : Prop :=
  exists i Q, quorum Q /\ (forall x, x ∈ Q -> (x, t, i) ∈ V) /\
    (forall x, x ∈ Q -> holds_acks x t L (t - 1)) /\
    forall r, nodes C !! i = Some r -> t < term r \/ (t = term r /\ state r <> Candidate).

Definition ack_inv (C : cluster) (a : ack) : Prop :=
  let '(x, s, M) := a in
  exists S, lead !! s = Some S /\ term_at S M s /\
    forall r, nodes C !! x = Some r -> s <= term r /\
      forall N, (N <= M)%nat -> term_at S N s ->
        agree N (log r) S \/ dropped s S N (term r).
End ghost.

Record safe (W : world) (V : list vote) (lead : gmap Z (list LogEntry)) (A : list ack) : Prop := {
  s_net : election_inv members (net W) V;
  s_lead : lead_ok lead;
  s_node : forall i r, nodes (net W) !! i = Some r -> node_inv lead r;
  s_leader : forall i r, nodes (net W) !! i = Some r -> leader_inv A i r;
  s_commit : forall i r, nodes (net W) !! i = Some r ->
    committed lead A (commitIndex r) (log r) (term r);
  s_vote : forall w, w ∈ V -> vote_inv lead A (net W) w;
  s_won : forall t L, lead !! t = Some L -> won_inv lead A (net W) V t L;
  s_ack : forall a, a ∈ A -> ack_inv lead (net W) a;
  s_captured : forall a, a ∈ captured W -> captured_inv lead (net W) a;
  s_sent : forall m, m ∈ sent W -> msg_inv lead A m;
  s_replied : forall mr, mr ∈ replied W -> reply_inv lead A mr }.

(** The rounds under way have the fixed membership. *)
Definition rounds_ok (W : world) : Prop :=
  forall i t ps, (i, t, ps) ∈ rounds W -> (i :: ps) ≡ₚ members.
End invariant.
