(* ===== verification/ClusterInvariant.v ===== *)
(** * The cluster invariant: consequences and frame lemmas

    Leader completeness (a chosen entry is in the log of every later leader)
    and the agreement of committed prefixes follow from [safe] alone.  The rest
    of the file reduces the preservation of [safe] to what one node did: a node
    that keeps its log ([safe_still]), a node that becomes leader
    ([safe_lead]), and the general step ([safe_put]). *)
From stdpp Require Import gmap strings list.
From Stdlib Require Import ZArith Lia.
From S2P Require Import Prelude Types Stores RaftNode Membership Election Replication LogMatching Sending SnapshotOps Applier Admin Boot Node ElectionSafety LogPrefix RaftCluster.

Local Open Scope Z_scope.

(** ** Growing ghost records *)

Lemma acked_mono A A' x s N : A ⊆ A' -> acked A x s N -> acked A' x s N.
Proof. intros HA (M & HM & Hin). exists M. split; [done|]. by apply HA. Qed.

Lemma acked_le A x s N N' : acked A x s N -> (N' <= N)%nat -> acked A x s N'.
Proof. intros (M & HM & Hin) Hle. exists M. split; [lia|done]. Qed.

Lemma dropped_mono lead s S N b b' :
  dropped lead s S N b -> b <= b' -> dropped lead s S N b'.
Proof. intros (u & U & Hu & HU & Hn) Hb. exists u, U. split_and!; try done; lia. Qed.

Lemma dropped_grows lead lead' s S k N b :
  grows lead lead' -> term_at S N s -> dropped lead s S N b -> dropped lead' s (S ++ k) N b.
Proof.
  intros Hg HN (u & U & Hu & HU & Hn). destruct (Hg _ _ HU) as (m & Hm & Hall).
  exists u, (U ++ m). split_and!; try done; try lia. eapply (disagree_grows N s u); try done. lia.
Qed.

Lemma committed_grows members lead lead' A A' c l t t' :
  grows lead lead' -> A ⊆ A' -> t <= t' ->
  committed members lead A c l t -> committed members lead' A' c l t'.
Proof.
  intros Hg HA Ht [?|(s & S & N & HS & Hs & (HN & Q & HQ & Hack) & Hc & Ha)]; [by left|right].
  destruct (Hg _ _ HS) as (k & Hk & _). exists s, (S ++ k), N. split_and!; try done; try lia.
  - split; [by apply term_at_app|]. exists Q. split; [done|]. intros x Hx.
    eapply acked_mono; [done|]. by apply Hack.
  - by apply agree_app_r.
Qed.

(** A log that holds [l]'s committed prefix has it committed as well. *)
Lemma committed_log members lead A c l l' t :
  (0 < c -> agree (Z.to_nat c) l' l) ->
  committed members lead A c l t -> committed members lead A c l' t.
Proof.
  intros Ha [?|(s & S & N & HS & Hs & Hch & Hc & Hag)]; [by left|].
  destruct (Z_le_gt_dec c 0); [by left|right]. exists s, S, N. split_and!; try done.
  eapply agree_trans; [|exact Hag]. apply Ha. lia.
Qed.

Lemma committed_le members lead A c c' l t :
  committed members lead A c l t -> c' <= c -> committed members lead A c' l t.
Proof.
  intros [?|(s & S & N & HS & Hs & Hch & Hc & Hag)] Hle; [left; lia|].
  destruct (Z_le_gt_dec c' 0); [by left|right]. exists s, S, N. split_and!; try done; try lia.
  eapply agree_mono; [exact Hag|lia].
Qed.

Lemma committed_app members lead A c l k t :
  committed members lead A c l t -> committed members lead A c (l ++ k) t.
Proof.
  intros [?|(s & S & N & HS & Hs & Hch & Hc & Hag)]; [by left|right].
  exists s, S, N. split_and!; try done. by apply agree_sym, agree_app_r, agree_sym.
Qed.

Lemma msg_inv_grows members lead lead' A A' m :
  grows lead lead' -> A ⊆ A' -> msg_inv members lead A m -> msg_inv members lead' A' m.
Proof.
  intros Hg HA (L & p & HL & Hp & Ht & [Hs1 Hs2] & Hc & H1 & H2 & H3 & H4 & H5 & H6).
  destruct (Hg _ _ HL) as (k & Hk & _). exists (L ++ k), p. split_and!; try done.
  - intros Hp0. by apply term_at_app, Ht.
  - split; [rewrite length_app; lia|]. intros j e He.
    apply lookup_app_l_Some. by apply Hs2.
  - eapply committed_grows; [done|done|done|]. eapply committed_log; [|exact H6].
    intros Hpos. apply agree_sym, agree_app_r, agree_refl. lia.
Qed.

Lemma reply_inv_grows members lead lead' A A' mr :
  grows lead lead' -> A ⊆ A' -> reply_inv members lead A mr -> reply_inv members lead' A' mr.
Proof.
  intros Hg HA [Hm Hr]. split; [by eapply msg_inv_grows|]. intros Hok L' N HL' HN Ht.
  destruct Hm as (L & p & HL & Hp & _ & [Hlen _] & _). destruct (Hg _ _ HL) as (k & Hk & _).
  rewrite HL' in Hk. injection Hk as ->. eapply acked_mono; [done|].
  apply (Hr Hok L N HL HN). eapply term_at_app_inv; [|exact Ht]. lia.
Qed.

(** Acknowledgements come from nodes in their own term, so a node that has
    voted in a later term adds none. *)
Lemma holds_acks_grows lead lead' A A' x t l b :
  grows lead lead' -> A ⊆ A' ->
  (forall s M, (x, s, M) ∈ A' -> (x, s, M) ∈ A \/ t <= s) ->
  (forall s M, (x, s, M) ∈ A -> exists S, lead !! s = Some S /\ term_at S M s) ->
  holds_acks lead A x t l b -> holds_acks lead' A' x t l b.
Proof.
  intros Hg HA Hnew Hok H s M N S' Hin Hst HNM HS' HN.
  destruct (Hnew s M Hin) as [Hold|]; [|lia]. destruct (Hok s M Hold) as (S & HS & HM).
  destruct (Hg _ _ HS) as (k & Hk & _). rewrite HS' in Hk. injection Hk as ->.
  assert (term_at S N s) as HN0.
  { eapply term_at_app_inv; [|exact HN]. pose proof (term_at_lt _ _ _ HM). lia. }
  destruct (H s M N S Hold Hst HNM HS HN0) as [Ha|Hd].
  - left. by apply agree_app_r.
  - right. by eapply dropped_grows.
Qed.

Section safety.
Context (members : list NodeID) (Hne : "" ∉ members) (Hnd : NoDup members).

Local Abbreviation inv := (safe members).

(** ** Leader completeness *)

Lemma quorums_meet Q Q' : quorum members Q -> quorum members Q' -> exists x, x ∈ Q /\ x ∈ Q'.
Proof using.
  intros (A1 & A2 & A3) (B1 & B2 & B3). apply (majorities_meet members); try done.
  pose proof (Z.div_mod (Z.of_nat (length members)) 2 ltac:(lia)).
  pose proof (Z.mod_pos_bound (Z.of_nat (length members)) 2 ltac:(lia)). lia.
Qed.

Lemma leader_complete W V lead A s S N t L :
  inv W V lead A -> lead !! s = Some S -> chosen members A s S N -> s < t ->
  lead !! t = Some L -> agree N L S.
Proof using.
  intros Hinv HS [HN (Q & HQ & Hack)]. revert L.
  induction (Z.lt_wf 0 t) as [t _ IH]. intros L Hst HL.
  destruct (s_won _ _ _ _ _ Hinv t L HL) as (i & Q' & HQ' & _ & Hgood & _).
  destruct (quorums_meet Q Q' HQ HQ') as (x & Hx & Hx').
  destruct (Hack x Hx) as (M & HM & Hin).
  destruct (Hgood x Hx' s M N S Hin Hst HM HS HN) as [?|(u & U & Hu & HU & Hn)]; [done|].
  exfalso. apply Hn. destruct (s_lead _ _ _ _ _ Hinv _ _ HS) as [? _].
  apply (IH u); [lia|lia|done].
Qed.

(** Committed prefixes agree. *)
Lemma committed_agree W V lead A c c' l l' t t' :
  inv W V lead A -> committed members lead A c l t -> committed members lead A c' l' t' ->
  forall k, 0 < k -> k <= c -> k <= c' -> l !! Z.to_nat k = l' !! Z.to_nat k.
Proof using.
  intros Hinv H H' k Hk Hc Hc'.
  destruct H as [?|(s & S & N & HS & _ & Hch & HN & Ha)]; [lia|].
  destruct H' as [?|(s' & S' & N' & HS' & _ & Hch' & HN' & Ha')]; [lia|].
  rewrite (proj2 Ha), (proj2 Ha') by lia.
  destruct (Z.lt_trichotomy s s') as [Hlt|[->|Hlt]].
  - symmetry. apply (leader_complete W V lead A s S N s' S'); try done. lia.
  - congruence.
  - apply (leader_complete W V lead A s' S' N' s S); try done. lia.
Qed.

(** ** One node changes *)

(** The obligations of a step in which node [i] goes from [r] to [r']. *)
Record node_step (W W' : world) (V V' : list vote) (lead lead' : gmap Z (list LogEntry))
    (A A' : list ack) (i : NodeID) (r r' : Raft) : Prop := {
  n_nodes : nodes (net W') = <[i := r']> (nodes (net W));
  n_term : term r <= term r';
  n_votes : V ⊆ V';
  n_grows : grows lead lead';
  n_acks : A ⊆ A';
  (* a candidate either has just started its election or was one before *)
  n_candidate : state r' = Candidate ->
    term r < term r' \/
    (state r = Candidate /\ term r' = term r /\ (lead' !! term r' = None -> log r' = log r));
  (* a leader's log changes only by this node's doing *)
  n_lead_same : forall t L, lead !! t = Some L ->
    lead' !! t = Some L \/ (t = term r' /\ state r' = Leader);
  (* what the node acknowledged stays unless a later leader dropped it *)
  n_keeps : forall s S N, lead !! s = Some S -> s <= term r -> term_at S N s ->
    agree N (log r) S -> agree N (log r') S \/ dropped lead' s S N (term r');
  n_new_ack : forall a, a ∈ A' -> a ∈ A \/ exists M S, a = (i, term r', M) /\
    lead' !! term r' = Some S /\ term_at S M (term r') /\ agree M (log r') S;
  n_new_vote : forall w, w ∈ V' -> w ∈ V \/ vote_inv lead' A' (net W') w;
  n_new_lead : forall t L, lead' !! t = Some L -> is_Some (lead !! t) \/
    won_inv members lead' A' (net W') V' t L
}.

Section node_step.
Context {W W' : world} {V V' : list vote} {lead lead' : gmap Z (list LogEntry)}.
Context {A A' : list ack} {i : NodeID} {r r' : Raft}.
Context (Hinv : inv W V lead A) (Hi : nodes (net W) !! i = Some r).
Context (Hstep : node_step W W' V V' lead lead' A A' i r r').

Lemma step_lookup j rj :
  nodes (net W') !! j = Some rj -> (j = i /\ rj = r') \/ (j <> i /\ nodes (net W) !! j = Some rj).
Proof using Hstep.
  rewrite (n_nodes _ _ _ _ _ _ _ _ _ _ _ Hstep), lookup_insert_Some.
  intros [[<- <-]|[Hne' Hj]]; [by left|right; by split].
Qed.

(** A voter of term [t] is past the terms before it. *)
Lemma step_acks_late x t c s M :
  election_inv members (net W') V' -> (x, t, c) ∈ V' ->
  (x, s, M) ∈ A' -> (x, s, M) ∈ A \/ t <= s.
Proof using Hstep.
  intros Hel Hv Ha. destruct (n_new_ack _ _ _ _ _ _ _ _ _ _ _ Hstep _ Ha) as [?|(M' & S & [= -> -> ->] & _)];
    [by left|right].
  destruct (inv_votes _ _ _ Hel _ Hv) as (_ & r0 & Hr0 & Hle & _).
  rewrite (n_nodes _ _ _ _ _ _ _ _ _ _ _ Hstep), lookup_insert_eq in Hr0. by simplify_eq.
Qed.

Lemma step_ack_lead x s M : (x, s, M) ∈ A -> exists S, lead !! s = Some S /\ term_at S M s.
Proof using Hinv.
  intros Ha. destruct (s_ack _ _ _ _ _ Hinv _ Ha) as (S & HS & HM & _). by exists S.
Qed.

Lemma step_votes :
  election_inv members (net W') V' -> forall w, w ∈ V' -> vote_inv lead' A' (net W') w.
Proof using Hinv Hi Hstep.
  intros Hel w Hw. destruct (n_new_vote _ _ _ _ _ _ _ _ _ _ _ Hstep w Hw) as [Hold|]; [|done].
  pose proof (s_vote _ _ _ _ _ Hinv w Hold) as H. destruct w as [[x t] c].
  assert (forall l, lead !! t = None -> lead' !! t = None -> holds_acks lead A x t l t ->
                    holds_acks lead' A' x t l t) as Hlift.
  { intros l _ _ Hg. eapply holds_acks_grows; [apply Hstep|apply Hstep| | |exact Hg].
    - intros s M. by apply (step_acks_late x t c).
    - intros s M. apply step_ack_lead. }
  intros rc [[-> ->]|[Hci Hc]]%step_lookup.
  - destruct (H r Hi) as [Hle Hg]. split; [pose proof (n_term _ _ _ _ _ _ _ _ _ _ _ Hstep); lia|].
    intros Hs Ht Hn. destruct (n_candidate _ _ _ _ _ _ _ _ _ _ _ Hstep Hs) as [?|(Hc & Hte & Hl)]; [lia|].
    rewrite Hl by (by rewrite Ht). assert (lead !! t = None) as Hn0.
    { destruct (lead !! t) as [L|] eqn:E; [|done].
      destruct (n_grows _ _ _ _ _ _ _ _ _ _ _ Hstep _ _ E) as (k & Hk & _). congruence. }
    apply Hlift; [done..|]. apply Hg; [done|lia|done].
  - destruct (H rc Hc) as [Hle Hg]. split; [done|]. intros Hs Ht Hn.
    assert (lead !! t = None) as Hn0.
    { destruct (lead !! t) as [L|] eqn:E; [|done].
      destruct (n_grows _ _ _ _ _ _ _ _ _ _ _ Hstep _ _ E) as (k & Hk & _). congruence. }
    apply Hlift; [done..|]. by apply Hg.
Qed.

Lemma step_won :
  election_inv members (net W') V' ->
  forall t L, lead' !! t = Some L -> won_inv members lead' A' (net W') V' t L.
Proof using Hinv Hi Hstep.
  intros Hel t L HL. destruct (n_new_lead _ _ _ _ _ _ _ _ _ _ _ Hstep t L HL) as [[L0 HL0]|]; [|done].
  destruct (s_won _ _ _ _ _ Hinv t L0 HL0) as (w & Q & HQ & HV & Hg & Hr).
  destruct (n_grows _ _ _ _ _ _ _ _ _ _ _ Hstep _ _ HL0) as (k & Hk & _). simplify_eq.
  exists w, Q. split_and!; try done.
  - intros x Hx. apply (n_votes _ _ _ _ _ _ _ _ _ _ _ Hstep). by apply HV.
  - intros x Hx.
    assert (holds_acks lead' A' x t L0 (t - 1)) as H0.
    { eapply holds_acks_grows; [apply Hstep|apply Hstep| | |by apply Hg].
      - intros s M. apply (step_acks_late x t w); [done|].
        apply (n_votes _ _ _ _ _ _ _ _ _ _ _ Hstep). by apply HV.
      - intros s M. apply step_ack_lead. }
    intros s M N S Ha Hst HNM HS HN. destruct (H0 s M N S Ha Hst HNM HS HN) as [Hag|]; [left|by right].
    apply agree_sym, agree_app_r, agree_sym. done.
  - intros rw [[-> ->]|[Hci Hc]]%step_lookup; [|by apply Hr].
    pose proof (n_term _ _ _ _ _ _ _ _ _ _ _ Hstep) as Hte.
    destruct (decide (t < term r')) as [|Hge]; [by left|right].
    destruct (Hr r Hi) as [?|[-> Hst]]; [lia|]. split; [lia|]. intros Hc'.
    destruct (n_candidate _ _ _ _ _ _ _ _ _ _ _ Hstep Hc') as [?|(? & _)]; [lia|done].
Qed.

Lemma step_ack : forall a, a ∈ A' -> ack_inv lead' (net W') a.
Proof using Hinv Hi Hstep.
  intros a Ha. destruct (n_new_ack _ _ _ _ _ _ _ _ _ _ _ Hstep a Ha) as [Hold|(M & S & -> & HS & HM & Hag)].
  - pose proof (s_ack _ _ _ _ _ Hinv a Hold) as H. destruct a as [[x s] M].
    destruct H as (S & HS & HM & Hr).
    destruct (n_grows _ _ _ _ _ _ _ _ _ _ _ Hstep _ _ HS) as (k & Hk & _).
    exists (S ++ k). split; [done|]. split; [by apply term_at_app|].
    assert (forall N, (N <= M)%nat -> term_at (S ++ k) N s -> term_at S N s) as Hin.
    { intros N HN Ht. eapply term_at_app_inv; [|exact Ht]. pose proof (term_at_lt _ _ _ HM). lia. }
    intros rx [[-> ->]|[Hxi Hx]]%step_lookup.
    + destruct (Hr r Hi) as [Hle Hd]. pose proof (n_term _ _ _ _ _ _ _ _ _ _ _ Hstep) as Hte.
      split; [lia|]. intros N HN Ht%Hin; [|done]. destruct (Hd N HN Ht) as [Hag|Hdr].
      * destruct (n_keeps _ _ _ _ _ _ _ _ _ _ _ Hstep s S N HS Hle Ht Hag) as [?|(u & U & Hu & HU & Hn)].
        -- left. by apply agree_app_r.
        -- right. exists u, U. split_and!; try done; [lia..|]. intros HUS. apply Hn.
           eapply agree_trans; [exact HUS|]. split; [by eapply term_at_lt|]. intros j Hj.
           rewrite lookup_app_l; [done|]. pose proof (term_at_lt _ _ _ Ht). lia.
      * right. apply (dropped_mono _ _ _ _ (term r)); [|done]. eapply dropped_grows; [apply Hstep|done..].
    + destruct (Hr rx Hx) as [Hle Hd]. split; [done|]. intros N HN Ht%Hin; [|done].
      destruct (Hd N HN Ht) as [Hag|Hdr]; [left; by apply agree_app_r|right].
      eapply dropped_grows; [apply Hstep|done..].
  - exists S. split_and!; try done. intros rx [[_ ->]|[Hxi _]]%step_lookup; [|done].
    split; [done|]. intros N HN _. left. by eapply agree_mono.
Qed.

Lemma step_captured a :
  captured_inv lead (net W) a -> captured_inv lead' (net W') a.
Proof using Hinv Hi Hstep.
  destruct a as [[[c v] t] req]. intros (H1 & H2 & H3). split_and!; try done.
  assert (lead' !! t = None -> lead !! t = None) as Hn0.
  { destruct (lead !! t) as [L|] eqn:E; [|done].
    destruct (n_grows _ _ _ _ _ _ _ _ _ _ _ Hstep _ _ E) as (k & Hk & _). congruence. }
  intros rc [[-> ->]|[Hci Hc]]%step_lookup.
  - destruct (H3 r Hi) as [Hle Hg]. pose proof (n_term _ _ _ _ _ _ _ _ _ _ _ Hstep) as Hte.
    split; [lia|]. intros Hs Ht Hn.
    destruct (n_candidate _ _ _ _ _ _ _ _ _ _ _ Hstep Hs) as [?|(Hc & Hte' & Hl)]; [lia|].
    unfold lastLogIndex, lastLogTerm in *. rewrite Hl by (by rewrite Ht).
    destruct (Hg Hc ltac:(lia) (Hn0 Hn)) as [-> ->].
    destruct (s_node _ _ _ _ _ Hinv i r Hi) as ((Hs0 & _) & _).
    destruct (last (log r)) eqn:E; [done|]. apply last_None in E. by rewrite E in Hs0.
  - destruct (H3 rc Hc) as [Hle Hg]. split; [done|]. intros Hs Ht Hn. by apply Hg; [..|apply Hn0].
Qed.

Lemma safe_put :
  election_inv members (net W') V' -> lead_ok lead' ->
  node_inv lead' r' -> leader_inv A' i r' ->
  committed members lead' A' (commitIndex r') (log r') (term r') ->
  (forall a, a ∈ captured W' -> a ∈ captured W \/ captured_inv lead' (net W') a) ->
  (forall m, m ∈ sent W' -> m ∈ sent W \/ msg_inv members lead' A' m) ->
  (forall mr, mr ∈ replied W' -> mr ∈ replied W \/ reply_inv members lead' A' mr) ->
  inv W' V' lead' A'.
Proof using Hinv Hi Hstep.
  intros Hel Hlo Hnode Hlead Hcom Hcap Hsent Hrep.
  pose proof (n_grows _ _ _ _ _ _ _ _ _ _ _ Hstep) as Hg.
  pose proof (n_acks _ _ _ _ _ _ _ _ _ _ _ Hstep) as HA.
  constructor; try done.
  - intros j rj [[_ ->]|[Hji Hj]]%step_lookup; [done|].
    destruct (s_node _ _ _ _ _ Hinv j rj Hj) as (N1 & N2 & N3 & N4 & N5 & N6 & N7 & N8 & N9).
    split_and!; try done; [by eapply sound_grows|]. intros Hs.
    destruct (n_lead_same _ _ _ _ _ _ _ _ _ _ _ Hstep _ _ (N9 Hs)) as [?|[Ht Hs']]; [done|].
    exfalso. apply Hji. apply (leaders_unique members (net W') V' j i rj r'); try done.
    + by rewrite (n_nodes _ _ _ _ _ _ _ _ _ _ _ Hstep), lookup_insert_ne.
    + by rewrite (n_nodes _ _ _ _ _ _ _ _ _ _ _ Hstep), lookup_insert_eq.
  - intros j rj [[-> ->]|[Hji Hj]]%step_lookup; [done|]. intros Hs.
    destruct (s_leader _ _ _ _ _ Hinv j rj Hj Hs) as [L1 L2]. split.
    + intros N HN. eapply acked_mono; [done|]. by apply L1.
    + intros p Hp. destruct (L2 p Hp) as [L3 L4]. split; [done|]. intros N HN Ht.
      eapply acked_mono; [done|]. by apply L4.
  - intros j rj [[-> ->]|[Hji Hj]]%step_lookup; [done|].
    eapply committed_grows; [done|done|done|]. by apply (s_commit _ _ _ _ _ Hinv j).
  - by apply step_votes.
  - by apply step_won.
  - by apply step_ack.
  - intros a Ha. destruct (Hcap a Ha); [|done]. apply step_captured.
    by apply (s_captured _ _ _ _ _ Hinv).
  - intros m Hm. destruct (Hsent m Hm); [|done]. eapply msg_inv_grows; [done..|].
    by apply (s_sent _ _ _ _ _ Hinv).
  - intros m Hm. destruct (Hrep m Hm); [|done]. eapply reply_inv_grows; [done..|].
    by apply (s_replied _ _ _ _ _ Hinv).
Qed.
End node_step.

(** ** A node that keeps its log *)

Definition still (r r' : Raft) : Prop :=
  log r' = log r /\ logBaseIndex r' = logBaseIndex r /\ snapshot r' = snapshot r /\
  snapshotter r' = snapshotter r.

(** Messages may be added with their invariants. *)
Definition messages_ok (W W' : world) (lead : gmap Z (list LogEntry)) (A : list ack) : Prop :=
  (forall a, a ∈ captured W' -> a ∈ captured W \/ captured_inv lead (net W') a) /\
  (forall m, m ∈ sent W' -> m ∈ sent W \/ msg_inv members lead A m) /\
  (forall mr, mr ∈ replied W' -> mr ∈ replied W \/ reply_inv members lead A mr).

Lemma messages_same W W' lead A :
  captured W' = captured W -> sent W' = sent W -> replied W' = replied W ->
  messages_ok W W' lead A.
Proof using. intros H1 H2 H3. unfold messages_ok. rewrite H1, H2, H3. split_and!; auto. Qed.

Lemma safe_still W W' V V' lead A i r r' :
  inv W V lead A -> nodes (net W) !! i = Some r ->
  nodes (net W') = <[i := r']> (nodes (net W)) ->
  election_inv members (net W') V' -> V ⊆ V' -> term r <= term r' -> still r r' ->
  (state r' = Candidate -> term r < term r' \/ (state r = Candidate /\ term r' = term r)) ->
  (state r' = Leader -> state r = Leader /\ term r' = term r) ->
  (forall p, p ∈ peers r' -> 0 <= map_get (nextIndex r') p) ->
  leader_inv A i r' -> committed members lead A (commitIndex r') (log r') (term r') ->
  (forall w, w ∈ V' -> w ∈ V \/ vote_inv lead A (net W') w) ->
  messages_ok W W' lead A ->
  inv W' V' lead A.
Proof using.
  intros Hinv Hi Hn Hel HV Hte (Hl & Hb & Hs & Hsn) Hcand Hlead Hnx Hli Hcom Hvotes (M1 & M2 & M3).
  destruct (s_node _ _ _ _ _ Hinv i r Hi) as (N1 & N2 & N3 & N4 & N5 & N6 & N7 & N8 & N9).
  assert (node_step W W' V V' lead lead A A i r r') as Hstep.
  { constructor; try done.
    - intros Hc. destruct (Hcand Hc) as [?|[? ?]]; [by left|right]. by split_and!.
    - intros t L HL. by left.
    - intros s S N _ _ _ Ha. left. by rewrite Hl.
    - intros a Ha. by left.
    - intros t L HL. by left. }
  apply (safe_put Hinv Hi Hstep); try done.
  - apply (s_lead _ _ _ _ _ Hinv).
  - unfold node_inv. rewrite Hl, Hb, Hs, Hsn. split_and!; try done; [lia| | |].
    + intros Hc. destruct (Hcand Hc) as [?|[Hc' ->]]; [lia|by apply N4].
    + intros k e He. pose proof (N5 k e He). lia.
    + intros HL. destruct (Hlead HL) as [HL' ->]. by apply N9.
Qed.

(** A quiet step that only touches what the invariant does not read. *)
Lemma safe_quiet W W' V lead A i r r' :
  inv W V lead A -> nodes (net W) !! i = Some r ->
  nodes (net W') = <[i := r']> (nodes (net W)) ->
  election_inv members (net W') V -> quiet_step r r' -> still r r' ->
  commitIndex r' = commitIndex r -> nextIndex r' = nextIndex r -> matchIndex r' = matchIndex r ->
  messages_ok W W' lead A ->
  inv W' V lead A.
Proof using.
  intros Hinv Hi Hn Hel Hq Hst Hc Hnx Hmx HM.
  destruct (quiet_step_id _ _ Hq) as [_ Hp].
  destruct (s_node _ _ _ _ _ Hinv i r Hi) as (_ & _ & _ & _ & _ & _ & _ & N8 & _).
  pose proof (s_leader _ _ _ _ _ Hinv i r Hi) as Hli.
  assert (term r <= term r') as Hte by (destruct Hq as [(_&_&_&?&_)|(_&_&_&?&_)]; lia).
  assert (state r' <> Follower -> state r = state r' /\ term r' = term r) as Hsame.
  { destruct Hq as [(_&_&?&?&_)|(_&_&?&_)]; [by split|done]. }
  eapply (safe_still W W' V V lead A i r r'); try done.
  - intros Hs. right. destruct Hsame; [congruence|]. split; congruence.
  - intros Hs. destruct Hsame; [congruence|]. split; congruence.
  - intros p. rewrite Hp, Hnx. apply N8.
  - intros Hs. destruct Hsame as [HsE ->]; [congruence|]. destruct Hst as (-> & _).
    rewrite Hp, Hmx. apply Hli. congruence.
  - destruct Hst as (-> & _). rewrite Hc. eapply committed_grows; [reflexivity|done|done|].
    by apply (s_commit _ _ _ _ _ Hinv i).
  - by left.
Qed.

(** ** A node that becomes leader *)

(** A majority of votes for [i] in a term means nobody else led in it, and [i]
    itself did not before it won. *)
Lemma no_leader_yet W V C' V' lead A i r t Q :
  inv W V lead A -> nodes (net W) !! i = Some r -> election_inv members C' V' -> V ⊆ V' ->
  quorum members Q -> (forall x, x ∈ Q -> (x, t, i) ∈ V') ->
  (term r < t \/ (state r = Candidate /\ t = term r)) -> lead !! t = None.
Proof using.
  intros Hinv Hi Hel HV HQ HQV Hr. destruct (lead !! t) as [L|] eqn:E; [exfalso|done].
  destruct (s_won _ _ _ _ _ Hinv t L E) as (j & Q' & HQ' & HQV' & _ & Hj).
  destruct (quorums_meet Q Q' HQ HQ') as (x & Hx & Hx').
  assert (j = i) as ->.
  { eapply (inv_unique _ _ _ Hel x t); [by apply HV, HQV'|by apply HQV]. }
  destruct (Hj r Hi) as [?|[-> ?]]; destruct Hr as [?|[? ?]]; try lia; done.
Qed.

Lemma holds_acks_before lead A x t l :
  lead !! t = None -> holds_acks lead A x t l t -> holds_acks lead A x t l (t - 1).
Proof using.
  intros Hn H s M N S Ha Hst HNM HS HN.
  destruct (H s M N S Ha Hst HNM HS HN) as [?|(u & U & Hu & HU & Hd)]; [by left|right].
  exists u, U. split_and!; try done; [lia|]. destruct (decide (u = t)); [congruence|lia].
Qed.

Lemma safe_lead W W' V V' lead A i r r' Q :
  inv W V lead A -> nodes (net W) !! i = Some r ->
  nodes (net W') = <[i := r']> (nodes (net W)) ->
  election_inv members (net W') V' -> V ⊆ V' -> still r r' -> state r' = Leader ->
  (term r < term r' \/ (state r = Candidate /\ term r' = term r)) ->
  quorum members Q -> (forall x, x ∈ Q -> (x, term r', i) ∈ V') ->
  (forall x, x ∈ Q -> holds_acks lead A x (term r') (log r) (term r')) ->
  (forall p, p ∈ peers r' -> 0 <= map_get (nextIndex r') p) ->
  (forall p, p ∈ peers r' -> map_get (matchIndex r') p = 0) ->
  commitIndex r' = commitIndex r ->
  (forall w, w ∈ V' -> w ∈ V \/ w = (i, term r', i)) ->
  captured W' = captured W -> sent W' = sent W -> replied W' = replied W ->
  grows lead (<[term r' := log r]> lead) /\ inv W' V' (<[term r' := log r]> lead) A.
Proof using.
  intros Hinv Hi Hn Hel HV (Hl & Hb & Hs & Hsn) HL Hr HQ HQV HQH Hnx Hmx Hc Hw E1 E2 E3.
  destruct (s_node _ _ _ _ _ Hinv i r Hi) as (N1 & N2 & N3 & N4 & N5 & N6 & N7 & N8 & N9).
  pose proof (no_leader_yet W V (net W') V' lead A i r (term r') Q Hinv Hi Hel HV HQ HQV Hr) as Hnone.
  pose proof (grows_insert lead (term r') (log r) Hnone) as Hg.
  assert (1 <= term r' /\ term r <= term r') as [Ht1 Hte].
  { destruct Hr as [?|[Hc' ->]]; [lia|]. split; [by apply N4|lia]. }
  assert (forall N, ~ term_at (log r) N (term r')) as Hnew.
  { intros N HN. pose proof (term_at_pos lead _ _ _ N1 Ht1 HN) as Hpos.
    destruct HN as (e & He & Het). destruct (proj2 (proj2 N1) N e He Hpos) as (U & HU & _). congruence. }
  assert (sound (<[term r' := log r]> lead) (log r)) as Hsound by (by eapply sound_grows).
  assert (node_step W W' V V' lead (<[term r' := log r]> lead) A A i r r') as Hstep.
  { constructor; try done.
    - intros Hc'. congruence.
    - intros t L HtL. left. rewrite lookup_insert_ne by congruence. done.
    - intros s S N _ _ _ Ha. left. by rewrite Hl.
    - intros a Ha. by left.
    - intros w Hw'. destruct (Hw w Hw') as [?| ->]; [by left|right]. intros rc.
      rewrite Hn, lookup_insert_eq. intros [= <-]. split; [done|]. congruence.
    - intros t L. rewrite lookup_insert_Some. intros [[<- <-]|[_ HtL]]; [right|left; by eexists].
      exists i, Q. split_and!; try done.
      + intros x Hx. apply (holds_acks_grows lead _ A A); try done.
        * intros s M. by left.
        * intros s M. by eapply step_ack_lead.
        * apply holds_acks_before; [done|]. by apply HQH.
      + intros r0. rewrite Hn, lookup_insert_eq. intros [= <-]. right. split; [done|]. congruence. }
  split; [exact Hg|]. apply (safe_put Hinv Hi Hstep); try done.
  - intros t L. rewrite lookup_insert_Some. intros [[<- <-]|[_ HtL]].
    + split_and!; try done. intros k e He. pose proof (N5 k e He). lia.
    + destruct (s_lead _ _ _ _ _ Hinv t L HtL) as (H1 & H2 & H3).
      split_and!; try done. by eapply sound_grows.
  - unfold node_inv. rewrite Hl, Hb, Hs, Hsn. split_and!; try done; [lia| |].
    + intros k e He. pose proof (N5 k e He). lia.
    + by rewrite lookup_insert_eq.
  - intros _. rewrite Hl. split; [intros N HN; by apply Hnew in HN|].
    intros p Hp. split; [|intros N _ HN; by apply Hnew in HN].
    rewrite Hmx by done. pose proof (sound_length _ _ N1). lia.
  - rewrite Hl, Hc. eapply committed_grows; [exact Hg|done|exact Hte|].
    by apply (s_commit _ _ _ _ _ Hinv i).
  - rewrite E1. by left.
  - rewrite E2. by left.
  - rewrite E3. by left.
Qed.
End safety.
