(* ===== verification/ClusterSteps.v ===== *)
(** * Every transition of the cluster keeps the invariant

    One lemma per constructor of [wstep]: elections and votes first, then
    proposals and batches, answers and commitment, restarts and the rest. *)
From stdpp Require Import gmap strings list.
From Stdlib Require Import ZArith Lia.
From S2P Require Import Prelude Types Stores RaftNode Membership Election Replication LogMatching Sending SnapshotOps Applier Admin Boot Node ElectionSafety LogPrefix RaftCluster ClusterInvariant.

Local Open Scope Z_scope.

(** ** What the handlers leave alone *)

Definition frame (r r' : Raft) : Prop :=
  still r r' /\ commitIndex r' = commitIndex r /\ nextIndex r' = nextIndex r /\
  matchIndex r' = matchIndex r.

#[export] Instance frame_refl : Reflexive frame.
Proof. by intros r. Qed.

#[export] Instance frame_trans : Transitive frame.
Proof. unfold frame, still. intros a b c. intuition congruence. Qed.

Lemma bumpTerm_frame t r : frame r (bumpTerm t r).
Proof. unfold bumpTerm. by destruct (term r <? t). Qed.

Lemma RequestVote_frame now req r : frame r (RequestVote now req r).1.
Proof.
  pose proof (bumpTerm_frame (rv_Term req) r). unfold RequestVote. split_ifs; done.
Qed.

Lemma becomeLeader_facts r :
  still r (becomeLeaderLocked r) /\ commitIndex (becomeLeaderLocked r) = commitIndex r /\
  forall p, p ∈ peers r ->
    map_get (nextIndex (becomeLeaderLocked r)) p = lastLogIndex r + 1 /\
    map_get (matchIndex (becomeLeaderLocked r)) p = logBaseIndex r.
Proof.
  split_and!; try done. intros p Hp. split; cbn; apply foldl_insert_get; by left.
Qed.

(** The peers of a new leader. *)
Definition fresh_indexes (r r' : Raft) : Prop :=
  forall p, p ∈ peers r' ->
    map_get (nextIndex r') p = lastLogIndex r + 1 /\ map_get (matchIndex r') p = logBaseIndex r.

Lemma startElection_facts now r :
  let r' := startElectionLocked now r in
  removedFromCluster r = false ->
  started_election r r' /\ still r r' /\ commitIndex r' = commitIndex r /\
  (state r' = Candidate -> frame r r') /\ (state r' = Leader -> fresh_indexes r r').
Proof.
  intros r' Hr. destruct (startElection_view now r) as [[? _]|Hs]; [congruence|].
  fold r' in Hs. split; [done|]. unfold r', startElectionLocked. rewrite Hr.
  set (c := r <| state := Candidate |> <| term := term r + 1 |> <| votedFor := nodeId r |>).
  set (e := (saveMeta c) <| electionReset := now |> <| votes := 1 |>).
  destruct (majority e <=? votes e); [|by split_and!].
  destruct (becomeLeader_facts e) as (H1 & H2 & H3). by split_and!.
Qed.

Lemma election_cases r r' :
  removedFromCluster r = false ->
  (exists now timeout, (electionTimer_tick now timeout r).1 = r') \/
  (exists now req, (TimeoutNow now req r).1 = r') ->
  (quiet_step r r' /\ frame r r') \/
  exists now m, quiet_step r m /\ frame r m /\ removedFromCluster m = false /\
    r' = startElectionLocked now m.
Proof.
  intros Hr [(now & timeout & <-)|(now & req & <-)].
  - unfold electionTimer_tick. split_ifs; try by left. right. by exists now, r.
  - unfold TimeoutNow. split_ifs; try by left. right.
    exists now, (bumpTerm (tn_Term req) r). split_and!; try done.
    + apply bumpTerm_quiet.
    + apply bumpTerm_frame.
    + unfold bumpTerm. by destruct (term r <? tn_Term req).
Qed.

Section steps.
Context (members : list NodeID) (Hne : "" ∉ members) (Hnd : NoDup members).

Local Abbreviation inv := (safe members).

Lemma own_acks W V lead A x r t b :
  inv W V lead A -> nodes (net W) !! x = Some r -> term r <= b ->
  holds_acks lead A x t (log r) b.
Proof using.
  intros Hinv Hx Hb s M N S Ha _ HNM HS HN.
  destruct (s_ack _ _ _ _ _ Hinv _ Ha) as (S' & HS' & HM & Hr). simplify_eq.
  destruct (Hr r Hx) as [_ H]. destruct (H N HNM HN) as [?|Hd]; [by left|right].
  by eapply dropped_mono.
Qed.

(** ** Elections *)

Lemma safe_elect W V lead A i r r' :
  inv W V lead A -> nodes (net W) !! i = Some r ->
  (exists now timeout, (electionTimer_tick now timeout r).1 = r') \/
  (exists now req, (TimeoutNow now req r).1 = r') ->
  exists V' lead', grows lead lead' /\
    inv (W <| net := mkCluster (<[i := r']> (nodes (net W)))
                       (asks (net W) ++ election_asks i r r') (answers (net W)) |>) V' lead' A.
Proof using Hne Hnd.
  intros Hinv Hi Hr'. pose proof (s_net _ _ _ _ _ Hinv) as Hel.
  destruct (inv_nodes _ _ _ Hel i r Hi) as (Hid & _ & Hrm).
  destruct (election_cases r r' Hrm Hr') as [[Hq (F1 & F2 & F3 & F4)]|(now & m & Hq & Hf & Hm & ->)].
  { exists V, lead. split; [reflexivity|].
    eapply (safe_quiet members W _ V lead A i r r'); try done.
    - by apply inv_idle.
    - by apply messages_same. }
  destruct (startElection_facts now m Hm) as (Hs & Hst & Hc & Hcand & Hlead).
  set (r' := startElectionLocked now m) in *. clearbody r'.
  pose proof (inv_elect members Hne Hnd (net W) V i r m r' Hel Hi Hq Hs) as Hel'.
  destruct Hs as (S1 & S2 & S3 & S4 & S5 & S6 & S7 & S8).
  assert (term r <= term m) as Htm by (destruct Hq as [(_&_&_&?&_)|(_&_&_&?&_)]; lia).
  assert (still r r') as Hst' by (destruct Hf as [Hf _]; unfold still in *; intuition congruence).
  assert (commitIndex r' = commitIndex r) as Hc' by (destruct Hf as (_ & Hf & _); congruence).
  assert (holds_acks lead A i (term r') (log r) (term r')) as Hown
    by (eapply own_acks; [done..|lia]).
  destruct (s_node _ _ _ _ _ Hinv i r Hi) as (N1 & N2 & _ & _ & _ & _ & _ & N8 & _).
  destruct (quiet_step_id _ _ Hq) as [_ Hp].
  destruct (majority m <=? 1) eqn:Em.
  - exists ((i, term r', i) :: V), (<[term r' := log r]> lead).
    assert (forall p, p ∉ peers r') as Hnop.
    { intros p Hpp. rewrite S2 in Hpp. unfold majority in Em. destruct (peers m); [by apply not_elem_of_nil in Hpp|].
      cbn [length] in Em. pose proof (Z.div_le_lower_bound (Z.of_nat (S (length l)) + 1) 2 1 ltac:(lia) ltac:(lia)). apply Z.leb_le in Em. lia. }
    eapply (safe_lead members W _ V _ lead A i r r' [i]); try done.
    + set_solver.
    + left. lia.
    + split_and!; [apply NoDup_singleton| |].
      * intros x ->%list_elem_of_singleton. by destruct (node_facts members Hne Hnd (net W) V i r Hel Hi) as (_ & _ & ? & _).
      * rewrite <- (majority_members members (net W) V i r), <- (majority_peers r m) by done. simpl. lia.
    + intros x ->%list_elem_of_singleton. set_solver.
    + by intros x ->%list_elem_of_singleton.
    + intros p Hpp. by apply Hnop in Hpp.
    + intros p Hpp. by apply Hnop in Hpp.
    + intros w [->|?]%elem_of_cons; auto.
  - exists ((i, term r', i) :: V), lead. split; [reflexivity|].
    destruct (Hcand S8) as (_ & _ & Fn & _). destruct Hf as (_ & _ & Fn' & _).
    eapply (safe_still members W _ V _ lead A i r r'); try done.
    + set_solver.
    + lia.
    + intros _. left. lia.
    + intros HL. congruence.
    + intros p. rewrite S2, Hp, Fn, Fn'. apply N8.
    + intros HL. congruence.
    + destruct Hst' as (-> & _). rewrite Hc'.
      eapply committed_grows; [reflexivity|done| |by apply (s_commit _ _ _ _ _ Hinv i)]. lia.
    + intros w [->|?]%elem_of_cons; [right|by left]. intros rc. cbn. rewrite lookup_insert_eq.
      intros [= <-]. split; [done|]. intros _ _ _. destruct Hst' as (-> & _). done.
    + by apply messages_same.
Qed.

Lemma node_last W V lead A i r :
  inv W V lead A -> nodes (net W) !! i = Some r ->
  exists e, last (log r) = Some e /\ lastLogIndex r = Z.of_nat (length (log r)) - 1 /\
    lastLogTerm r = Term e /\ Term e <= term r.
Proof using.
  intros Hinv Hi. destruct (s_node _ _ _ _ _ Hinv i r Hi) as (N1 & _ & _ & _ & N5 & _).
  destruct (sound_last lead (log r) N1) as (e & He & Hl & Hx).
  exists e. unfold lastLogIndex, lastLogTerm. rewrite He. split_and!; try done. by apply (N5 _ _ Hl).
Qed.

(** A message is added, no node changes. *)
Lemma safe_message W W' V lead A i r :
  inv W V lead A -> nodes (net W) !! i = Some r -> net W' = net W ->
  messages_ok members W W' lead A -> inv W' V lead A.
Proof using.
  intros Hinv Hi Hn HM. eapply (safe_quiet members W W' V lead A i r r); try done.
  - rewrite Hn. by rewrite insert_id.
  - rewrite Hn. apply (s_net _ _ _ _ _ Hinv).
Qed.

Lemma safe_capture W V lead A c v t rc :
  inv W V lead A -> (c, v, t) ∈ asks (net W) -> nodes (net W) !! c = Some rc ->
  in_int32 t -> in_int32 (lastLogIndex rc) -> in_int32 (lastLogTerm rc) ->
  inv (W <| captured := ((c, v, t), voteRequest t rc) :: captured W |>) V lead A.
Proof using Hne Hnd.
  intros Hinv Ha Hc H1 H2 H3. eapply (safe_message W _ V lead A c rc); try done.
  split_and!; try by left. intros a [->|?]%elem_of_cons; [right|by left].
  destruct (inv_nodes _ _ _ (s_net _ _ _ _ _ Hinv) c rc Hc) as (Hid & _).
  destruct (inv_asks _ _ _ (s_net _ _ _ _ _ Hinv) (c, v, t)) as (r0 & Hr0 & _ & Ht).
  { unfold pending. set_solver. }
  simplify_eq. cbn. rewrite !int32_id by done. split_and!; try done.
  intros r. rewrite Hc. intros [= <-]. by split.
Qed.

(** The vote rule: a voter's log position is not past the candidate's. *)
Lemma granted_holds W V lead A c v t req rc rv :
  inv W V lead A -> nodes (net W) !! v = Some rv -> nodes (net W) !! c = Some rc ->
  rv_LastLogIndex req = lastLogIndex rc -> rv_LastLogTerm req = lastLogTerm rc ->
  upToDate req rv = true -> term rv <= t -> term rc = t ->
  holds_acks lead A v t (log rc) t.
Proof using.
  intros Hinv Hv Hc Hi Ht Hup Htv Htc s M N S Ha Hst HNM HS HN.
  destruct (own_acks W V lead A v rv t t Hinv Hv Htv s M N S Ha Hst HNM HS HN) as [Hag|]; [|by right].
  destruct (node_last W V lead A v rv Hinv Hv) as (x & Hx & Ix & Tx & _).
  destruct (node_last W V lead A c rc Hinv Hc) as (y & Hy & Iy & Ty & Hle).
  destruct (s_node _ _ _ _ _ Hinv v rv Hv) as (Sv & _). destruct (s_node _ _ _ _ _ Hinv c rc Hc) as (Sc & _).
  apply (up_to_date_holds lead (s_lead _ _ _ _ _ Hinv) (log rv) (log rc) S s t N x y); try done; [|lia].
  unfold upToDate in Hup. rewrite Hi, Ht, Ix, Iy, Tx, Ty in Hup.
  apply orb_true_iff in Hup as [Hup|[H1 H2]%andb_true_iff]; [left|right]; lia.
Qed.

Lemma safe_ask W V lead A as1 as2 c v t req rv now rv' resp :
  inv W V lead A -> asks (net W) = as1 ++ (c, v, t) :: as2 -> ((c, v, t), req) ∈ captured W ->
  nodes (net W) !! v = Some rv -> RequestVote now req rv = (rv', resp) ->
  exists V',
    inv (W <| net := mkCluster (<[v := rv']> (nodes (net W))) (as1 ++ as2)
                       (answers (net W) ++ [((c, v, t), resp)]) |>) V' lead A.
Proof using Hne Hnd.
  intros Hinv Has Hcap Hv HR. pose proof (s_net _ _ _ _ _ Hinv) as Hel.
  destruct (s_captured _ _ _ _ _ Hinv _ Hcap) as (Hid & Ht & Hrc).
  pose proof (inv_ask members Hne Hnd (net W) V as1 as2 c v t req rv now rv' resp Hel Has Hid Ht Hv HR) as Hel'.
  pose proof (RequestVote_frame now req rv) as Hf. rewrite HR in Hf. simpl in Hf.
  pose proof (RequestVote_decides now req rv) as Hrule. rewrite HR in Hrule.
  destruct Hrule as (Hgr & Hyes & Hno & _).
  destruct (rvr_VoteGranted resp) eqn:Hg.
  2: { exists V. destruct Hf as (F1 & F2 & F3 & F4).
       eapply (safe_quiet members W _ V lead A v rv rv'); try done.
       - by apply Hno.
       - by apply messages_same. }
  exists ((v, t, c) :: V). destruct (proj1 Hgr eq_refl) as (_ & Hle & Hup & _).
  destruct (Hyes eq_refl) as (_ & Htv & _). rewrite Ht in *.
  destruct (RequestVote_view _ _ _ _ _ HR) as [[? _]|(_ & m & Hq & _ & _ & _ & Mp & Ms & Mt & _)]; [congruence|].
  assert (state rv' <> Follower -> state rv = state rv' /\ term rv' = term rv) as Hsame.
  { rewrite Ms, Mt. destruct Hq as [(_&_&?&?&_)|(_&_&?&_)]; [by split|done]. }
  destruct (s_node _ _ _ _ _ Hinv v rv Hv) as (_ & _ & _ & _ & _ & _ & _ & N8 & _).
  destruct Hf as (F1 & F2 & F3 & F4). destruct (quiet_step_id _ _ Hq) as [_ Hp].
  eapply (safe_still members W _ V _ lead A v rv rv'); try done.
  - set_solver.
  - lia.
  - intros Hs. right. destruct Hsame; [congruence|]. split; congruence.
  - intros Hs. destruct Hsame; [congruence|]. split; congruence.
  - intros p. rewrite Mp, Hp, F3. apply N8.
  - intros Hs. destruct Hsame as [HsE ->]; [congruence|]. destruct F1 as (-> & _).
    rewrite Mp, Hp, F4. apply (s_leader _ _ _ _ _ Hinv v rv Hv). congruence.
  - destruct F1 as (-> & _). rewrite F2. eapply committed_grows; [reflexivity|done| |].
    2: by apply (s_commit _ _ _ _ _ Hinv v). lia.
  - intros w [->|?]%elem_of_cons; [right|by left].
    destruct (inv_asks _ _ _ Hel (c, v, t)) as (rc & Hc & Hvp & Htc).
    { unfold pending. rewrite Has. set_solver. }
    destruct (node_facts members Hne Hnd (net W) V c rc Hel Hc) as (_ & _ & _ & Hcp & _).
    intros r0. cbn. rewrite lookup_insert_ne by (by intros ->). rewrite Hc. intros [= <-].
    split; [done|]. intros Hcand Htrc Hnone.
    destruct (Hrc rc Hc) as [_ Hreq]. destruct (Hreq Hcand Htrc Hnone) as [Hli Hlt].
    eapply (granted_holds W V lead A c v t req rc rv); try done.
  - by apply messages_same.
Qed.

(** The answers: a quiet step, one more vote, or the majority. *)
Lemma handleVoteResponse_facts resp r :
  let r' := handleVoteResponse resp r in
  (quiet_step r r' /\ frame r r') \/
  (state r = Candidate /\ term r' = term r /\ peers r' = peers r /\ still r r' /\
   commitIndex r' = commitIndex r /\
   ((state r' = Candidate /\ frame r r') \/ (state r' = Leader /\ fresh_indexes r r'))).
Proof using.
  cbv zeta. unfold handleVoteResponse. destruct (term r <? rvr_Term resp) eqn:Et.
  { left. split; [|done]. right. unfold stepped_down. simpl. split_and!; try done. lia. }
  destruct (bool_decide (state r = Candidate)) eqn:Hs; boolify; [|by left]. cbn [negb].
  destruct (rvr_VoteGranted resp); [right|by left].
  set (e := r <| votes := votes r + 1 |>).
  destruct (majority e <=? votes e).
  - destruct (becomeLeader_facts e) as (H1 & H2 & H3). split_and!; try done. by right.
  - split_and!; try done. by left.
Qed.

Lemma safe_answer W V lead A an1 an2 c v t resp rc :
  inv W V lead A -> answers (net W) = an1 ++ ((c, v, t), resp) :: an2 ->
  nodes (net W) !! c = Some rc -> term rc = t ->
  exists lead', grows lead lead' /\
    inv (W <| net := mkCluster (<[c := handleVoteResponse resp rc]> (nodes (net W)))
                       (asks (net W)) (an1 ++ an2) |>) V lead' A.
Proof using Hne Hnd.
  intros Hinv Han Hc Ht. pose proof (s_net _ _ _ _ _ Hinv) as Hel.
  pose proof (inv_answer members Hne Hnd (net W) V an1 an2 c v t resp rc Hel Han Hc Ht) as Hel'.
  pose proof (handleVoteResponse_facts resp rc) as Hcases. cbv zeta in Hcases.
  set (r' := handleVoteResponse resp rc) in *. clearbody r'.
  destruct (s_node _ _ _ _ _ Hinv c rc Hc) as (N1 & N2 & _ & _ & _ & _ & _ & N8 & _).
  destruct Hcases as [[Hq (F1 & F2 & F3 & F4)]|(Hs & Hte & Hp & Hst & Hci & [[Hs' Hf]|[Hs' Hx]])].
  - exists lead. split; [reflexivity|].
    eapply (safe_quiet members W _ V lead A c rc r'); try done. by apply messages_same.
  - exists lead. split; [reflexivity|]. destruct Hf as (_ & _ & Fn & _).
    eapply (safe_still members W _ V V lead A c rc r'); try done; try lia.
    + intros _. by right.
    + intros ?. congruence.
    + intros p. rewrite Hp, Fn. apply N8.
    + intros ?. congruence.
    + destruct Hst as (-> & _). rewrite Hci, Hte. by apply (s_commit _ _ _ _ _ Hinv c).
    + by left.
    + by apply messages_same.
  - exists (<[term r' := log rc]> lead).
    assert (nodes (mkCluster (<[c := r']> (nodes (net W))) (asks (net W)) (an1 ++ an2)) !! c = Some r') as Hc'
      by apply lookup_insert_eq.
    destruct (inv_tally _ _ _ Hel' c r' Hc') as (Q & Q1 & Q2 & Q3 & Q4 & _ & Q6); [congruence|].
    assert (quorum members Q) as HQ.
    { split_and!; try done. rewrite <- (majority_members members (net W) V c rc) by done.
      rewrite <- (majority_peers rc r') by done. rewrite <- Q3. by apply Q6. }
    assert (lead !! term r' = None) as Hnone.
    { eapply (no_leader_yet members W V _ V lead A c rc (term r') Q); try done. by right. }
    destruct (node_last W V lead A c rc Hinv Hc) as (_ & _ & Hll & _).
    pose proof (sound_length _ _ N1) as Hlen.
    eapply (safe_lead members W _ V V lead A c rc r' Q); try done.
    + by right.
    + intros x Hxq. destruct (s_vote _ _ _ _ _ Hinv _ (Q4 x Hxq) rc Hc) as [_ Hh].
      apply Hh; [done|congruence|done].
    + intros p Hpp. destruct (Hx p Hpp) as [-> _]. lia.
    + intros p Hpp. destruct (Hx p Hpp) as [_ ->]. done.
    + by left.
Qed.

(** ** Proposals *)

Lemma net_quiet C V i r r' :
  election_inv members C V -> nodes C !! i = Some r -> quiet_step r r' ->
  election_inv members (put i r' C) V.
Proof using.
  intros Hel Hi Hq. eapply (inv_quiet members C V _ i r r'); try done.
  - apply (inv_nodup _ _ _ Hel).
  - apply (inv_granted _ _ _ Hel).
Qed.

Lemma Propose_facts d r :
  let e := mkLogEntry (lastLogIndex r + 1) (term r) d in
  (state r <> Leader /\ (Propose d r).1 = r) \/
  (state r = Leader /\ exists fs', (Propose d r).1 = r <| log := log r ++ [e] |> <| fs := fs' |>).
Proof using.
  intros e. unfold Propose. destruct (bool_decide (state r = Leader)) eqn:Hs; boolify;
    cbn [negb]; [right|by left]. split; [done|].
  destruct (saveLog_fields (r <| log := log r ++ [e] |>)) as [fs' Hfs]. exists fs'.
  unfold e in *. by rewrite Hfs.
Qed.

Lemma safe_propose W V lead A i r d :
  inv W V lead A -> nodes (net W) !! i = Some r ->
  exists lead' A', grows lead lead' /\ A ⊆ A' /\
    inv (W <| net := put i (Propose d r).1 (net W) |>) V lead' A'.
Proof using Hne Hnd.
  intros Hinv Hi. pose proof (s_net _ _ _ _ _ Hinv) as Hel.
  pose proof (net_quiet (net W) V i r _ Hel Hi (or_introl (Propose_view d r))) as Hel'.
  destruct (Propose_facts d r) as [[_ Hr]|(HL & fs' & Hr)]; rewrite Hr in *.
  { exists lead, A. split; [reflexivity|]. split; [done|].
    eapply (safe_quiet members W _ V lead A i r r); try done. by apply messages_same. }
  destruct (s_node _ _ _ _ _ Hinv i r Hi) as (N1 & N2 & N3 & N4 & N5 & N6 & N7 & N8 & N9).
  destruct (node_last W V lead A i r Hinv Hi) as (_ & _ & Hlast & _).
  set (e := mkLogEntry (lastLogIndex r + 1) (term r) d) in *.
  set (r' := r <| log := log r ++ [e] |> <| fs := fs' |>) in *.
  set (t := term r) in *. set (n := length (log r)).
  pose proof (grows_snoc lead t (log r) e (N9 HL) eq_refl) as Hg.
  pose proof (sound_snoc lead t (log r) e N1 (N9 HL) ltac:(simpl; lia) eq_refl) as Hsound.
  assert (term_at (log r ++ [e]) n t) as Hterm by (exists e; split; [by apply list_lookup_middle|done]).
  assert (n < length (log r ++ [e]))%nat as Hn by (by eapply term_at_lt).
  assert (forall k x, (log r ++ [e]) !! k = Some x -> Term x <= t) as Hterms.
  { intros k x [Hx|[_ Hx]]%lookup_app_Some; [by apply (N5 k)|].
    by apply list_lookup_singleton_Some in Hx as [_ <-]. }
  exists (<[t := log r ++ [e]]> lead), ((i, t, n) :: A). split; [exact Hg|]. split; [set_solver|].
  assert (node_step members W (W <| net := put i r' (net W) |>) V V lead (<[t := log r ++ [e]]> lead)
            A ((i, t, n) :: A) i r r') as Hstep.
  { constructor; try done.
    - set_solver.
    - by intros Hc%(eq_trans (eq_sym HL)).
    - intros u U HU. destruct (decide (u = t)) as [->|]; [by right|left]. by rewrite lookup_insert_ne.
    - intros s S N _ _ _ Ha. left. by apply agree_sym, agree_app_r, agree_sym.
    - intros a [->|?]%elem_of_cons; [right|by left]. exists n, (log r ++ [e]).
      split_and!; try done. apply lookup_insert_eq.
    - intros w Hw. by left.
    - intros u U. rewrite lookup_insert_Some. intros [[<- _]|[_ HU]]; left; [|by eexists].
      rewrite (N9 HL). by eexists. }
  apply (safe_put members Hinv Hi Hstep); try done; try by left.
  - intros u U. rewrite lookup_insert_Some. intros [[<- <-]|[_ HU]].
    + split_and!; try done. apply (s_lead _ _ _ _ _ Hinv t (log r)). by apply N9.
    + destruct (s_lead _ _ _ _ _ Hinv u U HU) as (H1 & H2 & H3). split_and!; try done.
      by eapply sound_grows.
  - split_and!; try done. intros _. apply lookup_insert_eq.
  - intros _. destruct (s_leader _ _ _ _ _ Hinv i r Hi HL) as [L1 L2]. split.
    + intros N HN. exists n. split; [|set_solver]. apply term_at_lt in HN. simpl in HN.
      rewrite length_app in HN. simpl in HN. lia.
    + intros p Hp. destruct (L2 p Hp) as [L3 L4]. split.
      { simpl. rewrite length_app. simpl in *. lia. }
      intros N HN Ht. simpl in *. apply (acked_mono A); [set_solver|]. apply L4; [done|].
      eapply term_at_app_inv; [|exact Ht]. lia.
  - apply committed_app. apply (committed_grows members lead _ A _ _ _ t); [exact Hg|set_solver|done|].
    exact (s_commit _ _ _ _ _ Hinv i r Hi).
Qed.

(** ** Batches *)

Lemma node_wf W V lead A i r :
  inv W V lead A -> nodes (net W) !! i = Some r -> log_wf r.
Proof using.
  intros Hinv Hi. destruct (s_node _ _ _ _ _ Hinv i r Hi) as (N1 & N2 & _).
  pose proof (sound_length _ _ N1). destruct N1 as (_ & Hc & _).
  split; [intros E; rewrite E in *; simpl in *; lia|]. by rewrite N2.
Qed.

Lemma entryAt_position W V lead A i r k :
  inv W V lead A -> nodes (net W) !! i = Some r -> 0 <= k -> entryAt r k = log r !! Z.to_nat k.
Proof using.
  intros Hinv Hi Hk. destruct (s_node _ _ _ _ _ Hinv i r Hi) as (_ & N2 & _).
  rewrite entryAt_lookup by lia. f_equal. lia.
Qed.

Lemma spawn_inj g g' r : spawn g r = spawn g' r -> g = g'.
Proof using.
  intros H. apply (f_equal goroutines) in H. simpl in H. by apply app_inj_2 in H as [_ [= ->]].
Qed.

(** What [sendHeartbeats] captures. *)
Lemma send_captured W V lead A i r p prev pt es :
  inv W V lead A -> nodes (net W) !! i = Some r -> p ∈ peers r ->
  sendHeartbeat_peer (term r) (nodeId r) p r
    = Some (spawn (GoSendBatches p (term r) (nodeId r) prev pt es (commitIndex r)) r) ->
  exists nextIdx, logBaseIndex r < nextIdx <= lastLogIndex r + 1 /\ prev = nextIdx - 1 /\
    pt = from_option Term 0 (entryAt r prev) /\ es = pendingEntries r nextIdx (lastLogIndex r).
Proof using Hne Hnd.
  intros Hinv Hi Hp.
  destruct (s_node _ _ _ _ _ Hinv i r Hi) as (_ & N2 & _ & _ & _ & N6 & _ & N8 & _).
  destruct (node_facts members Hne Hnd (net W) V i r (s_net _ _ _ _ _ Hinv) Hi) as (_ & _ & _ & _ & _ & Hpm).
  unfold sendHeartbeat_peer. rewrite bool_decide_eq_false_2 by (intros ->; by apply Hne, Hpm).
  unfold needsSnapshot. rewrite N6. set (nx := if _ =? 0 then _ else _).
  destruct (lastLogIndex r - (nx - 1) <? 0) eqn:E; [done|]. intros H%(inj Some).
  apply spawn_inj in H. injection H as <- <- <-. exists nx.
  assert (logBaseIndex r < nx).
  { unfold nx. pose proof (N8 p Hp). destruct (Z.eqb_spec (map_get (nextIndex r) p) 0); lia. }
  split_and!; try done; lia.
Qed.

Lemma batch_slice W V lead A i r b :
  inv W V lead A -> nodes (net W) !! i = Some r -> sendable r b ->
  exists k, b_prevIdx b = Z.of_nat k /\ slice (log r) k (b_entries b) /\
    ((0 < k)%nat -> term_at (log r) k (b_prevTerm b)).
Proof using.
  intros Hinv Hi (Hf & Hc & H1 & H2 & Hb).
  destruct (s_node _ _ _ _ _ Hinv i r Hi) as (N1 & N2 & _).
  pose proof (sound_length _ _ N1) as Hlen. pose proof (fun k => entryAt_position W V lead A i r k Hinv Hi) as Hat.
  destruct (Hf 0 ""%string 0) as (_ & _ & He & Hp). cbn in He, Hp. rewrite !int32_id in Hp by done.
  exists (Z.to_nat (b_prevIdx b)). rewrite Z2Nat.id by lia.
  assert (forall j e, b_entries b !! j = Some e -> log r !! (S (Z.to_nat (b_prevIdx b)) + j)%nat = Some e) as Hall.
  { intros j e Hj. rewrite <- (He e) by (by apply list_elem_of_lookup_2 in Hj).
    rewrite (Hc _ _ Hj), Hat by lia. f_equal. lia. }
  split; [done|]. split; [split; [|done]|].
  - destruct (b_entries b) as [|e0 l] eqn:El; cbn [length].
    + destruct (Z_lt_le_dec 0 (b_prevIdx b)) as [Hpos|]; [|lia].
      destruct (Hp Hpos) as (x & Hx & _). rewrite Hat in Hx by lia. apply lookup_lt_Some in Hx. lia.
    + destruct (lookup_lt_is_Some_2 (e0 :: l) (length l)) as [x Hx]; [simpl; lia|].
      apply Hall, lookup_lt_Some in Hx. lia.
  - intros Hpos. destruct (Hp ltac:(lia)) as (x & Hx & Ht). rewrite Hat in Hx by lia. by exists x.
Qed.

Lemma safe_send W V lead A i r p sel prev pt es b :
  inv W V lead A -> nodes (net W) !! i = Some r -> state r = Leader -> p ∈ peers r ->
  log_int32 r -> in_int32 (term r) -> in_int32 (commitIndex r) ->
  sendHeartbeat_peer (term r) (nodeId r) p r
    = Some (spawn (GoSendBatches p (term r) (nodeId r) prev pt es (commitIndex r)) r) ->
  (forall k, sel k = Acquired) -> b ∈ sendBatchesWithPipeline sel prev pt es ->
  commitIndex r <= b_prevIdx b + Z.of_nat (length (b_entries b)) ->
  inv (W <| sent := mkAppendMsg i p (term r) b (commitIndex r) :: sent W |>) V lead A.
Proof using Hne Hnd.
  intros Hinv Hi HL Hp H32 Ht32 Hc32 Hsend Hsel Hb Hcb.
  destruct (send_captured W V lead A i r p prev pt es Hinv Hi Hp Hsend) as (nx & Hnx & -> & -> & ->).
  destruct (s_node _ _ _ _ _ Hinv i r Hi) as (N1 & N2 & _ & _ & _ & _ & _ & _ & N9).
  assert (sendable r b) as Hs.
  { eapply all_sendable; try done; [by eapply node_wf|lia]. }
  destruct (batch_slice W V lead A i r b Hinv Hi Hs) as (k & Hk & Hsl & Hpt).
  destruct Hs as (_ & Hcont & H1 & H2 & _).
  eapply (safe_message W _ V lead A i r); try done.
  split_and!; try by left. intros m [->|?]%elem_of_cons; [right|by left].
  exists (log r), k. cbn. rewrite Hk in *. split_and!; try done; [by apply N9|lia|].
  by apply (s_commit _ _ _ _ _ Hinv i).
Qed.

Lemma AppendEntries_frame now req r :
  let r' := (AppendEntries now req r).1 in
  snapshot r' = snapshot r /\ snapshotter r' = snapshotter r /\
  nextIndex r' = nextIndex r /\ matchIndex r' = matchIndex r.
Proof using.
  cbv zeta. destruct (bumpTerm_frame (ae_Term req) r) as ((_ & _ & F1 & F2) & _ & F3 & F4).
  unfold AppendEntries. split_ifs; try done.
  match goal with |- context [saveLog ?x] => destruct (saveLog_fields x) as [fs' ->] end.
  by rewrite advanceCommit_eq.
Qed.

(** The check of the previous entry, between logs of the cluster. *)
Lemma prev_agree W V lead A i r m L p :
  inv W V lead A -> nodes (net W) !! i = Some r -> lead !! am_term m = Some L ->
  b_prevIdx (am_batch m) = Z.of_nat p -> (p < length L)%nat ->
  in_int32 (Z.of_nat p) -> in_int32 (b_prevTerm (am_batch m)) ->
  ((0 < p)%nat -> term_at L p (b_prevTerm (am_batch m))) ->
  prevLogMatches (am_request m) r = true -> agree p (log r) L.
Proof using.
  intros Hinv Hi HL Hp Hlen H1 H2 Ht Hm.
  destruct (s_node _ _ _ _ _ Hinv i r Hi) as (N1 & N2 & _).
  destruct (s_lead _ _ _ _ _ Hinv _ _ HL) as (_ & HsL & _).
  unfold prevLogMatches in Hm. cbn in Hm. rewrite Hp, !int32_id in Hm by done.
  destruct (decide (p = 0%nat)) as [->|Hp0].
  { split; [done|]. intros j Hj. assert (j = 0%nat) as -> by lia.
    by rewrite (proj1 N1), (proj1 HsL). }
  rewrite (proj2 (Z.ltb_lt _ _)), (proj2 (Z.ltb_ge _ _)) in Hm by lia.
  rewrite (entryAt_position W V lead A i r), Nat2Z.id in Hm by (done || lia).
  destruct (log r !! p) as [y|] eqn:Hy; [|done]. destruct (Ht ltac:(lia)) as (x & Hx & Htx).
  apply (sound_match lead (log r) L p y x); try done. lia.
Qed.

(** A committed prefix is in the log of the leader of every later term. *)
Lemma committed_in_lead W V lead A c l t u L :
  inv W V lead A -> committed members lead A c l t -> 0 < c -> t <= u -> lead !! u = Some L ->
  exists S, agree (Z.to_nat c) l S /\ agree (Z.to_nat c) L S.
Proof using.
  intros Hinv [?|(s & S & N & HS & Hs & Hch & Hc & Hag)] Hc0 Htu HL; [lia|].
  exists S. split; [done|]. destruct (decide (s = u)) as [->|].
  - simplify_eq. apply agree_refl. by eapply agree_lt, agree_sym.
  - eapply agree_mono; [eapply (leader_complete members W V lead A s S N u L); try done; lia|lia].
Qed.

Section append.
Context {W : world} {V : list vote} {lead : gmap Z (list LogEntry)} {A A' : list ack}.
Context {x : NodeID} {r r' : Raft} {m : append_msg} {L : list LogEntry} {p : nat}.
Context {resp : AppendEntriesResponse}.
Context (Hinv : inv W V lead A) (Hx : nodes (net W) !! x = Some r).
Context (HL : lead !! am_term m = Some L) (Hsl : slice L p (b_entries (am_batch m))).
Context (Hp : agree p (log r) L) (Hq : quiet_step r r') (Ht : term r' = am_term m).
Context (Hlog : log r' = foldl (appendOrOverwrite 0) (log r) (b_entries (am_batch m))).

Local Abbreviation last_new := (p + length (b_entries (am_batch m)))%nat.

Lemma append_logs_match :
  forall N y z, log r !! N = Some y -> L !! N = Some z -> Term y = Term z -> agree N (log r) L.
Proof using Hinv Hx HL.
  intros N y z. destruct (s_node _ _ _ _ _ Hinv x r Hx) as (N1 & _).
  destruct (s_lead _ _ _ _ _ Hinv _ _ HL) as (_ & HsL & _). by apply (sound_match lead).
Qed.

Lemma append_contiguous_lead : contiguous 0 L.
Proof using Hinv HL. by destruct (s_lead _ _ _ _ _ Hinv _ _ HL) as (_ & (_ & ? & _) & _). Qed.

Lemma append_result : log r' = log r \/ exists n, (0 < n)%nat /\ log r' = take n L.
Proof using Hinv Hx HL Hsl Hp Hlog.
  rewrite Hlog. destruct (append_slice L append_contiguous_lead _ _ p Hp Hsl append_logs_match)
    as [[-> _]|[-> _]]; [by left|right]. eexists. split; [|done]. lia.
Qed.

Lemma append_reached : agree last_new (log r') L.
Proof using Hinv Hx HL Hsl Hp Hlog.
  rewrite Hlog. apply append_holds; [by apply append_contiguous_lead|done|done|].
  apply append_logs_match.
Qed.

Lemma append_retains N k : agree N (log r) k -> agree N L k -> agree N (log r') k.
Proof using Hinv Hx HL Hsl Hp Hlog.
  rewrite Hlog. apply append_keeps with p; [by apply append_contiguous_lead|done|done|].
  apply append_logs_match.
Qed.

Lemma append_term : term r <= am_term m.
Proof using Hq Ht. rewrite <- Ht. destruct Hq as [(_&_&_&?&_)|(_&_&_&?&_)]; lia. Qed.

(** The leader itself never gets one of its own batches to change its log. *)
Lemma append_leader : state r' = Leader -> log r' = log r.
Proof using Hinv Hx HL Hsl Hp Hq Ht Hlog.
  intros Hs. destruct Hq as [(_ & _ & Hs' & Ht' & _)|(_ & _ & ? & _)]; [|congruence].
  destruct (s_node _ _ _ _ _ Hinv x r Hx) as (_ & _ & _ & _ & _ & _ & _ & _ & N9).
  specialize (N9 ltac:(congruence)). rewrite <- Ht', Ht, HL in N9. injection N9 as E.
  rewrite Hlog. destruct (append_slice L append_contiguous_lead _ _ p Hp Hsl append_logs_match)
    as [[-> _]|[_ (k & Hk & Hn)]]; [done|].
  exfalso. apply Hn. rewrite <- E. apply agree_refl. destruct Hsl. lia.
Qed.

Lemma append_node_inv :
  snapshot r' = snapshot r -> snapshotter r' = snapshotter r -> nextIndex r' = nextIndex r ->
  logBaseIndex r' = logBaseIndex r -> node_inv lead r'.
Proof using Hinv Hx HL Hsl Hp Hq Ht Hlog.
  intros F1 F2 F3 F4. pose proof append_term as Hle. pose proof append_leader as Hleader.
  destruct (s_node _ _ _ _ _ Hinv x r Hx) as (N1 & N2 & N3 & N4 & N5 & N6 & N7 & N8 & N9).
  destruct (s_lead _ _ _ _ _ Hinv _ _ HL) as (H1 & HsL & HtL).
  destruct (quiet_step_id _ _ Hq) as [_ Hpe].
  unfold node_inv. rewrite F1, F2, F3, F4, Ht, Hpe. split_and!; try done; try lia.
  - rewrite Hlog. by apply append_sound with L p; [apply append_contiguous_lead|..].
  - intros k e He. destruct append_result as [E|(n & _ & E)]; rewrite E in He.
    + pose proof (N5 k e He). lia.
    + apply take_lookup_Some_inv in He as [_ He]. by apply (HtL k).
  - intros Hs. rewrite Hleader by done. destruct Hq as [(_ & _ & Hs' & Ht' & _)|(_ & _ & ? & _)]; [|congruence].
    rewrite <- Ht, Ht'. apply N9. congruence.
Qed.

Lemma append_committed c c' :
  commitIndex r = c -> c' = newCommit c (am_commit m) (lastLogIndex r') ->
  am_commit m <= Z.of_nat last_new -> committed members lead A (am_commit m) L (am_term m) ->
  committed members lead A c' (log r') (am_term m).
Proof using Hinv Hx HL Hsl Hp Hq Ht Hlog.
  intros <- -> Hle Hmc. pose proof append_term as Hte. unfold newCommit.
  pose proof (s_commit _ _ _ _ _ Hinv x r Hx) as Hc.
  destruct (commitIndex r <? am_commit m) eqn:E.
  - eapply committed_log; [|eapply committed_le; [exact Hmc|lia]].
    intros _. eapply agree_mono; [apply append_reached|lia].
  - destruct (Z_le_gt_dec (commitIndex r) 0); [by left|].
    eapply committed_grows; [reflexivity|reflexivity|exact Hte|].
    eapply committed_log; [|exact Hc]. intros Hpos.
    destruct (committed_in_lead W V lead A _ _ _ _ _ Hinv Hc Hpos Hte HL) as (S & A1 & A2).
    eapply agree_trans; [by apply append_retains|]. by apply agree_sym.
Qed.

Context (HA : A ⊆ A').
Context (Hnew : forall a, a ∈ A' -> a ∈ A \/ (a = (x, am_term m, last_new) /\ term_at L last_new (am_term m))).

Lemma append_node_step W' :
  nodes (net W') = <[x := r']> (nodes (net W)) ->
  node_step members W W' V V lead lead A A' x r r'.
Proof using Hinv Hx HL Hsl Hp Hq Ht Hlog HA Hnew.
  intros Hn. pose proof append_term as Hle. constructor; try done.
  - lia.
  - intros Hc. destruct Hq as [(_ & _ & Hs & Ht' & _)|(_ & _ & ? & _)]; [|congruence].
    right. split_and!; [congruence|done|]. rewrite Ht. congruence.
  - intros t U HU. by left.
  - intros s S N HS Hs HN Ha. destruct (agree_dec N L S) as [|Hd]; [left; by apply append_retains|right].
    exists (am_term m), L. split_and!; try done; [|lia]. destruct (decide (s = am_term m)) as [->|]; [|lia].
    exfalso. simplify_eq. apply Hd, agree_refl. by eapply term_at_lt.
  - intros a Ha. destruct (Hnew a Ha) as [?|[-> Hta]]; [by left|right].
    exists last_new, L. rewrite Ht. split_and!; try done. apply append_reached.
  - intros w Hw. by left.
  - intros t U HU. left. by eexists.
Qed.
End append.

Lemma safe_append W V lead A m now r r' resp :
  inv W V lead A -> m ∈ sent W -> nodes (net W) !! am_to m = Some r ->
  AppendEntries now (am_request m) r = (r', resp) ->
  exists A', A ⊆ A' /\
    inv (W <| net := put (am_to m) r' (net W) |> <| replied := (m, resp) :: replied W |>) V lead A'.
Proof using Hne Hnd.
  intros Hinv Hm Hx E. pose proof (s_sent _ _ _ _ _ Hinv m Hm) as Hmsg.
  pose proof Hmsg as (L & p & HL & Hp & Hpt & Hsl & Hc & H1 & H2 & H3 & H4 & H5 & H6).
  pose proof (AppendEntries_frame now (am_request m) r) as Hf. rewrite E in Hf.
  cbn [fst] in Hf. destruct Hf as (F1 & F2 & F3 & F4).
  destruct (AppendEntries_cases _ _ _ _ _ E) as (Hq & Hb & _ & Hcases).
  pose proof (net_quiet (net W) V (am_to m) r r' (s_net _ _ _ _ _ Hinv) Hx Hq) as Hel.
  destruct Hcases as [(Hno & Hl & Hci)|(Hyes & Hle & Ht & _ & Hpm & Hl & Hci)].
  { exists A. split; [done|].
    eapply (safe_quiet members W _ V lead A (am_to m) r r'); try done.
    split_and!; try by left. intros mr [->|?]%elem_of_cons; [right|by left].
    split; [done|]. simpl. congruence. }
  destruct (s_node _ _ _ _ _ Hinv _ r Hx) as (_ & N2 & _).
  cbn in Ht, Hl, Hci. rewrite int32_id in Ht, Hci by done. rewrite N2 in Hl.
  assert (agree p (log r) L) as Hag by (eapply prev_agree; try done; destruct Hsl; lia).
  set (n := (p + length (b_entries (am_batch m)))%nat) in *.
  assert (exists A', A ⊆ A' /\ (term_at L n (am_term m) -> (am_to m, am_term m, n) ∈ A') /\
    forall a, a ∈ A' -> a ∈ A \/ (a = (am_to m, am_term m, n) /\ term_at L n (am_term m))) as (A' & HA & Hin & Hnew).
  { destruct (decide (Exists (fun e => Term e = am_term m) (option_list (L !! n)))) as [Hd|Hd].
    - exists ((am_to m, am_term m, n) :: A). split_and!; [set_solver|set_solver|].
      intros a [->|?]%elem_of_cons; [right|by left]. split; [done|].
      unfold term_at. destruct (L !! n) as [e|]; simpl in Hd; [|by apply Exists_nil in Hd].
      apply Exists_cons in Hd as [?|Hd]; [by exists e|by apply Exists_nil in Hd].
    - exists A. split_and!; [done| |by left]. intros (e & He & Hte). exfalso. apply Hd.
      rewrite He. simpl. by apply Exists_cons_hd. }
  exists A'. split; [done|].
  assert (committed members lead A (commitIndex r') (log r') (am_term m)) as Hcom
    by (eapply (append_committed Hinv Hx HL Hsl Hag Hq Ht Hl); try done).
  set (W' := W <| net := put (am_to m) r' (net W) |> <| replied := (m, resp) :: replied W |>).
  pose proof (append_node_step Hinv Hx HL Hsl Hag Hq Ht Hl HA Hnew W' eq_refl) as Hstep.
  apply (safe_put members Hinv Hx Hstep); try done; try by left.
  - apply (s_lead _ _ _ _ _ Hinv).
  - by apply (append_node_inv Hinv Hx HL Hsl Hag Hq Ht Hl).
  - intros Hs. pose proof (append_leader Hinv Hx HL Hsl Hag Hq Ht Hl Hs) as Hsame.
    destruct Hq as [(_ & Hpe & Hs' & Ht' & _)|(_ & _ & ? & _)]; [|congruence].
    rewrite Hsame, F4, Ht', Hpe.
    destruct (s_leader _ _ _ _ _ Hinv _ r Hx ltac:(congruence)) as [L1 L2]. split.
    + intros N HN. eapply acked_mono; [done|]. by apply L1.
    + intros q Hqp. destruct (L2 q Hqp) as [L3 L4]. split; [done|]. intros N HN HtN.
      eapply acked_mono; [done|]. by apply L4.
  - rewrite Ht. eapply committed_grows; [reflexivity|done|reflexivity|exact Hcom].
  - intros mr [->|?]%elem_of_cons; [right|by left].
    split; [by eapply msg_inv_grows; [reflexivity|..]|]. cbn. intros _ L' N HL' HN HtN.
    simplify_eq. exists n. rewrite Hp in HN. split; [lia|]. apply Hin.
    eapply (term_up lead (s_lead _ _ _ _ _ Hinv) L (am_term m) N n); try done; [lia|].
    destruct Hsl. lia.
Qed.

(** ** Commitment *)

Lemma leader_commits W V lead A i r N :
  inv W V lead A -> nodes (net W) !! i = Some r -> state r = Leader -> committable r N ->
  committed members lead A N (log r) (term r).
Proof using Hne Hnd.
  intros Hinv Hi HL ([Hc HN] & Hmaj & e & He & Het). pose proof (s_net _ _ _ _ _ Hinv) as Hel.
  destruct (node_facts members Hne Hnd (net W) V i r Hel Hi) as (_ & _ & Him & Hip & Hpn & Hpm).
  destruct (s_node _ _ _ _ _ Hinv i r Hi) as (_ & N2 & _ & _ & _ & _ & _ & _ & N9).
  destruct (s_leader _ _ _ _ _ Hinv i r Hi HL) as [L1 L2].
  apply entryAt_Some in He as [Hr He]. rewrite N2 in *. rewrite Z.sub_0_r in He.
  assert (term_at (log r) (Z.to_nat N) (term r)) as Hat by (by exists e).
  right. exists (term r), (log r), (Z.to_nat N). split_and!; try done; [by apply N9| |lia|].
  - split; [done|]. exists (i :: filter (fun p => N <= map_get (matchIndex r) p) (peers r)). split.
    + split_and!.
      * apply NoDup_cons. split; [|by apply NoDup_filter]. intros [_ ?]%list_elem_of_filter. done.
      * intros x [->|[_ Hx]%list_elem_of_filter]%elem_of_cons; [done|by apply Hpm].
      * rewrite <- (majority_members members (net W) V i r) by done.
        unfold replicas in Hmaj. cbn [length]. lia.
    + intros x [->|[Hm Hx]%list_elem_of_filter]%elem_of_cons; [by apply L1|].
      destruct (L2 x Hx) as [_ L4]. apply L4; [lia|done].
  - apply agree_refl. by eapply term_at_lt.
Qed.

Lemma safe_commit W V lead A i r :
  inv W V lead A -> nodes (net W) !! i = Some r ->
  inv (W <| net := put i (updateCommitIndexLocked r) (net W) |>) V lead A.
Proof using Hne Hnd.
  intros Hinv Hi. pose proof (s_net _ _ _ _ _ Hinv) as Hel.
  destruct (s_node _ _ _ _ _ Hinv i r Hi) as (_ & _ & _ & _ & _ & _ & _ & N8 & _).
  assert (exists N, updateCommitIndexLocked r = r <| commitIndex := N |> /\
            committed members lead A N (log r) (term r)) as (N & -> & HN).
  { destruct (decide (state r = Leader)) as [HL|HL].
    - destruct (updateCommit_cases r HL) as (N & HN & Hcs). exists N. split; [done|].
      destruct Hcs as [[-> _]|[Hcm _]]; [by apply (s_commit _ _ _ _ _ Hinv i)|by eapply leader_commits].
    - exists (commitIndex r). split; [|by apply (s_commit _ _ _ _ _ Hinv i)].
      unfold updateCommitIndexLocked. rewrite bool_decide_eq_false_2 by done. by destruct r. }
  eapply (safe_still members W _ V V lead A i r (r <| commitIndex := N |>)); try done.
  - by eapply net_quiet; [done|done|left].
  - intros ?. by right.
  - apply (s_leader _ _ _ _ _ Hinv i r Hi).
  - by left.
  - by apply messages_same.
Qed.

(** ** Answers to batches *)

(** What an accepted batch is recorded as, before the commit index moves. *)
Definition recorded_match (p : NodeID) (k : Z) (r : Raft) : Raft :=
  r <| matchIndex := <[p := k]> (matchIndex r) |> <| nextIndex := <[p := k + 1]> (nextIndex r) |>.

Lemma batchAnswered_facts p prev es resp r :
  snapshot r = None -> logBaseIndex r = 0 -> 0 <= prev -> contiguous (prev + 1) es ->
  let r' := (sendAppendEntriesBatch p prev es (Some resp) r).1 in
  (quiet_step r r' /\ frame r r') \/
  (exists n, 0 <= n /\ r' = r <| nextIndex := <[p := n]> (nextIndex r) |>) \/
  (aer_Success resp = true /\ p ∈ peers r /\
   r' = updateCommitIndexLocked (recorded_match p (prev + Z.of_nat (length es)) r)).
Proof using.
  intros Hs Hb Hp Hc. unfold sendAppendEntriesBatch. destruct (term r <? aer_Term resp) eqn:Et.
  { left. split; [|done]. right. unfold stepped_down. simpl. split_and!; try done. lia. }
  unfold needsSnapshot. rewrite Hs. destruct (aer_Success resp); cbn [negb].
  2: { destruct (logBaseIndex r + 1 <? map_get (nextIndex r) p) eqn:E; [right; left|by left].
       exists (map_get (nextIndex r) p - 1). split; [lia|done]. }
  destruct (bool_decide (p ∈ peers r)) eqn:Hpe; boolify; [|by left]. cbn [negb fst].
  right; right. split_and!; try done. rewrite <- (last_index_from _ _ Hc). unfold recorded_match.
  destruct (last es) as [e|]; [done|]. cbn [from_option].
  by rewrite (proj2 (Z.leb_le _ _)) by lia.
Qed.

Lemma put_put i r r' C : put i r' (put i r C) = put i r' C.
Proof using. unfold put. cbn. by rewrite insert_insert_eq. Qed.

Lemma safe_recorded W V lead A i r p k :
  inv W V lead A -> nodes (net W) !! i = Some r -> 0 <= k ->
  (state r = Leader -> k < Z.of_nat (length (log r)) /\
     forall N, Z.of_nat N <= k -> term_at (log r) N (term r) -> acked A p (term r) N) ->
  inv (W <| net := put i (recorded_match p k r) (net W) |>) V lead A.
Proof using.
  intros Hinv Hi Hk Hack. pose proof (s_net _ _ _ _ _ Hinv) as Hel.
  destruct (s_node _ _ _ _ _ Hinv i r Hi) as (_ & _ & _ & _ & _ & _ & _ & N8 & _).
  eapply (safe_still members W _ V V lead A i r (recorded_match p k r)); try done.
  - by eapply net_quiet; [done|done|left].
  - intros ?. by right.
  - intros q Hq. cbn. unfold map_get. destruct (decide (q = p)) as [->|].
    + rewrite lookup_insert_eq. simpl. lia.
    + rewrite lookup_insert_ne by done. by apply N8.
  - intros HL. destruct (s_leader _ _ _ _ _ Hinv i r Hi HL) as [L1 L2]. split; [done|].
    intros q Hq. cbn. unfold map_get. destruct (decide (q = p)) as [->|].
    + rewrite lookup_insert_eq. simpl. by apply Hack.
    + rewrite lookup_insert_ne by done. by apply L2.
  - apply (s_commit _ _ _ _ _ Hinv i r Hi).
  - by left.
  - by apply messages_same.
Qed.

Lemma safe_reply W V lead A m resp r :
  inv W V lead A -> (m, resp) ∈ replied W -> nodes (net W) !! am_from m = Some r ->
  (state r = Leader -> term r = am_term m) ->
  inv (W <| net := put (am_from m)
              (sendAppendEntriesBatch (am_to m) (b_prevIdx (am_batch m))
                 (b_entries (am_batch m)) (Some resp) r).1 (net W) |>) V lead A.
Proof using Hne Hnd.
  intros Hinv Hm Hi Hterm. pose proof (s_net _ _ _ _ _ Hinv) as Hel.
  destruct (s_replied _ _ _ _ _ Hinv _ Hm) as [Hmsg Hack].
  destruct Hmsg as (L & p & HL & Hp & _ & [Hlen _] & Hc & _). cbn [fst snd] in *.
  destruct (s_node _ _ _ _ _ Hinv _ r Hi) as (_ & N2 & _ & _ & _ & N6 & _ & N8 & N9).
  rewrite Hp in *.
  destruct (batchAnswered_facts (am_to m) (Z.of_nat p) (b_entries (am_batch m)) resp r N6 N2 ltac:(lia) Hc)
    as [[Hq (F1 & F2 & F3 & F4)]|[(n & Hn & Hr')|(Hok & Hpe & Hr')]].
  - eapply (safe_quiet members W _ V lead A (am_from m) r _); try done.
    + by eapply net_quiet.
    + by apply messages_same.
  - rewrite Hr'. set (r' := r <| nextIndex := _ |>).
    eapply (safe_still members W _ V V lead A (am_from m) r r'); try done.
    + by eapply net_quiet; [done|done|left].
    + intros ?. by right.
    + intros q Hq. cbn. unfold map_get. destruct (decide (q = am_to m)) as [->|].
      * by rewrite lookup_insert_eq.
      * rewrite lookup_insert_ne by done. by apply N8.
    + apply (s_leader _ _ _ _ _ Hinv _ r Hi).
    + apply (s_commit _ _ _ _ _ Hinv _ r Hi).
    + by left.
    + by apply messages_same.
  - rewrite Hr'. set (k := Z.of_nat p + Z.of_nat (length (b_entries (am_batch m)))) in *.
    pose proof (safe_recorded W V lead A (am_from m) r (am_to m) k Hinv Hi ltac:(lia)) as H1.
    assert (inv (W <| net := put (am_from m) (recorded_match (am_to m) k r) (net W) |>) V lead A) as H1'.
    { apply H1. intros HLe. rewrite (Hterm HLe). specialize (N9 HLe). rewrite (Hterm HLe), HL in N9.
      injection N9 as <-. split; [lia|]. intros N HN HtN. by apply (Hack Hok L N). }
    pose proof (safe_commit _ V lead A (am_from m) (recorded_match (am_to m) k r) H1' ltac:(apply lookup_insert_eq)) as H2.
    cbn in H2. by rewrite put_put in H2.
Qed.

(** ** Restarts and the rest *)

Lemma restart_facts now i initial dir r :
  on_disk r -> paths_in dir r -> log_wf r -> logBaseIndex r = 0 -> snapshot r = None ->
  peers r <> [] -> removedFromCluster (New now i initial dir (fs r)) = false ->
  let r' := New now i initial dir (fs r) in
  nodeId r' = i /\ state r' = Follower /\ term r' = term r /\ log r' = log r /\
  logBaseIndex r' = 0 /\ snapshot r' = None /\ snapshotter r' = false /\
  votedFor r' = votedFor r /\ commitIndex r' = 0 /\ lastApplied r' = 0 /\
  forall p, p ∈ peers r' -> 0 <= map_get (nextIndex r') p.
Proof using.
  intros Hd Hpa Hwf Hb Hs Hp Hrm r'. unfold r' in *.
  assert (snapshot_base r) as Hsb by (unfold snapshot_base; by rewrite Hs).
  destruct (New_from_disk now i initial dir r Hd Hpa Hwf ltac:(lia) Hsb Hp)
    as (h & nx & mx & gs & Hh & Hnx & E).
  rewrite E in *. clear E r'.
  set (b := booted now i r (fs r)) in *.
  destruct (handle_all_log now (tail (log r)) b) as (H1 & H2 & H3 & H4 & H5 & H6).
  destruct (handle_all_view now (tail (log r)) b) as (V1 & V2 & V3).
  pose proof (handle_all_snapshotter now (tail (log r)) b) as Hsn.
  rewrite <- Hh in *. simpl in *. rewrite Hs. cbn [from_option]. rewrite Hb in H2.
  split_and!; try done; try congruence.
  - by apply V2.
  - by apply V3.
  - intros p Hpp. rewrite (Hnx p Hpp).
    pose proof (lastLogIndex_ge h) as Hge. rewrite H2 in Hge.
    enough (0 <= lastLogIndex h) by lia. apply Hge. unfold log_wf in *. by rewrite H1, H2, <- Hb.
Qed.

Lemma safe_restart W V lead A i r now initial dir :
  inv W V lead A -> nodes (net W) !! i = Some r -> on_disk r -> paths_in dir r -> peers r <> [] ->
  peers (New now i initial dir (fs r)) = peers r ->
  removedFromCluster (New now i initial dir (fs r)) = false ->
  inv (W <| net := put i (New now i initial dir (fs r)) (net W) |>) V lead A.
Proof using Hne Hnd.
  intros Hinv Hi Hd Hpa Hp Hpe Hrm. pose proof (s_net _ _ _ _ _ Hinv) as Hel.
  destruct (s_node _ _ _ _ _ Hinv i r Hi) as (N1 & N2 & _ & _ & _ & N6 & N7 & _).
  destruct (restart_facts now i initial dir r Hd Hpa ltac:(by eapply node_wf) N2 N6 Hp Hrm)
    as (R1 & R2 & R3 & R4 & R5 & R6 & R7 & R8 & R9 & _ & R10).
  set (r' := New now i initial dir (fs r)) in *. clearbody r'.
  destruct (inv_nodes _ _ _ Hel i r Hi) as (Hid & _ & Hrm0).
  eapply (safe_still members W _ V V lead A i r r'); try done.
  - eapply (inv_update members (net W) V _ V i r r'); try done; try congruence; try lia.
    + by left.
    + intros t c Hw Htc. rewrite R8. destruct (recorded members (net W) V i r t c Hel Hi Hw) as (_ & _ & Hv).
      apply Hv. congruence.
    + apply (inv_unique _ _ _ Hel).
    + apply (inv_nodup _ _ _ Hel).
    + by left.
    + apply (inv_granted _ _ _ Hel).
  - lia.
  - unfold still. split_and!; congruence.
  - intros ?. congruence.
  - intros ?. congruence.
  - intros ?. congruence.
  - rewrite R9. by left.
  - by left.
  - by apply messages_same.
Qed.

Lemma createSnapshot_none now st r : snapshotter r = false -> createSnapshotLocked now st r = r.
Proof using. intros H. unfold createSnapshotLocked. by rewrite H. Qed.

Lemma background_frame ev r r' :
  background ev -> handle ev r = Some r' -> snapshotter r = false ->
  (forall now, ev = EvApplierTake now -> r' = r <| lastApplied := lastApplied r + 1 |>) ->
  quiet_step r r' /\ frame r r'.
Proof using.
  intros Hb H Hs Ht. split.
  { apply (handle_quiet ev r r'); [by destruct ev| |exact H]. intros now ->. by rewrite (Ht now eq_refl). }
  destruct ev; cbn [handle background] in *; try done.
  - injection H as <-. rewrite TransferLeadershipInternal_eq. by destruct (transfer_refusal _ r).
  - injection H as <-. unfold transferAnswered. destruct res; [|done]. by destruct (term r <? _).
  - destruct (sendHeartbeat_view _ _ _ _ _ H) as [gs ->]. done.
  - injection H as <-. unfold getPipelineSemaphore. by destruct (pipelineSemaphores r !! p).
  - by rewrite (Ht now eq_refl).
  - unfold applier_send in H. destruct (shutdown r); [done|].
    destruct (bool_decide _); [|done]. by injection H as <-.
  - injection H as <-. unfold applier_finish. rewrite createSnapshot_none.
    + unfold wakeWaiter. by destruct (waiters r !! _); destruct (_ && _).
    + unfold wakeWaiter. by destruct (waiters r !! _).
  - unfold applyCh_recv in H. destruct (applyCh r); [done|]. by injection H as <-.
  - injection H as <-. unfold AppliedWait. by destruct (_ <=? _).
  - injection H as <-. unfold ForceSnapshot. by rewrite createSnapshot_none.
  - by injection H as <-.
  - by injection H as <-.
Qed.

(** A round is sent by a node that still has the peers it sampled. *)
Lemma round_peers W V lead A i t ps r p :
  inv W V lead A -> rounds_ok members W -> (i, t, ps) ∈ rounds W ->
  nodes (net W) !! i = Some r -> p ∈ ps -> p ∈ peers r.
Proof using.
  intros Hinv Hr Hin Hi Hp. destruct (inv_nodes _ _ _ (s_net _ _ _ _ _ Hinv) i r Hi) as (_ & Hm & _).
  rewrite <- (Hr _ _ _ Hin) in Hm. apply Permutation_cons_inv in Hm. by rewrite Hm.
Qed.

Lemma wstep_rounds may W V lead A W' :
  inv W V lead A -> rounds_ok members W -> wstep may W W' -> rounds_ok members W'.
Proof using.
  intros Hinv Hr Hstep. destruct Hstep; try exact Hr.
  intros j t ps [[= -> -> ->]|Hin]%elem_of_cons; [|by apply (Hr j t)].
  by destruct (inv_nodes _ _ _ (s_net _ _ _ _ _ Hinv) i r) as (_ & ? & _).
Qed.

(** Every transition without hazards keeps the invariant and only adds to the
    records. *)
Lemma wstep_safe W V lead A W' :
  inv W V lead A -> rounds_ok members W -> wstep no_hazard W W' ->
  exists V' lead' A', grows lead lead' /\ A ⊆ A' /\ inv W' V' lead' A'.
Proof using Hne Hnd.
  intros Hinv Hrounds Hstep.
  assert (forall W1, inv W1 V lead A -> exists V' lead' A', grows lead lead' /\ A ⊆ A' /\ inv W1 V' lead' A') as Hsame.
  { intros W1 H. by exists V, lead, A. }
  destruct Hstep as
    [W i r r' Hi Hr'|W c v t rc|W as1 as2 c v t req rv now rv' resp Has Hcap Hv HR
    |W an1 an2 c v t resp rc Han Hc Ht|W i r d Hi|W i r Hi|W i r Hk Hi
    |W i t ps r p sel prev pt es b Hro Hi Hp Hl H1 H2 H3 Hs Hsel Hb Hc
    |W m now r r' resp Hm Hi E|W m resp r Hm Hi Ht|W i r Hi|W i r now initial dir Hi Hd Hpa Hp Hpe Hrm
    |W i r ev r' Hi Hb Hh Htk].
  - edestruct safe_elect as (V' & lead' & ? & ?); [done..|]. by exists V', lead', A.
  - by apply Hsame, safe_capture.
  - edestruct safe_ask as (V' & ?); [done..|]. by exists V', lead, A.
  - specialize (Ht eq_refl). edestruct safe_answer as (lead' & ? & ?); [done..|]. by exists V, lead', A.
  - edestruct safe_propose as (lead' & A' & ? & ? & ?); [done..|]. by exists V, lead', A'.
  - apply Hsame. by destruct Hinv.
  - apply Hsame. by destruct Hinv.
  - destruct (Hl eq_refl) as [HL <-]. pose proof (round_peers W V lead A i _ ps r p Hinv Hrounds Hro Hi Hp).
    apply Hsame, (safe_send W V lead A i r p sel prev pt es b); try done; [exact (Hsel eq_refl)|exact (Hc eq_refl)].
  - edestruct safe_append as (A' & ? & ?); [done..|]. by exists V, lead, A'.
  - apply Hsame, safe_reply; try done. exact (Ht eq_refl).
  - by apply Hsame, safe_commit.
  - apply Hsame, safe_restart; try done. exact (Hd eq_refl).
  - apply Hsame. destruct (background_frame ev r r') as [Hq (F1 & F2 & F3 & F4)]; try done.
    { by apply (s_node _ _ _ _ _ Hinv i r). }
    eapply (safe_quiet members W _ V lead A i r r'); try done.
    + eapply net_quiet; try done. apply (s_net _ _ _ _ _ Hinv).
    + by apply messages_same.
Qed.
End steps.
