(* ===== verification/ClusterRun.v ===== *)
(** * Executing runs of the cluster

    The transitions of [RaftCluster] as a function on actions, so that a run is
    a list of actions that evaluates; [wacts_sound] says that what it computes
    is reached by the relation, with the same hazards. *)
From stdpp Require Import gmap strings list.
From Stdlib Require Import ZArith Lia.
From S2P Require Import Prelude Types Stores Commands RaftNode Membership Election Replication LogMatching Sending SnapshotOps Applier Admin Boot Node ElectionSafety LogPrefix RaftCluster.

Local Open Scope Z_scope.

(** [k] selects a message, a request or a round; the numbers in [full] are the
    turns of the batch loop that find no permit, and [j] the batch sent. *)
Inductive waction :=
  | WTick (i : NodeID) (now : Z)
  | WCapture (k : nat)
  | WAsk (k : nat) (now : Z)
  | WAnswer (k : nat)
  | WPropose (i : NodeID) (d : string)
  | WCheck (i : NodeID)
  | WRound (i : NodeID)
  | WSend (k : nat) (p : NodeID) (full : list nat) (j : nat)
  | WAppend (k : nat) (now : Z)
  | WReply (k : nat)
  | WRestart (i : NodeID) (now : Z) (dir : string)
  | WTake (i : NodeID).

Definition permits (full : list nat) (k : nat) : select_outcome :=
  if decide (k ∈ full) then Full else Acquired.

Lemma permits_all k : permits [] k = Acquired.
Proof. unfold permits. by rewrite decide_False by apply not_elem_of_nil. Qed.

(** The batches a heartbeat round makes for [p]. *)
Definition peer_batches (p : NodeID) (full : list nat) (r : Raft) : list batch :=
  let nextIdx :=
    if map_get (nextIndex r) p =? 0 then logBaseIndex r + 1 else map_get (nextIndex r) p in
  if bool_decide (p = "") || needsSnapshot r nextIdx || (lastLogIndex r - (nextIdx - 1) <? 0) then []
  else sendBatchesWithPipeline (permits full) (nextIdx - 1)
         (from_option Term 0 (entryAt r (nextIdx - 1))) (pendingEntries r nextIdx (lastLogIndex r)).

Lemma peer_batches_sent t p full r j b :
  peer_batches p full r !! j = Some b -> exists prev pt es,
    sendHeartbeat_peer t (nodeId r) p r
      = Some (spawn (GoSendBatches p t (nodeId r) prev pt es (commitIndex r)) r) /\
    b ∈ sendBatchesWithPipeline (permits full) prev pt es.
Proof.
  unfold peer_batches, sendHeartbeat_peer. set (nx := if _ =? 0 then _ else _).
  destruct (bool_decide (p = "")); [done|]. destruct (needsSnapshot r nx); [done|].
  destruct (_ <? 0); [done|]. cbn [orb]. intros H. do 3 eexists. split; [done|].
  by apply list_elem_of_lookup_2 in H.
Qed.

Section run.
Context (may : hazard -> bool).

Definition wact (a : waction) (W : world) : option world :=
  match a with
  | WTick i now =>
    r ← nodes (net W) !! i;
    let r' := (electionTimer_tick now (ms 1500) r).1 in
    Some (W <| net := mkCluster (<[i := r']> (nodes (net W)))
                        (asks (net W) ++ election_asks i r r') (answers (net W)) |>)
  | WCapture k =>
    '(c, v, t) ← asks (net W) !! k;
    rc ← nodes (net W) !! c;
    if decide (in_int32 t /\ in_int32 (lastLogIndex rc) /\ in_int32 (lastLogTerm rc))
    then Some (W <| captured := ((c, v, t), voteRequest t rc) :: captured W |>) else None
  | WAsk k now =>
    '((c, v, t), req) ← head (captured W);
    a ← asks (net W) !! k;
    rv ← nodes (net W) !! v;
    if decide (a = (c, v, t)) then
      let res := RequestVote now req rv in
      Some (W <| net := mkCluster (<[v := res.1]> (nodes (net W)))
                          (take k (asks (net W)) ++ drop (S k) (asks (net W)))
                          (answers (net W) ++ [((c, v, t), res.2)]) |>)
    else None
  | WAnswer k =>
    '((c, v, t), resp) ← answers (net W) !! k;
    rc ← nodes (net W) !! c;
    if decide (may LateVote = false -> term rc = t) then
      Some (W <| net := mkCluster (<[c := handleVoteResponse resp rc]> (nodes (net W)))
                          (asks (net W)) (take k (answers (net W)) ++ drop (S k) (answers (net W))) |>)
    else None
  | WPropose i d =>
    r ← nodes (net W) !! i;
    Some (W <| net := put i (Propose d r).1 (net W) |>)
  | WCheck i =>
    r ← nodes (net W) !! i;
    if heartbeat_check r then Some (W <| ticks := i :: ticks W |>) else None
  | WRound i =>
    r ← nodes (net W) !! i;
    if decide (i ∈@{list NodeID} ticks W) then Some (W <| rounds := (i, term r, peers r) :: rounds W |>) else None
  | WSend k p full j =>
    '(i, t, ps) ← rounds W !! k;
    r ← nodes (net W) !! i;
    b ← peer_batches p full r !! j;
    if decide (p ∈@{list NodeID} ps /\ (may DeposedRound = false -> state r = Leader /\ term r = t) /\
               Forall entry_int32 (log r) /\ in_int32 t /\ in_int32 (commitIndex r) /\
               (may SkippedBatch = false -> full = []) /\
               (may UncheckedTail = false -> commitIndex r <= b_prevIdx b + Z.of_nat (length (b_entries b))))
    then Some (W <| sent := mkAppendMsg i p t b (commitIndex r) :: sent W |>) else None
  | WAppend k now =>
    m ← sent W !! k;
    r ← nodes (net W) !! am_to m;
    let res := AppendEntries now (am_request m) r in
    Some (W <| net := put (am_to m) res.1 (net W) |> <| replied := (m, res.2) :: replied W |>)
  | WReply k =>
    '(m, resp) ← replied W !! k;
    r ← nodes (net W) !! am_from m;
    if decide (may LateReply = false -> state r = Leader -> term r = am_term m) then
      Some (W <| net := put (am_from m)
                 (sendAppendEntriesBatch (am_to m) (b_prevIdx (am_batch m))
                    (b_entries (am_batch m)) (Some resp) r).1 (net W) |>)
    else None
  | WRestart i now dir =>
    r ← nodes (net W) !! i;
    let r' := New now i (peers r) dir (fs r) in
    if decide (may StaleDisk = true /\ meta r = joinPath dir "raft-meta.json" /\
               logStore r = joinPath dir "raft-log.json" /\ snapshotStore r = joinPath dir "raft-snap.json" /\
               peers r <> [] /\ peers r' = peers r /\ removedFromCluster r' = false)
    then Some (W <| net := put i r' (net W) |>) else None
  | WTake i =>
    r ← nodes (net W) !! i;
    '(e, r') ← applier_take 0 r;
    match decodeConfigCmd (Data e) with
    | Some cmd => if cfg_Op cmd =? CmdConfigChange then None
                  else Some (W <| net := put i r' (net W) |>)
    | None => Some (W <| net := put i r' (net W) |>)
    end
  end.

Fixpoint wacts (l : list waction) (W : world) : option world :=
  match l with
  | [] => Some W
  | a :: l' => W' ← wact a W; wacts l' W'
  end.

Lemma WTake_step i e r r' W :
  nodes (net W) !! i = Some r -> applier_take 0 r = Some (e, r') ->
  (forall cmd, decodeConfigCmd (Data e) = Some cmd -> (cfg_Op cmd =? CmdConfigChange) = false) ->
  wstep may W (W <| net := put i r' (net W) |>).
Proof.
  intros Hi Ht Hc. apply (w_other may W i r (EvApplierTake 0)); try done.
  { cbn. by rewrite Ht. }
  intros now _. unfold applier_take in Ht. destruct (_ <? _); [|done].
  destruct (entryAt r _) as [x|]; [|done]. injection Ht as <- <-.
  unfold handleConfigChangeIfNeeded. destruct (decodeConfigCmd (Data x)) as [cmd|]; [|done].
  by rewrite (Hc cmd eq_refl).
Qed.

Lemma WSend_sound k p full j W W' : wact (WSend k p full j) W = Some W' -> wstep may W W'.
Proof.
  cbn [wact]. intros H. destruct (rounds W !! k) as [[[i t] ps]|] eqn:Hk; [|done]. cbn [mbind option_bind] in H.
  destruct (nodes (net W) !! i) as [r|] eqn:Hi; [|done]. cbn [mbind option_bind] in H.
  destruct (peer_batches p full r !! j) as [b|] eqn:Hb; [|done]. cbn [mbind option_bind] in H.
  case_decide as Hd; [|done]. injection H as <-. destruct Hd as (H1 & H2 & H3 & H4 & H5 & H6 & H7).
  destruct (peer_batches_sent t _ _ _ _ _ Hb) as (prev & pt & es & Hs & Hin).
  apply list_elem_of_lookup_2 in Hk.
  apply (w_send may W i t ps r p (permits full) prev pt es b); try done.
  intros Hm k'. rewrite (H6 Hm). apply permits_all.
Qed.

Lemma wact_sound a W W' : wact a W = Some W' -> wstep may W W'.
Proof.
  destruct a; [..|by apply WSend_sound| | | |]; cbn [wact]; intros H.
  - destruct (nodes (net W) !! i) as [r|] eqn:Hi; [|done]. injection H as <-.
    apply (w_elect may W i r); [done|]. left. by eexists _, _.
  - destruct (asks (net W) !! k) as [[[c v] t]|] eqn:Hk; [|done]. cbn [mbind option_bind] in H.
    destruct (nodes (net W) !! c) as [rc|] eqn:Hc; [|done]. cbn [mbind option_bind] in H.
    case_decide as Hd; [destruct Hd as (H1 & H2 & H3)|done]. injection H as <-.
    apply w_capture; try done. by apply list_elem_of_lookup_2 in Hk.
  - destruct (captured W) as [|[[[c v] t] req] caps] eqn:Hcap; [done|]. cbn [head mbind option_bind] in H.
    destruct (asks (net W) !! k) as [a|] eqn:Hk; [|done]. cbn [mbind option_bind] in H.
    destruct (nodes (net W) !! v) as [rv|] eqn:Hv; [|done]. cbn [mbind option_bind] in H.
    destruct (decide (a = (c, v, t))) as [->|]; [|done]. injection H as <-.
    eapply (w_ask may W _ _ c v t req rv now); try done.
    + symmetry. by apply take_drop_middle.
    + rewrite Hcap. set_solver.
    + by destruct (RequestVote _ _ _).
  - destruct (answers (net W) !! k) as [[[[c v] t] resp]|] eqn:Hk; [|done]. cbn [mbind option_bind] in H.
    destruct (nodes (net W) !! c) as [rc|] eqn:Hc; [|done]. cbn [mbind option_bind] in H.
    case_decide; [|done]. injection H as <-.
    eapply (w_answer may W _ _ c v t resp rc); try done. symmetry. by apply take_drop_middle.
  - destruct (nodes (net W) !! i) as [r|] eqn:Hi; [|done]. injection H as <-. by apply w_propose.
  - destruct (nodes (net W) !! i) as [r|] eqn:Hi; [|done]. cbn [mbind option_bind] in H.
    destruct (heartbeat_check r) eqn:Hc; [|done]. injection H as <-. by eapply w_check.
  - destruct (nodes (net W) !! i) as [r|] eqn:Hi; [|done]. cbn [mbind option_bind] in H.
    case_decide; [|done]. injection H as <-. by eapply w_round.
  - destruct (sent W !! k) as [m|] eqn:Hk; [|done]. cbn [mbind option_bind] in H.
    destruct (nodes (net W) !! am_to m) as [r|] eqn:Hi; [|done]. injection H as <-.
    eapply (w_append may W m now r); try done; [by apply list_elem_of_lookup_2 in Hk|].
    by destruct (AppendEntries _ _ _).
  - destruct (replied W !! k) as [[m resp]|] eqn:Hk; [|done]. cbn [mbind option_bind] in H.
    destruct (nodes (net W) !! am_from m) as [r|] eqn:Hi; [|done]. cbn [mbind option_bind] in H.
    case_decide; [|done]. injection H as <-.
    apply w_reply; try done. by apply list_elem_of_lookup_2 in Hk.
  - destruct (nodes (net W) !! i) as [r|] eqn:Hi; [|done]. cbn [mbind option_bind] in H.
    case_decide as Hd; [|done]. injection H as <-. destruct Hd as (H1 & H2 & H3 & H4 & H5 & H6 & H7).
    apply (w_restart may W i r now (peers r) dir); try done. congruence.
  - destruct (nodes (net W) !! i) as [r|] eqn:Hi; [|done]. cbn [mbind option_bind] in H.
    destruct (applier_take 0 r) as [[e r']|] eqn:Ht; [|done]. cbn [mbind option_bind] in H.
    destruct (decodeConfigCmd (Data e)) as [cmd|] eqn:Hd.
    + destruct (cfg_Op cmd =? CmdConfigChange) eqn:Ho; [done|]. injection H as <-.
      eapply WTake_step; try done. intros c Hc. congruence.
    + injection H as <-. eapply WTake_step; try done. intros c Hc. congruence.
Qed.

Lemma wacts_sound l W W' : wacts l W = Some W' -> rtc (wstep may) W W'.
Proof.
  revert W. induction l as [|a l IH]; intros W H; cbn [wacts] in H.
  - injection H as <-. apply rtc_refl.
  - destruct (wact a W) as [W1|] eqn:E; [|done]. cbn [mbind option_bind] in H.
    eapply rtc_l; [by apply (wact_sound a)|by apply IH].
Qed.
End run.

(** One heartbeat of leader [i] to [p] that gets through and is answered. *)
Definition beat (i p : NodeID) (now : Z) : list waction :=
  [WCheck i; WRound i; WSend 0 p [] 0; WAppend 0 now; WReply 0].
