(* ===== verification/KvStore.v ===== *)
(** * The key-value store and the apply loop

    storage.go: [PebbleKV]; cmd/mimorid/main.go: the loop that applies
    committed commands.  Pebble is a library: a [PebbleDB] has its calls, each
    of which may fail, and [PebbleLaws] states what its documentation says of
    a call that succeeds, through the map [view] of the keys and values it
    holds.  [KV] is the interface storage.go exports; the apply loop and the
    server are proved against [KVLaws], which [PebbleKV] implements. *)
From stdpp Require Import gmap strings list.
From Stdlib Require Import ZArith Lia.
From S2P Require Import Prelude GoStrings GoJson Types Stores Commands.

Local Open Scope Z_scope.

Abbreviation error := string.
Abbreviation kvmap := (gmap string string).

(** ** Pebble *)

Inductive get_result := GetFound (v : string) | GetNotFound | GetError (e : error).

Class PebbleDB (DB : Type) := {
  db_Set : string -> string -> DB -> option error * DB;
  db_Get : string -> DB -> get_result;
  db_Delete : string -> DB -> option error * DB;
  (** deletes the keys in [[start, end)] *)
  db_DeleteRange : string -> string -> DB -> option error * DB;
  (** all pairs, from the first key on *)
  db_Iter : DB -> list (string * string) + error;
  (** a batch of [Set]s, committed at once *)
  db_Commit : list (string * string) -> DB -> option error * DB
}.

Definition in_range (start stop k : string) : Prop :=
  String.ltb k start = false /\ String.ltb k stop = true.

#[export] Instance in_range_dec a b k : Decision (in_range a b k).
Proof. unfold in_range. apply _. Defined.

Class PebbleLaws (DB : Type) `{PebbleDB DB} := {
  view : DB -> kvmap;
  view_Set k v d d' : db_Set k v d = (None, d') -> view d' = <[k := v]> (view d);
  view_Get_found k v d : db_Get k d = GetFound v -> view d !! k = Some v;
  view_Get_missing k d : db_Get k d = GetNotFound -> view d !! k = None;
  view_Delete k d d' : db_Delete k d = (None, d') -> view d' = delete k (view d);
  view_DeleteRange a b d d' :
    db_DeleteRange a b d = (None, d') ->
    forall k, view d' !! k = if decide (in_range a b k) then None else view d !! k;
  view_Iter d l : db_Iter d = inl l -> NoDup l.*1 /\ list_to_map l = view d;
  view_Commit l d d' :
    db_Commit l d = (None, d') -> NoDup l.*1 -> view d' = list_to_map l ∪ view d
}.

(** ** The exported interface *)

Class KV (S : Type) := {
  kv_Put : string -> string -> S -> option error * S;
  kv_Get : string -> S -> string * bool * option error;
  kv_Delete : string -> S -> option error * S;
  kv_Snapshot : S -> string + error;
  kv_Restore : string -> S -> option error * S
}.

Class KVLaws (S : Type) `{KV S} := {
  kv_view : S -> kvmap;
  kv_Put_view k v s s' : kv_Put k v s = (None, s') -> kv_view s' = <[k := v]> (kv_view s);
  kv_Delete_view k s s' : kv_Delete k s = (None, s') -> kv_view s' = delete k (kv_view s);
  kv_Get_view k v found s :
    kv_Get k s = (v, found, None) ->
    kv_view s !! k = if found then Some v else None
}.

(** ** [PebbleKV] *)

Definition snapshot_json (l : list (string * string)) : json :=
  JObj (map (fun '(k, v) => (k, enc_bytes v)) l).

(** [json.Unmarshal] into a [map[string][]byte]; a repeated key keeps its last
    value. *)
Definition decode_map (v : json) : option kvmap :=
  match v with
  | JNull => Some ∅
  | JObj kvs =>
    l ← mapM (fun '(k, x) => (fun b => (k, b)) <$> decode_bytes x "") kvs;
    Some (foldl (fun m '(k, b) => <[k := b]> m) ∅ l)
  | _ => None
  end.

Section pebble.
Context {DB : Type} `{PebbleDB DB}.

Definition PebbleKV_Put (key value : string) (d : DB) : option error * DB := db_Set key value d.

Definition PebbleKV_Get (key : string) (d : DB) : string * bool * option error :=
  match db_Get key d with
  | GetNotFound => ("", false, None)
  | GetError e => ("", false, Some e)
  | GetFound v => (v, true, None)
  end.

Definition PebbleKV_Delete (key : string) (d : DB) : option error * DB := db_Delete key d.

Definition PebbleKV_Snapshot (d : DB) : string + error :=
  match db_Iter d with
  | inr e => inr e
  | inl l => inl (marshal (snapshot_json l))
  end.

Definition PebbleKV_reset (d : DB) : option error * DB := db_DeleteRange "" "" d.

(** [jsonError] is the text of the decoder's error. *)
Definition PebbleKV_Restore (jsonError : error) (data : string) (d : DB) : option error * DB :=
  if bool_decide (data = "") then PebbleKV_reset d
  else
    match parse_json data with
    | None => (Some jsonError, d)
    | Some v =>
      match decode_map v with
      | None => (Some jsonError, d)
      | Some m =>
        match PebbleKV_reset d with
        | (Some e, d) => (Some e, d)
        | (None, d) => db_Commit (map_to_list m) d
        end
      end
    end.
End pebble.

(** The wrapper implements the interface. *)
#[export] Instance PebbleKV {DB} `{PebbleDB DB} : KV DB := {
  kv_Put := PebbleKV_Put;
  kv_Get := PebbleKV_Get;
  kv_Delete := PebbleKV_Delete;
  kv_Snapshot := PebbleKV_Snapshot;
  kv_Restore := PebbleKV_Restore "invalid snapshot"
}.

#[refine, export] Instance PebbleKV_laws {DB} `{PebbleLaws DB} : KVLaws DB := { kv_view := view }.
Proof.
  - intros k v s s'. apply view_Set.
  - intros k s s'. apply view_Delete.
  - intros k v found s. cbn [kv_Get PebbleKV]. unfold PebbleKV_Get.
    destruct (db_Get k s) eqn:E; intros [= <- <-]; [by apply view_Get_found|by apply view_Get_missing].
Defined.

(** An in-memory database with the documented behaviour. *)
#[export] Instance memDB : PebbleDB kvmap := {
  db_Set k v d := (None, <[k := v]> d);
  db_Get k d := match d !! k with Some v => GetFound v | None => GetNotFound end;
  db_Delete k d := (None, delete k d);
  db_DeleteRange a b d := (None, filter (fun kv => ~ in_range a b kv.1) d);
  db_Iter d := inl (map_to_list d);
  db_Commit l d := (None, list_to_map l ∪ d)
}.

Lemma filter_range_lookup a b (d : kvmap) k :
  filter (fun kv => ~ in_range a b kv.1) d !! k = if decide (in_range a b k) then None else d !! k.
Proof.
  destruct (decide (in_range a b k)) as [Hr|Hr].
  - apply map_lookup_filter_None. right. intros x _ Hn. by apply Hn.
  - destruct (d !! k) as [v|] eqn:E.
    + by apply map_lookup_filter_Some.
    + apply map_lookup_filter_None. by left.
Qed.

#[refine, export] Instance memDB_laws : PebbleLaws kvmap := { view d := d }.
Proof.
  - by intros k v d d' [= <-].
  - intros k v d. cbn. destruct (d !! k); congruence.
  - intros k d. cbn. by destruct (d !! k).
  - by intros k d d' [= <-].
  - intros a b d d' [= <-] k. apply filter_range_lookup.
  - intros d l [= <-]. split; [apply NoDup_fst_map_to_list|apply list_to_map_to_list].
  - by intros l d d' [= <-] _.
Defined.

(** ** The apply loop *)

Section apply.
Context {S : Type} `{KV S}.

(** One turn of the loop; errors are logged and otherwise ignored. *)
Definition applyEntry (s : S) (entry : LogEntry) : S :=
  match decodeCommand (Data entry) with
  | None => s
  | Some cmd =>
    if Op cmd =? CmdPut then (kv_Put (Key cmd) (Value cmd) s).2
    else if Op cmd =? CmdDelete then (kv_Delete (Key cmd) s).2
    else s
  end.

Definition applyEntries : S -> list LogEntry -> S := foldl applyEntry.

(** Every call the loop makes for these entries succeeds. *)
Fixpoint apply_succeeds (s : S) (l : list LogEntry) : Prop :=
  match l with
  | [] => True
  | entry :: l' =>
    match decodeCommand (Data entry) with
    | None => True
    | Some cmd =>
      if Op cmd =? CmdPut then (kv_Put (Key cmd) (Value cmd) s).1 = None
      else if Op cmd =? CmdDelete then (kv_Delete (Key cmd) s).1 = None
      else True
    end /\ apply_succeeds (applyEntry s entry) l'
  end.
End apply.

(** ** The specification: a map *)

Inductive kv_op := OpPut (k v : string) | OpDelete (k : string).

Definition run_op (m : kvmap) (o : kv_op) : kvmap :=
  match o with
  | OpPut k v => <[k := v]> m
  | OpDelete k => delete k m
  end.

(** What an entry means to the store; anything but a write is a no-op. *)
Definition entry_op (entry : LogEntry) : option kv_op :=
  match decodeCommand (Data entry) with
  | Some cmd =>
    if Op cmd =? CmdPut then Some (OpPut (Key cmd) (Value cmd))
    else if Op cmd =? CmdDelete then Some (OpDelete (Key cmd))
    else None
  | None => None
  end.

Definition run_entries (m : kvmap) (l : list LogEntry) : kvmap := foldl run_op m (omap entry_op l).

Section refinement.
Context {S : Type} `{KVLaws S}.

Lemma applyEntries_view l : forall s,
  apply_succeeds s l -> kv_view (applyEntries s l) = run_entries (kv_view s) l.
Proof.
  induction l as [|entry l IH]; intros s; [done|]. cbn [apply_succeeds]. intros [Hok Hl].
  unfold applyEntries. cbn [foldl]. fold (applyEntries (applyEntry s entry) l).
  rewrite IH by done. unfold run_entries. cbn [omap list_omap].
  unfold entry_op at 2. unfold applyEntry. destruct (decodeCommand (Data entry)) as [cmd|]; [|done].
  destruct (Op cmd =? CmdPut).
  - destruct (kv_Put (Key cmd) (Value cmd) s) as [e s'] eqn:E. simpl in Hok. subst e.
    cbn [foldl run_op]. simpl. by rewrite (kv_Put_view _ _ _ _ E).
  - destruct (Op cmd =? CmdDelete); [|done].
    destruct (kv_Delete (Key cmd) s) as [e s'] eqn:E. simpl in Hok. subst e.
    cbn [foldl run_op]. simpl. by rewrite (kv_Delete_view _ _ _ E).
Qed.
End refinement.

Lemma entry_op_put i t k v : entry_op (mkLogEntry i t (encodePutCmd k v)) = Some (OpPut k v).
Proof.
  unfold entry_op, encodePutCmd. cbn [Data].
  rewrite decodeCommand_encode by (by apply in_int64_small). done.
Qed.

Lemma entry_op_delete i t k : entry_op (mkLogEntry i t (encodeDeleteCmd k)) = Some (OpDelete k).
Proof.
  unfold entry_op, encodeDeleteCmd. cbn [Data].
  rewrite decodeCommand_encode by (by apply in_int64_small). done.
Qed.

(** C17: the store refines a map.  For every store that keeps the interface's
    laws, applying delivered entries whose calls succeed leaves exactly the
    map obtained by running their writes and deletions in order (other
    entries, membership changes included, change nothing), and a successful
    read afterwards returns what that map holds. *)
Theorem store_refines_map {S} `{KVLaws S} (s : S) l :
  apply_succeeds s l ->
  kv_view (applyEntries s l) = run_entries (kv_view s) l /\
  forall k v found, kv_Get k (applyEntries s l) = (v, found, None) ->
    run_entries (kv_view s) l !! k = if found then Some v else None.
Proof.
  intros Hok. pose proof (applyEntries_view l s Hok) as Hv. split; [done|].
  intros k v found Hg. rewrite <- Hv. by apply kv_Get_view.
Qed.

(** Entries that do not write a key. *)
Definition touches (k : string) (entry : LogEntry) : Prop :=
  match entry_op entry with
  | Some (OpPut k' _) | Some (OpDelete k') => k' = k
  | None => False
  end.

Lemma run_entries_app m l l' : run_entries m (l ++ l') = run_entries (run_entries m l) l'.
Proof. unfold run_entries. by rewrite omap_app, foldl_app. Qed.

Lemma run_entries_untouched k l : forall m,
  Forall (fun e => ~ touches k e) l -> run_entries m l !! k = m !! k.
Proof.
  induction l as [|e l IH]; intros m; [done|]. intros [He Hl]%Forall_cons.
  change (e :: l) with ([e] ++ l). rewrite run_entries_app, IH by done.
  unfold run_entries, touches in *. cbn [omap list_omap]. destruct (entry_op e) as [[k' v|k']|]; [..|done].
  - cbn. by rewrite lookup_insert_ne.
  - cbn. by rewrite lookup_delete_ne.
Qed.

(** A client's write as the server encodes it: a put ([Some v]) or a deletion. *)
Definition encode_write (k : string) (w : option string) : string :=
  match w with Some v => encodePutCmd k v | None => encodeDeleteCmd k end.

Lemma run_write m i t k w : run_entries m [mkLogEntry i t (encode_write k w)] !! k = w.
Proof.
  unfold run_entries. cbn [omap list_omap]. destruct w; cbn [encode_write].
  - rewrite entry_op_put. cbn [foldl run_op]. apply lookup_insert_eq.
  - rewrite entry_op_delete. cbn [foldl run_op]. apply lookup_delete_eq.
Qed.

(** A read returns the last write.  When a client's put or deletion, as the
    server encodes it, is among the entries a store has applied and no later
    one writes that key, a successful read of the key finds exactly the value
    put, or finds nothing after the deletion. *)
Lemma last_write_read {S} `{KVLaws S} (s : S) l1 l2 i t k w x found :
  apply_succeeds s (l1 ++ mkLogEntry i t (encode_write k w) :: l2) ->
  Forall (fun e => ~ touches k e) l2 ->
  kv_Get k (applyEntries s (l1 ++ mkLogEntry i t (encode_write k w) :: l2)) = (x, found, None) ->
  (if found then Some x else None) = w.
Proof.
  intros Hok Hl2 Hg. pose proof (applyEntries_view _ s Hok) as Hv. apply kv_Get_view in Hg.
  rewrite Hv, run_entries_app in Hg.
  change (mkLogEntry i t (encode_write k w) :: l2)
    with ([mkLogEntry i t (encode_write k w)] ++ l2) in Hg.
  rewrite run_entries_app, run_entries_untouched, run_write in Hg by done. done.
Qed.

(** ** Snapshots of the store *)

Lemma foldl_insert_union (l : list (string * string)) : forall m : kvmap,
  NoDup l.*1 -> foldl (fun m '(k, b) => <[k := b]> m) m l = list_to_map l ∪ m.
Proof.
  induction l as [|[k b] l IH]; intros m; [cbn; by rewrite (left_id_L ∅ (∪))|].
  cbn [fmap list_fmap fst foldl]. intros [Hk Hl]%NoDup_cons.
  rewrite IH, list_to_map_cons by done.
  rewrite <- insert_union_l, insert_union_r; [done|]. by apply not_elem_of_list_to_map_1.
Qed.

Lemma decode_snapshot l :
  NoDup l.*1 -> decode_map (snapshot_json l) = Some (list_to_map l).
Proof.
  intros Hnd. unfold snapshot_json, decode_map.
  assert (mapM (fun '(k, x) => (fun b => (k, b)) <$> decode_bytes x "")
            (map (fun '(k, v) => (k, enc_bytes v)) l) = Some l) as Hm.
  { clear Hnd. induction l as [|[k v] l IH]; [done|]. cbn [map mapM].
    rewrite decode_enc_bytes. cbn. by rewrite IH. }
  rewrite Hm. cbn. by rewrite foldl_insert_union, (right_id_L ∅ (∪)).
Qed.

Lemma snapshot_json_ok l :
  Forall (fun k => utf8_valid k = true) l.*1 -> json_ok (snapshot_json l) = true.
Proof.
  unfold snapshot_json. cbn [json_ok]. induction l as [|[k v] l IH]; [done|].
  cbn [fmap list_fmap fst]. intros [Hk Hl]%Forall_cons. cbn [map forallb].
  rewrite IH by done. by rewrite Hk, enc_bytes_ok.
Qed.

Lemma reset_keeps {DB} `{PebbleLaws DB} (d d' : DB) :
  PebbleKV_reset d = (None, d') -> view d' = view d.
Proof.
  intros Hr. apply map_eq. intros k. rewrite (view_DeleteRange _ _ _ _ Hr k).
  rewrite decide_False; [done|]. intros [_ Hlt]. by destruct k.
Qed.

(** C25: restoring a snapshot.  For a database whose keys are valid UTF-8 (the
    values are arbitrary bytes), what [Snapshot] produces is restored without
    loss: every key and value is there again, byte for byte.  But nothing is wiped: the range from nil to nil that
    [reset] deletes is empty, so keys of the old database that the snapshot
    does not mention survive; the result is the snapshot when the database
    restored into has no other keys. *)
Theorem snapshot_restore {DB} `{PebbleLaws DB} jsonError (d d0 d1 : DB) data :
  (forall k, k ∈ dom (view d) -> utf8_valid k = true) ->
  PebbleKV_Snapshot d = inl data -> PebbleKV_Restore jsonError data d0 = (None, d1) ->
  view d1 = view d ∪ view d0 /\ (dom (view d0) ⊆ dom (view d) -> view d1 = view d).
Proof.
  intros Hu Hs Hr. enough (view d1 = view d ∪ view d0) as Hv.
  { split; [done|]. intros Hd. rewrite Hv. apply map_eq. intros k.
    destruct (view d !! k) as [v|] eqn:E; [by apply lookup_union_Some_l|].
    rewrite lookup_union_r by done. apply not_elem_of_dom in E. apply not_elem_of_dom. set_solver. }
  unfold PebbleKV_Snapshot in Hs. destruct (db_Iter d) as [l|] eqn:Ei; [|done].
  apply (f_equal (fun x => match x with inl y => y | inr _ => "" end)) in Hs. cbv beta match in Hs.
  destruct (view_Iter _ _ Ei) as [Hnd Hl].
  assert (json_ok (snapshot_json l) = true) as Hok.
  { apply snapshot_json_ok, Forall_forall. intros k Hk. apply Hu. rewrite <- Hl.
    by rewrite dom_list_to_map_L, elem_of_list_to_set. }
  unfold PebbleKV_Restore in Hr.
  rewrite <- Hs in Hr. rewrite bool_decide_eq_false_2 in Hr by done.
  rewrite parse_json_marshal, decode_snapshot in Hr by done.
  destruct (PebbleKV_reset d0) as [[e|] d'] eqn:Er; [done|].
  rewrite (view_Commit _ _ _ Hr) by apply NoDup_fst_map_to_list.
  rewrite list_to_map_to_list, Hl. by rewrite (reset_keeps _ _ Er).
Qed.

(** A key that is not UTF-8 does not survive: encoding/json writes the
    replacement character for its bytes. *)
Example snapshot_mangles_key :
  let key := String (Ascii.ascii_of_N 255) "" in
  let replaced := Stdlib.Strings.String.string_of_list_ascii (map Ascii.ascii_of_N [239; 191; 189]%N) in
  exists data, PebbleKV_Snapshot ({[key := "1"]} : kvmap) = inl data /\
    PebbleKV_Restore "bad" data (∅ : kvmap) = (None, {[replaced := "1"]}).
Proof.
  intros key replaced. exists (marshal (snapshot_json [(key, "1")])).
  split; [reflexivity|vm_compute; reflexivity].
Qed.

(** ** Concrete stores *)

Definition history : list LogEntry :=
  [mkLogEntry 1 1 (encodePutCmd "k" "old"); mkLogEntry 2 1 (encodeConfigCmd ConfigAddNode "n4");
   mkLogEntry 3 1 (encodeDeleteCmd "z")].

Lemma store_refines_map_witness :
  apply_succeeds (∅ : kvmap) history /\
  (kv_view (applyEntries (∅ : kvmap) history) = run_entries (kv_view (∅ : kvmap)) history /\
   forall k v found, kv_Get k (applyEntries (∅ : kvmap) history) = (v, found, None) ->
     run_entries (kv_view (∅ : kvmap)) history !! k = if found then Some v else None).
Proof.
  assert (apply_succeeds (∅ : kvmap) history) as H by (vm_compute; tauto).
  split; [exact H|]. exact (store_refines_map (∅ : kvmap) history H).
Defined.

Lemma snapshot_restore_witness :
  let d : kvmap := {["a" := "1"]} in
  let d0 : kvmap := {["b" := "2"]} in
  let d1 : kvmap := {["a" := "1"; "b" := "2"]} in
  exists data, PebbleKV_Snapshot d = inl data /\ PebbleKV_Restore "bad" data d0 = (None, d1) /\
  (view d1 = view d ∪ view d0 /\ (dom (view d0) ⊆ dom (view d) -> view d1 = view d)).
Proof.
  intros d d0 d1. exists (marshal (snapshot_json (map_to_list d))).
  assert (PebbleKV_Snapshot d = inl (marshal (snapshot_json (map_to_list d)))) as Hs by reflexivity.
  assert (PebbleKV_Restore "bad" (marshal (snapshot_json (map_to_list d))) d0 = (None, d1)) as Hr
    by (vm_compute; reflexivity).
  assert (forall k, k ∈ dom (view d) -> utf8_valid k = true) as Hu.
  { intros k Hk. cbn in Hk. unfold d in Hk. rewrite dom_singleton_L, elem_of_singleton in Hk.
    by subst k. }
  split; [exact Hs|]. split; [exact Hr|].
  exact (snapshot_restore "bad" d d0 d1 _ Hu Hs Hr).
Defined.
