(* ===== verification/StateMachineSafety.v ===== *)
(** * State machine safety

    What the invariant of the cluster gives, for runs without hazards.  However
    elections, proposals, batches, answers, losses and restarts are interleaved:
    the logs match; an entry some node has committed is the one every node
    commits at that index, then and later, and is in the log of every leader of a
    later term; each node's indexes stay in order; and so the stores of two nodes
    that have applied as many entries are the same store.  [Hazards] shows that
    no hazard can be allowed. *)
From stdpp Require Import gmap strings list.
From Stdlib Require Import ZArith Lia.
From S2P Require Import Prelude Types Stores Commands RaftNode Membership Election Replication LogMatching Sending SnapshotOps Applier Admin Boot Node ElectionSafety LogPrefix RaftCluster ClusterInvariant ClusterSteps ClusterRun KvStore.

Local Open Scope Z_scope.

(** ** Reachable clusters *)

Lemma fresh_safe members W : fresh_world members W -> safe members W [] ∅ [].
Proof.
  intros (Hinit & Hc & _ & _ & Hs & Hr & Hn). constructor.
  - by apply initial_inv.
  - intros t L HL. by rewrite lookup_empty in HL.
  - intros i r Hi. destruct (Hn i r Hi) as (H1 & H2 & H3 & H4 & _ & H5 & H6 & H7).
    destruct Hinit as (_ & _ & _ & _ & Hf). destruct (Hf i r Hi) as (_ & _ & HF & _).
    unfold node_inv. rewrite H1, H2, H3, HF. split_and!; try done.
    + split_and!; [done|rewrite contiguous_cons; split; [done|apply contiguous_nil]|].
      intros [|k] e He Hk; [lia|done].
    + intros k e [_ <-]%list_lookup_singleton_Some. done.
  - intros i r Hi Hl. destruct Hinit as (_ & _ & _ & _ & Hf). destruct (Hf i r Hi) as (_ & _ & HF & _). congruence.
  - intros i r Hi. destruct (Hn i r Hi) as (_ & _ & _ & H4 & _). left. lia.
  - by intros w ?%not_elem_of_nil.
  - intros t L HL. by rewrite lookup_empty in HL.
  - by intros w ?%not_elem_of_nil.
  - rewrite Hc. by intros w ?%not_elem_of_nil.
  - rewrite Hs. by intros w ?%not_elem_of_nil.
  - rewrite Hr. by intros w ?%not_elem_of_nil.
Qed.

Lemma fresh_rounds members W : fresh_world members W -> rounds_ok members W.
Proof. intros (_ & _ & _ & Hr & _) i t ps. rewrite Hr. by intros ?%not_elem_of_nil. Qed.

Section reachable.
Context (members : list NodeID) (Hne : "" ∉ members) (Hnd : NoDup members).

Lemma steps_safe W V lead A W' :
  rtc (wstep no_hazard) W W' -> safe members W V lead A -> rounds_ok members W ->
  rounds_ok members W' /\
  exists V' lead' A', grows lead lead' /\ A ⊆ A' /\ safe members W' V' lead' A'.
Proof using Hne Hnd.
  intros Hrun. revert V lead A. induction Hrun as [W|W W1 W2 Hs _ IH]; intros V lead A H Hr.
  - split; [done|]. by exists V, lead, A.
  - destruct (wstep_safe members Hne Hnd W V lead A W1 H Hr Hs) as (V1 & lead1 & A1 & G1 & I1 & H1).
    destruct (IH V1 lead1 A1 H1) as (Hr2 & V2 & lead2 & A2 & G2 & I2 & H2).
    { by eapply (wstep_rounds members no_hazard W). }
    split; [done|]. exists V2, lead2, A2. split_and!; [by etrans|set_solver|done].
Qed.

(** ** The indexes of every node *)

Definition indexes_ok (W : world) : Prop :=
  forall i r, nodes (net W) !! i = Some r -> index_inv r.

Lemma indexes_put W W' i r' :
  indexes_ok W -> nodes (net W') = <[i := r']> (nodes (net W)) -> index_inv r' -> indexes_ok W'.
Proof using.
  intros Hok Hn Hr' j rj. rewrite Hn, lookup_insert_Some. intros [[<- <-]|[_ Hj]]; [done|by apply (Hok j)].
Qed.

(** A batch that is accepted respects what its receiver has committed. *)
Lemma append_respects W V lead A m r :
  safe members W V lead A -> m ∈ sent W -> nodes (net W) !! am_to m = Some r ->
  term r <= am_term m -> respects_commit (am_request m) r.
Proof using.
  intros Hinv Hm Hr Ht e He Hi.
  destruct (s_sent _ _ _ _ _ Hinv m Hm) as (L & p & HL & Hp & _ & [_ Hsl] & Hc & _).
  destruct (s_node _ _ _ _ _ Hinv _ r Hr) as (_ & N2 & _). rewrite N2 in Hi. cbn in He.
  apply list_elem_of_lookup_1 in He as [j Hj]. pose proof (Hc _ _ Hj) as Hix.
  exists e. split; [|done].
  destruct (committed_in_lead members W V lead A _ _ _ _ _ Hinv
              (s_commit _ _ _ _ _ Hinv _ r Hr) ltac:(lia) Ht HL) as (S & A1 & A2).
  rewrite (entryAt_position members W V lead A _ r) by (done || lia).
  rewrite (proj2 A1), <- (proj2 A2) by lia.
  rewrite <- (Hsl j e Hj). f_equal. lia.
Qed.

Lemma wstep_indexes W V lead A W' :
  safe members W V lead A -> indexes_ok W -> wstep no_hazard W W' -> indexes_ok W'.
Proof using.
  intros Hinv Hok Hstep.
  assert (forall i r ev r', nodes (net W) !! i = Some r -> ev_ok ev r -> handle ev r = Some r' ->
            index_inv r') as Hev.
  { intros i r ev r' Hi He Hh. apply (handle_index_step ev r r' (Hok i r Hi) He Hh). }
  destruct Hstep as
    [W i r r' Hi Hr'|W c v t rc|W as1 as2 c v t req rv now rv' resp Has Hcap Hv HR
    |W an1 an2 c v t resp rc Han Hc Ht|W i r d Hi|W i r Hi|W i r Hk Hi|W i t ps r p sel prev pt es b
    |W m now r r' resp Hm Hi E|W m resp r Hm Hi Ht|W i r Hi|W i r now initial dir Hi Hd Hpa Hp Hpe Hrm
    |W i r ev r' Hi Hb Hh Htk]; try done; eapply indexes_put; try done; cbn.
  - destruct Hr' as [(now & timeout & <-)|(now & req & <-)].
    + by eapply (Hev i r (EvElectionTick now timeout)).
    + by eapply (Hev i r (EvTimeoutNow now req)).
  - eapply (Hev v rv (EvRequestVote now req)); try done. cbn. by rewrite HR.
  - by eapply (Hev c rc (EvVoteResponse resp)).
  - by eapply (Hev i r (EvPropose d)).
  - destruct (AppendEntries_cases _ _ _ _ _ E) as (_ & Hb & Hla & [(_ & Hl & Hci)|(_ & Hle & _)]).
    { apply (same_indexes_step r r' (Hok _ r Hi)). by split_and!. }
    destruct (s_sent _ _ _ _ _ Hinv m Hm) as (L & p & _ & Hp & _ & _ & Hc & H1 & H2 & _).
    eapply (Hev (am_to m) r (EvAppendEntries now (am_request m))); try done; [|cbn; by rewrite E].
    split.
    + unfold request_wf. cbn. by rewrite Hp, int32_id.
    + eapply append_respects; try done. cbn in Hle. by rewrite int32_id in Hle.
  - by eapply (Hev (am_from m) r (EvBatchAnswered (am_to m) _ _ (Some resp))).
  - by eapply (Hev i r EvSingleNodeCommit).
  - pose proof (node_wf members W V lead A i r Hinv Hi) as Hwf.
    destruct (s_node _ _ _ _ _ Hinv i r Hi) as (N1 & N2 & _ & _ & _ & N6 & _).
    pose proof (lastLogIndex_ge r Hwf) as Hge. rewrite N2 in Hge.
    destruct (restart_facts now i initial dir r (Hd eq_refl) Hpa Hwf N2 N6 Hp Hrm)
      as (_ & _ & _ & R4 & R5 & _ & _ & _ & R9 & R10 & _).
    set (r' := New now i initial dir (fs r)) in *. clearbody r'.
    assert (lastLogIndex r' = lastLogIndex r) as Hlast by (unfold lastLogIndex; by rewrite R4, R5, N2).
    unfold index_inv, log_wf in *. rewrite Hlast, R4, R5, R9, R10. rewrite N2 in Hwf. destruct Hwf.
    split_and!; try done; lia.
  - by eapply (Hev i r ev); [done|by destruct ev|].
Qed.

Lemma steps_indexes W V lead A W' :
  rtc (wstep no_hazard) W W' -> safe members W V lead A -> rounds_ok members W ->
  indexes_ok W -> indexes_ok W'.
Proof using Hne Hnd.
  intros Hrun. revert V lead A. induction Hrun as [W|W W1 W2 Hs _ IH]; intros V lead A H Hr Hok; [done|].
  destruct (wstep_safe members Hne Hnd W V lead A W1 H Hr Hs) as (V1 & lead1 & A1 & _ & _ & H1).
  apply (IH V1 lead1 A1 H1); [by eapply (wstep_rounds members no_hazard W)|by apply (wstep_indexes W V lead A)].
Qed.
End reachable.

Lemma fresh_indexes_ok members W : fresh_world members W -> indexes_ok W.
Proof.
  intros (_ & _ & _ & _ & _ & _ & Hn) i r Hi. destruct (Hn i r Hi) as (H1 & H2 & _ & H4 & H5 & _).
  unfold index_inv, log_wf, lastLogIndex. rewrite H1, H2, H4, H5. split_and!; try done.
  rewrite contiguous_cons. split; [done|apply contiguous_nil].
Qed.

(** The invariants of everything a fresh cluster reaches, in two stages. *)
Lemma reached members W W1 W2 :
  fresh_world members W -> rtc (wstep no_hazard) W W1 -> rtc (wstep no_hazard) W1 W2 ->
  exists V1 lead1 A1 V2 lead2 A2,
    safe members W1 V1 lead1 A1 /\ safe members W2 V2 lead2 A2 /\
    grows lead1 lead2 /\ A1 ⊆ A2 /\ indexes_ok W1 /\ indexes_ok W2.
Proof.
  intros Hf H1 H2. pose proof Hf as ((Hnd & Hne & _) & _).
  pose proof (fresh_safe members W Hf) as H0. pose proof (fresh_indexes_ok members W Hf) as I0.
  pose proof (fresh_rounds members W Hf) as R0.
  destruct (steps_safe members Hne Hnd W _ _ _ W1 H1 H0 R0) as (R1 & V1 & lead1 & A1 & _ & _ & S1).
  destruct (steps_safe members Hne Hnd W1 _ _ _ W2 H2 S1 R1) as (_ & V2 & lead2 & A2 & G & I & S2).
  exists V1, lead1, A1, V2, lead2, A2. split_and!; try done.
  - by apply (steps_indexes members Hne Hnd W [] ∅ [] W1).
  - apply (steps_indexes members Hne Hnd W1 V1 lead1 A1 W2); try done.
    by apply (steps_indexes members Hne Hnd W [] ∅ [] W1).
Qed.

(** ** The theorems *)

(** Entries committed by anyone, at any time, agree. *)
Lemma commits_agree members W W1 W2 i j ri rj k :
  fresh_world members W -> rtc (wstep no_hazard) W W1 -> rtc (wstep no_hazard) W1 W2 ->
  nodes (net W1) !! i = Some ri -> nodes (net W2) !! j = Some rj ->
  0 < k -> k <= commitIndex ri -> k <= commitIndex rj ->
  log ri !! Z.to_nat k = log rj !! Z.to_nat k.
Proof.
  intros Hf H1 H2 Hi Hj Hk Hki Hkj.
  destruct (reached members W W1 W2 Hf H1 H2) as (V1 & l1 & A1 & V2 & l2 & A2 & S1 & S2 & G & I & _).
  eapply (committed_agree members W2 V2 l2 A2); [done| | |done|exact Hki|exact Hkj].
  - eapply committed_grows; [done|done|reflexivity|]. by apply (s_commit _ _ _ _ _ S1 i).
  - by apply (s_commit _ _ _ _ _ S2 j).
Qed.

(** C1: state machine safety.  Take a fresh cluster with a fixed membership, no
    snapshots, and terms and indexes that fit the wire, and any run of it that
    shows none of the six hazards of [RaftCluster] (a vote or a replication answer
    counted in a later term, heartbeats of a deposed leader, a batch left out, a
    commit announced beyond a batch's entries, a restart from a disk that missed
    a save); otherwise timeouts, transfers, proposals, lost, delayed, repeated and
    reordered messages and restarts occur as they will.  Once a node has committed
    an entry at an index, every node that has that index committed, then or at
    any later time, holds the same entry there. *)
Theorem state_machine_safety members W W1 W2 i j ri rj k :
  fresh_world members W -> rtc (wstep no_hazard) W W1 -> rtc (wstep no_hazard) W1 W2 ->
  nodes (net W1) !! i = Some ri -> nodes (net W2) !! j = Some rj ->
  0 < k <= commitIndex ri -> k <= commitIndex rj ->
  exists e, entryAt ri k = Some e /\ entryAt rj k = Some e.
Proof.
  intros Hf H1 H2 Hi Hj [Hk Hki] Hkj.
  pose proof (commits_agree members W W1 W2 i j ri rj k Hf H1 H2 Hi Hj Hk Hki Hkj) as Heq.
  destruct (reached members W W1 W2 Hf H1 H2) as (V1 & l1 & A1 & V2 & l2 & A2 & S1 & S2 & _ & _ & I1 & _).
  destruct (I1 i ri Hi) as (Hwf & _ & Hc). destruct (s_node _ _ _ _ _ S1 i ri Hi) as (_ & Hb & _).
  destruct (entryAt_is_Some ri k Hwf ltac:(lia)) as [e He]. exists e. split; [done|].
  rewrite (entryAt_position members W1 V1 l1 A1 i ri) in He by (done || lia).
  rewrite (entryAt_position members W2 V2 l2 A2 j rj) by (done || lia). congruence.
Qed.

(** C3: leader completeness.  In the same runs (fixed membership, no snapshots,
    numbers that fit the wire, none of the six hazards), what a node has committed
    is in the log of every node that leads, then or later, in a term that is not
    smaller. *)
Theorem leader_completeness members W W1 W2 i j ri rj k :
  fresh_world members W -> rtc (wstep no_hazard) W W1 -> rtc (wstep no_hazard) W1 W2 ->
  nodes (net W1) !! i = Some ri -> nodes (net W2) !! j = Some rj ->
  state rj = Leader -> term ri <= term rj -> 0 < k <= commitIndex ri ->
  exists e, entryAt ri k = Some e /\ entryAt rj k = Some e.
Proof.
  intros Hf H1 H2 Hi Hj Hl Ht [Hk Hki].
  destruct (reached members W W1 W2 Hf H1 H2) as (V1 & l1 & A1 & V2 & l2 & A2 & S1 & S2 & G & I & I1 & _).
  destruct (I1 i ri Hi) as (Hwf & _ & Hc). destruct (s_node _ _ _ _ _ S1 i ri Hi) as (_ & Hb & _).
  destruct (entryAt_is_Some ri k Hwf ltac:(lia)) as [e He]. exists e. split; [done|].
  rewrite (entryAt_position members W1 V1 l1 A1 i ri) in He by (done || lia).
  rewrite (entryAt_position members W2 V2 l2 A2 j rj) by (done || lia).
  assert (committed members l2 A2 (commitIndex ri) (log ri) (term ri)) as Hcom
    by (eapply committed_grows; [done|done|reflexivity|]; by apply (s_commit _ _ _ _ _ S1 i)).
  destruct (s_node _ _ _ _ _ S2 j rj Hj) as (_ & _ & _ & _ & _ & _ & _ & _ & N9).
  destruct (committed_in_lead members W2 V2 l2 A2 _ _ _ _ _ S2 Hcom ltac:(lia) Ht (N9 Hl)) as (S & B1 & B2).
  rewrite (proj2 B2), <- (proj2 B1) by lia. done.
Qed.

(** C5: log matching.  In the same runs (fixed membership, no snapshots, numbers
    that fit the wire, none of the six hazards), if the logs of two nodes hold
    entries of the same term at an index, they hold the same entries up to that
    index. *)
Theorem log_matching members W W1 i j ri rj k x y :
  fresh_world members W -> rtc (wstep no_hazard) W W1 ->
  nodes (net W1) !! i = Some ri -> nodes (net W1) !! j = Some rj ->
  entryAt ri k = Some x -> entryAt rj k = Some y -> Term x = Term y ->
  forall n, n <= k -> entryAt ri n = entryAt rj n.
Proof.
  intros Hf H1 Hi Hj Hx Hy Ht n Hn.
  destruct (reached members W W1 W1 Hf H1 ltac:(done)) as (V1 & l1 & A1 & _ & _ & _ & S1 & _).
  destruct (s_node _ _ _ _ _ S1 i ri Hi) as (Ni & Bi & _).
  destruct (s_node _ _ _ _ _ S1 j rj Hj) as (Nj & Bj & _).
  destruct (Z_lt_le_dec n 0); [rewrite !entryAt_below by lia; done|].
  apply entryAt_Some in Hx as [_ Hx]. apply entryAt_Some in Hy as [_ Hy].
  rewrite Bi, Z.sub_0_r in Hx. rewrite Bj, Z.sub_0_r in Hy.
  rewrite (entryAt_position members W1 V1 l1 A1 i ri), (entryAt_position members W1 V1 l1 A1 j rj) by done.
  apply (sound_match l1 _ _ _ _ _ Ni Nj Hx Hy Ht). lia.
Qed.

(** ** The stores of the replicas *)

(** The entries a node has handed to its store. *)
Definition applied (r : Raft) : list LogEntry :=
  take (Z.to_nat (lastApplied r)) (tail (log r)).

Lemma applied_lookup r n :
  (n < Z.to_nat (lastApplied r))%nat -> applied r !! n = log r !! S n.
Proof. intros Hn. unfold applied. rewrite lookup_take_lt by done. by destruct (log r). Qed.

Lemma applied_prefix members W W1 W2 i j ri rj :
  fresh_world members W -> rtc (wstep no_hazard) W W1 -> rtc (wstep no_hazard) W1 W2 ->
  nodes (net W1) !! i = Some ri -> nodes (net W2) !! j = Some rj ->
  (lastApplied ri <= lastApplied rj ->
     applied ri = take (Z.to_nat (lastApplied ri)) (applied rj)) /\
  (lastApplied rj <= lastApplied ri ->
     applied rj = take (Z.to_nat (lastApplied rj)) (applied ri)).
Proof.
  intros Hf H1 H2 Hi Hj.
  pose proof (fun k => commits_agree members W W1 W2 i j ri rj k Hf H1 H2 Hi Hj) as Hcom.
  destruct (reached members W W1 W2 Hf H1 H2) as (_ & _ & _ & _ & _ & _ & _ & _ & _ & _ & I1 & I2).
  destruct (I1 i ri Hi) as (_ & _ & Hci). destruct (I2 j rj Hj) as (_ & _ & Hcj).
  assert (forall n, (n < Z.to_nat (lastApplied ri))%nat -> (n < Z.to_nat (lastApplied rj))%nat ->
            applied ri !! n = applied rj !! n) as Hsame.
  { intros n Hn1 Hn2. rewrite !applied_lookup by done.
    specialize (Hcom (Z.of_nat (S n)) ltac:(lia) ltac:(lia) ltac:(lia)). by rewrite Nat2Z.id in Hcom. }
  assert (forall r n, (Z.to_nat (lastApplied r) <= n)%nat -> applied r !! n = None) as Hover
    by (intros r n Hn; unfold applied; by apply lookup_take_ge).
  split; intros Hle; apply list_eq; intros n;
    [destruct (decide (n < Z.to_nat (lastApplied ri))%nat)|destruct (decide (n < Z.to_nat (lastApplied rj))%nat)];
    first [rewrite lookup_take_lt by done; first [apply Hsame; lia|symmetry; apply Hsame; lia]
          |rewrite lookup_take_ge by lia; apply Hover; lia].
Qed.


(** ** A concrete run *)

Definition trio_world : world := mkWorld trio [] [] [] [] [].

Lemma trio_fresh : fresh_world three trio_world.
Proof.
  split; [exact trio_initial|]. split_and!; try done. intros i r Hi.
  assert (exists n ps, r = fresh n ps) as (n & ps & ->).
  { unfold trio_world, trio in Hi. cbn [net nodes] in Hi.
    rewrite !lookup_insert_Some in Hi. rewrite lookup_singleton_Some in Hi.
    destruct Hi as [[<- <-]|[_ [[<- <-]|[_ [<- <-]]]]]; by eexists _, _. }
  split_and!; try done.
Qed.

(** ["n1"] is elected by ["n2"], proposes a write, replicates it to ["n2"],
    commits and applies it; the next heartbeat lets ["n2"] commit and apply. *)
Definition first_part : list waction :=
  [WTick "n1" (ms 2000); WCapture 0; WAsk 0 (ms 2001); WAnswer 0;
   WPropose "n1" (encodePutCmd "k" "v")] ++ beat "n1" "n2" (ms 2002) ++ [WTake "n1"].

Definition second_part : list waction := beat "n1" "n2" (ms 2003) ++ [WTake "n2"].

Definition after (l : list waction) (W : world) : world := default W (wacts no_hazard l W).

Definition world1 : world := after first_part trio_world.
Definition world2 : world := after second_part world1.

Definition node_in (W : world) (i : NodeID) : Raft := default (fresh i []) (nodes (net W) !! i).

Lemma run1_reached : rtc (wstep no_hazard) trio_world world1.
Proof. apply (wacts_sound no_hazard first_part). vm_compute. reflexivity. Qed.

Lemma run2_reached : rtc (wstep no_hazard) world1 world2.
Proof. apply (wacts_sound no_hazard second_part). vm_compute. reflexivity. Qed.

Lemma state_machine_safety_witness :
  (nodes (net world1) !! "n1" = Some (node_in world1 "n1") /\
   nodes (net world2) !! "n2" = Some (node_in world2 "n2") /\
   commitIndex (node_in world1 "n1") = 1 /\ commitIndex (node_in world2 "n2") = 1) /\
  exists e, entryAt (node_in world1 "n1") 1 = Some e /\ entryAt (node_in world2 "n2") 1 = Some e.
Proof.
  split; [split_and!; vm_compute; reflexivity|].
  apply (state_machine_safety three trio_world world1 world2 "n1" "n2").
  - exact trio_fresh.
  - exact run1_reached.
  - exact run2_reached.
  - vm_compute. reflexivity.
  - vm_compute. reflexivity.
  - vm_compute. split; [reflexivity|discriminate].
  - vm_compute. discriminate.
Defined.

Lemma leader_completeness_witness :
  (commitIndex (node_in world1 "n1") = 1 /\ state (node_in world2 "n1") = Leader) /\
  exists e, entryAt (node_in world1 "n1") 1 = Some e /\ entryAt (node_in world2 "n1") 1 = Some e.
Proof.
  split; [split_and!; vm_compute; reflexivity|].
  apply (leader_completeness three trio_world world1 world2 "n1" "n1").
  - exact trio_fresh.
  - exact run1_reached.
  - exact run2_reached.
  - vm_compute. reflexivity.
  - vm_compute. reflexivity.
  - vm_compute. reflexivity.
  - vm_compute. discriminate.
  - vm_compute. split; [reflexivity|discriminate].
Defined.

Lemma log_matching_witness :
  exists x, (entryAt (node_in world1 "n1") 1 = Some x /\ entryAt (node_in world1 "n2") 1 = Some x) /\
  forall n, n <= 1 -> entryAt (node_in world1 "n1") n = entryAt (node_in world1 "n2") n.
Proof.
  exists (mkLogEntry 1 1 (encodePutCmd "k" "v")).
  split; [split; vm_compute; reflexivity|].
  apply (log_matching three trio_world world1 "n1" "n2" (node_in world1 "n1") (node_in world1 "n2") 1
           (mkLogEntry 1 1 (encodePutCmd "k" "v")) (mkLogEntry 1 1 (encodePutCmd "k" "v"))).
  - exact trio_fresh.
  - exact run1_reached.
  - vm_compute. reflexivity.
  - vm_compute. reflexivity.
  - vm_compute. reflexivity.
  - vm_compute. reflexivity.
  - reflexivity.
Defined.

