(* ===== verification/Hazards.v ===== *)
(** * Each hazard breaks safety

    [StateMachineSafety] is about runs in which none of the six hazards of
    [RaftCluster] shows.  Here is why it has to be: for each of them there is a
    run of three nodes, started by [New] on empty disks, that shows no other
    hazard and after which two nodes have committed different entries at the
    same index. *)
From stdpp Require Import gmap strings list.
From Stdlib Require Import ZArith Lia.
From S2P Require Import Prelude Types Stores Commands RaftNode Membership Election Replication LogMatching Sending SnapshotOps Applier Admin Boot Node ElectionSafety LogPrefix RaftCluster ClusterRun.

Local Open Scope Z_scope.

(** ** The cluster as it is first started *)

Definition boot_node (i : NodeID) (ps : list NodeID) (f : list fault) : Raft :=
  New 0 i ps i (mkFS ∅ f).

(** [f]: the faults the disk of ["n2"] will meet. *)
Definition booted_world (f : list fault) : world :=
  mkWorld (mkCluster {["n1" := boot_node "n1" ["n2"; "n3"] []; "n2" := boot_node "n2" ["n1"; "n3"] f;
                       "n3" := boot_node "n3" ["n1"; "n2"] []]} [] []) [] [] [] [] [].

Lemma ReadFile_nothing path f : exists e f', ReadFile path (mkFS ∅ f) = (inr e, mkFS ∅ f').
Proof. unfold ReadFile, next_fault. destruct f as [|[|n] f]; cbn; by eexists _, _. Qed.

Lemma foldl_insert_nonneg (ps : list NodeID) v : forall m : gmap NodeID Z,
  0 <= v -> (forall p, 0 <= map_get m p) -> forall p, 0 <= map_get (foldl (fun m q => <[q := v]> m) m ps) p.
Proof.
  induction ps as [|q ps IH]; intros m Hv Hm p; [apply Hm|]. apply IH; [done|]. intros x.
  unfold map_get. destruct (decide (x = q)) as [->|]; [by rewrite lookup_insert_eq|].
  rewrite lookup_insert_ne by done. apply Hm.
Qed.

(** [New] on a disk without files makes a fresh node, whatever the disk does. *)
Lemma boot_node_fresh i ps f :
  let r := boot_node i ps f in
  nodeId r = i /\ peers r = ps /\ state r = Follower /\ removedFromCluster r = false /\
  log r = [origin] /\ logBaseIndex r = 0 /\ term r = 0 /\ commitIndex r = 0 /\ lastApplied r = 0 /\
  snapshot r = None /\ snapshotter r = false /\ forall p, 0 <= map_get (nextIndex r) p.
Proof.
  unfold boot_node, New, MetaStore_Load.
  destruct (ReadFile_nothing (joinPath i "raft-meta.json") f) as (e1 & f1 & ->). unfold LogStore_Load.
  destruct (ReadFile_nothing (joinPath i "raft-log.json") f1) as (e2 & f2 & ->). unfold SnapshotStore_Load.
  destruct (ReadFile_nothing (joinPath i "raft-snap.json") f2) as (e3 & f3 & H3).
  destruct e2; rewrite H3; destruct e3; cbn -[foldl map_get]; split_and!; try done; intros p;
    by apply foldl_insert_nonneg.
Qed.

Lemma booted_world_fresh f : fresh_world three (booted_world f).
Proof.
  assert (forall i r, nodes (net (booted_world f)) !! i = Some r ->
            exists ps f', r = boot_node i ps f' /\ (i :: ps) ≡ₚ three) as Hn.
  { intros i r Hi. unfold booted_world in Hi. cbn [net nodes] in Hi.
    rewrite !lookup_insert_Some in Hi. rewrite lookup_singleton_Some in Hi.
    destruct Hi as [[<- <-]|[_ [[<- <-]|[_ [<- <-]]]]]; eexists _, _; (split; [reflexivity|]).
    - done.
    - apply Permutation_swap.
    - unfold three. by rewrite (Permutation_cons_append ["n1"; "n2"] "n3"). }
  split_and!; try done; [split_and!; [by_decide|by_decide|done|done|]|];
    intros i r (ps & f' & -> & Hm)%Hn;
    destruct (boot_node_fresh i ps f') as (Hid & Hps & Hst & Hrm & H); [|done].
  rewrite Hid, Hps, Hst, Hrm. by split_and!.
Qed.

(** ** The runs *)

(** Two nodes have committed different entries at the same index. *)
Definition disagree (W : world) : Prop :=
  exists i j ri rj k x y,
    nodes (net W) !! i = Some ri /\ nodes (net W) !! j = Some rj /\
    0 < k <= commitIndex ri /\ k <= commitIndex rj /\
    entryAt ri k = Some x /\ entryAt rj k = Some y /\ x <> y.

Definition disagree_at (i j : NodeID) (k : Z) (W : world) : bool :=
  match nodes (net W) !! i, nodes (net W) !! j with
  | Some ri, Some rj =>
    match entryAt ri k, entryAt rj k with
    | Some x, Some y =>
      (0 <? k) && (k <=? commitIndex ri) && (k <=? commitIndex rj) && negb (bool_decide (x = y))
    | _, _ => false
    end
  | _, _ => false
  end.

Lemma disagree_at_sound i j k W : disagree_at i j k W = true -> disagree W.
Proof.
  unfold disagree_at. destruct (nodes (net W) !! i) as [ri|] eqn:Hi; [|done].
  destruct (nodes (net W) !! j) as [rj|] eqn:Hj; [|done].
  destruct (entryAt ri k) as [x|] eqn:Hx; [|done]. destruct (entryAt rj k) as [y|] eqn:Hy; [|done].
  rewrite !andb_true_iff, negb_true_iff, bool_decide_eq_false. intros [[[? ?] ?] ?].
  exists i, j, ri, rj, k, x, y. split_and!; (done || lia).
Qed.

(** The run can be made and ends in disagreement. *)
Definition breaks (h : hazard) (f : list fault) (l : list waction) (i j : NodeID) (k : Z) : bool :=
  match wacts (only h) l (booted_world f) with Some W => disagree_at i j k W | None => false end.

Lemma breaks_sound h f l i j k :
  breaks h f l i j k = true ->
  exists members W W', fresh_world members W /\ rtc (wstep (only h)) W W' /\ disagree W'.
Proof.
  unfold breaks. destruct (wacts (only h) l (booted_world f)) as [W|] eqn:E; [|done]. intros H.
  exists three, (booted_world f), W. split; [apply booted_world_fresh|].
  split; [by eapply wacts_sound|by eapply disagree_at_sound].
Qed.

(** The request with number [k] is captured and reaches its voter. *)
Definition ask_vote (k : nat) (now : Z) : list waction := [WCapture k; WAsk k now].

(** The vote ["n2"] gave ["n1"] in term 1 is counted in term 2, in which ["n2"]
    has elected ["n3"]; both replicate their entry of term 2 to ["n2"]. *)
Definition late_vote_run : list waction :=
  [WTick "n1" (ms 2000)] ++ ask_vote 0 (ms 2001) ++ [WTick "n1" (ms 4000); WTick "n3" (ms 4001); WTick "n3" (ms 6000)] ++
  ask_vote 6 (ms 6001) ++ [WAnswer 1; WAnswer 0; WPropose "n3" "x"] ++ beat "n3" "n2" (ms 6002) ++
  [WPropose "n1" "y"] ++ beat "n1" "n2" (ms 6003).

(** ["n1"], leader of term 3, sends two old entries to ["n2"], which accepts;
    the answer is counted in term 5, after ["n3"] has replaced the entries of
    ["n1"], for the entry of term 5 at the second index. *)
Definition late_reply_run : list waction :=
  [WTick "n1" (ms 2000)] ++ ask_vote 0 (ms 2001) ++ [WAnswer 0; WPropose "n1" "a"; WPropose "n1" "b"] ++
  (* "n3" leads term 2 and appends an entry of its own *)
  [WTick "n3" (ms 4000); WTick "n3" (ms 6000)] ++ ask_vote 3 (ms 6001) ++ ask_vote 3 (ms 6001) ++
  [WAnswer 1; WPropose "n3" "f"] ++
  (* "n1" leads term 3 and sends its entries to "n2" *)
  [WTick "n1" (ms 8000)] ++ ask_vote 3 (ms 8001) ++ [WAnswer 1] ++
  beat "n1" "n2" (ms 8002) ++ beat "n1" "n2" (ms 8003) ++
  [WCheck "n1"; WRound "n1"; WSend 0 "n2" [] 0; WAppend 0 (ms 8004)] ++
  (* "n3" leads term 4 and replaces them in "n1" *)
  ask_vote 3 (ms 8005) ++ [WTick "n3" (ms 12000)] ++ ask_vote 4 (ms 12001) ++ [WAnswer 2] ++
  beat "n3" "n1" (ms 12002) ++ beat "n3" "n1" (ms 12003) ++
  (* "n1" leads term 5; the answer of term 3 is now the third *)
  [WTick "n1" (ms 14000)] ++ ask_vote 5 (ms 14001) ++ [WAnswer 2; WPropose "n1" "g"; WReply 2] ++
  (* "n3" leads term 6 *)
  [WTick "n3" (ms 16000)] ++ ask_vote 6 (ms 16001) ++ [WAnswer 2; WPropose "n3" "h"] ++
  beat "n3" "n2" (ms 16002) ++ beat "n3" "n2" (ms 16003).

(** ["n1"], leader of term 1, passes its check, learns of term 2 and its leader
    ["n3"], and only then samples the term. *)
Definition deposed_round_run : list waction :=
  [WTick "n1" (ms 2000)] ++ ask_vote 0 (ms 2001) ++ [WAnswer 0; WPropose "n1" "e"; WCheck "n1"] ++
  [WTick "n3" (ms 4000); WTick "n3" (ms 6000)] ++ ask_vote 4 (ms 6001) ++ ask_vote 3 (ms 6001) ++
  [WAnswer 0; WPropose "n3" "x"] ++ beat "n3" "n2" (ms 6002) ++ beat "n3" "n2" (ms 6003) ++
  [WRound "n1"; WSend 0 "n2" [] 0; WAppend 0 (ms 6004)].

(** The first of two batches is left out; the answer to the second one makes
    ["n1"] commit everything.  Later heartbeats step back until the terms happen
    to match, and ["n2"] commits what it has. *)
Definition skipped_batch_run : list waction :=
  [WTick "n1" (ms 2000)] ++ ask_vote 0 (ms 2001) ++ [WAnswer 0] ++ repeat (WPropose "n1" "e") 101 ++
  [WPropose "n1" "z"; WCheck "n1"; WRound "n1"; WSend 0 "n2" [0%nat] 0; WAppend 0 (ms 2002); WReply 0] ++
  concat (repeat (beat "n1" "n2" (ms 2003)) 101).

(** ["n1"] has two entries nobody else has.  ["n3"], which has committed others in
    their place, starts again from the first index after many refusals. *)
Definition unchecked_tail_run : list waction :=
  [WTick "n1" (ms 2000)] ++ ask_vote 0 (ms 2001) ++ [WAnswer 0] ++ repeat (WPropose "n1" "e") 100 ++
  beat "n1" "n2" (ms 2002) ++ beat "n1" "n3" (ms 2003) ++ [WPropose "n1" "a"; WPropose "n1" "b"] ++
  [WTick "n2" (ms 4000)] ++ ask_vote 2 (ms 4001) ++ [WAnswer 0; WPropose "n2" "c"; WPropose "n2" "d"] ++
  beat "n2" "n3" (ms 4002) ++ beat "n2" "n3" (ms 4003) ++
  [WTick "n3" (ms 6000)] ++ ask_vote 3 (ms 6001) ++ [WAnswer 0] ++
  [WCheck "n3"; WRound "n3"; WSend 0 "n1" [] 0] ++
  concat (repeat [WAppend 0 (ms 6002); WReply 0] 103) ++
  [WCheck "n3"; WRound "n3"; WSend 0 "n1" [] 0; WAppend 0 (ms 6003)].

(** The disk of ["n2"] fails when it saves its vote for ["n1"]; after a restart
    it votes for ["n3"] in the same term. *)
Definition stale_disk_run : list waction :=
  [WTick "n1" (ms 2000)] ++ ask_vote 0 (ms 2001) ++ [WAnswer 0; WRestart "n2" (ms 2002) "n2"; WTick "n3" (ms 2003)] ++
  ask_vote 2 (ms 2004) ++ [WAnswer 0; WPropose "n3" "x"] ++ beat "n3" "n2" (ms 2005) ++
  [WPropose "n1" "y"] ++ beat "n1" "n2" (ms 2006).

(** The reads of [New] succeed; saving the term and then the vote fail. *)
Definition failing_saves : list fault := [NoFault; NoFault; NoFault; Fault None; Fault None].

(** C39: no hazard can be allowed.  For each of the six things the safety theorems
    exclude there is a run from a fresh cluster that shows only this one and ends
    with two nodes that have committed different entries at the same index:
    counting a vote or a replication answer in a later term, sending heartbeats
    after losing the leadership, leaving a batch out, committing beyond the
    entries a batch carries, and restarting from a disk that missed a save. *)
Theorem every_hazard_breaks_safety (h : hazard) :
  exists members W W', fresh_world members W /\ rtc (wstep (only h)) W W' /\ disagree W'.
Proof.
  destruct h.
  - apply (breaks_sound LateVote [] late_vote_run "n1" "n3" 1). vm_compute. reflexivity.
  - apply (breaks_sound LateReply [] late_reply_run "n1" "n3" 2). vm_compute. reflexivity.
  - apply (breaks_sound DeposedRound [] deposed_round_run "n2" "n3" 1). vm_compute. reflexivity.
  - apply (breaks_sound SkippedBatch [] skipped_batch_run "n1" "n2" 2). vm_compute. reflexivity.
  - apply (breaks_sound UncheckedTail [] unchecked_tail_run "n1" "n3" 101). vm_compute. reflexivity.
  - apply (breaks_sound StaleDisk failing_saves stale_disk_run "n1" "n3" 1). vm_compute. reflexivity.
Qed.
