(* ===== verification/Api.v ===== *)
(** * The gRPC server

    api/server.go: the [RaftNode] interface the server is written against and
    the handlers [Put], [Get], [Delete] and [Health] of [Server].  Each call a
    handler makes on the node takes the node's lock for itself, so other
    goroutines run in between: [env k] is what they do to the node before the
    [k]-th call after the first.  A handler that blocks on a channel is given
    up to that point; it answers when the channel is closed. *)
From stdpp Require Import gmap strings list pretty.
From Stdlib Require Import ZArith Lia.
From S2P Require Import Prelude GoStrings Types Stores Commands RaftNode Election Replication LogMatching Applier Admin KvStore.

Local Open Scope Z_scope.

(** ** The interface *)

Class RaftNode (N : Type) := {
  rn_IsLeader : N -> bool;
  rn_LeaderID : N -> NodeID;
  rn_Propose : string -> N -> N * (Z + raft_error);
  rn_AppliedWait : Z -> N -> N * nat;
  rn_Status : N -> Status;
  rn_HasReadLease : Z -> N -> bool;
  rn_GetPeers : N -> list NodeID;
  (** [AddNodeInternal] up to where it waits; [None] is a panic. *)
  rn_AddNodeInternal : NodeID -> N -> option (N * (nat + raft_error))
}.

(** What the server relies on: an accepted command gets an index of its own
    and is the command at that index, a refused one changes nothing, and
    waiting does not touch the log. *)
Class RaftNodeLaws (N : Type) `{RaftNode N} := {
  rn_ok : N -> Prop;
  rn_command : Z -> N -> option string;
  rn_Propose_accepted data n n' i :
    rn_ok n -> rn_Propose data n = (n', inl i) ->
    rn_ok n' /\ rn_command i n = None /\ rn_command i n' = Some data /\
    (forall j, j <> i -> rn_command j n' = rn_command j n);
  rn_Propose_refused data n n' e :
    rn_Propose data n = (n', inr e) -> n' = n /\ e = ErrNotLeader;
  rn_AppliedWait_log i n n' ch :
    rn_AppliedWait i n = (n', ch) ->
    (rn_ok n -> rn_ok n') /\ (forall j, rn_command j n' = rn_command j n)
}.

#[export] Instance Raft_RaftNode : RaftNode Raft := {
  rn_IsLeader := IsLeader;
  rn_LeaderID := LeaderID;
  rn_Propose := Propose;
  rn_AppliedWait := AppliedWait;
  rn_Status := Raft_Status;
  rn_HasReadLease := HasReadLease;
  rn_GetPeers := GetPeers;
  rn_AddNodeInternal := configChange_begin ConfigAddNode
}.

(** ** Errors of the handlers *)

Inductive code := FailedPrecondition | NotFound | InvalidArgument | OtherCode (n : Z).

(** A gRPC status error, or any other error with its text. *)
Inductive api_error := StatusError (c : code) (msg : string) | PlainError (msg : string).

(** ** [Server] *)

Section server.
Context {N S : Type} `{RaftNode N} `{KV S}.
Variable env : nat -> N -> N.

Definition notLeader (suffix : string) (n : N) : api_error :=
  StatusError FailedPrecondition ("not leader, leader=" +:+ rn_LeaderID n +:+ suffix).

(** The common body of [Put] and [Delete]: [data] is the encoded command. *)
Definition Server_write (data : string) (n : N) : N * (nat + api_error) :=
  if negb (rn_IsLeader n) then
    let n := env 0 n in (n, inr (notLeader "" n))
  else
    let n := env 0 n in
    match rn_Propose data n with
    | (n, inr err) => (n, inr (PlainError (error_String "" err)))
    | (n, inl index) =>
      let n := env 1 n in
      let '(n, ch) := rn_AppliedWait index n in (n, inl ch)
    end.

Definition Server_Put (key value : string) : N -> N * (nat + api_error) :=
  Server_write (encodePutCmd key value).

Definition Server_Delete (key : string) : N -> N * (nat + api_error) :=
  Server_write (encodeDeleteCmd key).

Definition Server_Get (now : Z) (key : string) (allowStale : bool) (n : N) (s : S)
    : N * ((string * bool) + api_error) :=
  let serve n :=
    match kv_Get key s with
    | (_, _, Some err) => (n, inr (PlainError err))
    | (val, found, None) => (n, inl (val, found))
    end in
  if rn_IsLeader n then serve n
  else
    let n := env 0 n in
    if allowStale then
      if rn_HasReadLease now n then serve n
      else
        let n := env 1 n in
        (n, inr (StatusError FailedPrecondition
                   ("follower read lease expired, leader=" +:+ rn_LeaderID n)))
    else (n, inr (notLeader " (use allow_stale=true for follower reads)" n)).

Definition Server_Health : string := "ok".
End server.

(** ** The node keeps the interface's promises *)

Lemma entryAt_past r i : log_wf r -> lastLogIndex r < i -> entryAt r i = None.
Proof.
  intros Hwf Hi. destruct (entryAt r i) as [e|] eqn:E; [|done].
  apply entryAt_Some in E as [E _]. pose proof (lastLogIndex_wf r Hwf). lia.
Qed.

Lemma Propose_eq data r r' i :
  Propose data r = (r', inl i) ->
  i = lastLogIndex r + 1 /\
  exists fs', r' = r <| log := log r ++ [mkLogEntry i (term r) data] |> <| fs := fs' |>.
Proof.
  unfold Propose. destruct (bool_decide _); [|done]. cbn [negb].
  destruct (saveLog_fields (r <| log := log r ++ [mkLogEntry (lastLogIndex r + 1) (term r) data] |>))
    as [fs' ->].
  intros E. injection E as <- <-. split; [done|]. by exists fs'.
Qed.

Lemma Propose_accepted data r r' i :
  log_wf r -> Propose data r = (r', inl i) ->
  i = lastLogIndex r + 1 /\ log_wf r' /\
  (forall j, entryAt r' j = if bool_decide (j = i) then Some (mkLogEntry i (term r) data)
                            else entryAt r j).
Proof.
  intros Hwf (-> & fs' & ->)%Propose_eq.
  split; [done|]. split; [by apply (log_wf_snoc r (term r) data)|].
  intros j. rewrite entryAt_at. simpl. by rewrite (snoc_entry r).
Qed.

Lemma AppliedWait_entryAt i r r' ch :
  AppliedWait i r = (r', ch) -> log_wf r' = log_wf r /\ (forall j, entryAt r' j = entryAt r j).
Proof. unfold AppliedWait. intros E. split_ifs_in E; by injection E as <- _. Qed.

#[refine, export] Instance Raft_RaftNodeLaws : RaftNodeLaws Raft := {
  rn_ok := log_wf;
  rn_command i r := Data <$> entryAt r i
}.
Proof.
  - intros data r r' i Hwf (-> & Hwf' & Hj)%Propose_accepted; [|done].
    split; [done|]. split; [by rewrite entryAt_past by (done || lia)|]. split.
    + by rewrite Hj, bool_decide_eq_true_2.
    + intros j Hne. by rewrite Hj, bool_decide_eq_false_2.
  - intros data r r' e. simpl. unfold Propose. destruct (bool_decide _); cbn [negb].
    + by destruct (saveLog _).
    + intros E. by injection E as <- <-.
  - intros i r r' ch [E1 E2]%AppliedWait_entryAt. split; [by rewrite E1|].
    intros j. by rewrite E2.
Defined.

(** ** The handlers, against the interface *)

(** C27: a write on the server, whatever the other goroutines do meanwhile.  A
    node that does not lead refuses with [FailedPrecondition] and the leader it
    then knows; a node deposed before its proposal refuses with the node's
    error; in both cases the handler itself changed nothing.  Otherwise the
    encoded command got an index that held no command before, is the command
    at that index (as long as the others leave it there), no other command is
    touched, and the handler waits for that index. *)
Theorem Server_write_spec {N} `{RaftNodeLaws N} env data (n n' : N) res :
  (forall k m, rn_ok m -> rn_ok (env k m)) -> rn_ok n ->
  Server_write env data n = (n', res) ->
  match res with
  | inr (StatusError c msg) =>
    rn_IsLeader n = false /\ n' = env 0%nat n /\ c = FailedPrecondition /\
    msg = "not leader, leader=" +:+ rn_LeaderID n'
  | inr (PlainError msg) => rn_IsLeader n = true /\ n' = env 0%nat n /\ msg = "not leader"
  | inl ch =>
    exists i n1, rn_IsLeader n = true /\ rn_ok n' /\
      rn_command i (env 0%nat n) = None /\ rn_command i n1 = Some data /\
      (forall j, j <> i -> rn_command j n1 = rn_command j (env 0%nat n)) /\
      rn_AppliedWait i (env 1%nat n1) = (n', ch) /\
      (forall j, rn_command j n' = rn_command j (env 1%nat n1))
  end.
Proof.
  intros Henv Hn. unfold Server_write. destruct (rn_IsLeader n) eqn:Hl; cbn [negb].
  - destruct (rn_Propose data (env 0%nat n)) as [n1 [i|e]] eqn:Hp.
    + destruct (rn_AppliedWait i (env 1%nat n1)) as [n2 ch] eqn:Hw. intros E. injection E as <- <-.
      apply rn_Propose_accepted in Hp as (Hok & Hi & Hi' & Hj); [|by apply Henv].
      pose proof (rn_AppliedWait_log _ _ _ _ Hw) as [Hok2 Hc].
      exists i, n1. split_and!; try done. by apply Hok2, Henv.
    + apply rn_Propose_refused in Hp as [-> ->]. intros E. by injection E as <- <-.
  - intros E. injection E as <- <-. split_and!; try done. by rewrite sapp_nil_r.
Qed.

(** C28: who may answer a read.  The store is asked exactly when the node leads,
    or stale reads are allowed and the node holds a read lease at that moment;
    the answer is then the store's.  Every other read is refused with
    [FailedPrecondition] and the leader the node knows.  A read never changes
    the node. *)
Theorem Server_Get_spec {N S} `{RaftNode N} `{KV S} env now key stale (n : N) (s : S) :
  let '(n', res) := Server_Get env now key stale n s in
  let served := rn_IsLeader n || (stale && rn_HasReadLease now (env 0%nat n)) in
  n' = (if rn_IsLeader n then n
        else if stale && negb served then env 1%nat (env 0%nat n) else env 0%nat n) /\
  match res with
  | inl (v, found) => served = true /\ kv_Get key s = (v, found, None)
  | inr (PlainError msg) => served = true /\ (kv_Get key s).2 = Some msg
  | inr (StatusError c msg) =>
    served = false /\ c = FailedPrecondition /\
    exists before after, msg = before +:+ "leader=" +:+ rn_LeaderID n' +:+ after
  end.
Proof.
  unfold Server_Get. destruct (rn_IsLeader n); cbn [orb].
  { by destruct (kv_Get key s) as [[v found] [e|]]. }
  destruct stale; cbn [andb orb].
  - destruct (rn_HasReadLease now (env 0%nat n)); [by destruct (kv_Get key s) as [[v found] [e|]]|].
    split_and!; try done. exists "follower read lease expired, ", "". by rewrite sapp_nil_r.
  - unfold notLeader. split_and!; try done. by exists "not leader, ", " (use allow_stale=true for follower reads)".
Qed.

(** ** A write and the read after it *)

(** No goroutine interferes. *)
Definition quiet_env {N : Type} (_ : nat) (n : N) : N := n.

Lemma applied_command now nowUnix st r i e :
  log_wf r -> logBaseIndex r <= lastApplied r -> lastApplied r < i <= commitIndex r ->
  commitIndex r <= lastLogIndex r -> entryAt r i = Some e ->
  let '(es, r') := applierLoop (Z.to_nat (commitIndex r - lastApplied r)) now nowUnix st r in
  exists l1 l2, es = l1 ++ e :: l2 /\
    (forall x, x ∈ l2 -> exists k, i < k <= commitIndex r /\ entryAt r k = Some x).
Proof.
  intros Hwf Hb Hi Hc He.
  pose proof (applierLoop_spec now nowUnix st _ r Hwf Hb Hc eq_refl) as Hs.
  destruct (applierLoop _ now nowUnix st r) as [es r'].
  destruct Hs as (Hlen & Hes & _).
  set (k := Z.to_nat (i - lastApplied r - 1)).
  assert (es !! k = Some e) as Hk.
  { rewrite Hes by lia. by replace (lastApplied r + 1 + Z.of_nat k) with i by lia. }
  exists (take k es), (drop (S k) es). split.
  { symmetry. by apply take_drop_middle. }
  intros x [m Hm]%list_elem_of_lookup. rewrite lookup_drop in Hm.
  pose proof (lookup_lt_Some _ _ _ Hm). rewrite Hes in Hm by lia.
  eexists. split; [|exact Hm]. lia.
Qed.

Lemma Server_write_quiet data r r' ch :
  Server_write quiet_env data r = (r', inl ch) ->
  IsLeader r = true /\
  exists r0, Propose data r = (r0, inl (lastLogIndex r + 1)) /\
             AppliedWait (lastLogIndex r + 1) r0 = (r', ch).
Proof.
  unfold Server_write, quiet_env. cbn [rn_IsLeader rn_Propose rn_AppliedWait Raft_RaftNode].
  destruct (IsLeader r); [|done]. cbn [negb].
  destruct (Propose data r) as [r0 [i|e]] eqn:Hp; [|done].
  pose proof (Propose_eq _ _ _ _ Hp) as [-> _].
  destruct (AppliedWait _ r0) as [r1 ch1] eqn:Hw. intros E. injection E as <- <-.
  split; [done|]. by exists r0.
Qed.

(** ** A write that is lost *)

Lemma AppendEntries_waiters now req r : waiters (AppendEntries now req r).1 = waiters r.
Proof.
  unfold AppendEntries. destruct (isKnownNode r _); [|done]. cbn [negb]. destruct (_ <? term r); [done|].
  assert (waiters (bumpTerm (ae_Term req) r) = waiters r) as Hw
    by (unfold bumpTerm; by destruct (term r <? ae_Term req)).
  destruct (prevLogMatches _ _); [|done]. cbn [negb].
  match goal with |- context [saveLog ?x] => destruct (saveLog_fields x) as [fs' ->] end.
  unfold advanceCommit. split_ifs; done.
Qed.

(** C38: a write that was lost is acknowledged.  A leader accepts a client's write
    at an index and the client waits for that index; then any leader's request the
    node goes by replaces the entry there by one of another term, and announces
    it committed.  The applier delivers that other entry and wakes the client, whose
    call returns success: waiters belong to an index, not to what was proposed. *)
Theorem lost_write_acknowledged now nowUnix st data r r2 ch req e :
  log_wf r -> 0 <= logBaseIndex r <= lastApplied r -> lastApplied r <= commitIndex r <= lastLogIndex r ->
  Server_write quiet_env data r = (r2, inl ch) ->
  request_wf req -> acceptable req r2 -> e ∈ ae_Entries req -> Index e = lastLogIndex r + 1 ->
  Term e <> term r -> lastLogIndex r + 1 <= ae_LeaderCommit req ->
  let r3 := (AppendEntries now req r2).1 in
  let '(es, r4) := applierLoop (Z.to_nat (commitIndex r3 - lastApplied r3)) now nowUnix st r3 in
  entryAt r2 (Index e) = Some (mkLogEntry (Index e) (term r) data) /\
  (exists x, x ∈ es /\ entryAt r3 (Index e) = Some x /\ Term x = Term e /\ Term x <> term r) /\
  ch ∈ closedChans r4.
Proof.
  intros Hwf Hb Hac Hw Hreq Hacc He Hi Ht Hlc r3.
  destruct (Server_write_quiet data r r2 ch Hw) as [_ (r0 & Hp & Ha)].
  destruct (Propose_eq _ _ _ _ Hp) as [_ [fs' Hr0]].
  assert (r2 = r0 <| chanCount := S (chanCount r0) |> <| waiters := <[Index e := ch]> (waiters r0) |>) as Hr2.
  { unfold AppliedWait in Ha. rewrite <- Hi in Ha. rewrite (proj2 (Z.leb_gt _ _)) in Ha by (subst r0; cbn; lia).
    by injection Ha as <- <-. }
  assert (log_wf r2) as Hwf2 by (subst r2 r0; by apply (log_wf_snoc r (term r) data)).
  assert (logBaseIndex r2 = logBaseIndex r /\ lastApplied r2 = lastApplied r /\ commitIndex r2 = commitIndex r)
    as (B2 & L2 & C2) by (by subst r2 r0).
  destruct (AppendEntries now req r2) as [r3' resp] eqn:E. cbn [fst] in r3. subst r3.
  pose proof (AppendEntries_success_iff now req r2) as Hs. rewrite E in Hs. cbn [snd] in Hs. apply Hs in Hacc.
  destruct (AppendEntries_shape _ _ _ _ _ Hwf2 ltac:(lia) Hreq E) as (Hwf3 & B3 & H3). rewrite Hacc in H3.
  destruct H3 as (_ & Hent & Hc). destruct (Hent e He ltac:(lia)) as (x & Hx & Htx).
  destruct (AppendEntries_cases _ _ _ _ _ E) as (_ & _ & L3 & _).
  assert (Index e <= lastLogIndex r3') as Hle.
  { apply entryAt_Some in Hx as [? _]. pose proof (lastLogIndex_wf r3' Hwf3). lia. }
  assert (Index e <= commitIndex r3' <= lastLogIndex r3') as Hc3.
  { rewrite Hc. unfold newCommit. rewrite C2, (proj2 (Z.ltb_lt _ _)) by lia. lia. }
  pose proof (applierLoop_spec now nowUnix st _ r3' Hwf3 ltac:(lia) ltac:(lia) eq_refl) as Hloop.
  destruct (applierLoop _ now nowUnix st r3') as [es r4].
  destruct Hloop as (_ & Hes & _ & _ & _ & _ & _ & Hwake). split_and!.
  - subst r2. rewrite entryAt_at. cbn [log logBaseIndex upd]. subst r0. cbn [log logBaseIndex upd].
    rewrite (snoc_entry r data (Index e) Hwf), bool_decide_eq_true_2 by done. by rewrite Hi.
  - exists x. split_and!; [|done|done|congruence].
    apply (list_elem_of_lookup_2 _ (Z.to_nat (Index e - lastApplied r3' - 1))). rewrite Hes by lia.
    by replace (lastApplied r3' + 1 + _) with (Index e) by lia.
  - apply (Hwake (Index e)); [|lia].
    pose proof (AppendEntries_waiters now req r2) as Hwt. rewrite E in Hwt. cbn [fst] in Hwt.
    rewrite Hwt, Hr2. cbn. by rewrite lookup_insert_eq.
Qed.

Lemma Server_Get_store {N S} `{RaftNode N} `{KV S} env now key stale (n : N) (s : S) x found :
  (Server_Get env now key stale n s).2 = inl (x, found) -> kv_Get key s = (x, found, None).
Proof.
  unfold Server_Get. destruct (kv_Get key s) as [[v f] [e|]]; split_ifs; try discriminate;
    cbn; intros E; by injection E as -> ->.
Qed.

(** C16: what a client reads after its write was acknowledged.  A leader accepts
    a put or a deletion, then its commit index reaches the write and the
    applier runs; if the store took every entry and no later committed entry
    writes the key, the read the leader then serves returns the value put, or
    nothing after the deletion; and the channel the write waits on is closed. *)
Theorem write_then_read {S} `{KVLaws S} now nowUnix st k w r r1 ch c (s : S) x found :
  log_wf r -> logBaseIndex r <= lastApplied r -> lastApplied r <= lastLogIndex r ->
  Server_write quiet_env (encode_write k w) r = (r1, inl ch) ->
  let i := lastLogIndex r + 1 in
  let r2 := r1 <| commitIndex := c |> in
  i <= c <= lastLogIndex r1 ->
  let '(es, r3) := applierLoop (Z.to_nat (c - lastApplied r2)) now nowUnix st r2 in
  apply_succeeds s es ->
  (forall j e, i < j <= c -> entryAt r2 j = Some e -> ~ touches k e) ->
  ch ∈ closedChans r3 /\
  ((Server_Get quiet_env now k false r3 (applyEntries s es)).2 = inl (x, found) ->
   (if found then Some x else None) = w).
Proof.
  intros Hwf Hb Hla Hput i r2 Hc.
  apply Server_write_quiet in Hput as (Hlead & r0 & Hp & Hw).
  pose proof (Propose_accepted _ _ _ _ Hwf Hp) as (_ & Hwf0 & He0).
  pose proof (AppliedWait_entryAt _ _ _ _ Hw) as [Hwf1 He1].
  apply Propose_eq in Hp as (_ & fs' & ->). fold i in Hw, He0.
  unfold AppliedWait in Hw. rewrite (proj2 (Z.leb_gt _ _)) in Hw by (simpl; lia).
  injection Hw as Hr1 Hch.
  assert (log_wf r2) as Hwf2 by (unfold r2; rewrite <- Hwf1 in Hwf0; exact Hwf0).
  assert (logBaseIndex r2 = logBaseIndex r /\ lastApplied r2 = lastApplied r /\
          commitIndex r2 = c /\ lastLogIndex r2 = lastLogIndex r1 /\
          waiters r2 !! i = Some ch) as (E1 & E2 & E3 & E4 & E5).
  { unfold r2. rewrite <- Hr1, <- Hch. split_and!; try done. simpl. apply lookup_insert_eq. }
  assert (entryAt r2 i = Some (mkLogEntry i (term r) (encode_write k w))) as He.
  { change (entryAt r2 i) with (entryAt r1 i).
    by rewrite He1, He0, bool_decide_eq_true_2. }
  rewrite <- E3 in Hc |- *. rewrite <- E4 in Hc.
  pose proof (applied_command now nowUnix st r2 i _ Hwf2 ltac:(lia) ltac:(lia) ltac:(lia) He) as Hl.
  pose proof (applierLoop_spec now nowUnix st _ r2 Hwf2 ltac:(lia) ltac:(lia) eq_refl) as Hs.
  destruct (applierLoop _ now nowUnix st r2) as [es r3].
  destruct Hl as (l1 & l2 & -> & Hl2). destruct Hs as (_ & _ & _ & _ & _ & _ & _ & Hwake).
  intros Hok Hlater. split; [by apply (Hwake i ch E5); lia|]. intros Hg.
  apply Server_Get_store in Hg. apply (last_write_read s l1 l2 i (term r) k w x found Hok); [|done].
  apply Forall_forall. intros e Hin. apply Hl2 in Hin as (j & Hj & Hje). by apply (Hlater j e).
Qed.

(** ** A three-node leader *)

Definition api_leader : Raft :=
  (example_node "n1" ["n2"; "n3"] Leader 2 [mkLogEntry 0 0 ""; mkLogEntry 1 1 "a"])
    <| commitIndex := 1 |> <| lastApplied := 1 |> <| leader := "n1" |>.

(** Somebody else's proposal lands between the handler's own and its wait. *)
Definition busy_env (k : nat) (r : Raft) : Raft :=
  if bool_decide (k = 1%nat) then (Propose "other" r).1 else r.

Lemma busy_env_ok k r : log_wf r -> log_wf (busy_env k r).
Proof.
  intros Hwf. unfold busy_env. case_bool_decide; [|done].
  destruct (Propose "other" r) as [r' [i|e]] eqn:E.
  - by apply Propose_accepted in E as (_ & ? & _).
  - unfold Propose in E. destruct (bool_decide (state r = Leader)); cbn [negb] in E.
    + by destruct (saveLog _).
    + by injection E as <- _.
Qed.

Lemma Server_write_spec_witness :
  exists ch n', Server_write busy_env (encodePutCmd "k" "v") api_leader = (n', inl ch) /\
  exists i n1, rn_IsLeader api_leader = true /\ rn_ok n' /\
    rn_command i (busy_env 0 api_leader) = None /\
    rn_command i n1 = Some (encodePutCmd "k" "v") /\
    (forall j, j <> i -> rn_command j n1 = rn_command j (busy_env 0 api_leader)) /\
    rn_AppliedWait i (busy_env 1 n1) = (n', ch) /\
    (forall j, rn_command j n' = rn_command j (busy_env 1 n1)).
Proof.
  destruct (Server_write busy_env (encodePutCmd "k" "v") api_leader) as [n' res] eqn:E.
  pose proof (Server_write_spec busy_env (encodePutCmd "k" "v") api_leader n' res busy_env_ok
    ltac:(by_decide) E) as H.
  assert (res = inl 0%nat) as ->.
  { apply (f_equal snd) in E. vm_compute in E. by rewrite <- E. }
  exists 0%nat, n'. split; [done|exact H].
Defined.

Lemma write_then_read_witness :
  exists r1 ch, Server_write quiet_env (encode_write "k" (Some "v")) api_leader = (r1, inl ch) /\
  let '(es, r3) := applierLoop 1 5 5 None (r1 <| commitIndex := 2 |>) in
  (Server_Get quiet_env 5 "k" false r3 (applyEntries (∅ : kvmap) es)).2 = inl ("v", true) /\
  ch ∈ closedChans r3 /\
  ((Server_Get quiet_env 5 "k" false r3 (applyEntries (∅ : kvmap) es)).2 = inl ("v", true) ->
   (if true then Some "v" else None) = Some "v").
Proof.
  destruct (Server_write quiet_env (encode_write "k" (Some "v")) api_leader) as [r1 res] eqn:E.
  assert (res = inl 0%nat) as -> by (apply (f_equal snd) in E; vm_compute in E; by rewrite <- E).
  exists r1, 0%nat. split; [done|].
  pose proof (write_then_read 5 5 None "k" (Some "v") api_leader r1 0%nat 2 (∅ : kvmap) "v" true
    ltac:(by_decide) ltac:(by_decide) ltac:(by_decide) E) as H.
  cbv zeta in H. apply (f_equal fst) in E. cbn [fst] in E. subst r1.
  specialize (H ltac:(vm_compute; split; discriminate)).
  destruct (applierLoop _ _ _ _ _) as [es r3] eqn:Ea in H.
  change (Z.to_nat (2 - lastApplied _)) with 1%nat in Ea. rewrite Ea.
  assert (IsLeader r3 = true) as Hl.
  { change r3 with (es, r3).2. rewrite <- Ea. vm_compute. reflexivity. }
  assert (es = [mkLogEntry 2 2 (encodePutCmd "k" "v")]) as ->.
  { change es with (es, r3).1. rewrite <- Ea. vm_compute. reflexivity. }
  split; [|apply H].
  - unfold Server_Get. cbn [rn_IsLeader Raft_RaftNode]. rewrite Hl. vm_compute. reflexivity.
  - vm_compute. tauto.
  - intros j e Hj _. exfalso. change (lastLogIndex api_leader) with 1 in Hj. lia.
Defined.

(** A leader of term 1 whose entry at index 1 a leader of term 2 replaces. *)
Definition deposed_leader : Raft :=
  example_node "n1" ["n2"; "n3"] Leader 1 [mkLogEntry 0 0 ""].

Definition overwriting_request : AppendEntriesRequest :=
  mkAppendEntriesRequest 2 "n2" 0 0 [mkLogEntry 1 2 "b"] 1.

Lemma lost_write_acknowledged_witness :
  let '(r2, res) := Server_write quiet_env "a" deposed_leader in
  let r3 := (AppendEntries 9 overwriting_request r2).1 in
  let '(es, r4) := applierLoop (Z.to_nat (commitIndex r3 - lastApplied r3)) 9 9 None r3 in
  res = inl 0%nat /\ es = [mkLogEntry 1 2 "b"] /\
  (entryAt r2 1 = Some (mkLogEntry 1 1 "a") /\
   (exists x, x ∈ es /\ entryAt r3 1 = Some x /\ Term x = 2 /\ Term x <> 1) /\ 0%nat ∈ closedChans r4).
Proof.
  destruct (Server_write quiet_env "a" deposed_leader) as [r2 res] eqn:E.
  assert (res = inl 0%nat) as -> by (vm_compute in E; injection E as _ <-; reflexivity).
  assert (request_wf overwriting_request) as Hreq
    by (unfold request_wf, overwriting_request; cbn; rewrite contiguous_cons; auto with mimori).
  assert (log_wf deposed_leader) as Hwf
    by (split; [done|]; cbn [log logBaseIndex deposed_leader example_node]; rewrite contiguous_cons;
        auto with mimori).
  assert (acceptable overwriting_request r2) as Hacc.
  { vm_compute in E. injection E as <-. split; [reflexivity|]. split; [vm_compute; discriminate|].
    cbn. lia. }
  pose proof (lost_write_acknowledged 9 9 None "a" deposed_leader r2 0%nat overwriting_request
    (mkLogEntry 1 2 "b") Hwf ltac:(cbn; lia) ltac:(cbn; lia) E Hreq Hacc ltac:(set_solver) eq_refl
    ltac:(cbn; lia) ltac:(cbn; lia)) as H. cbv zeta in H.
  assert ((applierLoop (Z.to_nat (commitIndex (AppendEntries 9 overwriting_request r2).1
             - lastApplied (AppendEntries 9 overwriting_request r2).1)) 9 9 None
             (AppendEntries 9 overwriting_request r2).1).1 = [mkLogEntry 1 2 "b"]) as Hes
    by (clear H Hacc; vm_compute in E; injection E as <-; vm_compute; reflexivity).
  cbv zeta. destruct (applierLoop _ 9 9 None _) as [es r4]. cbn [fst] in Hes. split; [reflexivity|].
  split; [exact Hes|exact H].
Defined.
