(* ===== verification/Rest.v ===== *)
(** * The HTTP endpoints

    api/server.go: the health, readiness, status and snapshot endpoints of
    [ListenAndServe], the key-value routes of [setupRESTAPI] with their
    handlers, [proxyToLeader], the membership and leadership handlers and
    [writeError].  A handler gives its answer, the request it forwards to the
    leader, or the channel it blocks on; [env] is what other goroutines do to
    the node between a handler's calls, as in [Api].  A panic of the node is
    [None]. *)
From stdpp Require Import gmap strings list pretty.
From Stdlib Require Import ZArith Ascii Lia.
From S2P Require Import Prelude GoStrings GoJson GoText Types Addr Stores Commands RaftNode Replication SnapshotOps Applier Admin KvStore Api.

Local Open Scope string_scope.

(** ** Requests and responses *)

(** The status, the content type if the handler sets one, and the body. *)
Record HttpResponse := mkHttpResponse {
  StatusCode : Z; ContentType : option string; RespBody : string }.

Definition newline : string := String "010" "".

(** [http.Error(w, msg, code)] *)
Definition http_Error (msg : string) (code : Z) : HttpResponse :=
  mkHttpResponse code (Some "text/plain; charset=utf-8") (msg +:+ newline).

(** [json.NewEncoder(w).Encode(v)]; the keys of a Go map come out sorted. *)
Definition json_response (code : Z) (v : json) : HttpResponse :=
  mkHttpResponse code (Some "application/json") (marshal v +:+ newline).

Inductive rest_outcome :=
  | Answer (resp : HttpResponse)
  | Forward (method url contentType body : string)
  | Await (ch : nat).

(** [url.QueryUnescape] ([plus]) and [url.PathUnescape]. *)
Fixpoint unescape (plus : bool) (s : string) : option string :=
  match s with
  | "" => Some ""
  | String "%" (String a (String b s')) =>
    match hex_val a, hex_val b with
    | Some x, Some y => String (ascii_of_N (x * 16 + y)) <$> unescape plus s'
    | _, _ => None
    end
  | String "%" _ => None
  | String c s' =>
    String (if plus && Ascii.eqb c "+" then " "%char else c) <$> unescape plus s'
  end.

(** [strings.Cut] as Go has it: everything and nothing if there is no
    separator. *)
Definition cut_default (sep : ascii) (s : string) : string * string :=
  default (s, "") (str_cut sep s).

(** [url.ParseQuery]: malformed settings are left out. *)
Definition parse_setting (setting : string) : option (string * string) :=
  if has_byte ";" setting || bool_decide (setting = "") then None
  else
    let '(k, v) := cut_default "=" setting in
    match unescape true k, unescape true v with
    | Some k, Some v => Some (k, v)
    | _, _ => None
    end.

Definition query_get (name query : string) : string :=
  match list_find (fun kv => kv.1 = name) (omap parse_setting (str_split "&" query)) with
  | Some (_, (_, v)) => v
  | None => ""
  end.

(** [json.NewDecoder(r.Body).Decode(&x)]: the first value of the body counts,
    what follows it is not read. *)
Definition decode_body {R} (fs : list (field R)) (zero : R) (r : HttpRequest) : option R :=
  match Body r with
  | inl data =>
    match parse_value (2 * String.length data + 2) data with
    | Some (v, _) => decode_struct fs zero v
    | None => None
    end
  | inr _ => None
  end.

(** [struct{ Value string `json:"value"` }] and its likes: one string field. *)
Definition one_field (name : string) : list (field string) :=
  [(name, fun v old => decode_string v old)].

(** [writeError] *)
Definition http_code (c : code) : Z :=
  match c with
  | FailedPrecondition => 412
  | NotFound => 404
  | InvalidArgument => 400
  | OtherCode _ => 500
  end.

Definition writeError (err : api_error) : HttpResponse :=
  match err with
  | StatusError c msg => json_response (http_code c) (JObj [("error", JStr msg)])
  | PlainError msg => http_Error msg 500
  end.

Definition writeLeaderJSONError (r : HttpRequest) (c : Z) (msg : string) (leaderID : NodeID)
    : HttpResponse :=
  json_response c
    (JObj [("error", JStr msg); ("leader_http", JStr (publicHTTPBaseForNodeID r leaderID));
           ("leader_id", JStr leaderID)]).

Section handlers.
Context {S : Type} `{KV S}.
Variable env : nat -> Raft -> Raft.
(** The error of [http.NewRequestWithContext] for a method and URL. *)
Variable buildError : string -> string -> option string.

Definition shift (k : nat) : nat -> Raft -> Raft := fun j => env (k + j).

(** ** Forwarding *)

Definition proxyToLeader (r : HttpRequest) (n : Raft) : rest_outcome :=
  let leaderID := LeaderID n in
  if bool_decide (leaderID = "") then Answer (http_Error "no leader elected" 503)
  else
    let base := leaderHTTPBase leaderID in
    if bool_decide (base = "") then Answer (http_Error "leader http address unknown" 502)
    else
      match Body r with
      | inr err => Answer (http_Error ("read request body: " +:+ err) 400)
      | inl body =>
        let u := base +:+ Path r in
        let u := if bool_decide (RawQuery r = "") then u else u +:+ "?" +:+ RawQuery r in
        match buildError (Method r) u with
        | Some err => Answer (http_Error ("build proxy request: " +:+ err) 500)
        | None => Forward (Method r) u (header_get "Content-Type" r) body
        end
      end.

(** The leader's response, or the error of the call, goes back to the client. *)
Definition proxyAnswered (result : HttpResponse + string) : HttpResponse :=
  match result with
  | inr err => http_Error ("proxy to leader failed: " +:+ err) 502
  | inl resp =>
    mkHttpResponse (StatusCode resp)
      (if bool_decide (ContentType resp = Some "") then None else ContentType resp) (RespBody resp)
  end.

(** ** Keys and values *)

Definition handleGet (now : Z) (r : HttpRequest) (key : string) (n : Raft) (s : S)
    : Raft * rest_outcome :=
  let allowStale := bool_decide (query_get "allow_stale" (RawQuery r) = "true") in
  if negb (IsLeader n) && negb allowStale then
    let n := env 0 n in (n, proxyToLeader r n)
  else
    let n := env 0 n in
    match Server_Get (shift 1) now key allowStale n s with
    | (n, inr err) => (n, Answer (writeError err))
    | (n, inl (value, found)) =>
      (n, Answer (json_response 200 (JObj [("found", JBool found); ("value", JStr value)])))
    end.

Definition handlePut (r : HttpRequest) (key : string) (n : Raft) : Raft * rest_outcome :=
  if negb (IsLeader n) then
    let n := env 0 n in (n, proxyToLeader r n)
  else
    match decode_body (one_field "value") "" r with
    | None => (n, Answer (http_Error "invalid request body" 400))
    | Some value =>
      match Server_Put (shift 1) key value (env 0 n) with
      | (n, inr err) => (n, Answer (writeError err))
      | (n, inl ch) => (n, Await ch)
      end
    end.

Definition handlePut_end : HttpResponse := json_response 200 (JObj [("ok", JBool true)]).

Definition handleDelete (r : HttpRequest) (key : string) (n : Raft) : Raft * rest_outcome :=
  if negb (IsLeader n) then
    let n := env 0 n in (n, proxyToLeader r n)
  else
    match Server_Delete (shift 1) key (env 0 n) with
    | (n, inr err) => (n, Answer (writeError err))
    | (n, inl ch) => (n, Await ch)
    end.

Definition handleDelete_end : HttpResponse := json_response 200 (JObj [("deleted", JBool true)]).

(** The handler of ["/api/kv/"]. *)
Definition kv_route (now : Z) (r : HttpRequest) (n : Raft) (s : S) : Raft * rest_outcome :=
  let key := if has_prefix "/api/kv/" (Path r) then str_drop 8 (Path r) else Path r in
  if bool_decide (key = "") then (n, Answer (http_Error "key required" 400))
  else if bool_decide (Method r = "GET") then handleGet now r key n s
  else if bool_decide (Method r = "PUT") then handlePut r key n
  else if bool_decide (Method r = "DELETE") then handleDelete r key n
  else (n, Answer (http_Error "method not allowed" 405)).

(** ** Membership and leadership *)

(** The answer for an [AdminResponse]. *)
Definition admin_answer (resp : AdminResponse) : HttpResponse :=
  json_response (if adm_Success resp then 200 else 400)
    (JObj [("error", JStr (adm_Error resp)); ("success", JBool (adm_Success resp))]).

(** [AddNodeRequest]'s body also has an [addr], which is read and not used. *)
Definition ignored_field (name : string) : list (field string) :=
  [(name, fun v old => (fun _ => old) <$> decode_string v "")].

(** The common guards of the three handlers: method, leadership, body, and a
    field that must not be empty. *)
Definition admin_guard (name : string) (more : list (field string)) (r : HttpRequest) (n : Raft)
    : Raft * (string + rest_outcome) :=
  if negb (bool_decide (Method r = "POST")) then
    (n, inr (Answer (http_Error "method not allowed" 405)))
  else if negb (IsLeader n) then
    let n := env 0 n in (n, inr (proxyToLeader r n))
  else
    match decode_body (one_field name ++ more)%list "" r with
    | None => (n, inr (Answer (http_Error "invalid request body" 400)))
    | Some "" => (n, inr (Answer (http_Error (name +:+ " required") 400)))
    | Some id => (env 0 n, inl id)
    end.

Definition handleConfigChange (osText : string) (changeType : ConfigChangeType) (r : HttpRequest)
    (n : Raft) : option (Raft * rest_outcome) :=
  let more := match changeType with
              | ConfigAddNode => ignored_field "addr"
              | ConfigRemoveNode => []
              end in
  match admin_guard "node_id" more r n with
  | (n, inr out) => Some (n, out)
  | (n, inl id) =>
    match configChangeRPC_begin osText changeType id n with
    | None => None
    | Some (n, inl ch) => Some (n, Await ch)
    | Some (n, inr resp) => Some (n, Answer (admin_answer resp))
    end
  end.

Definition handleAddNode (osText : string) := handleConfigChange osText ConfigAddNode.

Definition handleAddNode_end (osText : string) (woken : bool) : HttpResponse :=
  admin_answer (AddNode_end osText woken).

Definition handleTransferLeadership (osText : string) (r : HttpRequest) (n : Raft)
    : Raft * rest_outcome :=
  match admin_guard "target_node_id" [] r n with
  | (n, inr out) => (n, out)
  | (n, inl id) =>
    let '(n, resp) := TransferLeadership osText id n in (n, Answer (admin_answer resp))
  end.
End handlers.

(** ** Status endpoints *)

Definition Status_json (st : Status) : json :=
  JObj [("id", JStr (st_ID st)); ("state", JStr (st_State st)); ("term", enc_int (st_Term st));
        ("leader_id", JStr (st_LeaderID st)); ("commit_index", enc_int (st_CommitIndex st));
        ("last_applied", enc_int (st_LastApplied st)); ("log_length", enc_int (st_LogLength st))].

Definition healthz (n : Raft) : HttpResponse :=
  let st := Raft_Status n in
  json_response 200 (JObj [("node_id", JStr (st_ID st)); ("raft_state", JStr (st_State st));
                           ("status", JStr "ok"); ("term", enc_int (st_Term st))]).

Definition ready (n : Raft) : HttpResponse :=
  let st := Raft_Status n in
  if bool_decide (st_LeaderID st = "") then
    json_response 503 (JObj [("node_id", JStr (st_ID st)); ("raft_state", JStr (st_State st));
                             ("ready", JBool false); ("reason", JStr "no leader elected")])
  else
    json_response 200 (JObj [("leader_id", JStr (st_LeaderID st)); ("node_id", JStr (st_ID st));
                             ("raft_state", JStr (st_State st)); ("ready", JBool true)]).

Definition raft_status (n : Raft) : HttpResponse := json_response 200 (Status_json (Raft_Status n)).

(** ["/raft/snapshot"]: the refusal sets no content type. *)
Definition raft_snapshot (env : nat -> Raft -> Raft) (nowUnix : Z) (stateBytes : option string)
    (r : HttpRequest) (n : Raft) : Raft * HttpResponse :=
  if negb (bool_decide (Method r = "POST")) then (n, mkHttpResponse 405 None "")
  else if negb (IsLeader n) then
    let n := env 0%nat n in
    (n, mkHttpResponse 412 None
          (marshal (JObj [("error", JStr "not leader"); ("leader_id", JStr (LeaderID n))]) +:+ newline))
  else
    let n := ForceSnapshot nowUnix stateBytes (env 0%nat n) in
    let n := env 1%nat n in
    (n, json_response 200 (JObj [("message", JStr "snapshot created");
                                 ("raft_status", Status_json (Raft_Status n));
                                 ("status", JStr "ok")])).

Definition handleClusterStatus (r : HttpRequest) (env : nat -> Raft -> Raft) (n : Raft) : HttpResponse :=
  if negb (bool_decide (Method r = "GET")) then http_Error "method not allowed" 405
  else
    let st := Raft_Status n in
    let peers := GetPeers (env 0%nat n) in
    json_response 200
      (JObj [("leader_id", JStr (st_LeaderID st));
             ("node_count", enc_int (Z.of_nat (length peers) + 1));
             ("nodes", enc_strings (st_ID st :: peers)); ("term", enc_int (st_Term st))]).

Definition handleStatus (now : Z) (r : HttpRequest) (env : nat -> Raft -> Raft) (n : Raft)
    : HttpResponse :=
  if negb (bool_decide (Method r = "GET")) then http_Error "method not allowed" 405
  else
    let st := Raft_Status n in
    let n := env 0%nat n in let peers := GetPeers n in
    let n := env 1%nat n in let isLeader := IsLeader n in
    let n := env 2%nat n in let hasLease := HasReadLease now n in
    json_response 200
      (JObj [("commit_index", enc_int (st_CommitIndex st)); ("has_read_lease", JBool hasLease);
             ("is_leader", JBool isLeader); ("last_applied", enc_int (st_LastApplied st));
             ("leader_id", JStr (st_LeaderID st)); ("log_length", enc_int (st_LogLength st));
             ("node_id", JStr (st_ID st)); ("peer_count", enc_int (Z.of_nat (length peers)));
             ("peers", enc_strings peers); ("state", JStr (st_State st));
             ("term", enc_int (st_Term st))]).

(** ** Forwarding is transparent *)

(** Path and query of the part of a URL after the host ([url.Parse]). *)
Definition url_target (t : string) : option (string * string) :=
  let '(t, _) := cut_default "#" t in
  let '(p, q) := cut_default "?" t in
  (fun p => (p, q)) <$> unescape false p.

(** The request a node receives when another one forwards to it. *)
Definition received (leaderHost method contentType body : string) (target : string * string)
    : HttpRequest :=
  mkHttpRequest method target.1 target.2 leaderHost false
    (if bool_decide (contentType = "") then ∅ else {["Content-Type" := contentType]}) (inl body).

Lemma unescape_plain s : has_byte "%" s = false -> unescape false s = Some s.
Proof.
  induction s as [|c s IH]; [done|]. cbn [has_byte]. intros [Hc Hs]%orb_false_iff.
  specialize (IH Hs). cbn [unescape]. rewrite IH.
  destruct c as [[] [] [] [] [] [] [] []]; try done.
Qed.

Lemma cut_default_none sep s : has_byte sep s = false -> cut_default sep s = (s, "").
Proof. intros H. unfold cut_default. by rewrite str_cut_none. Qed.

Lemma cut_default_app sep a b :
  has_byte sep a = false -> cut_default sep (a +:+ String sep b) = (a, b).
Proof. intros H. unfold cut_default. by rewrite str_cut_app. Qed.

Lemma url_target_plain p q :
  has_byte "#" p = false -> has_byte "?" p = false -> has_byte "%" p = false ->
  has_byte "#" q = false ->
  url_target (if bool_decide (q = "") then p else p +:+ "?" +:+ q) = Some (p, q).
Proof.
  intros Hh Hq Hp Hh'. unfold url_target. case_bool_decide as E.
  - subst q. rewrite !cut_default_none by done. by rewrite unescape_plain.
  - change ("?" +:+ q) with (String "?" q).
    rewrite cut_default_none by (rewrite has_byte_app; cbn [has_byte]; by rewrite Hh, Hh').
    rewrite cut_default_app by done. by rewrite unescape_plain.
Qed.

Lemma decode_body_same {R} (fs : list (field R)) zero r r' :
  Body r = Body r' -> decode_body fs zero r = decode_body fs zero r'.
Proof. intros E. unfold decode_body. by rewrite E. Qed.

(** A leader's key-value routes look at method, path, query and body only. *)
Lemma kv_route_leader {S} `{KV S} env be now r r' (n : Raft) (s : S) :
  IsLeader n = true -> Method r = Method r' -> Path r = Path r' -> RawQuery r = RawQuery r' ->
  Body r = Body r' -> kv_route env be now r n s = kv_route env be now r' n s.
Proof.
  intros Hl Hm Hp Hq Hb. unfold kv_route, handleGet, handlePut, handleDelete.
  rewrite Hl, Hm, Hp, Hq, (decode_body_same _ _ r r' Hb). done.
Qed.

(** C29: a request sent to a follower is handled as if sent to the leader.  When
    a follower forwards a request whose path has no ['%'], ['?'] or ['#'], the
    URL it asks for is the known leader's HTTP base followed by a target that
    the leader reads back as the same path and query; and a leader, whatever
    else happens on it, does with the request it receives exactly what it does
    with the original one. *)
Theorem forward_transparent {S} `{KV S} env be now r (F L : Raft) (s : S) m u ct body :
  has_byte "#" (Path r) = false -> has_byte "?" (Path r) = false ->
  has_byte "%" (Path r) = false -> has_byte "#" (RawQuery r) = false ->
  proxyToLeader be r F = Forward m u ct body -> IsLeader L = true ->
  exists target pq,
    u = leaderHTTPBase (LeaderID F) +:+ target /\ url_target target = Some pq /\
    pq = (Path r, RawQuery r) /\
    kv_route env be now (received (LeaderID F) m ct body pq) L s = kv_route env be now r L s.
Proof.
  intros H1 H2 H3 H4 Hf Hl. unfold proxyToLeader in Hf.
  destruct (bool_decide (LeaderID F = "")); [done|].
  destruct (bool_decide (leaderHTTPBase (LeaderID F) = "")); [done|].
  destruct (Body r) as [b|err] eqn:Hb; [|done].
  destruct (be _ _); [done|]. injection Hf as <- <- <- <-.
  exists (if bool_decide (RawQuery r = "") then Path r else Path r +:+ "?" +:+ RawQuery r).
  exists (Path r, RawQuery r). split.
  { case_bool_decide; [done|]. by rewrite sapp_assoc. }
  split; [by apply url_target_plain|]. split; [done|]. by apply kv_route_leader.
Qed.

(** The path is forwarded in its decoded form, so a key with a question mark
    is cut there: the leader writes another key. *)
Example forward_cuts_key :
  let F := (example_node "n2" ["n1:4000"] Follower 1 [mkLogEntry 0 0 ""]) <| leader := "n1:4000" |> in
  let r := mkHttpRequest "PUT" "/api/kv/a?b" "" "n2:4003" false ∅ (inl "{}") in
  exists u, proxyToLeader (fun _ _ => None) r F = Forward "PUT" u "" "{}" /\
    u = "http://n1:4001/api/kv/a?b" /\ url_target "/api/kv/a?b" = Some ("/api/kv/a", "b").
Proof. eexists. split; [vm_compute; reflexivity|]. by split. Qed.

Lemma forward_transparent_witness :
  let F := (example_node "n2:4002" ["n1:4000"] Follower 1 [mkLogEntry 0 0 ""]) <| leader := "n1:4000" |> in
  let r := mkHttpRequest "PUT" "/api/kv/k" "x=1" "n2:4003" false ∅ (inl "{}") in
  proxyToLeader (fun _ _ => None) r F = Forward "PUT" "http://n1:4001/api/kv/k?x=1" "" "{}" /\
  exists target pq,
    "http://n1:4001/api/kv/k?x=1" = leaderHTTPBase (LeaderID F) +:+ target /\
    url_target target = Some pq /\ pq = (Path r, RawQuery r) /\
    kv_route quiet_env (fun _ _ => None) 0 (received (LeaderID F) "PUT" "" "{}" pq) api_leader (∅ : kvmap)
    = kv_route quiet_env (fun _ _ => None) 0 r api_leader (∅ : kvmap).
Proof.
  intros F r.
  assert (proxyToLeader (fun _ _ => None) r F = Forward "PUT" "http://n1:4001/api/kv/k?x=1" "" "{}")
    as Hf by (vm_compute; reflexivity).
  split; [exact Hf|].
  exact (forward_transparent quiet_env (fun _ _ => None) 0 r F api_leader (∅ : kvmap) _ _ _ _
           eq_refl eq_refl eq_refl eq_refl Hf eq_refl).
Defined.
