(* ===== verification/Cluster.v ===== *)
(** * The peer monitor

    internal/cluster/cluster.go: the list of known peers with the outcome of
    the last health check of each.  A check asks the ["/healthz"] endpoint on
    the peer's HTTP port; [ask] is the network: the response to a URL at the
    time of the check, or [None] when the request fails.  (The code sends a nil
    request, and panics, for a host no URL can be built from; such hosts are
    outside the model.) *)
From stdpp Require Import gmap strings list pretty.
From Stdlib Require Import ZArith Lia.
From S2P Require Import Prelude GoStrings GoText Types Addr Stores Commands RaftNode KvStore Api Rest.

Local Open Scope Z_scope.

(** ** State and operations *)

Record Node := mkNode { Addr : string; Alive : bool; LastOK : Z }.

#[export] Instance eta_Node : Eta Node := fun n => mkNode (Addr n) (Alive n) (LastOK n).

(** The [stop] channel is closed or not; closing it twice panics. *)
Record Cluster := mkCluster { SelfAddr : string; Peers : list Node; stopped : bool }.

#[export] Instance eta_Cluster : Eta Cluster := fun c => mkCluster (SelfAddr c) (Peers c) (stopped c).

Definition New (selfAddr : string) (peers : list string) : Cluster :=
  mkCluster selfAddr
    (map (fun addr => mkNode addr false 0) (filter (fun addr => addr <> selfAddr) peers)) false.

Definition Stop (c : Cluster) : option Cluster :=
  if stopped c then None else Some (c <| stopped := true |>).

(** The URL a peer is checked at; [None] for an address without a port. *)
Definition health_url (addr : string) : option string :=
  let '(host, basePort) := ParseHostPort addr in
  if basePort =? 0 then None
  else
    let host := if bool_decide (host = "") then "127.0.0.1" else host in
    Some ("http://" +:+ host_port host (int64 (basePort + 1)) +:+ "/healthz").

Definition pingPeer (ask : string -> option HttpResponse) (now : Z) (peer : Node) : Node :=
  match health_url (Addr peer) with
  | None => peer <| Alive := false |>
  | Some url =>
    match ask url with
    | Some resp =>
      if StatusCode resp =? 200 then peer <| Alive := true |> <| LastOK := now |>
      else peer <| Alive := false |>
    | None => peer <| Alive := false |>
    end
  end.

(** One check after the other: [now i] is the time of the [i]-th. *)
Definition pingPeers (ask : string -> option HttpResponse) (now : nat -> Z) (c : Cluster) : Cluster :=
  c <| Peers := imap (fun i => pingPeer ask (now i)) (Peers c) |>.

Definition PeersStatus (c : Cluster) : list Node := Peers c.

(** ** Correctness *)

Lemma health_url_host_port h p :
  plain_host h = true -> h <> "" -> 0 < p < two63 - 1 ->
  health_url (host_port h p) = Some ("http://" +:+ host_port h (p + 1) +:+ "/healthz").
Proof.
  intros Hh Hne Hp. unfold health_url.
  rewrite ParseHostPort_host_port by (done || unfold in_int64, two63 in *; lia).
  rewrite (proj2 (Z.eqb_neq p 0)) by lia. rewrite bool_decide_eq_false_2 by done.
  rewrite int64_id by (unfold two63 in *; lia). done.
Qed.

(** The peer monitor.  It never lists the node itself.  A round of checks
    keeps the peers and their order; a peer is alive afterwards exactly when
    its address has a port and the endpoint after that port answered 200, and
    the time of its last success is the time of this check in that case and
    unchanged otherwise.  In particular a peer ["host:port"] whose node answers
    its own health endpoint there is alive. *)
Theorem pingPeers_spec ask now c i peer :
  Peers c !! i = Some peer ->
  exists peer', Peers (pingPeers ask now c) !! i = Some peer' /\ Addr peer' = Addr peer /\
    (Alive peer' = true <->
       exists url resp, health_url (Addr peer) = Some url /\ ask url = Some resp /\ StatusCode resp = 200) /\
    LastOK peer' = (if Alive peer' then now i else LastOK peer) /\
    length (Peers (pingPeers ask now c)) = length (Peers c) /\
    (forall h p n, Addr peer = host_port h p -> plain_host h = true -> h <> "" -> 0 < p < two63 - 1 ->
       ask ("http://" +:+ host_port h (p + 1) +:+ "/healthz") = Some (healthz n) -> Alive peer' = true).
Proof.
  intros Hi. exists (pingPeer ask (now i) peer).
  assert ((Alive (pingPeer ask (now i) peer) = true <->
     exists url resp, health_url (Addr peer) = Some url /\ ask url = Some resp /\ StatusCode resp = 200) /\
     Addr (pingPeer ask (now i) peer) = Addr peer /\
     LastOK (pingPeer ask (now i) peer)
       = (if Alive (pingPeer ask (now i) peer) then now i else LastOK peer)) as (H1 & H2 & H3).
  { unfold pingPeer. destruct (health_url (Addr peer)) as [url|]; [|naive_solver].
    destruct (ask url) as [resp|] eqn:Ha; [|naive_solver].
    destruct (Z.eqb_spec (StatusCode resp) 200); naive_solver. }
  split_and!; try done.
  - unfold pingPeers. simpl. by rewrite list_lookup_imap, Hi.
  - unfold pingPeers. simpl. apply length_imap.
  - intros h p n Ea Hh Hne Hp Hask. apply H1. rewrite Ea, health_url_host_port by done. by eauto.
Qed.

(** The monitor's list: the given peers without the node itself. *)
Lemma New_peers self peers : map Addr (Peers (New self peers)) = filter (fun a => a <> self) peers.
Proof. unfold New. simpl. rewrite map_map. by apply map_id. Qed.

Lemma pingPeers_spec_witness :
  let c := New ":4000" [":4000"; "n2:4002"; "bad"] in
  let ask := fun u => if bool_decide (u = "http://n2:4003/healthz")
                      then Some (healthz (example_node "n2:4002" [] Follower 1 [])) else None in
  Peers c !! 0%nat = Some (mkNode "n2:4002" false 0) /\
  Peers (pingPeers ask (fun _ => 9) c) = [mkNode "n2:4002" true 9; mkNode "bad" false 0] /\
  exists peer', Peers (pingPeers ask (fun _ => 9) c) !! 0%nat = Some peer' /\ Addr peer' = "n2:4002" /\
    (Alive peer' = true <->
       exists url resp, health_url "n2:4002" = Some url /\ ask url = Some resp /\ StatusCode resp = 200) /\
    LastOK peer' = (if Alive peer' then 9 else 0) /\
    length (Peers (pingPeers ask (fun _ => 9) c)) = length (Peers c) /\
    (forall h p n, "n2:4002" = host_port h p -> plain_host h = true -> h <> "" -> 0 < p < two63 - 1 ->
       ask ("http://" +:+ host_port h (p + 1) +:+ "/healthz") = Some (healthz n) -> Alive peer' = true).
Proof.
  intros c ask.
  assert (Peers c !! 0%nat = Some (mkNode "n2:4002" false 0)) as H by (vm_compute; reflexivity).
  split; [exact H|]. split; [vm_compute; reflexivity|].
  exact (pingPeers_spec ask (fun _ => 9) c 0 (mkNode "n2:4002" false 0) H).
Defined.
