(* ===== verification/Dashboard.v ===== *)
(** * The node list of the dashboard

    api/server.go: [handleClusterNodes].  The handler asks every peer for its
    status over HTTP, twice if the first attempt fails, and answers with the
    node itself and all its peers, ordered by port.  The answers the peers
    give, or fail to give, are inputs. *)
From stdpp Require Import gmap strings list pretty sorting.
From Stdlib Require Import ZArith Ascii Lia.
From S2P Require Import Prelude GoStrings GoJson GoText Types Addr Stores Commands RaftNode KvStore Api Rest.

Local Open Scope string_scope.

(** ** The status a peer reports *)

Record apiStatus := mkApiStatus { as_NodeID : string; as_State : string; as_Term : Z; as_IsLeader : bool }.

#[export] Instance eta_apiStatus : Eta apiStatus :=
  fun r => mkApiStatus (as_NodeID r) (as_State r) (as_Term r) (as_IsLeader r).

Definition decode_bool (v : json) (old : bool) : option bool :=
  match v with JBool b => Some b | JNull => Some old | _ => None end.

Definition apiStatus_fields : list (field apiStatus) :=
  [("node_id", fun v r => (fun x => r <| as_NodeID := x |>) <$> decode_string v (as_NodeID r));
   ("state", fun v r => (fun x => r <| as_State := x |>) <$> decode_string v (as_State r));
   ("term", fun v r => (fun x => r <| as_Term := x |>) <$> decode_int v (as_Term r));
   ("is_leader", fun v r => (fun x => r <| as_IsLeader := x |>) <$> decode_bool v (as_IsLeader r))].

(** One attempt: the status decoded from the response, or [None] on any error. *)
Definition tryOnce (resp : option HttpResponse) : option apiStatus :=
  match resp with
  | None => None
  | Some resp =>
    if negb (StatusCode resp =? 200)%Z then None
    else
      match parse_value (2 * String.length (RespBody resp) + 2) (RespBody resp) with
      | Some (v, _) => decode_struct apiStatus_fields (mkApiStatus "" "" 0 false) v
      | None => None
      end
  end.

Record nodeView := mkNodeView {
  nv_ID : string; nv_State : string; nv_Term : Z; nv_IsLeader : bool; nv_Reachable : bool }.

(** The view of a peer; [ask k url] is the response to the [k]-th attempt (the
    time stamp that keeps the URL from being cached is left out). *)
Definition peerView (ask : nat -> string -> option HttpResponse) (peerID : NodeID) : nodeView :=
  let base := leaderHTTPBase peerID in
  if bool_decide (base = "") then mkNodeView peerID "unknown" 0 false false
  else
    let url := base +:+ "/api/status" in
    let s := match tryOnce (ask 0%nat url) with
             | Some s => Some s
             | None => tryOnce (ask 1%nat url)
             end in
    match s with
    | None => mkNodeView peerID "unreachable" 0 false false
    | Some s => mkNodeView (as_NodeID s) (as_State s) (as_Term s) (as_IsLeader s) true
    end.

(** ** The order of the list *)

Definition nv_port (v : nodeView) : Z := (ParseHostPort (nv_ID v)).2.

(** The negation of [less(j, i)]: [sort.Slice] puts [a] before [b]. *)
Definition nv_le (a b : nodeView) : Prop :=
  (nv_port a < nv_port b)%Z \/ (nv_port a = nv_port b /\ String.le (nv_ID a) (nv_ID b)).

#[export] Instance nv_le_dec a b : Decision (nv_le a b).
Proof. unfold nv_le. apply _. Defined.

#[export] Instance nv_le_total : Total nv_le.
Proof.
  intros a b. unfold nv_le.
  destruct (Z.lt_trichotomy (nv_port a) (nv_port b)) as [?|[?|?]]; [by left; left| |by right; left].
  destruct (total String.le (nv_ID a) (nv_ID b)); [left|right]; right; done.
Qed.

#[export] Instance nv_le_trans : Transitive nv_le.
Proof.
  intros a b c. unfold nv_le. intros [?|[? ?]] [?|[? ?]]; try (left; lia).
  right. split; [lia|]. by trans (nv_ID b).
Qed.

(** Views with the same identifier may come in either order; distinct ones
    have one place. *)
Lemma nv_le_antisym a b : nv_le a b -> nv_le b a -> nv_ID a = nv_ID b.
Proof. unfold nv_le. intros [?|[? Ha]] [?|[? Hb]]; try lia. by apply (anti_symm String.le). Qed.

Definition nodeView_json (v : nodeView) : json :=
  JObj [("id", JStr (nv_ID v)); ("is_leader", JBool (nv_IsLeader v));
        ("reachable", JBool (nv_Reachable v)); ("state", JStr (nv_State v));
        ("term", enc_int (nv_Term v))].

(** The nodes listed: peers and status are read one after the other, and
    leadership again after the peers have answered. *)
Definition clusterNodes (env : nat -> Raft -> Raft) (ask : nat -> string -> option HttpResponse)
    (n : Raft) : list nodeView :=
  let peers := GetPeers n in
  let n := env 0%nat n in
  let st := Raft_Status n in
  let self := mkNodeView (st_ID st) (st_State st) (st_Term st) (IsLeader (env 1%nat n)) true in
  merge_sort nv_le (self :: map (peerView ask) peers).

Definition handleClusterNodes (env : nat -> Raft -> Raft) (ask : nat -> string -> option HttpResponse)
    (r : HttpRequest) (n : Raft) : HttpResponse :=
  if negb (bool_decide (Method r = "GET")) then http_Error "method not allowed" 405
  else json_response 200 (JObj [("nodes", JArr (map nodeView_json (clusterNodes env ask n)))]).

(** ** Reading a peer's status back *)

(** The identifiers of a node are valid UTF-8 and its counters fit an [int]. *)
Definition reportable (n : Raft) : Prop :=
  utf8_valid (nodeId n) = true /\ utf8_valid (leader n) = true /\
  Forall (fun p => utf8_valid p = true) (peers n) /\ in_int64 (term n).

Lemma handleStatus_json_ok now n :
  reportable n ->
  exists members, RespBody (handleStatus now (mkHttpRequest "GET" "/api/status" "" "" false ∅ (inl ""))
                              (fun _ n => n) n) = marshal (JObj members) +:+ newline /\
    json_ok (JObj members) = true /\
    decode_members apiStatus_fields members (mkApiStatus "" "" 0 false)
    = Some (mkApiStatus (nodeId n) (RaftState_String (state n)) (term n) (IsLeader n)).
Proof.
  intros (Hi & Hl & Hp & Ht). eexists. split; [reflexivity|].
  unfold Raft_Status, GetPeers.
  cbn [st_ID st_State st_Term st_LeaderID st_CommitIndex st_LastApplied st_LogLength]. split.
  - cbn [json_ok forallb]. rewrite !enc_int_ok, enc_strings_ok, Hi, Hl by done. by destruct (state n).
  - repeat (decode_hit || decode_miss). done.
Qed.

(** A live peer's answer, decoded by the asker. *)
Lemma tryOnce_handleStatus now n :
  reportable n ->
  tryOnce (Some (handleStatus now (mkHttpRequest "GET" "/api/status" "" "" false ∅ (inl ""))
                   (fun _ n => n) n))
  = Some (mkApiStatus (nodeId n) (RaftState_String (state n)) (term n) (IsLeader n)).
Proof.
  intros Hn. destruct (handleStatus_json_ok now n Hn) as (members & Hb & Hok & Hd).
  unfold tryOnce. rewrite Hb. change (StatusCode _) with 200%Z. cbn [negb Z.eqb Pos.eqb].
  rewrite sapp_length. change (String.length newline) with 1%nat.
  rewrite (parse_print _ Hok) by
    (reflexivity || (pose proof (jsize_print _ Hok); unfold marshal; lia)).
  exact Hd.
Qed.

(** C36: the list of nodes.  The answer lists the node itself and every peer
    once, ordered by port and then by identifier; the order is the only one
    with that property when the identifiers listed are distinct, so the list
    does not depend on how the sort or the concurrent requests went.  A peer
    that answers, at the first or the second attempt, with its own status page
    is listed with its true identifier, role, term and leadership; one that
    does not answer is listed as unreachable. *)
Theorem clusterNodes_spec env ask n :
  let self := mkNodeView (nodeId (env 0%nat n)) (RaftState_String (state (env 0%nat n)))
                (term (env 0%nat n)) (IsLeader (env 1%nat (env 0%nat n))) true in
  let views := (self :: map (peerView ask) (peers n))%list in
  clusterNodes env ask n ≡ₚ views /\ StronglySorted nv_le (clusterNodes env ask n) /\
  (NoDup (map nv_ID views) -> forall l, l ≡ₚ views -> StronglySorted nv_le l -> l = clusterNodes env ask n) /\
  (forall p, p ∈ peers n -> leaderHTTPBase p <> "" ->
     let url := leaderHTTPBase p +:+ "/api/status" in
     let answer now m := Some (handleStatus now (mkHttpRequest "GET" "/api/status" "" "" false ∅ (inl ""))
                                 (fun _ m => m) m) in
     (forall now m, reportable m ->
        ask 0%nat url = answer now m \/ (ask 0%nat url = None /\ ask 1%nat url = answer now m) ->
        mkNodeView (nodeId m) (RaftState_String (state m)) (term m) (IsLeader m) true
          ∈ clusterNodes env ask n) /\
     (ask 0%nat url = None -> ask 1%nat url = None ->
        mkNodeView p "unreachable" 0 false false ∈ clusterNodes env ask n)).
Proof.
  intros self views.
  assert (clusterNodes env ask n ≡ₚ views) as Hperm by apply merge_sort_Permutation.
  assert (StronglySorted nv_le (clusterNodes env ask n)) as Hs by (apply StronglySorted_merge_sort; apply _).
  split; [done|]. split; [done|]. split.
  - intros Hnd l Hl Hsl. apply (StronglySorted_unique_strong nv_le); try done; [|by rewrite Hl, Hperm].
    intros x y Hx Hy Hxy Hyx. rewrite Hl in Hx. rewrite Hperm in Hy.
    pose proof (nv_le_antisym x y Hxy Hyx) as E.
    apply list_elem_of_lookup in Hx as [i Hi]. apply list_elem_of_lookup in Hy as [j Hj].
    assert (i = j) as ->; [|congruence].
    eapply (NoDup_lookup (map nv_ID views)); [done|..]; rewrite list_lookup_fmap;
      [by rewrite Hi|rewrite Hj; simpl; by rewrite E].
  - intros p Hp Hb url answer.
    assert (peerView ask p ∈ clusterNodes env ask n) as Hin.
    { rewrite Hperm. apply list_elem_of_further, list_elem_of_fmap. by exists p. }
    unfold peerView in Hin. rewrite bool_decide_eq_false_2 in Hin by done. fold url in Hin. split.
    + intros now m Hm Hask.
      replace (match tryOnce (ask 0%nat url) with Some s => Some s | None => tryOnce (ask 1%nat url) end)
        with (Some (mkApiStatus (nodeId m) (RaftState_String (state m)) (term m) (IsLeader m))) in Hin;
        [done|].
      destruct Hask as [->|[-> ->]]; [|change (tryOnce None) with (@None apiStatus)];
        unfold answer; by rewrite tryOnce_handleStatus.
    + intros H0 H1. by rewrite H0, H1 in Hin.
Qed.
