(* ===== verification/Spawn.v ===== *)
(** * Spawned nodes

    api/server.go: the [spawnManager] that hands out ports and remembers child
    processes, [handleSpawnNode], and the clean-up [handleRemoveNode] does for
    a spawned node; cmd/mimorid/main.go: how the child reads the environment
    it is given.  What the operating system is asked to do is a list of
    actions; what it answers is an input. *)
From stdpp Require Import gmap strings list pretty.
From Stdlib Require Import ZArith Ascii Lia.
From S2P Require Import Prelude GoStrings GoJson GoText Types Addr Stores Commands RaftNode Replication Applier Admin KvStore Api Rest.

Local Open Scope Z_scope.

(** ** The manager *)

(** [procs]: the process of each port. *)
Record spawnManager := mkSpawnManager { next : Z; procs : gmap Z Z }.

#[export] Instance eta_spawnManager : Eta spawnManager :=
  fun m => mkSpawnManager (next m) (procs m).

Definition newSpawnManager : spawnManager := mkSpawnManager 4002 ∅.

Definition ensureNextAtLeast (p : Z) (m : spawnManager) : spawnManager :=
  if next m <? p then m <| next := p |> else m.

Definition isReserved (reserved : list Z) (m : spawnManager) (p : Z) : bool :=
  bool_decide (p ∈ reserved) || bool_decide (is_Some (procs m !! p)).

(** [free p]: listening on port [p] succeeds.  One round per port: the fuel of
    [nextFreePort] is the number of rounds to 10000. *)
Fixpoint portScan (fuel : nat) (free : Z -> bool) (reserved : list Z) (port : Z) (m : spawnManager)
    : option Z :=
  match fuel with
  | O => None
  | S fuel' =>
    if port <? 10000 then
      if isReserved reserved m port then portScan fuel' free reserved (port + 2) m
      else if negb (free port) then portScan fuel' free reserved (port + 2) m
      else if negb (free (port + 1)) then portScan fuel' free reserved (port + 2) m
      else Some port
    else None
  end.

Definition nextFreePort (free : Z -> bool) (reserved : list Z) (m : spawnManager)
    : spawnManager * option Z :=
  match portScan (Z.to_nat (10000 - next m)) free reserved (next m) m with
  | Some port => (m <| next := port + 2 |>, Some port)
  | None => (m, None)
  end.

Definition track (port pid : Z) (m : spawnManager) : spawnManager :=
  m <| procs := <[port := pid]> (procs m) |>.

Definition remove (port : Z) (m : spawnManager) : spawnManager :=
  m <| procs := delete port (procs m) |>.

Definition get_proc (port : Z) (m : spawnManager) : option Z := procs m !! port.

(** ** Spawning *)

Inductive os_action :=
  | RemoveAll (dir : string)
  | MkdirAll (dir : string)
  | Start (environ : list (string * string))
  | WritePid (dir : string) (pid : Z)
  | Kill (pid : Z).

Definition spawn_dir (port : Z) : string := "data-spawn/node-" +:+ pretty port.

Definition reserved_ports (selfPort : Z) (ps : list NodeID) : list Z :=
  selfPort :: filter (fun p => 0 < p) (map (fun p => (ParseHostPort p).2) ps).

(** The identifiers the child is given: its own and its peers'. *)
Definition spawn_ids (r : HttpRequest) (selfID : NodeID) (ps : list NodeID) (port : Z)
    : NodeID * list NodeID :=
  let hostForIDs := requestHost (Some r) in
  let hostForIDs :=
    match dockerNodeIDRe selfID with
    | Some _ => let h := (ParseHostPort selfID).1 in
                if bool_decide (h = "") then hostForIDs else h
    | None => hostForIDs
    end in
  (host_port hostForIDs port,
   normalizeNodeIDForHost selfID hostForIDs :: map (fun p => normalizeNodeIDForHost p hostForIDs) ps).

(** The child's environment: the node's own, [osEnviron], and four settings. *)
Definition spawn_environ (osEnviron : list (string * string)) (port : Z) (nodeID : NodeID)
    (peerIDs : list NodeID) : list (string * string) :=
  osEnviron ++
  [("MIMORI_ADDR", ":" +:+ pretty port); ("MIMORI_NODE_ID", nodeID);
   ("MIMORI_DATA", spawn_dir port); ("MIMORI_PEERS", str_join "," peerIDs)].

Definition docker_refusal : string :=
  "spawn-node is disabled in Docker Compose (ports are not published). Add more nodes via docker-compose instead.".

(** Up to the wait for the membership change: what was done, and either the
    answer or the channel with the port and process of the child.  [mkdirErr]
    and [started] are the operating system's answers. *)
Definition handleSpawnNode (env : nat -> Raft -> Raft) (buildError : string -> string -> option string)
    (osEnviron : list (string * string)) (free : Z -> bool) (mkdirErr : option string) (started : Z + string)
    (r : HttpRequest) (grpcAddr : string) (m : spawnManager) (n : Raft)
    : option (Raft * spawnManager * list os_action * (rest_outcome + nat * Z * Z)) :=
  if negb (bool_decide (Method r = "POST")) then
    Some (n, m, [], inl (Answer (http_Error "method not allowed" 405)))
  else if negb (IsLeader n) then
    let n := env 0%nat n in Some (n, m, [], inl (proxyToLeader buildError r n))
  else
    let n := env 0%nat n in
    if bool_decide (is_Some (dockerNodeIDRe (st_ID (Raft_Status n)))) then
      Some (n, m, [], inl (Answer (json_response 400
        (JObj [("error", JStr docker_refusal); ("success", JBool false)]))))
    else
      let selfPort := (ParseHostPort grpcAddr).2 in
      let m := if 0 <? selfPort then ensureNextAtLeast (int64 (selfPort + 2)) m else m in
      let n := env 1%nat n in
      let ps := GetPeers n in
      match nextFreePort free (reserved_ports selfPort ps) m with
      | (m, None) => Some (n, m, [], inl (Answer (http_Error "no free port: no free port found" 500)))
      | (m, Some port) =>
        let acts := [RemoveAll (spawn_dir port); MkdirAll (spawn_dir port)] in
        match mkdirErr with
        | Some err => Some (n, m, acts, inl (Answer (http_Error ("mkdir data dir: " +:+ err) 500)))
        | None =>
          let n := env 2%nat n in
          let '(nodeID, peerIDs) := spawn_ids r (st_ID (Raft_Status n)) ps port in
          let acts := acts ++ [Start (spawn_environ osEnviron port nodeID peerIDs)] in
          match started with
          | inr err => Some (n, m, acts, inl (Answer (http_Error ("failed to start node: " +:+ err) 500)))
          | inl pid =>
            let acts := if 0 <? pid then acts ++ [WritePid (spawn_dir port) pid] else acts in
            let m := track port pid m in
            let n := env 3%nat n in
            match configChange_begin ConfigAddNode nodeID n with
            | None => None
            | Some (n, inl ch) => Some (n, m, acts, inr (ch, port, pid))
            | Some (n, inr err) =>
              let n := env 4%nat n in
              Some (n, remove port m, acts ++ [Kill pid],
                    inl (Answer (writeLeaderJSONError r 500
                      ("add node failed: " +:+ error_String "" err) (LeaderID n))))
            end
          end
        end
      end.

(** After the wait: [woken] if the change was applied in time. *)
Definition handleSpawnNode_end (woken : bool) (r : HttpRequest) (nodeID : NodeID) (port pid : Z)
    (m : spawnManager) (n : Raft) : spawnManager * list os_action * HttpResponse :=
  match AddNodeInternal_end woken with
  | Some err =>
    (remove port m, [Kill pid],
     writeLeaderJSONError r 500 ("add node failed: " +:+ error_String "" err) (LeaderID n))
  | None =>
    (m, [], json_response 200 (JObj [("addr", JStr nodeID); ("data", JStr (spawn_dir port));
                                     ("node_id", JStr nodeID); ("success", JBool true)]))
  end.

(** The goroutine that waits for the child: it has exited. *)
Definition child_exited (port : Z) (m : spawnManager) : spawnManager := remove port m.

(** ** Removing *)

Definition handleRemoveNode (env : nat -> Raft -> Raft) (buildError : string -> string -> option string)
    (osText : string) (r : HttpRequest) (n : Raft) : option (Raft * rest_outcome) :=
  handleConfigChange env buildError osText ConfigRemoveNode r n.

(** [pidFile] is the contents of the child's pid file, if it can be read;
    [findProcess] tells whether the process can be found. *)
Definition remove_cleanup (nodeID : NodeID) (pidFile : option string) (findProcess : Z -> bool)
    (m : spawnManager) : spawnManager * list os_action :=
  let port := (ParseHostPort nodeID).2 in
  if 0 <? port then
    let '(m, kills) :=
      match get_proc port m with
      | Some pid => (remove port m, [Kill pid])
      | None =>
        (m, match pidFile with
            | Some b =>
              match atoi (trim_space b) with
              | Some pid => if (0 <? pid) && findProcess pid then [Kill pid] else []
              | None => []
              end
            | None => []
            end)
      end in
    (m, kills ++ [RemoveAll (spawn_dir port)])
  else (m, []).

Definition handleRemoveNode_end (osText : string) (woken : bool) (nodeID : NodeID)
    (pidFile : option string) (findProcess : Z -> bool) (m : spawnManager)
    : spawnManager * list os_action * HttpResponse :=
  let resp := RemoveNode_end osText woken in
  let '(m, acts) := if adm_Success resp then remove_cleanup nodeID pidFile findProcess m else (m, []) in
  (m, acts, admin_answer resp).

(** ** The child's side: cmd/mimorid/main.go *)

(** [env(k, def)].  [exec.Command] documents that of several settings of one
    variable the last counts. *)
Definition env_or (environ : list (string * string)) (k def : string) : string :=
  match list_find (fun kv => kv.1 = k) (reverse environ) with
  | Some (_, (_, v)) => if bool_decide (v = "") then def else v
  | None => def
  end.

Definition splitPeers (s : string) : list string :=
  if bool_decide (s = "") then [] else filter (fun p => p <> "") (str_split "," s).

Definition convertPeersToNodeIDs (ps : list string) : list NodeID := filter (fun p => p <> "") ps.

(** Address, data directory, node identifier and peers [main] starts with. *)
Definition main_config (environ : list (string * string)) : string * string * NodeID * list NodeID :=
  let addr := env_or environ "MIMORI_ADDR" ":4000" in
  let dataDir := env_or environ "MIMORI_DATA" "data" in
  let peerList := splitPeers (env_or environ "MIMORI_PEERS" "") in
  let nodeID := env_or environ "MIMORI_NODE_ID" addr in
  let nodeID := if bool_decide (nodeID = "") then addr else nodeID in
  (addr, dataDir, nodeID, convertPeersToNodeIDs peerList).

(** ** Ports *)

(** A port the manager may hand out. *)
Definition usable (free : Z -> bool) (reserved : list Z) (m : spawnManager) (p : Z) : Prop :=
  (p ∉ reserved) /\ procs m !! p = None /\ free p = true /\ free (p + 1) = true.

Lemma isReserved_false reserved m p :
  isReserved reserved m p = false <-> (p ∉ reserved) /\ procs m !! p = None.
Proof.
  unfold isReserved. rewrite orb_false_iff, !bool_decide_eq_false, <- eq_None_not_Some. done.
Qed.

Lemma portScan_spec free reserved m fuel : forall start,
  10000 - start <= Z.of_nat fuel ->
  match portScan fuel free reserved start m with
  | Some p =>
    usable free reserved m p /\ p < 10000 /\
    exists k : nat, p = start + 2 * Z.of_nat k /\
      forall j : nat, (j < k)%nat -> ~ usable free reserved m (start + 2 * Z.of_nat j)
  | None =>
    forall k : nat, start + 2 * Z.of_nat k < 10000 ->
      ~ usable free reserved m (start + 2 * Z.of_nat k)
  end.
Proof.
  induction fuel as [|fuel IH]; intros start Hf; cbn [portScan]; [intros; lia|].
  destruct (start <? 10000) eqn:Hlt; [|intros; lia].
  assert (~ usable free reserved m start ->
    match portScan fuel free reserved (start + 2) m with
    | Some p =>
      usable free reserved m p /\ p < 10000 /\
      exists k : nat, p = start + 2 * Z.of_nat k /\
        forall j : nat, (j < k)%nat -> ~ usable free reserved m (start + 2 * Z.of_nat j)
    | None =>
      forall k : nat, start + 2 * Z.of_nat k < 10000 ->
        ~ usable free reserved m (start + 2 * Z.of_nat k)
    end) as Hskip.
  { intros Hno. specialize (IH (start + 2) ltac:(lia)).
    destruct (portScan fuel free reserved (start + 2) m) as [p|].
    - destruct IH as (Hu & Hp & k & -> & Hk). split; [done|]. split; [done|].
      exists (S k). split; [lia|]. intros [|j] Hj.
      + by replace (start + 2 * Z.of_nat 0) with start by lia.
      + replace (start + 2 * Z.of_nat (S j)) with (start + 2 + 2 * Z.of_nat j) by lia.
        apply Hk. lia.
    - intros [|k] Hk.
      + by replace (start + 2 * Z.of_nat 0) with start by lia.
      + replace (start + 2 * Z.of_nat (S k)) with (start + 2 + 2 * Z.of_nat k) by lia.
        apply IH. lia. }
  destruct (isReserved reserved m start) eqn:Hr.
  { apply Hskip. intros (H1 & H2 & _).
    by rewrite (proj2 (isReserved_false reserved m start)) in Hr. }
  destruct (free start) eqn:H1; cbn [negb]; [|apply Hskip; intros (_ & _ & ? & ?); congruence].
  destruct (free (start + 1)) eqn:H2; cbn [negb]; [|apply Hskip; intros (_ & _ & ? & ?); congruence].
  apply isReserved_false in Hr as [Hr1 Hr2].
  split; [done|]. split; [lia|]. exists 0%nat. split; [lia|]. intros; lia.
Qed.

(** The port allocator.  [nextFreePort] finds a port whenever there is one:
    it returns the first port, counting up by two from where it left off, that
    is below 10000, not reserved by the cluster, not used by a child, and free
    together with the HTTP port after it; the search then continues after it.
    It fails exactly when no such port is left, and then changes nothing. *)
Theorem nextFreePort_spec free reserved m :
  let '(m', res) := nextFreePort free reserved m in
  procs m' = procs m /\
  match res with
  | Some p =>
    usable free reserved m p /\ p < 10000 /\ next m' = p + 2 /\
    exists k : nat, p = next m + 2 * Z.of_nat k /\
      forall j : nat, (j < k)%nat -> ~ usable free reserved m (next m + 2 * Z.of_nat j)
  | None =>
    m' = m /\ forall k : nat, next m + 2 * Z.of_nat k < 10000 ->
      ~ usable free reserved m (next m + 2 * Z.of_nat k)
  end.
Proof.
  unfold nextFreePort.
  pose proof (portScan_spec free reserved m (Z.to_nat (10000 - next m)) (next m) ltac:(lia)) as H.
  destruct (portScan _ free reserved (next m) m) as [p|]; [|done].
  destruct H as (H1 & H2 & H3). done.
Qed.

(** ** What the child reads *)

(** An identifier that survives the comma-separated list. *)
Definition listable (id : string) : Prop := id <> "" /\ has_byte "," id = false.

Lemma filter_nonempty_id (l : list string) :
  Forall (fun s => s <> "") l -> filter (fun p => p <> "") l = l.
Proof.
  induction l as [|x l IH]; [done|]. intros [Hx Hl]%Forall_cons.
  rewrite filter_cons_True by done. by rewrite IH.
Qed.

Lemma splitPeers_join ids :
  Forall listable ids -> splitPeers (str_join "," ids) = ids.
Proof.
  intros Hids. unfold splitPeers. destruct ids as [|x ids]; [done|].
  rewrite bool_decide_eq_false_2.
  - rewrite str_split_join; [|done|by eapply Forall_impl; [exact Hids|intros y [_ ?]]].
    apply filter_nonempty_id. eapply Forall_impl; [exact Hids|by intros y [? _]].
  - apply Forall_cons in Hids as [[Hx _] _]. destruct x; [done|]. by destruct ids.
Qed.

Lemma env_or_found environ k def v i :
  list_find (fun kv => kv.1 = k) (reverse environ) = Some (i, (k, v)) -> v <> "" -> env_or environ k def = v.
Proof. intros H Hv. unfold env_or. by rewrite H, bool_decide_eq_false_2. Qed.

Lemma env_or_empty environ k v i :
  list_find (fun kv => kv.1 = k) (reverse environ) = Some (i, (k, v)) -> env_or environ k "" = v.
Proof. intros H. unfold env_or. rewrite H. by case_bool_decide. Qed.

(** A spawned node starts with the configuration meant for it.  Reading the
    environment that [handleSpawnNode] builds on top of its own, whatever that
    sets, [main] listens on the chosen
    port, uses the child's own data directory and identifier, and has exactly
    the peers listed, in order. *)
Theorem spawn_environ_read osEnviron port nodeID peerIDs :
  nodeID <> "" -> Forall listable peerIDs ->
  main_config (spawn_environ osEnviron port nodeID peerIDs)
  = (":" +:+ pretty port, spawn_dir port, nodeID, peerIDs).
Proof.
  intros Hn Hp. unfold main_config.
  rewrite (env_or_found _ _ ":4000" (":" +:+ pretty port) 3)
    by (done || unfold spawn_environ; rewrite reverse_app; reflexivity).
  rewrite (env_or_found _ _ "data" (spawn_dir port) 1)
    by (done || unfold spawn_environ; rewrite reverse_app; reflexivity).
  rewrite (env_or_found _ _ _ nodeID 2)
    by (done || unfold spawn_environ; rewrite reverse_app; reflexivity).
  rewrite (env_or_empty _ _ (str_join "," peerIDs) 0)
    by (unfold spawn_environ; rewrite reverse_app; reflexivity).
  rewrite bool_decide_eq_false_2, splitPeers_join by done. unfold convertPeersToNodeIDs.
  rewrite filter_nonempty_id; [done|]. eapply Forall_impl; [exact Hp|by intros y [? _]].
Qed.

Lemma spawn_environ_read_witness :
  Forall listable ["localhost:4000"; "localhost:4002"] /\
  main_config (spawn_environ [("MIMORI_PEERS", "localhost:4006")] 4004 "localhost:4004"
                 ["localhost:4000"; "localhost:4002"])
  = (":4004", "data-spawn/node-4004", "localhost:4004", ["localhost:4000"; "localhost:4002"]).
Proof.
  assert (Forall listable ["localhost:4000"; "localhost:4002"]) as H
    by (repeat constructor; discriminate).
  split; [exact H|].
  exact (spawn_environ_read [("MIMORI_PEERS", "localhost:4006")] 4004 "localhost:4004"
           ["localhost:4000"; "localhost:4002"] ltac:(discriminate) H).
Defined.
