(* ===== verification/Client.v ===== *)
(** * The client library

    client/client.go: the connection cache, leader discovery over the HTTP
    status endpoint, the reading of leader hints out of gRPC errors, and
    [executeWithRetry], the loop every operation runs in.  The network is a
    state [W] with the operations the client performs on it: asking a status
    endpoint, dialling, looking at a connection, invoking the RPC of the
    operation on a connection, and sleeping.  Code that uses client and network
    is written in the state monad [M]. *)
From stdpp Require Import gmap strings list pretty.
From Stdlib Require Import ZArith Ascii Lia.
From S2P Require Import Prelude GoStrings GoJson GoText Types Addr Stores Commands RaftNode KvStore Api Rest.

Local Open Scope string_scope.

(** ** Errors as the client sees them *)

(** gRPC carries a handler's plain error as a status of code [Unknown] (2). *)
Definition over_the_wire (e : api_error) : api_error :=
  match e with StatusError c m => StatusError c m | PlainError m => StatusError (OtherCode 2) m end.

(** The messages tested for are ASCII, so lowering ASCII letters is enough. *)
Definition isLeaderError (err : option api_error) : bool :=
  match err with
  | Some (StatusError FailedPrecondition msg) =>
    let msg := to_lower msg in
    contains msg "not leader" || contains msg "leader="
  | _ => false
  end.

Definition hint_delimiter (c : ascii) : bool :=
  Ascii.eqb c " " || Ascii.eqb c "009" || Ascii.eqb c "010" || Ascii.eqb c ")" ||
  Ascii.eqb c "," || Ascii.eqb c ";".

Fixpoint take_until (stop : ascii -> bool) (s : string) : string :=
  match s with
  | "" => ""
  | String c s' => if stop c then "" else String c (take_until stop s')
  end.

Definition extractLeaderHint (err : option api_error) : option string :=
  match err with
  | Some (StatusError _ msg) =>
    match str_index "leader=" msg with
    | None => None
    | Some idx =>
      let leader := trim_space (str_drop (idx + 7) msg) in
      if bool_decide (leader = "") then None
      else
        let leader := trim_space (take_until hint_delimiter leader) in
        if bool_decide (leader = "") then None else Some leader
    end
  | _ => None
  end.

(** ** Addresses *)

Definition getHTTPAddr (grpcAddr : string) : string :=
  match str_split ":" grpcAddr with
  | [host; portStr] =>
    match atoi portStr with
    | Some port => host_port host (int64 (port + 1))
    | None => grpcAddr
    end
  | _ => grpcAddr
  end.

(** The host the client used, if it is one that forwarded ports belong to. *)
Definition local_base (baseAddr : string) : string * bool :=
  let baseHost := from_option fst "" (str_cut ":" baseAddr) in
  (baseHost, bool_decide (baseHost = "") || bool_decide (baseHost = "localhost")
             || has_prefix "127." baseHost).

Definition normalizeLeaderAddr (baseAddr leaderID : string) : string :=
  let leaderID := trim_space leaderID in
  if bool_decide (leaderID = "") then ""
  else
    let '(baseHost, useBaseHost) := local_base baseAddr in
    let graft := useBaseHost && negb (bool_decide (baseHost = "")) in
    if has_prefix ":" leaderID then
      if graft then baseHost +:+ leaderID else leaderID
    else
      match str_cut ":" leaderID with
      | None => if graft then baseHost +:+ ":" +:+ leaderID else ":" +:+ leaderID
      | Some (leaderHost, port) =>
        if bool_decide (port = "") then if graft then baseHost else leaderID
        else if graft then baseHost +:+ ":" +:+ port
        else if bool_decide (leaderHost = "") && negb (bool_decide (baseHost = ""))
        then baseHost +:+ ":" +:+ port
        else leaderID
      end.

(** ** Status replies *)

Record nodeStatus := mkNodeStatus { ns_ID : string; ns_State : string; ns_LeaderID : string }.

#[export] Instance eta_nodeStatus : Eta nodeStatus :=
  fun r => mkNodeStatus (ns_ID r) (ns_State r) (ns_LeaderID r).

Definition nodeStatus_fields : list (field nodeStatus) :=
  [("id", fun v r => (fun x => r <| ns_ID := x |>) <$> decode_string v (ns_ID r));
   ("state", fun v r => (fun x => r <| ns_State := x |>) <$> decode_string v (ns_State r));
   ("leader_id", fun v r => (fun x => r <| ns_LeaderID := x |>) <$> decode_string v (ns_LeaderID r))].

(** [verifyLeader] only declares the state. *)
Definition stateOnly_fields : list (field nodeStatus) :=
  [("state", fun v r => (fun x => r <| ns_State := x |>) <$> decode_string v (ns_State r))].

(** [json.NewDecoder(resp.Body).Decode(&status)] *)
Definition decode_status (fields : list (field nodeStatus)) (body : string) : option nodeStatus :=
  match parse_value (2 * String.length body + 2) body with
  | Some (v, _) => decode_struct fields (mkNodeStatus "" "" "") v
  | None => None
  end.

(** ** The client's state *)

Record Client := mkClient {
  conns : gmap string nat;
  leaderAddr : string;
  seeds : list string;
  maxRetries : Z }.

#[export] Instance eta_Client : Eta Client :=
  fun r => mkClient (conns r) (leaderAddr r) (seeds r) (maxRetries r).

(** [NewWithConfig]; the timeouts are the environment's. *)
Definition NewWithConfig (cfgSeeds : list string) (cfgMaxRetries : Z) : option Client :=
  match cfgSeeds with
  | [] => None
  | _ => Some (mkClient ∅ "" cfgSeeds (if (cfgMaxRetries =? 0)%Z then 3 else cfgMaxRetries))
  end.

Inductive client_error :=
  | ErrNoLeader
  | ErrCall (e : api_error).

Section client.
Context {W : Type}.
(** GET http://<addr>/raft/status: the response, or [None] on an error. *)
Variable get_status : string -> W -> option HttpResponse * W.
(** [grpc.DialContext] with blocking: a connection, or the error's text. *)
Variable dial : string -> W -> (nat + string) * W.
Variable conn_state : nat -> W -> string.
(** The operation's RPC on a connection. *)
Variable invoke : nat -> W -> option api_error * W.
Variable sleep : Z -> W -> W.
(** [conn.Close()] *)
Variable close_conn : nat -> W -> W.

Definition M (A : Type) : Type := Client * W -> A * (Client * W).

#[export] Instance M_ret : MRet M := fun A a σ => (a, σ).
#[export] Instance M_bind : MBind M := fun A B f m σ => let '(a, σ') := m σ in f a σ'.

Definition get : M Client := fun σ => (σ.1, σ).
Definition modify (f : Client -> Client) : M () := fun σ => ((), (f σ.1, σ.2)).
Definition lift {A} (op : W -> A * W) : M A := fun σ => let '(a, w) := op σ.2 in (a, (σ.1, w)).
Definition look {A} (f : W -> A) : M A := fun σ => (f σ.2, σ).
Definition pause (d : Z) : M () := fun σ => ((), (σ.1, sleep d σ.2)).

(** ** Connections *)

Definition getConnection (addr : string) : M (nat + api_error) :=
  c ← get;
  let connect : M (nat + api_error) :=
    c ← get;
    match conns c !! addr with
    | Some conn => mret (inl conn)
    | None =>
      r ← lift (dial addr);
      match r with
      | inr err => mret (inr (PlainError ("failed to connect to " +:+ addr +:+ ": " +:+ err)))
      | inl conn => _ ← modify (fun c => c <| conns := <[addr := conn]> (conns c) |>); mret (inl conn)
      end
    end in
  match conns c !! addr with
  | Some conn =>
    state ← look (conn_state conn);
    if bool_decide (state = "READY") || bool_decide (state = "IDLE") then mret (inl conn)
    else _ ← modify (fun c => c <| conns := delete addr (conns c) |>); connect
  | None => connect
  end.

(** The connections are closed in the order the map yields them, whatever it is. *)
Definition Close : M () :=
  c ← get;
  _ ← lift (fun w => ((), foldl (fun w p => close_conn p.2 w) w (map_to_list (conns c))));
  modify (fun c => c <| conns := ∅ |>).

(** The function [Put], [Get], [Delete] and [Health] pass to the loop. *)
Definition call (addr : string) : M (option api_error) :=
  r ← getConnection addr;
  match r with
  | inr err => mret (Some err)
  | inl conn => lift (invoke conn)
  end.

(** ** Finding the leader *)

Definition status_of (fields : list (field nodeStatus)) (addr : string) : M (option nodeStatus) :=
  r ← lift (get_status (getHTTPAddr addr));
  mret match r with
       | Some resp => if (StatusCode resp =? 200)%Z then decode_status fields (RespBody resp) else None
       | None => None
       end.

Definition findLeaderFromNode (normalize : string -> string -> string) (addr : string)
    : M (option string) :=
  st ← status_of nodeStatus_fields addr;
  mret match st with
       | None => None
       | Some st =>
         if bool_decide (ns_State st = "leader") then Some addr
         else if bool_decide (ns_LeaderID st = "") then None
         else Some (normalize addr (ns_LeaderID st))
       end.

Definition verifyLeader (addr : string) : M bool :=
  st ← status_of stateOnly_fields addr;
  mret match st with Some st => bool_decide (ns_State st = "leader") | None => false end.

(** Ask the addresses in turn; the first answer that names a leader is kept. *)
Fixpoint discoverFrom (normalize : string -> string -> string) (addrs : list string)
    : M (option string) :=
  match addrs with
  | [] => mret None
  | addr :: addrs =>
    r ← findLeaderFromNode normalize addr;
    match r with
    | Some "" | None => discoverFrom normalize addrs
    | Some leader => _ ← modify (fun c => c <| leaderAddr := leader |>); mret (Some leader)
    end
  end.

Definition discoverLeader : M (option string) :=
  c ← get; discoverFrom normalizeLeaderAddr (seeds c).

(** The cached leader if it still leads, else what [discover] finds. *)
Definition getLeader (discover : M (option string)) : M (option string) :=
  c ← get;
  let cached := leaderAddr c in
  if bool_decide (cached = "") then discover
  else
    ok ← verifyLeader cached;
    if ok : bool then mret (Some cached)
    else _ ← modify (fun c => c <| leaderAddr := "" |>); discover.

(** ** The retry loop *)

Definition millisecond : Z := 1000000.

Definition backoff (attempt : nat) : Z :=
  let d := int64 (int64 (Z.shiftl 1 (Z.of_nat attempt)) * (100 * millisecond)) in
  if (2000 * millisecond <? d)%Z then 2000 * millisecond else d.

(** What a failed call does to the cached leader, and how long to wait. *)
Definition after_error (normalize : string -> string -> string) (attempt : nat) (addr : string)
    (err : api_error) : M () :=
  if isLeaderError (Some err) then
    c ← get;
    let baseAddr := match seeds c with s :: _ => s | [] => addr end in
    let leader := match extractLeaderHint (Some err) with
                  | Some hinted => normalize baseAddr hinted
                  | None => ""
                  end in
    _ ← modify (fun c => c <| leaderAddr := leader |>);
    pause (Z.of_nat (attempt + 1) * 50 * millisecond)
  else pause (backoff attempt).

(** [n] attempts are left; the second component lists the addresses called. *)
Fixpoint retryLoop (normalize : string -> string -> string) (discover : M (option string))
    (n attempt : nat) (lastErr : option client_error)
    : M (option (option client_error) * list string) :=
  match n with
  | O => mret (Some lastErr, [])
  | S n =>
    leader ← getLeader discover;
    c ← get;
    let target := match leader with
                  | Some a => Some a
                  | None => seeds c !! attempt
                  end in
    match target with
    | None =>
      _ ← pause (Z.of_nat (attempt + 1) * 100 * millisecond);
      retryLoop normalize discover n (S attempt) (Some ErrNoLeader)
    | Some addr =>
      err ← call addr;
      match err with
      | None => mret (None, [addr])
      | Some err =>
        _ ← after_error normalize attempt addr err;
        '(res, tried) ← retryLoop normalize discover n (S attempt) (Some (ErrCall err));
        mret (res, addr :: tried)
      end
    end
  end.

(** The result is [None] on success and else the last error. *)
Definition executeWithRetry : M (option (option client_error) * list string) :=
  c ← get;
  retryLoop normalizeLeaderAddr discoverLeader (Z.to_nat (maxRetries c)) 0 None.
End client.

(** ** The operations *)

Section operations.
Context {W : Type}.
Variable get_status : string -> W -> option HttpResponse * W.
Variable dial : string -> W -> (nat + string) * W.
Variable conn_state : nat -> W -> string.
Variable sleep : Z -> W -> W.
(** The four RPCs on a connection. *)
Variable rpc_Put : string -> string -> nat -> W -> option api_error * W.
Variable rpc_Delete : string -> nat -> W -> option api_error * W.
Variable rpc_Health : nat -> W -> option api_error * W.
Variable rpc_Get : string -> bool -> nat -> W -> (string * bool + api_error) * W.

Definition Put (key value : string) : M (option (option client_error) * list string) :=
  executeWithRetry get_status dial conn_state (rpc_Put key value) sleep.

Definition Delete (key : string) : M (option (option client_error) * list string) :=
  executeWithRetry get_status dial conn_state (rpc_Delete key) sleep.

Definition Health : M (option (option client_error) * list string) :=
  executeWithRetry get_status dial conn_state rpc_Health sleep.

(** A read runs the loop next to the variable [resp] of the enclosing function,
    which every call assigns. *)
Definition beside {A B C} (op : A -> W -> B * W) (a : A) (wc : W * C) : B * (W * C) :=
  let '(b, w) := op a wc.1 in (b, (w, wc.2)).

Definition get_invoke (key : string) (allowStale : bool) (conn : nat)
    (wc : W * option (string * bool)) : option api_error * (W * option (string * bool)) :=
  match rpc_Get key allowStale conn wc.1 with
  | (inl resp, w) => (None, (w, Some resp))
  | (inr err, w) => (Some err, (w, None))
  end.

(** Value and presence, or the error; [None] if [resp] is nil when it is read. *)
Definition GetWithOptions (key : string) (allowStale : bool) (σ : Client * W)
    : option (string * bool + option client_error) * (Client * W) :=
  let '((res, _), (c, (w, resp))) :=
    executeWithRetry (beside get_status) (beside dial) (fun conn wc => conn_state conn wc.1)
      (get_invoke key allowStale) (fun d wc => (sleep d wc.1, wc.2)) (σ.1, (σ.2, None)) in
  (match res with
   | Some err => Some (inr err)
   | None => match resp with Some r => Some (inl r) | None => None end
   end, (c, w)).
End operations.

(** ** Hints *)

(** Identifiers as addresses are written: printable ASCII, no blanks, none of
    the delimiters, not empty. *)
Definition id_byte (c : ascii) : bool := byte_in 33 126 c && negb (hint_delimiter c).

Fixpoint id_bytes (s : string) : bool :=
  match s with "" => true | String c s' => id_byte c && id_bytes s' end.

Definition plain_id (s : string) : bool := negb (bool_decide (s = "")) && id_bytes s.

Definition starts_high (r : string) : bool :=
  match r with "" => false | String c _ => negb (byte_in 0 127 c) end.

Lemma space_len_visible runes c s :
  byte_in 33 126 c = true -> forallb starts_high runes = true -> space_len runes (String c s) = 0%nat.
Proof.
  intros Hc Hr. unfold space_len.
  assert (ascii_space c = false /\ byte_in 0 127 c = true) as [-> Hlow].
  { clear -Hc. by destruct c as [[] [] [] [] [] [] [] []]. }
  assert (list_find (fun r => has_prefix r (String c s) = true) runes = None) as ->; [|done].
  apply list_find_None, Forall_forall. intros r Hin. rewrite forallb_forall in Hr.
  apply list_elem_of_In, Hr in Hin. destruct r as [|x r]; [done|]. cbn in Hin |- *.
  destruct (Ascii.eqb_spec x c) as [->|]; [|done]. by rewrite Hlow in Hin.
Qed.

Lemma trim_left_visible fuel runes c s :
  byte_in 33 126 c = true -> forallb starts_high runes = true ->
  trim_left fuel runes (String c s) = String c s.
Proof.
  intros Hc Hr. destruct fuel; [done|]. cbn [trim_left]. by rewrite space_len_visible.
Qed.

Lemma str_rev_app_app a b acc : str_rev_app (a +:+ b) acc = str_rev_app b (str_rev_app a acc).
Proof. revert acc. induction a; intros acc; [done|]. simpl. by rewrite IHa. Qed.

Lemma str_rev_app_acc a acc : str_rev_app a acc = str_rev a +:+ acc.
Proof.
  unfold str_rev. revert acc. induction a as [|c a IH]; intros acc; [done|].
  cbn [str_rev_app]. rewrite IH, (IH (String c "")), sapp_assoc. done.
Qed.

Lemma str_rev_involutive s : str_rev (str_rev s) = s.
Proof.
  induction s as [|c s IH]; [done|]. unfold str_rev in *. cbn [str_rev_app].
  rewrite (str_rev_app_acc s), str_rev_app_app. unfold str_rev. rewrite str_rev_app_acc.
  unfold str_rev. by rewrite IH.
Qed.

(** A text whose first and last bytes are visible is not trimmed. *)
Lemma trim_space_visible s c t d u :
  s = String c t -> str_rev s = String d u ->
  byte_in 33 126 c = true -> byte_in 33 126 d = true -> trim_space s = s.
Proof.
  intros E1 E2 Hc Hd. unfold trim_space. rewrite E1 at 3 4. rewrite trim_left_visible by done.
  rewrite <- E1, E2, trim_left_visible by done. by rewrite <- E2, str_rev_involutive.
Qed.

Lemma id_bytes_app a b : id_bytes (a +:+ b) = id_bytes a && id_bytes b.
Proof. induction a; [done|]. simpl. by rewrite IHa, andb_assoc. Qed.

Lemma id_bytes_rev s : id_bytes (str_rev s) = id_bytes s.
Proof.
  induction s as [|c s IH]; [done|]. unfold str_rev. cbn [str_rev_app].
  rewrite str_rev_app_acc, id_bytes_app, IH. cbn [id_bytes]. by rewrite andb_true_r, andb_comm.
Qed.

Lemma id_byte_visible c : id_byte c = true -> byte_in 33 126 c = true.
Proof. unfold id_byte. intros H. by boolify. Qed.

Lemma plain_id_head s : plain_id s = true ->
  exists c t, s = String c t /\ byte_in 33 126 c = true.
Proof.
  unfold plain_id. intros H. boolify. destruct s as [|c t]; [done|].
  cbn [id_bytes] in *. boolify. exists c, t. split; [done|]. by apply id_byte_visible.
Qed.

Lemma plain_id_rev s : plain_id s = true -> plain_id (str_rev s) = true.
Proof.
  unfold plain_id. rewrite id_bytes_rev. intros H. boolify.
  rewrite bool_decide_eq_false_2; [done|]. intros E.
  apply (f_equal str_rev) in E. by rewrite str_rev_involutive in E.
Qed.

Lemma take_until_id s t : id_bytes s = true -> (t = "" \/ exists u, t = String " " u) ->
  take_until hint_delimiter (s +:+ t) = s.
Proof.
  intros Hs Ht. induction s as [|c s IH].
  - by destruct Ht as [->|[u ->]].
  - cbn [id_bytes] in Hs. apply andb_true_iff in Hs as [Hc Hs]. simpl.
    unfold id_byte in Hc. apply andb_true_iff in Hc as [_ Hc%negb_true_iff].
    by rewrite Hc, IH.
Qed.

Lemma plain_id_trim s : plain_id s = true -> trim_space s = s.
Proof.
  intros H. destruct (plain_id_head s H) as (c & t & Es & Hc).
  destruct (plain_id_head _ (plain_id_rev s H)) as (d & u & Er & Hd).
  by apply (trim_space_visible s c t d u).
Qed.

(** What is found in a message, given what follows the marker. *)
Lemma hint_of msg idx id after c :
  str_index "leader=" msg = Some idx -> str_drop (idx + 7) msg = id +:+ after ->
  plain_id id = true -> (after = "" \/ exists u, after = String " " u /\ str_rev after <> "" /\
    exists d v, str_rev after = String d v /\ byte_in 33 126 d = true) ->
  extractLeaderHint (Some (StatusError c msg)) = Some id.
Proof.
  intros Hi Hd Hid Ha. unfold extractLeaderHint. rewrite Hi, Hd.
  destruct (plain_id_head id Hid) as (x & t & Es & Hx).
  assert (trim_space (id +:+ after) = id +:+ after) as ->.
  { destruct Ha as [->|(u & Eu & _ & d & v & Ev & Hd')]; [by rewrite sapp_nil_r, plain_id_trim|].
    apply (trim_space_visible _ x (t +:+ after) d (v +:+ str_rev id)); try done.
    - by rewrite Es.
    - unfold str_rev at 1. rewrite str_rev_app_app. change (str_rev_app id "") with (str_rev id).
      by rewrite str_rev_app_acc, Ev. }
  assert (id_bytes id = true) as Hb by (unfold plain_id in Hid; by boolify).
  assert (id <> "") as Hne by (unfold plain_id in Hid; by boolify).
  rewrite bool_decide_eq_false_2 by (by rewrite Es).
  rewrite take_until_id by (done || naive_solver).
  rewrite plain_id_trim by done. by rewrite bool_decide_eq_false_2.
Qed.

(** The three refusals of the server. *)
Lemma write_refusal_hint id :
  let e := Some (StatusError FailedPrecondition ("not leader, leader=" +:+ id)) in
  isLeaderError e = true /\ (plain_id id = true -> extractLeaderHint e = Some id).
Proof.
  split; [reflexivity|]. intros Hid.
  apply (hint_of _ 12 id ""); [reflexivity|by rewrite sapp_nil_r|done|by left].
Qed.

Lemma read_refusal_hint id :
  let e := Some (StatusError FailedPrecondition
             ("not leader, leader=" +:+ id +:+ " (use allow_stale=true for follower reads)")) in
  isLeaderError e = true /\ (plain_id id = true -> extractLeaderHint e = Some id).
Proof.
  split; [reflexivity|]. intros Hid.
  apply (hint_of _ 12 id " (use allow_stale=true for follower reads)");
    [reflexivity|reflexivity|done|right].
  eexists. split; [reflexivity|]. split; [vm_compute; discriminate|].
  eexists _, _. split; [vm_compute; reflexivity|reflexivity].
Qed.

Lemma lease_refusal_hint id :
  let e := Some (StatusError FailedPrecondition ("follower read lease expired, leader=" +:+ id)) in
  isLeaderError e = true /\ (plain_id id = true -> extractLeaderHint e = Some id).
Proof.
  split; [unfold isLeaderError; apply orb_true_iff; right; reflexivity|]. intros Hid.
  apply (hint_of _ 29 id ""); [reflexivity|by rewrite sapp_nil_r|done|by left].
Qed.

(** The client takes the error for a redirect and, if the node knows its leader
    by an ordinary address, reads exactly that address from it. *)
Definition understood (e : api_error) (leaderID : string) : Prop :=
  isLeaderError (Some (over_the_wire e)) = true /\
  (plain_id leaderID = true -> extractLeaderHint (Some (over_the_wire e)) = Some leaderID).

(** C30: the client understands the server's redirects.  A node that does not lead
    when it is asked refuses every write and, unless it may serve a stale read
    under its lease, every read; whatever other goroutines do meanwhile, the
    client takes the refusal for a redirect, and if the node then knows its
    leader by an ordinary address the hint is that address.  The one refusal it
    does not recognise is that of a node that leads when asked and has lost the
    leadership when it proposes: that is a plain error, and no redirect. *)
Theorem redirect_understood {N S} `{RaftNodeLaws N} `{KV S} env data now key stale (n : N) (s : S) :
  (rn_IsLeader n = false ->
     (exists n1 e, Server_write env data n = (n1, inr e) /\ understood e (rn_LeaderID n1)) /\
     (stale = false \/ rn_HasReadLease now (env 0%nat n) = false ->
      exists n2 e, Server_Get env now key stale n s = (n2, inr e) /\ understood e (rn_LeaderID n2))) /\
  (forall n1 e, rn_IsLeader n = true -> Server_write env data n = (n1, inr e) ->
     e = PlainError "not leader" /\ isLeaderError (Some (over_the_wire e)) = false).
Proof.
  split.
  - intros Hl. unfold Server_write, Server_Get. rewrite Hl. cbn [negb]. split.
    + eexists _, _. split; [reflexivity|]. unfold notLeader. rewrite sapp_nil_r. apply write_refusal_hint.
    + intros Hr. destruct stale.
      * destruct Hr as [?|Hr]; [done|]. rewrite Hr. eexists _, _. split; [reflexivity|].
        apply lease_refusal_hint.
      * eexists _, _. split; [reflexivity|]. apply read_refusal_hint.
  - intros n1 e Hl. unfold Server_write. rewrite Hl. cbn [negb].
    destruct (rn_Propose data (env 0%nat n)) as [n3 [i|err]] eqn:Hp.
    + by destruct (rn_AppliedWait i (env 1%nat n3)).
    + intros E. injection E as <- <-. apply rn_Propose_refused in Hp as [_ ->]. by split.
Qed.

(** A follower and a leader deposed in between, both asked to write. *)
Lemma redirect_understood_witness :
  let n := (example_node "n2:4002" ["n1:4000"] Follower 1 [mkLogEntry 0 0 ""]) <| leader := "n1:4000" |> in
  let l := example_node "n1:4000" ["n2:4002"] Leader 1 [mkLogEntry 0 0 ""] in
  let deposed (k : nat) (r : Raft) := r <| state := Follower |> in
  (plain_id (leader n) = true /\ exists n1 e, Server_write quiet_env "d" n = (n1, inr e) /\ understood e (rn_LeaderID n1)) /\
  exists n1 e, Server_write deposed "d" l = (n1, inr e) /\ isLeaderError (Some (over_the_wire e)) = false.
Proof.
  intros n l deposed. split; [split; [reflexivity|]|].
  - apply (redirect_understood quiet_env "d" 0 "k" false n (∅ : kvmap)). reflexivity.
  - eexists _, _. split; [reflexivity|].
    refine (proj2 (proj2 (redirect_understood deposed "d" 0 "k" false l (∅ : kvmap))
                     (deposed 0%nat l) _ eq_refl eq_refl)).
Defined.

(** ** Reading a status reply *)

Definition status_ok (n : Raft) : Prop :=
  utf8_valid (nodeId n) = true /\ utf8_valid (leader n) = true.

Lemma Status_json_ok n : status_ok n -> json_ok (Status_json (Raft_Status n)) = true.
Proof.
  intros [Hi Hl]. unfold Status_json, Raft_Status.
  cbn [json_ok forallb st_ID st_State st_Term st_LeaderID st_CommitIndex st_LastApplied st_LogLength].
  rewrite !enc_int_ok, Hi, Hl. by destruct (state n).
Qed.

(** The body of ["/raft/status"], decoded by [findLeaderFromNode]'s struct and
    by [verifyLeader]'s. *)
Lemma decode_raft_status n :
  status_ok n ->
  decode_status nodeStatus_fields (RespBody (raft_status n))
    = Some (mkNodeStatus (nodeId n) (RaftState_String (state n)) (leader n)) /\
  decode_status stateOnly_fields (RespBody (raft_status n))
    = Some (mkNodeStatus "" (RaftState_String (state n)) "").
Proof.
  intros Hok. pose proof (Status_json_ok n Hok) as Hj.
  unfold decode_status, raft_status, json_response. cbn [RespBody].
  rewrite sapp_length. change (String.length newline) with 1%nat.
  rewrite (parse_print _ Hj) by
    (reflexivity || (pose proof (jsize_print _ Hj); unfold marshal; lia)).
  unfold Status_json. cbn [decode_struct]. split.
  - repeat (decode_hit || decode_miss). done.
  - repeat (decode_hit || decode_miss). done.
Qed.

(** ** Reaching the leader *)

Section reach.
Context {W : Type}.
Variable dial : string -> W -> (nat + string) * W.
Variable conn_state : nat -> W -> string.
Variable invoke : nat -> W -> option api_error * W.
Variable sleep : Z -> W -> W.

Lemma call_fresh addr conn c w w1 w2 err :
  conns c !! addr = None -> dial addr w = (inl conn, w1) -> invoke conn w1 = (err, w2) ->
  call dial conn_state invoke addr (c, w)
  = (err, (c <| conns := <[addr := conn]> (conns c) |>, w2)).
Proof.
  intros Hc Hd Hi.
  unfold call, getConnection, lift, get, modify, look, mbind, M_bind, mret, M_ret.
  cbn [fst snd]. rewrite Hc. cbn [fst snd]. rewrite Hc. cbn [fst snd]. rewrite Hd. cbn [fst snd].
  by rewrite Hi.
Qed.
End reach.

(** The loop makes at most [maxRetries] calls, and reports success only after
    a call. *)
Lemma retryLoop_bounded {W} get_status dial conn_state invoke sleep normalize discover n :
  forall attempt lastErr (σ : Client * W) res tried σ',
  retryLoop get_status dial conn_state invoke sleep normalize discover n attempt lastErr σ
    = ((res, tried), σ') ->
  (length tried <= n)%nat /\ (res = None -> tried <> []).
Proof.
  induction n as [|n IH]; intros attempt lastErr σ res tried σ'; cbn [retryLoop].
  { unfold mret, M_ret. intros E. injection E as <- <- _. split; [done|discriminate]. }
  unfold mbind at 1, M_bind at 1. destruct (getLeader _ _ σ) as [leader [c w]].
  unfold mbind at 1, M_bind at 1, get at 1. cbn [fst].
  destruct (match leader with Some a => Some a | None => _ end) as [addr|].
  - unfold mbind at 1, M_bind at 1.
    destruct (call dial conn_state invoke addr (c, w)) as [[err|] σ1].
    + unfold mbind at 1, M_bind at 1. destruct (after_error _ _ _ _ _ σ1) as [_ σ2].
      unfold mbind at 1, M_bind at 1.
      destruct (retryLoop _ _ _ _ _ _ _ n _ _ σ2) as [[res' tried'] σ3] eqn:E.
      unfold mret, M_ret. intros E'. injection E' as <- <- _.
      apply IH in E as [E1 E2]. split; [simpl; lia|done].
    + unfold mret, M_ret. intros E. injection E as <- <- _. split; [simpl; lia|done].
  - unfold mbind at 1, M_bind at 1. destruct (pause _ _ (c, w)) as [_ σ1].
    intros E. apply IH in E as [E1 E2]. split; [lia|done].
Qed.

(** Success is the success of the last call. *)
Lemma retryLoop_success {W} get_status dial conn_state invoke sleep normalize discover n :
  forall attempt lastErr (σ : Client * W) tried σ',
  retryLoop get_status dial conn_state invoke sleep normalize discover n attempt lastErr σ
    = ((None, tried), σ') ->
  exists conn w, invoke conn w = (None, σ'.2).
Proof.
  induction n as [|n IH]; intros attempt lastErr σ tried σ'; cbn [retryLoop]; [discriminate|].
  unfold mbind at 1, M_bind at 1. destruct (getLeader _ _ σ) as [leader [c w]].
  unfold mbind at 1, M_bind at 1, get at 1. cbn [fst].
  destruct (match leader with Some a => Some a | None => _ end) as [addr|].
  - unfold mbind at 1, M_bind at 1.
    destruct (call dial conn_state invoke addr (c, w)) as [[err|] σ1] eqn:Ec.
    + unfold mbind at 1, M_bind at 1. destruct (after_error _ _ _ _ _ σ1) as [_ σ2].
      unfold mbind at 1, M_bind at 1.
      destruct (retryLoop _ _ _ _ _ _ _ n _ _ σ2) as [[res' tried'] σ3] eqn:E.
      unfold mret, M_ret. intros E'. injection E' as -> _ <-. by eapply IH.
    + unfold mret, M_ret. intros E. injection E as _ <-. revert Ec.
      unfold call, mbind at 1, M_bind at 1.
      destruct (getConnection _ _ _ _) as [[conn|err] [c2 w2]]; [|discriminate].
      unfold lift. cbn [snd fst]. destruct (invoke conn w2) as [r w3] eqn:Ei. intros E.
      injection E as -> <-. by eauto.
  - unfold mbind at 1, M_bind at 1. destruct (pause _ _ (c, w)) as [_ σ1]. apply IH.
Qed.

(** A read never touches a missing response: the loop reports success only
    after a call that assigned it. *)
Lemma GetWithOptions_total {W} get_status dial conn_state sleep rpc_Get key allowStale
    (σ : Client * W) :
  (GetWithOptions get_status dial conn_state sleep rpc_Get key allowStale σ).1 <> None.
Proof.
  unfold GetWithOptions, executeWithRetry. unfold mbind at 1, M_bind at 1, get at 1.
  destruct (retryLoop _ _ _ _ _ _ _ _ _ _ _) as [[[err|] tried] [c [w resp]]] eqn:E; [done|].
  apply retryLoop_success in E as (conn & wc & E). cbn [snd] in E. unfold get_invoke in E.
  destruct (rpc_Get key allowStale conn wc.1) as [[r|err] w'] in E; [|discriminate].
  by injection E as <- <-.
Qed.
