(* ===== verification/ClientServer.v ===== *)
(** * A client against a cluster

    The client library of [Client] run against the servers of [Api] and [Rest]:
    a network of nodes, each reachable under one address, that answer the
    status request with [raft_status] and a write with [Server_write].  What the
    client finds out about the leader is what the nodes know of it, and what it
    achieves is what the leader does. *)
From stdpp Require Import gmap strings list pretty.
From Stdlib Require Import ZArith Ascii Lia.
From S2P Require Import Prelude GoStrings GoJson GoText Types Addr Stores Commands RaftNode Replication LogMatching Applier KvStore Api Rest Client.

Local Open Scope string_scope.

(** ** The network *)

(** The live nodes by the address they are reached at, and the address each
    connection was opened to. *)
Record network := mkNetwork { served : gmap string Raft; opened : list string }.

#[export] Instance eta_network : Eta network := fun w => mkNetwork (served w) (opened w).

(** The HTTP server of a node listens next to its gRPC server. *)
Definition net_status (http : string) (w : network) : option HttpResponse * network :=
  ((fun p => raft_status p.2.2) <$> list_find (fun p => getHTTPAddr p.1 = http) (map_to_list (served w)), w).

Definition net_dial (addr : string) (w : network) : (nat + string) * network :=
  match served w !! addr with
  | Some _ => (inl (length (opened w)), w <| opened := (opened w ++ [addr])%list |>)
  | None => (inr "context deadline exceeded", w)
  end.

(** A write on a connection.  The answer to a write that was accepted comes when
    the write has been applied; here it is taken to come. *)
Definition net_write (data : string) (conn : nat) (w : network) : option api_error * network :=
  match opened w !! conn ≫= fun a => (fun n => (a, n)) <$> served w !! a with
  | None => (Some (StatusError (OtherCode 14) "connection closed"), w)
  | Some (a, n) =>
    let '(n', res) := Server_write quiet_env data n in
    (match res with inl _ => None | inr e => Some (over_the_wire e) end,
     w <| served := <[a := n']> (served w) |>)
  end.

Definition client_write (data : string) : M (W := network) (option (option client_error) * list string) :=
  executeWithRetry net_status net_dial (fun _ _ => "READY") (net_write data) (fun _ w => w).

(** No two addresses share an HTTP address, and the nodes have identifiers that
    JSON keeps. *)
Definition network_ok (addrs : list string) (w : network) : Prop :=
  (forall a b, a ∈ addrs \/ is_Some (served w !! a) -> is_Some (served w !! b) ->
     getHTTPAddr a = getHTTPAddr b -> a = b) /\
  (forall a n, served w !! a = Some n -> status_ok n).

Lemma net_status_at addrs w a :
  network_ok addrs w -> a ∈ addrs \/ is_Some (served w !! a) ->
  net_status (getHTTPAddr a) w = (raft_status <$> served w !! a, w).
Proof.
  intros [Hinj _] Ha. unfold net_status. f_equal.
  destruct (list_find _ (map_to_list (served w))) as [[i [b n]]|] eqn:E; cbn.
  - apply list_find_Some in E as (Hi & Hb & _). apply list_elem_of_lookup_2, elem_of_map_to_list in Hi.
    cbn in Hb. assert (a = b) as <- by (apply Hinj; [done|by eexists|done]). by rewrite Hi.
  - apply list_find_None in E. rewrite Forall_forall in E.
    destruct (served w !! a) as [n|] eqn:Hs; [|done].
    exfalso. apply (E (a, n)); [by apply elem_of_map_to_list|done].
Qed.

(** ** Where the client looks for a node *)

(** An identifier that is an address: host and port, both present. *)
Definition address (host port : string) : Prop :=
  host <> "" /\ port <> "" /\ has_byte ":" host = false /\
  plain_id (host +:+ ":" +:+ port) = true.

(** What a client that asked [seed] should make of the address [host:port]: on a
    machine that forwards the ports of the nodes the same port there, otherwise
    the address itself. *)
Definition seen_from (seed host port : string) : string :=
  match str_cut ":" seed with
  | Some (base, _) =>
    if bool_decide (base = "localhost") || has_prefix "127." base then base +:+ ":" +:+ port
    else host +:+ ":" +:+ port
  | None => host +:+ ":" +:+ port
  end.

Lemma normalize_address seed host port :
  address host port -> normalizeLeaderAddr seed (host +:+ ":" +:+ port) = seen_from seed host port.
Proof.
  intros (Hh & Hp & Hb & Hid). unfold normalizeLeaderAddr, seen_from, local_base.
  rewrite plain_id_trim by done.
  rewrite bool_decide_eq_false_2 by (by destruct host).
  assert (has_prefix ":" (host +:+ ":" +:+ port) = false) as ->.
  { destruct host as [|c host]; [done|]. cbn [has_byte] in Hb. apply orb_false_iff in Hb as [Hc _].
    change (Ascii.eqb ":" c && has_prefix "" (host +:+ ":" +:+ port) = false).
    by rewrite Ascii.eqb_sym, Hc. }
  change (":" +:+ port) with (String ":" port). rewrite str_cut_app by done.
  rewrite (bool_decide_eq_false_2 (port = "")) by done.
  rewrite (bool_decide_eq_false_2 (host = "")) by done.
  destruct (str_cut ":" seed) as [[base rest]|]; [|done]. cbn [from_option fst].
  destruct base as [|c base]; [done|].
  rewrite (bool_decide_eq_false_2 (String c base = "")) by done. cbn [orb negb andb].
  by destruct (_ || _).
Qed.

(** ** Reaching the leader *)

(** A node the client learns nothing from: dead, or neither leading nor aware of
    a leader. *)
Definition unhelpful (w : network) (a : string) : Prop :=
  forall n, served w !! a = Some n -> state n <> Leader /\ leader n = "".

Lemma discover_past addrs w skip rest c :
  network_ok addrs w -> skip ⊆ addrs -> Forall (unhelpful w) skip ->
  discoverFrom net_status normalizeLeaderAddr (skip ++ rest) (c, w)
  = discoverFrom net_status normalizeLeaderAddr rest (c, w).
Proof.
  intros Hok. induction skip as [|a skip IH]; [done|]. intros Hs [Ha Hf]%Forall_cons.
  cbn [app discoverFrom]. unfold mbind at 1, M_bind at 1.
  replace (findLeaderFromNode net_status normalizeLeaderAddr a (c, w)) with (@None string, (c, w));
    [apply IH; set_solver|].
  unfold findLeaderFromNode, status_of, mbind, M_bind, mret, M_ret, lift. cbn [fst snd].
  rewrite (net_status_at addrs) by (done || set_solver).
  destruct (served w !! a) as [n|] eqn:Hn; [|done]. cbn [fmap option_fmap option_map StatusCode raft_status json_response].
  change (mkHttpResponse 200 (Some "application/json") _) with (raft_status n).
  rewrite Z.eqb_refl. destruct Hok as [_ Hst]. destruct (decode_raft_status n (Hst a n Hn)) as [-> _].
  cbn [ns_State ns_LeaderID]. destruct (Ha n Hn) as [Hl ->]. by destruct (state n).
Qed.

(** A cached leader that no longer leads is not used. *)
Lemma stale_cache addrs w c :
  network_ok addrs w -> leaderAddr c ∈ addrs ->
  (forall n, served w !! leaderAddr c = Some n -> state n <> Leader) ->
  verifyLeader net_status (leaderAddr c) (c, w) = (false, (c, w)).
Proof.
  intros Hok Hin Hn. unfold verifyLeader, status_of, mbind, M_bind, mret, M_ret, lift. cbn [fst snd].
  rewrite (net_status_at addrs) by auto. destruct (served w !! leaderAddr c) as [n|] eqn:E; [|done].
  cbn [fmap option_fmap option_map StatusCode raft_status json_response].
  change (mkHttpResponse 200 (Some "application/json") _) with (raft_status n).
  rewrite Z.eqb_refl. destruct Hok as [_ Hst]. destruct (decode_raft_status n (Hst _ n E)) as [_ ->].
  cbn [ns_State]. specialize (Hn n eq_refl). by destruct (state n).
Qed.

Lemma Server_write_leader data n :
  IsLeader n = true ->
  exists n' ch, Server_write quiet_env data n = (n', inl ch) /\
    log n' = (log n ++ [mkLogEntry (lastLogIndex n + 1) (term n) data])%list.
Proof.
  intros Hl. unfold Server_write, quiet_env. cbn [rn_IsLeader rn_Propose rn_AppliedWait Raft_RaftNode].
  rewrite Hl. cbn [negb]. unfold IsLeader in Hl. apply andb_true_iff in Hl as [Hl%bool_decide_eq_true_1 _].
  destruct (Propose data n) as [n1 [i|e]] eqn:Hp.
  - pose proof (Propose_eq _ _ _ _ Hp) as [-> [fs' ->]].
    destruct (AppliedWait _ _) as [n2 ch] eqn:Hw. exists n2, ch. split; [done|].
    unfold AppliedWait in Hw. destruct (_ <=? _)%Z; by injection Hw as <- _.
  - unfold Propose in Hp. rewrite bool_decide_eq_true_2 in Hp by done. cbn [negb] in Hp.
    by destruct (saveLog _).
Qed.

(** The leader as the first helpful seed knows it: itself, or the node whose
    identifier it reports, at the address where the client looks for that. *)
Definition leader_known (w : network) (seed : string) (n : Raft) (A : string) (ldr : Raft) : Prop :=
  served w !! A = Some ldr /\ IsLeader ldr = true /\
  ((A = seed /\ n = ldr) \/
   (state n <> Leader /\ exists host port, address host port /\
      leader n = host +:+ ":" +:+ port /\ A = seen_from seed host port)).

Lemma discover_leader addrs w c skip seed rest n A ldr :
  network_ok addrs w -> skip ⊆ addrs -> Forall (unhelpful w) skip ->
  served w !! seed = Some n -> leader_known w seed n A ldr -> A <> "" ->
  seeds c = (skip ++ seed :: rest)%list ->
  discoverLeader net_status (c, w) = (Some A, (c <| leaderAddr := A |>, w)).
Proof.
  intros Hok Hsk Hf Hn (HA & HL & Hk) Hne Hs.
  unfold discoverLeader. unfold mbind at 1, M_bind at 1, get at 1. cbn [fst].
  rewrite Hs, (discover_past addrs) by done. cbn [discoverFrom]. unfold mbind at 1, M_bind at 1.
  assert (findLeaderFromNode net_status normalizeLeaderAddr seed (c, w) = (Some A, (c, w))) as ->; [|by destruct A].
  unfold findLeaderFromNode, status_of, mbind, M_bind, mret, M_ret, lift. cbn [fst snd].
  rewrite (net_status_at addrs) by (done || right; by eexists). rewrite Hn.
  cbn [fmap option_fmap option_map StatusCode raft_status json_response].
  change (mkHttpResponse 200 (Some "application/json") _) with (raft_status n).
  rewrite Z.eqb_refl. destruct Hok as [_ Hst]. destruct (decode_raft_status n (Hst _ n Hn)) as [-> _].
  cbn [ns_State ns_LeaderID]. destruct Hk as [[-> ->]|(Hnl & host & port & Had & Hl & ->)].
  - unfold IsLeader in HL. by apply andb_true_iff in HL as [->%bool_decide_eq_true_1 _].
  - rewrite Hl, normalize_address by done. pose proof Had as (Hh & _).
    rewrite (bool_decide_eq_false_2 (host +:+ _ = "")) by (by destruct host).
    by destruct (state n).
Qed.


(** ** Three nodes on one machine *)

Definition follower_at (id ldr : string) : Raft :=
  (example_node id ["n1:4000"; "n3:4004"] Follower 1 [mkLogEntry 0 0 ""]) <| leader := ldr |>.

Definition leader_at (id : string) : Raft :=
  example_node id ["n1:4000"; "n2:4002"] Leader 1 [mkLogEntry 0 0 ""].

(** The first node is dead; the second one knows the third as its leader. *)
Definition three_ports : network :=
  mkNetwork {["127.0.0.1:4002" := follower_at "n2:4002" "n3:4004";
              "127.0.0.1:4004" := leader_at "n3:4004"]} [].

Definition some_client : Client := mkClient ∅ "127.0.0.1:4000" ["127.0.0.1:4000"; "127.0.0.1:4002"] 3.

Lemma three_ports_ok : network_ok ["127.0.0.1:4000"; "127.0.0.1:4000"] three_ports.
Proof.
  assert (forall a n, served three_ports !! a = Some n ->
            (a = "127.0.0.1:4002" \/ a = "127.0.0.1:4004") /\ status_ok n) as Hs.
  { intros a n. unfold three_ports. cbn [served]. rewrite lookup_insert_Some, lookup_singleton_Some.
    intros [[<- <-]|[_ [<- <-]]]; (split; [auto|split; reflexivity]). }
  split; [|intros a n H; by apply (Hs a)].
  intros a b Ha [nb Hb]. apply Hs in Hb as [Hb _].
  assert (a = "127.0.0.1:4000" \/ a = "127.0.0.1:4002" \/ a = "127.0.0.1:4004") as Ha'.
  { destruct Ha as [Ha|[na Ha]]; [set_solver|]. apply Hs in Ha as [Ha _]. by right. }
  destruct Ha' as [-> | [-> | ->]], Hb as [-> | ->]; intros E; vm_compute in E; (done || discriminate E).
Qed.

