(* ===== verification/Cli.v ===== *)
(** * The command line client

    cmd/mimorictl: the [clientManager] of client.go, whose connection cache,
    status checks and retry loop are those of the client library (its own copies
    of the same code, [Client] below; its [getHTTPAddr] is written differently
    and proved equal), with its own address handling and leader discovery, and
    the commands of main.go. *)
From stdpp Require Import gmap strings list pretty.
From Stdlib Require Import ZArith Ascii Lia.
From S2P Require Import Prelude GoStrings GoJson GoText Types Addr RaftNode Admin KvStore Api Rest Client.

Local Open Scope string_scope.

(** ** Addresses *)

Definition splitAddrList (addrList : string) : list string :=
  filter (fun p => p <> "") (map trim_space (str_split "," addrList)).

Definition newClientManager (initialAddr : string) : Client :=
  let initialAddrs := splitAddrList initialAddr in
  mkClient ∅ "" (match initialAddrs with [] => [initialAddr] | _ => initialAddrs end) 3.

(** The seeds: the [--addr] flag unless the environment names some. *)
Definition seed_text (addr envAddrs envSeeds : string) : string :=
  let seed := if bool_decide (envAddrs = "") then addr else envAddrs in
  if bool_decide (envSeeds = "") then seed else envSeeds.

Definition getClientManager (addr envAddrs envSeeds : string) : Client :=
  newClientManager (seed_text addr envAddrs envSeeds).

Definition seedAddrs (addr envAddrs envSeeds : string) : list string :=
  let raw := seed_text addr envAddrs envSeeds in
  match splitAddrList raw with
  | [] => if bool_decide (trim_space raw = "") then [] else [trim_space raw]
  | seeds => seeds
  end.

Definition cm_getHTTPAddr (grpcAddr : string) : string :=
  match str_cut ":" grpcAddr with
  | None => grpcAddr
  | Some (host, portStr) =>
    match atoi portStr with
    | Some port => host_port host (int64 (port + 1))
    | None => grpcAddr
    end
  end.

(** The port Docker Compose publishes a node's gRPC port 4000 on. *)
Definition docker_port (leaderHost : string) (portNum : Z) : Z :=
  if bool_decide (leaderHost = "mimori-node1") then 4000
  else if bool_decide (leaderHost = "mimori-node2") then 4002
  else if bool_decide (leaderHost = "mimori-node3") then 4004
  else portNum.

Definition cm_normalizeLeaderAddr (baseAddr leaderID : string) : string :=
  let leaderID := trim_space leaderID in
  if bool_decide (leaderID = "") then ""
  else
    let '(baseHost, useBaseHost) := local_base baseAddr in
    let graft := useBaseHost && negb (bool_decide (baseHost = "")) in
    if has_prefix ":" leaderID then
      if graft then baseHost +:+ leaderID else leaderID
    else
      match str_cut ":" leaderID with
      | None => if graft then baseHost +:+ ":" +:+ leaderID else ":" +:+ leaderID
      | Some (leaderHost, port) =>
        if bool_decide (port = "") then if graft then baseHost else leaderID
        else if graft && has_prefix "mimori-node" leaderHost then
          match atoi port with
          | Some portNum =>
            if (portNum =? 4000)%Z then host_port baseHost (docker_port leaderHost portNum)
            else baseHost +:+ ":" +:+ port
          | None => baseHost +:+ ":" +:+ port
          end
        else if graft then baseHost +:+ ":" +:+ port
        else if bool_decide (leaderHost = "") && negb (bool_decide (baseHost = ""))
        then baseHost +:+ ":" +:+ port
        else leaderID
      end.

(** The text of an error with the leader in it, as an older command printed it. *)
Definition extractLeaderAddr (msg : string) : option string :=
  match str_index "leader=" msg with
  | None => None
  | Some idx =>
    let leader := trim_space (str_drop (idx + 7) msg) in
    if bool_decide (leader = "") then None else Some leader
  end.

(** How the snapshot command ends. *)
Inductive snapshot_report :=
  | NoLeader | NoAnswer | Created | Refused (body : string) | Failed (body : string).

(** ** Discovery and retries *)

Section manager.
Context {W : Type}.
Variable get_status : string -> W -> option HttpResponse * W.
Variable dial : string -> W -> (nat + string) * W.
Variable conn_state : nat -> W -> string.
Variable sleep : Z -> W -> W.
Variable close_conn : nat -> W -> W.
(** The order in which a Go map lists its keys is not fixed. *)
Variable key_order : gmap string nat -> list string.

(** The connection cache is the library's, line by line. *)
Definition cm_getConnection (addr : string) : M (W := W) (nat + api_error) :=
  getConnection dial conn_state addr.

Definition cm_close : M (W := W) () := Close close_conn.

(** The status page of the node at [addr], with the tool's own way to its HTTP
    address. *)
Definition cm_status_of (fields : list (field nodeStatus)) (addr : string) : M (W := W) (option nodeStatus) :=
  r ← lift (get_status (cm_getHTTPAddr addr));
  mret match r with
       | Some resp =>
         if (StatusCode resp =? 200)%Z then decode_status fields (RespBody resp) else None
       | None => None
       end.

Definition cm_findLeaderFromNode (addr : string) : M (W := W) (option string) :=
  st ← cm_status_of nodeStatus_fields addr;
  mret match st with
       | None => None
       | Some st =>
         if bool_decide (ns_State st = "leader") then Some addr
         else if bool_decide (ns_LeaderID st = "") then None
         else Some (cm_normalizeLeaderAddr addr (ns_LeaderID st))
       end.

Definition cm_verifyLeader (addr : string) : M (W := W) bool :=
  st ← cm_status_of stateOnly_fields addr;
  mret match st with Some st => bool_decide (ns_State st = "leader") | None => false end.

(** The cached leader if it still leads, else ask the initial addresses and
    then every address with a connection. *)
Definition cm_discoverLeader : M (W := W) (option string) :=
  c ← get;
  let search : M (option string) :=
    c ← get;
    discoverFrom get_status cm_normalizeLeaderAddr (seeds c ++ key_order (conns c))%list in
  if bool_decide (leaderAddr c = "") then search
  else
    ok ← cm_verifyLeader (leaderAddr c);
    if ok : bool then mret (Some (leaderAddr c))
    else _ ← modify (fun c => c <| leaderAddr := "" |>); search.

Definition cm_getLeader : M (W := W) (option string) := getLeader get_status cm_discoverLeader.

(** [fn] is the remote call of the command. *)
Definition cm_executeWithRetry (invoke : nat -> W -> option api_error * W) (maxRetries : nat)
    : M (option (option client_error) * list string) :=
  retryLoop get_status dial conn_state invoke sleep cm_normalizeLeaderAddr cm_discoverLeader
    maxRetries 0 None.

(** ** Commands *)

(** The commands make three attempts. *)
Definition doPut (put : string -> string -> nat -> W -> option api_error * W) (key val : string) :=
  cm_executeWithRetry (put key val) 3.

Definition doDelete (delete : string -> nat -> W -> option api_error * W) (key : string) :=
  cm_executeWithRetry (delete key) 3.

(** A refusal in an administrative response is an error with its text. *)
Definition admin_error (rpc : nat -> W -> (AdminResponse + api_error) * W) (conn : nat) (w : W)
    : option api_error * W :=
  match rpc conn w with
  | (inr err, w) => (Some err, w)
  | (inl resp, w) => ((if adm_Success resp then None else Some (PlainError (adm_Error resp))), w)
  end.

Definition doAddNode (addNode : string -> nat -> W -> (AdminResponse + api_error) * W) (nodeID : string) :=
  cm_executeWithRetry (admin_error (addNode nodeID)) 3.

Definition doRemoveNode (removeNode : string -> nat -> W -> (AdminResponse + api_error) * W)
    (nodeID : string) :=
  cm_executeWithRetry (admin_error (removeNode nodeID)) 3.

Definition doTransferLeadership (transfer : string -> nat -> W -> (AdminResponse + api_error) * W)
    (targetNodeID : string) :=
  cm_executeWithRetry (admin_error (transfer targetNodeID)) 3.

(** The health command: one call, to the leader or else to the [--addr] given. *)
Definition health_cmd (rpc : nat -> W -> (string + api_error) * W) (addr : string)
    : M (string + api_error) :=
  leader ← cm_getLeader;
  r ← cm_getConnection (default addr leader);
  match r with
  | inr err => mret (inr err)
  | inl conn => lift (rpc conn)
  end.

(** [mustHTTPGetFromSeeds]: the body of the first seed that answers 200;
    [None] ends the program. *)
Fixpoint httpGetFrom (http_get : string -> W -> option HttpResponse * W) (path : string)
    (seeds : list string) (w : W) : option string * W :=
  match seeds with
  | [] => (None, w)
  | seed :: seeds =>
    match http_get ("http://" +:+ cm_getHTTPAddr seed +:+ path) w with
    | (Some resp, w) =>
      if (StatusCode resp =? 200)%Z then (Some (RespBody resp), w) else httpGetFrom http_get path seeds w
    | (None, w) => httpGetFrom http_get path seeds w
    end
  end.

(** [mustDiscoverLeaderFromSeeds] declares state and leader only. *)
Definition raftStatus_fields : list (field nodeStatus) :=
  [("state", fun v r => (fun x => r <| ns_State := x |>) <$> decode_string v (ns_State r));
   ("leader_id", fun v r => (fun x => r <| ns_LeaderID := x |>) <$> decode_string v (ns_LeaderID r))].

(** What a seed's answer says; [strings.EqualFold] is with an ASCII word. *)
Definition status_leader (seed body : string) : option string :=
  match unmarshal raftStatus_fields (mkNodeStatus "" "" "") body with
  | None => None
  | Some st =>
    if bool_decide (to_lower (ns_State st) = "leader") then Some seed
    else if bool_decide (ns_LeaderID st = "") then None
    else Some (cm_normalizeLeaderAddr seed (ns_LeaderID st))
  end.

Fixpoint discoverFromSeeds (http_get : string -> W -> option HttpResponse * W) (seeds : list string)
    (w : W) : option string * W :=
  match seeds with
  | [] => (None, w)
  | seed :: seeds =>
    match http_get ("http://" +:+ cm_getHTTPAddr seed +:+ "/raft/status") w with
    | (Some resp, w) =>
      if (StatusCode resp =? 200)%Z then
        match status_leader seed (RespBody resp) with
        | Some leader => (Some leader, w)
        | None => discoverFromSeeds http_get seeds w
        end
      else discoverFromSeeds http_get seeds w
    | (None, w) => discoverFromSeeds http_get seeds w
    end
  end.

(** The snapshot command: POST to the leader that the seeds name, and what is
    made of the answer; a refusal (412) is reported with the fields of its body. *)
Definition snapshot_cmd (http_get http_post : string -> W -> option HttpResponse * W)
    (seeds : list string) (w : W) : snapshot_report * W :=
  match discoverFromSeeds http_get seeds w with
  | (None, w) => (NoLeader, w)
  | (Some leader, w) =>
    match http_post ("http://" +:+ cm_getHTTPAddr leader +:+ "/raft/snapshot") w with
    | (None, w) => (NoAnswer, w)
    | (Some resp, w) =>
      (if (StatusCode resp =? 412)%Z then Refused (RespBody resp)
       else if (StatusCode resp =? 200)%Z then Created
       else Failed (RespBody resp), w)
    end
  end.
End manager.

(** What the get command prints. *)
Definition get_output (resp : string * bool) : string :=
  (if resp.2 then resp.1 else "(nil)") +:+ newline.

(** The get command: three attempts, the response in a captured variable as in
    the library's [GetWithOptions]. *)
Definition get_cmd {W} (get_status : string -> W -> option HttpResponse * W)
    (dial : string -> W -> (nat + string) * W) (conn_state : nat -> W -> string) (sleep : Z -> W -> W)
    (key_order : gmap string nat -> list string)
    (rpc_Get : string -> bool -> nat -> W -> (string * bool + api_error) * W)
    (key : string) (allowStale : bool) (σ : Client * W)
    : option (string + option client_error) * (Client * W) :=
  let '((res, _), (c, (w, resp))) :=
    cm_executeWithRetry (beside get_status) (beside dial) (fun conn wc => conn_state conn wc.1)
      (fun d wc => (sleep d wc.1, wc.2)) key_order (get_invoke rpc_Get key allowStale) 3
      (σ.1, (σ.2, None)) in
  (match res with
   | Some err => Some (inr err)
   | None => inl ∘ get_output <$> resp
   end, (c, w)).

(** The metrics command prints the lines of the metrics page that start with a
    name it knows. *)
Definition keyMetrics : list string :=
  ["raft_node_is_leader"; "raft_term"; "raft_commit_index"; "raft_last_applied_index";
   "raft_log_length"; "raft_proposals_total"; "raft_applied_total"; "raft_snapshots_created_total"].

Definition shown_metrics (body : string) : list string :=
  filter (fun line => existsb (fun m => has_prefix m line) keyMetrics && negb (has_prefix "#" line) = true)
    (str_split "010" body).

(** ** The two clients agree *)

Lemma str_cut_split s :
  match str_cut ":" s with
  | None => str_split ":" s = [s]
  | Some (a, b) => str_split ":" s = a :: str_split ":" b /\ s = a +:+ String ":" b
  end.
Proof.
  induction s as [|c s IH]; cbn [str_cut str_split]; [done|].
  destruct (Ascii.eqb_spec c ":") as [->|Hc]; [done|].
  destruct (str_cut ":" s) as [[a b]|]; cbn [fmap option_fmap option_map prod_map fst snd id].
  - destruct IH as [-> ->]. done.
  - by rewrite IH.
Qed.

Lemma digits_val_no_colon acc s z : digits_val acc s = Some z -> has_byte ":" s = false.
Proof.
  revert acc. induction s as [|c s IH]; intros acc; [done|]. cbn [digits_val has_byte].
  destruct (is_digit c) eqn:Hd; [|done]. intros H%IH. rewrite H.
  by destruct (digit_not_special c Hd) as [-> _].
Qed.

Lemma digits_no_colon s z : digits s = Some z -> has_byte ":" s = false.
Proof. unfold digits. destruct s; [done|]. apply digits_val_no_colon. Qed.

Lemma atoi_no_colon s z : atoi s = Some z -> has_byte ":" s = false.
Proof.
  unfold atoi. destruct s as [|c s]; [done|].
  destruct (Ascii.eqb_spec c "-") as [->|_]; [|destruct (Ascii.eqb_spec c "+") as [->|_]].
  - destruct (digits s) as [d|] eqn:E; [|done]. intros _. apply digits_no_colon in E.
    cbn [has_byte]. by rewrite E.
  - destruct (digits s) as [d|] eqn:E; [|done]. intros _. apply digits_no_colon in E.
    cbn [has_byte]. by rewrite E.
  - destruct (digits (String c s)) as [d|] eqn:E; [|done]. intros _. by apply digits_no_colon in E.
Qed.

Lemma split_two s a b :
  str_split ":" s = [a; b] -> str_cut ":" s = Some (a, b) /\ has_byte ":" b = false.
Proof.
  intros Hs. pose proof (str_cut_split s) as H. destruct (str_cut ":" s) as [[x y]|]; [|congruence].
  destruct H as [H _]. rewrite Hs in H. injection H as -> H.
  pose proof (str_cut_split y) as Hy. destruct (str_cut ":" y) as [[u v]|] eqn:Ey.
  - destruct Hy as [Hy _]. rewrite <- H in Hy. injection Hy as _ Hy.
    pose proof (str_cut_split v) as Hv. destruct (str_cut ":" v) as [[? ?]|]; [destruct Hv as [Hv _]|];
      congruence.
  - rewrite Hy in H. injection H as ->. split; [done|]. clear -Ey.
    induction y as [|c y IH]; [done|]. cbn [str_cut has_byte] in *.
    destruct (Ascii.eqb c ":"); [done|]. destruct (str_cut ":" y) as [[? ?]|]; [done|]. by apply IH.
Qed.

(** The library splits at every colon, the command line client cuts at the
    first: with a port that must be a number, that is the same function. *)
Lemma getHTTPAddr_agree addr : cm_getHTTPAddr addr = getHTTPAddr addr.
Proof.
  unfold cm_getHTTPAddr, getHTTPAddr. pose proof (str_cut_split addr) as H.
  destruct (str_cut ":" addr) as [[a b]|] eqn:E; [|by rewrite H].
  destruct H as [H _]. destruct (atoi b) as [port|] eqn:Ep.
  - rewrite H, (str_split_one ":" b) by (by eapply atoi_no_colon). by rewrite Ep.
  - destruct (str_split ":" addr) as [|x [|y [|z l]]] eqn:Es; try done.
    apply split_two in Es as [Es _]. rewrite E in Es. injection Es as -> ->. by rewrite Ep.
Qed.

(** Hence asking a node for the leader, and checking a leader, are the same. *)
Lemma findLeader_agree {W} (get_status : string -> W -> option HttpResponse * W) addr :
  cm_findLeaderFromNode get_status addr = findLeaderFromNode get_status cm_normalizeLeaderAddr addr /\
  cm_verifyLeader get_status addr = verifyLeader get_status addr.
Proof.
  unfold cm_findLeaderFromNode, cm_verifyLeader, cm_status_of, findLeaderFromNode, verifyLeader, status_of.
  by rewrite getHTTPAddr_agree.
Qed.

(** The same where hints are made dialable, but for the host names of the Docker
    Compose file. *)
Lemma normalize_agree base id :
  has_prefix "mimori-node" (trim_space id) = false ->
  cm_normalizeLeaderAddr base id = normalizeLeaderAddr base id.
Proof.
  intros Hd. unfold cm_normalizeLeaderAddr, normalizeLeaderAddr.
  case_bool_decide; [done|]. destruct (local_base base) as [h u].
  destruct (has_prefix ":" (trim_space id)); [done|].
  pose proof (str_cut_split (trim_space id)) as Hc.
  destruct (str_cut ":" (trim_space id)) as [[a b]|]; [|done]. destruct Hc as [_ Hc].
  case_bool_decide; [done|].
  replace (has_prefix "mimori-node" a) with false; [by rewrite andb_false_r|].
  symmetry. destruct (has_prefix "mimori-node" a) eqn:E; [|done].
  rewrite Hc in Hd. rewrite (has_prefix_more _ _ _ E) in Hd. done.
Qed.

(** The library and the command line tool read addresses alike.  They ask
    the same HTTP endpoint for every address, and turn every leader hint into
    the same address to dial, except for the host names of the Docker Compose
    file seen from outside: there the tool dials the published port of the
    node, and the library the container's port on the local host, which is
    node 1's. *)
Theorem clients_agree base id addr :
  cm_getHTTPAddr addr = getHTTPAddr addr /\
  (has_prefix "mimori-node" (trim_space id) = false ->
     cm_normalizeLeaderAddr base id = normalizeLeaderAddr base id) /\
  (map (cm_normalizeLeaderAddr "127.0.0.1:4000") ["mimori-node1:4000"; "mimori-node2:4000"; "mimori-node3:4000"]
     = ["127.0.0.1:4000"; "127.0.0.1:4002"; "127.0.0.1:4004"] /\
   map (normalizeLeaderAddr "127.0.0.1:4000") ["mimori-node1:4000"; "mimori-node2:4000"; "mimori-node3:4000"]
     = ["127.0.0.1:4000"; "127.0.0.1:4000"; "127.0.0.1:4000"]).
Proof.
  split; [apply getHTTPAddr_agree|]. split; [apply normalize_agree|]. split; vm_compute; reflexivity.
Qed.
