(* ===== verification/Ctl.v ===== *)
(** * What the command line tool prints

    cmd/mimorictl/main.go: the table of commands with their aliases and numbers
    of arguments, and the reports: the status and leader commands decode the
    body of ["/raft/status"] into a map of arbitrary values and print them with
    [%v]; the writing and administrative commands print a fixed line or end the
    program with the error. *)
From stdpp Require Import gmap strings list pretty.
From Stdlib Require Import ZArith Ascii Lia.
From S2P Require Import Prelude GoStrings GoJson GoText Types Stores RaftNode Admin KvStore Api Rest Client Cli.

Local Open Scope string_scope.

(** ** The commands *)

Record ctl_command := mkCommand { cc_name : string; cc_alias : string; cc_args : nat }.

(** In the order of [rootCmd.AddCommand]; the name is the first word of [Use]. *)
Definition ctl_commands : list ctl_command :=
  [mkCommand "put" "p" 2; mkCommand "get" "g" 1; mkCommand "del" "d" 1; mkCommand "health" "h" 0;
   mkCommand "status" "st" 0; mkCommand "snapshot" "snap" 0; mkCommand "metrics" "m" 0;
   mkCommand "leader" "ldr" 0; mkCommand "add-node" "add" 1; mkCommand "remove-node" "rm" 1;
   mkCommand "transfer-leadership" "tl" 1].

(** Cobra looks a word up among names and aliases, then checks the number of
    arguments. *)
Definition find_command (word : string) : option ctl_command :=
  head (filter (fun c => cc_name c = word \/ cc_alias c = word) ctl_commands).

Definition parse_command (words : list string) : option (string * list string) :=
  match words with
  | [] => None
  | word :: args =>
    match find_command word with
    | Some c => if bool_decide (length args = cc_args c) then Some (cc_name c, args) else None
    | None => None
    end
  end.

(** ** Reports *)

Inductive report :=
  | Printed (lines : list string)
  | Fatal (message : string).

Definition put_report (err : option string) : report :=
  match err with None => Printed ["ok"] | Some e => Fatal ("put failed: " +:+ e) end.

Definition del_report (err : option string) : report :=
  match err with None => Printed ["deleted"] | Some e => Fatal ("delete failed: " +:+ e) end.

Definition health_report (result : string + string) : report :=
  match result with inl status => Printed [status] | inr e => Fatal ("health check failed: " +:+ e) end.

Definition add_node_report (nodeID : string) (err : option string) : report :=
  match err with
  | None => Printed ["Node " +:+ nodeID +:+ " added to cluster successfully"]
  | Some e => Fatal ("add-node failed: " +:+ e)
  end.

Definition remove_node_report (nodeID : string) (err : option string) : report :=
  match err with
  | None => Printed ["Node " +:+ nodeID +:+ " removed from cluster successfully"]
  | Some e => Fatal ("remove-node failed: " +:+ e)
  end.

Definition transfer_report (target : string) (err : option string) : report :=
  match err with
  | None => Printed ["Leadership transfer initiated to " +:+ target;
                     "The current leader will step down once the target node becomes leader."]
  | Some e => Fatal ("transfer-leadership failed: " +:+ e)
  end.

(** ** [%v] of a decoded JSON value

    A number has become a [float64], printed with as few digits as possible, and
    with an exponent from a million on. *)

Fixpoint strip_zeros (s : string) : string :=
  match s with
  | "" => ""
  | String c s' =>
    let t := strip_zeros s' in
    if bool_decide (t = "") && Ascii.eqb c "0" then "" else String c t
  end.

(** The exponent has at least two digits. *)
Definition fmt_exp (e : Z) : string :=
  "e+" +:+ (if (e <? 10)%Z then "0" else "") +:+ pretty e.

Definition fmt_float_nat (n : Z) : string :=
  let ds := pretty n in
  let e := (Z.of_nat (String.length ds) - 1)%Z in
  if (e <? 6)%Z then ds
  else
    match strip_zeros ds with
    | String d "" => String d (fmt_exp e)
    | String d rest => String d ("." +:+ rest +:+ fmt_exp e)
    | "" => ds
    end.

Definition fmt_float (n : Z) : string :=
  if (n <? 0)%Z then "-" +:+ fmt_float_nat (- n) else fmt_float_nat n.

Section show.
(** [%v] of values the server does not send: fractions, integers beyond 2^53,
    lists and objects. *)
Variable show_other : json -> string.

Definition show_value (v : option json) : string :=
  match v with
  | None | Some JNull => "<nil>"
  | Some (JBool b) => if b then "true" else "false"
  | Some (JStr s) => s
  | Some (JNum lit) =>
    match atoi lit with
    | Some n => if (Z.abs n <=? 2 ^ 53)%Z then fmt_float n else show_other (JNum lit)
    | None => show_other (JNum lit)
    end
  | Some v => show_other v
  end.

(** [json.Unmarshal] into a [map[string]interface{}]: [None] is an error, [null]
    leaves the map nil, and of repeated keys the last one counts. *)
Definition decode_any (body : string) : option (list (string * json)) :=
  match parse_json body with
  | Some (JObj kvs) => Some kvs
  | Some JNull => Some []
  | _ => None
  end.

Definition member (kvs : list (string * json)) (key : string) : option json :=
  snd <$> last (filter (fun kv => kv.1 = key) kvs).

Definition status_report (body : string) : report :=
  match decode_any body with
  | None => Printed [body]
  | Some kvs =>
    Printed ["Node ID:      " +:+ show_value (member kvs "id");
             "State:        " +:+ show_value (member kvs "state");
             "Term:         " +:+ show_value (member kvs "term");
             "Leader ID:    " +:+ show_value (member kvs "leader_id");
             "Commit Index: " +:+ show_value (member kvs "commit_index");
             "Last Applied: " +:+ show_value (member kvs "last_applied");
             "Log Length:   " +:+ show_value (member kvs "log_length")]
  end.

Definition leader_report (parseError body : string) : report :=
  match decode_any body with
  | None => Fatal ("failed to parse status: " +:+ parseError)
  | Some kvs =>
    match member kvs "leader_id" with
    | Some (JStr "") => Printed ["No leader elected"]
    | leaderID =>
      Printed ["Leader ID: " +:+ show_value leaderID;
               match member kvs "state" with
               | Some (JStr "leader") =>
                 "This node (" +:+ show_value (member kvs "id") +:+ ") is the leader"
               | _ => "This node (" +:+ show_value (member kvs "id") +:+ ") is a follower"
               end;
               "Term: " +:+ show_value (member kvs "term")]
    end
  end.
End show.

(** ** The tool and the server *)

(** Names and aliases are unambiguous, so an alias is the command. *)
Theorem aliases_are_commands c args :
  c ∈ ctl_commands ->
  parse_command (cc_alias c :: args) = parse_command (cc_name c :: args) /\
  parse_command (cc_name c :: args) =
    if bool_decide (length args = cc_args c) then Some (cc_name c, args) else None.
Proof.
  intros Hc. unfold ctl_commands in Hc.
  repeat (apply elem_of_cons in Hc as [->|Hc]; [split; reflexivity|]). by apply not_elem_of_nil in Hc.
Qed.

Lemma aliases_are_commands_witness :
  mkCommand "remove-node" "rm" 1 ∈ ctl_commands /\
  parse_command ["rm"; ":4000"] = Some ("remove-node", [":4000"]) /\
  (parse_command ["rm"; ":4000"] = parse_command ["remove-node"; ":4000"] /\
   parse_command ["remove-node"; ":4000"] = Some ("remove-node", [":4000"])).
Proof.
  assert (mkCommand "remove-node" "rm" 1 ∈ ctl_commands) as Hin by (unfold ctl_commands; set_solver).
  split; [exact Hin|]. split; [reflexivity|].
  exact (aliases_are_commands (mkCommand "remove-node" "rm" 1) [":4000"] Hin).
Defined.

Lemma pretty_length_small n :
  (0 <= n < 1000000)%Z -> (String.length (pretty n) <= 6)%nat.
Proof.
  intros Hn. destruct n as [|p|p]; [simpl; lia| |lia]. rewrite pretty_pos_eq.
  assert (N.pos p < 1000000)%N as Hp by lia. revert Hp. generalize (N.pos p). intros x Hx. clear Hn p.
  assert (forall k s, (x < 10 ^ N.of_nat k)%N -> (String.length (pretty_N_go x s) <= k + String.length s)%nat) as H.
  { clear Hx. induction (N.lt_wf_0 x) as [x _ IH]. intros k s Hk.
    destruct (decide (x = 0%N)) as [->|Hx0]; [rewrite pretty_N_go_0; lia|].
    rewrite pretty_N_go_step by lia. destruct k as [|k]; [simpl in Hk; lia|].
    etrans; [apply (IH (x / 10)%N ltac:(apply N.div_lt; lia) k)|simpl; lia].
    rewrite Nat2N.inj_succ, N.pow_succ_r' in Hk. apply N.Div0.div_lt_upper_bound. lia. }
  specialize (H 6%nat ""). simpl in H. lia.
Qed.

Lemma show_small show n :
  (0 <= n < 1000000)%Z -> show_value show (Some (enc_int n)) = pretty n.
Proof.
  intros Hn. unfold show_value, enc_int.
  rewrite atoi_pretty by (unfold in_int64, two63; lia).
  rewrite (proj2 (Z.leb_le _ _)) by lia. unfold fmt_float. rewrite (proj2 (Z.ltb_ge _ _)) by lia.
  unfold fmt_float_nat. pose proof (pretty_length_small n Hn).
  by rewrite (proj2 (Z.ltb_lt _ _)) by lia.
Qed.

Lemma decode_any_status n :
  status_ok n ->
  exists kvs, decode_any (RespBody (raft_status n)) = Some kvs /\
    JObj kvs = Status_json (Raft_Status n).
Proof.
  intros Hok. pose proof (Status_json_ok n Hok) as Hj. unfold decode_any, parse_json, raft_status, json_response.
  cbn [RespBody]. rewrite sapp_length. unfold marshal at 2.
  rewrite (parse_print _ Hj) by
    (reflexivity || (pose proof (jsize_print _ Hj); unfold marshal; lia)).
  by eexists.
Qed.

(** The status command shows the node.  From the body the server sends, it prints
    identifier, role, term, leader, commit index, applied index and log length of
    the node, in that order, as long as the numbers are below a million; from
    there on they appear in exponent notation.  The leader command says that no
    leader is elected exactly when the node knows none, and otherwise names it;
    a candidate is reported as a follower. *)
Theorem status_command_shows show err n :
  status_ok n ->
  (0 <= term n < 1000000)%Z -> (0 <= commitIndex n < 1000000)%Z ->
  (0 <= lastApplied n < 1000000)%Z -> (Z.of_nat (length (log n)) < 1000000)%Z ->
  status_report show (RespBody (raft_status n)) =
    Printed ["Node ID:      " +:+ nodeId n; "State:        " +:+ RaftState_String (state n);
             "Term:         " +:+ pretty (term n); "Leader ID:    " +:+ leader n;
             "Commit Index: " +:+ pretty (commitIndex n); "Last Applied: " +:+ pretty (lastApplied n);
             "Log Length:   " +:+ pretty (Z.of_nat (length (log n)))] /\
  leader_report show err (RespBody (raft_status n)) =
    (if bool_decide (leader n = "") then Printed ["No leader elected"]
     else Printed ["Leader ID: " +:+ leader n;
                   "This node (" +:+ nodeId n +:+ ") is " +:+
                     (if bool_decide (state n = Leader) then "the leader" else "a follower");
                   "Term: " +:+ pretty (term n)]) /\
  show_value show (Some (enc_int 1234567)) = "1.234567e+06".
Proof.
  intros Hok Ht Hc Hl Hn. destruct (decode_any_status n Hok) as (kvs & Hd & Hk).
  unfold status_report, leader_report. rewrite Hd. injection Hk as ->.
  set (kvs := [("id", _); _; _; _; _; _; _]).
  assert (member kvs "id" = Some (JStr (nodeId n))) as -> by reflexivity.
  assert (member kvs "state" = Some (JStr (RaftState_String (state n)))) as -> by reflexivity.
  assert (member kvs "term" = Some (enc_int (term n))) as -> by reflexivity.
  assert (member kvs "leader_id" = Some (JStr (leader n))) as -> by reflexivity.
  assert (member kvs "commit_index" = Some (enc_int (commitIndex n))) as -> by reflexivity.
  assert (member kvs "last_applied" = Some (enc_int (lastApplied n))) as -> by reflexivity.
  assert (member kvs "log_length" = Some (enc_int (Z.of_nat (length (log n))))) as -> by reflexivity.
  rewrite !show_small by lia. split; [reflexivity|]. split; [|reflexivity]. cbn [show_value].
  destruct (leader n) as [|c l] eqn:El; [by rewrite bool_decide_eq_true_2|].
  rewrite bool_decide_eq_false_2 by done. f_equal. f_equal. f_equal.
  destruct (state n); cbn [RaftState_String];
    rewrite ?sapp_assoc; reflexivity.
Qed.
