(* ===== verification/Wiring.v ===== *)
(** * Routes and logging

    internal/api/server.go: the patterns [ListenAndServe], [setupRESTAPI] and
    [setupDashboard] register, served by the standard library's [ServeMux] (an
    exact pattern first, then the redirect to a subtree's root, then the longest
    subtree), for paths in the clean form [ServeMux] redirects to.
    internal/logging/logger.go: the format and level chosen from the environment
    and which messages the level lets through. *)
From stdpp Require Import strings list sets.
From Stdlib Require Import Ascii Lia.
From S2P Require Import Prelude GoStrings GoText.

Local Open Scope string_scope.

(** ** Routes *)

Inductive endpoint :=
  | Healthz | Ready | RaftStatusPage | RaftSnapshotPage | MetricsPage | KvPage
  | ClusterNodesPage | ClusterStatusPage | AddNodePage | RemoveNodePage | TransferPage | SpawnPage
  | ApiStatusPage | DashboardFiles | RootPage.

#[export] Instance endpoint_eq_dec : EqDecision endpoint.
Proof. solve_decision. Defined.

Definition rest_routes : list (string * endpoint) :=
  [("/api/kv/", KvPage); ("/api/cluster/nodes", ClusterNodesPage);
   ("/api/cluster/status", ClusterStatusPage); ("/api/cluster/add-node", AddNodePage);
   ("/api/cluster/remove-node", RemoveNodePage); ("/api/cluster/transfer-leadership", TransferPage);
   ("/api/cluster/spawn-node", SpawnPage); ("/api/status", ApiStatusPage)].

(** Nothing is registered if the embedded files lack [index.html]. *)
Definition dashboard_routes (hasIndex : bool) : list (string * endpoint) :=
  if hasIndex then [("/dashboard/", DashboardFiles); ("/", RootPage)] else [].

Definition routes (hasIndex : bool) : list (string * endpoint) :=
  ([("/healthz", Healthz); ("/ready", Ready); ("/raft/status", RaftStatusPage);
    ("/raft/snapshot", RaftSnapshotPage); ("/metrics", MetricsPage)]
   ++ rest_routes ++ dashboard_routes hasIndex)%list.

Inductive served := Serve (e : endpoint) | SlashRedirect (to : string) | MuxNotFound.

Definition ends_with_slash (s : string) : bool := has_prefix "/" (str_rev s).

Definition exact_route (rs : list (string * endpoint)) (path : string) : option endpoint :=
  snd <$> head (filter (fun r => r.1 = path) rs).

(** The longest pattern with a trailing slash that the path starts with. *)
Definition subtree_route (rs : list (string * endpoint)) (path : string) : option (string * endpoint) :=
  foldl (fun best r =>
           if ends_with_slash r.1 && has_prefix r.1 path &&
              (from_option (fun b => String.length b.1) 0 best <? String.length r.1)%nat
           then Some r else best) None rs.

Definition mux_serve (rs : list (string * endpoint)) (path : string) : served :=
  match exact_route rs path with
  | Some e => Serve e
  | None =>
    if negb (ends_with_slash path) && bool_decide (is_Some (exact_route rs (path +:+ "/")))
    then SlashRedirect (path +:+ "/")
    else
      match subtree_route rs path with
      | Some (_, e) => Serve e
      | None => MuxNotFound
      end
  end.

(** The handler of ["/"]: a redirect (302) at the root, 404 everywhere else. *)
Inductive root_answer := RedirectTo (location : string) | NotFound.

Definition root_handler (path : string) : root_answer :=
  if bool_decide (path = "/") then RedirectTo "/dashboard/" else NotFound.

(** The registrations do not panic: no pattern is registered twice. *)
Lemma routes_distinct b : NoDup (map fst (routes b)).
Proof. destruct b; apply (bool_decide_unpack _); vm_compute; exact I. Qed.


(** Requests reach their handlers.  Every path under ["/api/kv/"] is served by the
    key handler, whatever the key; every path under ["/dashboard/"] by the file
    server, and ["/dashboard"] is redirected there; each of the other patterns is
    served by its own handler; the root is redirected to the dashboard, and any
    path that starts with none of the registered subtrees and is no pattern ends
    in a 404. *)
Theorem routes_reach_handlers :
  (forall key, mux_serve (routes true) ("/api/kv/" +:+ key) = Serve KvPage) /\
  (forall file, mux_serve (routes true) ("/dashboard/" +:+ file) = Serve DashboardFiles) /\
  mux_serve (routes true) "/dashboard" = SlashRedirect "/dashboard/" /\
  (forall r, r ∈ routes true -> mux_serve (routes true) r.1 = Serve r.2) /\
  root_handler "/" = RedirectTo "/dashboard/" /\
  (forall rest, let path := "/" +:+ rest in
     exact_route (routes true) path = None -> exact_route (routes true) (path +:+ "/") = None ->
     has_prefix "/api/kv/" path = false -> has_prefix "/dashboard/" path = false ->
     mux_serve (routes true) path = Serve RootPage /\ root_handler path = NotFound).
Proof.
  split_and!.
  - intros [|c key]; [reflexivity|]. unfold mux_serve.
    replace (exact_route (routes true) ("/api/kv/" +:+ String c key)) with (@None endpoint) by reflexivity.
    replace (exact_route (routes true) (("/api/kv/" +:+ String c key) +:+ "/")) with (@None endpoint) by reflexivity.
    rewrite (bool_decide_eq_false_2 (is_Some None)) by (by intros [? [=]]). by rewrite andb_false_r.
  - intros [|c file]; [reflexivity|]. unfold mux_serve.
    replace (exact_route (routes true) ("/dashboard/" +:+ String c file)) with (@None endpoint) by reflexivity.
    replace (exact_route (routes true) (("/dashboard/" +:+ String c file) +:+ "/")) with (@None endpoint) by reflexivity.
    rewrite (bool_decide_eq_false_2 (is_Some None)) by (by intros [? [=]]). by rewrite andb_false_r.
  - reflexivity.
  - intros r Hr. unfold routes in Hr. cbn [app rest_routes dashboard_routes] in Hr.
    repeat (apply elem_of_cons in Hr as [->|Hr]; [reflexivity|]). by apply not_elem_of_nil in Hr.
  - reflexivity.
  - intros rest path E1 E2 P1 P2. split.
    + unfold mux_serve. rewrite E1, E2. rewrite (bool_decide_eq_false_2 (is_Some None)) by (by intros [? [=]]).
      rewrite andb_false_r. unfold subtree_route, routes. cbn [app rest_routes dashboard_routes foldl fst].
      rewrite P1, P2, !andb_false_r. reflexivity.
    + unfold root_handler. rewrite bool_decide_eq_false_2; [done|]. intros Hp. by rewrite Hp in E1.
Qed.

(** ** Logging *)

Inductive level := DebugLevel | InfoLevel | WarnLevel | ErrorLevel | FatalLevel.

Definition level_num (l : level) : nat :=
  match l with DebugLevel => 0 | InfoLevel => 1 | WarnLevel => 2 | ErrorLevel => 3 | FatalLevel => 4 end.

Inductive log_format := JsonFormat | ConsoleFormat.

(** [init]: [MIMORI_LOG_FORMAT] and [MIMORI_LOG_LEVEL]. *)
Definition logging_init (envFormat envLevel : string) : log_format * level :=
  (if bool_decide (envFormat = "json") then JsonFormat else ConsoleFormat,
   if bool_decide (envLevel = "debug") then DebugLevel
   else if bool_decide (envLevel = "warn") then WarnLevel
   else if bool_decide (envLevel = "error") then ErrorLevel
   else InfoLevel).

(** A message is written if its level is not below the global one. *)
Definition written (global l : level) : bool := (level_num global <=? level_num l)%nat.

(** The logging helpers: the level each one writes at. *)
Definition log_message (envFormat envLevel : string) (l : level) (msg : string) : option (log_format * level * string) :=
  let '(fmt, global) := logging_init envFormat envLevel in
  if written global l then Some (fmt, l, msg) else None.

(** No setting of the environment silences an error, and an unknown level means
    info: debug messages are dropped, everything else is written. *)
Theorem errors_are_logged fmt lvl msg :
  is_Some (log_message fmt lvl ErrorLevel msg) /\ is_Some (log_message fmt lvl FatalLevel msg) /\
  (lvl ∉ ["debug"; "warn"; "error"] ->
     log_message fmt lvl DebugLevel msg = None /\
     forall l, l <> DebugLevel -> is_Some (log_message fmt lvl l msg)).
Proof.
  unfold log_message, logging_init. split_and!; repeat case_bool_decide; simpl; try by eexists.
  all: intros Hn; try (subst; set_solver). all: split; [done|]; intros []; try done; by eexists.
Qed.
