(* ===== verification/Bench.v ===== *)
(** * The benchmark

    scripts/benchmark.go: the address list, the keys of writers and readers, a
    turn of each of their loops, and the percentiles of the sampled latencies
    ([percentile] sorts with nested exchanges and multiplies in [float64]; the
    product is the one of IEEE 754 binary64, from the Standard Library's
    [SpecFloat]).  Printing the results is left out. *)
From stdpp Require Import gmap strings list sorting pretty.
From Stdlib Require Import ZArith Ascii Lia SpecFloat.
From S2P Require Import Prelude GoStrings GoText.

Local Open Scope Z_scope.

(** ** Addresses *)

(** The runes of a string as [range] yields them, each converted back to a
    string: an invalid byte becomes U+FFFD. *)
Fixpoint runes (skip : nat) (s : string) : list string :=
  match s with
  | "" => []
  | String c s' =>
    match skip with
    | S k => runes k s'
    | O =>
      match rune_len s with
      | O => replacement :: runes 0 s'
      | S k => String.substring 0 (S k) s :: runes k s'
      end
    end
  end%string.

Definition splitComma (s : string) : list string :=
  let '(result, current) :=
    foldl (fun '(result, current) c =>
             if bool_decide (c = ",") then (result ++ [current], "") else (result, current +:+ c))
      ([], "") (runes 0 s) in
  if bool_decide (current = "") then result else result ++ [current].

Definition parseAddrs (addrs : string) : list string :=
  if bool_decide (addrs = "") then [] else filter (fun addr => addr <> "") (splitComma addrs).

(** ** Writers and readers *)

Definition bench_key (writerID keyNum : Z) : string :=
  "bench-w" +:+ pretty writerID +:+ "-k" +:+ pretty keyNum.

Definition min (a b : Z) : Z := if a <? b then a else b.

Definition bench_value (writerID keyCounter : Z) (valueTemplate : string) : string :=
  "value-" +:+ pretty writerID +:+ "-" +:+ pretty keyCounter +:+ "-" +:+
  String.substring 0 (Z.to_nat (min 100 (Z.of_nat (String.length valueTemplate)))) valueTemplate.

(** One side's counters and sampled latencies. *)
Record tally_sheet := mkSheet { completed : Z; errors : Z; latencies : list Z }.

(** What a turn records of its call: one success in ten is sampled. *)
Definition record_turn (keyCounter : Z) (ok : bool) (latency : Z) (s : tally_sheet) : tally_sheet :=
  if ok then
    mkSheet (completed s + 1) (errors s)
      (if keyCounter mod 10 =? 0 then latencies s ++ [latency] else latencies s)
  else mkSheet (completed s) (errors s + 1) (latencies s).

Section loops.
Context {W : Type}.
(** The client's calls: whether they succeeded and how long they took. *)
Variable c_Put : string -> string -> W -> (bool * Z) * W.
Variable c_Get : string -> bool -> W -> (bool * Z) * W.

(** A turn of a writer's loop, from its counter. *)
Definition writer_turn (writerID : Z) (valueTemplate : string) (keyCounter : Z)
    (s : tally_sheet) (w : W) : Z * tally_sheet * W :=
  let keyCounter := keyCounter + 1 in
  let '((ok, latency), w) :=
    c_Put (bench_key writerID keyCounter) (bench_value writerID keyCounter valueTemplate) w in
  (keyCounter, record_turn keyCounter ok latency s, w).

(** The key of a reader's turn; dividing by zero writers panics. *)
Definition reader_key (writers keyCounter : Z) : option string :=
  if writers =? 0 then None
  else Some (bench_key (Z.rem keyCounter writers) (Z.quot keyCounter writers)).

Definition reader_turn (writers : Z) (allowStale : bool) (keyCounter : Z) (s : tally_sheet) (w : W)
    : option (Z * tally_sheet * W) :=
  let keyCounter := keyCounter + 1 in
  match reader_key writers keyCounter with
  | None => None
  | Some key =>
    let '((ok, latency), w) := c_Get key allowStale w in
    Some (keyCounter, record_turn keyCounter ok latency s, w)
  end.

Fixpoint writer_loop (n : nat) (writerID : Z) (valueTemplate : string) (keyCounter : Z)
    (s : tally_sheet) (w : W) : Z * tally_sheet * W :=
  match n with
  | O => (keyCounter, s, w)
  | S n' =>
    let '(keyCounter, s, w) := writer_turn writerID valueTemplate keyCounter s w in
    writer_loop n' writerID valueTemplate keyCounter s w
  end.
End loops.

(** ** Percentiles *)

(** [if sorted[i] > sorted[j] { swap }] *)
Definition exchange (i : nat) (l : list Z) (j : nat) : list Z :=
  match l !! i, l !! j with
  | Some a, Some b => if b <? a then <[i := b]> (<[j := a]> l) else l
  | _, _ => l
  end.

Definition exchange_row (l : list Z) (i : nat) : list Z :=
  foldl (exchange i) l (seq (S i) (length l - S i)).

Definition exchange_sort (l : list Z) : list Z := foldl exchange_row l (seq 0 (length l)).

(** [float64(n)] for a length, and [int(x)], which rounds towards zero. *)
Definition float64_of (n : Z) : spec_float := binary_normalize 53 1024 n 0 false.

Definition int_of_float (x : spec_float) : Z :=
  match x with
  | S754_finite s m e =>
    let v := if 0 <=? e then Z.pos m * 2 ^ e else Z.pos m / 2 ^ (- e) in
    if s then - v else v
  | _ => 0
  end.

(** The percentiles asked for: 0.50, 0.95 and 0.99 in [float64]. *)
Definition p50 : spec_float := S754_finite false 4503599627370496 (-53).
Definition p95 : spec_float := S754_finite false 8556839292003942 (-53).
Definition p99 : spec_float := S754_finite false 8917127262193582 (-53).

Definition percentile_index (n : Z) (p : spec_float) : Z :=
  int_of_float (SFmul 53 1024 (float64_of (n - 1)) p).

(** [None]: the index is out of range, a run-time panic. *)
Definition percentile (durations : list Z) (p : spec_float) : option Z :=
  match durations with
  | [] => Some 0
  | _ =>
    let sorted := exchange_sort durations in
    let idx := percentile_index (Z.of_nat (length sorted)) p in
    if idx <? 0 then None else sorted !! Z.to_nat idx
  end.

Example p95_of_21 : percentile_index 21 p95 = 19.
Proof. reflexivity. Qed.

Example sort_example : exchange_sort [3; 1; 2; 1] = [1; 1; 2; 3].
Proof. reflexivity. Qed.

(** ** The addresses *)

Fixpoint all_ascii (s : string) : bool :=
  match s with "" => true | String c s' => byte_in 0 127 c && all_ascii s' end.

Lemma str_split_head sep s : exists p ps, str_split sep s = p :: ps.
Proof.
  destruct s as [|c s]; cbn [str_split]; [by eexists _, _|].
  destruct (Ascii.eqb c sep); [by eexists _, _|]. destruct (str_split sep s); by eexists _, _.
Qed.

(** The comma-separated parts, without the last one if it is empty. *)
Lemma splitComma_fold s : forall result current,
  all_ascii s = true ->
  let '(r, c) :=
    foldl (fun '(result, current) c =>
             if bool_decide (c = ",") then (result ++ [current], "") else (result, current +:+ c))
      (result, current) (runes 0 s) in
  r ++ [c] = result ++ match str_split "," s with p :: ps => (current +:+ p) :: ps | [] => [current] end.
Proof.
  induction s as [|a s IH]; intros result current; cbn [all_ascii runes str_split foldl].
  { intros _. by rewrite sapp_nil_r. }
  intros [Ha Hs]%andb_true_iff.
  assert (rune_len (String a s) = 1%nat) as -> by (unfold rune_len; by rewrite Ha).
  assert (String.substring 0 1 (String a s) = String a "") as -> by (simpl; by destruct s).
  cbn [foldl]. destruct (Ascii.eqb_spec a ",") as [->|Hne].
  - rewrite bool_decide_eq_true_2 by done. specialize (IH (result ++ [current]) "" Hs).
    destruct (foldl _ _ _) as [r c]. rewrite IH, sapp_nil_r, <- app_assoc. f_equal. simpl. f_equal.
    by destruct (str_split_head "," s) as (p & ps & ->).
  - rewrite bool_decide_eq_false_2 by congruence.
    specialize (IH result (current +:+ String a "") Hs). destruct (foldl _ _ _) as [r c].
    rewrite IH. f_equal. destruct (str_split_head "," s) as (p & ps & ->). by rewrite sapp_assoc.
Qed.

(** The benchmark's address list: the non-empty parts between the commas, in
    order, nothing else (and, unlike in the command line tool, with the spaces
    around them). *)
Theorem parseAddrs_spec s :
  all_ascii s = true -> parseAddrs s = filter (fun p => p <> "") (str_split "," s).
Proof.
  intros Hs. unfold parseAddrs, splitComma. case_bool_decide as He; [by subst|].
  pose proof (splitComma_fold s [] "" Hs) as H.
  destruct (foldl _ _ _) as [r c]. cbn [app] in H.
  replace (match str_split "," s with p :: ps => ("" +:+ p) :: ps | [] => [""] end)
    with (str_split "," s) in H.
  2: { by destruct (str_split_head "," s) as (p & ps & ->). }
  rewrite <- H, filter_app. case_bool_decide as Hc.
  - subst c. rewrite (filter_cons_False _ ""), filter_nil, app_nil_r by (by intros []). done.
  - by rewrite filter_app.
Qed.

Lemma parseAddrs_spec_witness :
  all_ascii "a:1,,b:2," = true /\
  parseAddrs "a:1,,b:2," = filter (fun p => p <> "") (str_split "," "a:1,,b:2,").
Proof. split; [reflexivity|]. apply parseAddrs_spec. reflexivity. Defined.

(** ** Keys and counters *)

(** Readers find the writers' keys: on its [k * writers + w]-th turn a reader
    asks for the key writer [w] wrote on its [k]-th. *)
Theorem reader_follows_writers writers w k :
  0 <= w < writers -> 0 <= k -> reader_key writers (k * writers + w) = Some (bench_key w k).
Proof.
  intros Hw Hk. unfold reader_key. rewrite (proj2 (Z.eqb_neq _ _)) by lia.
  rewrite Z.rem_mod_nonneg, Z.quot_div_nonneg by nia. f_equal. f_equal.
  - rewrite Z.add_comm, Z_mod_plus_full. by apply Z.mod_small.
  - rewrite Z.add_comm, Z.div_add by lia. rewrite Z.div_small by lia. done.
Qed.

(** Every turn of a writer is counted once, and no more than a tenth sampled. *)
Theorem writer_loop_counts {W} (c_Put : string -> string -> W -> (bool * Z) * W) id tpl n :
  forall k s w, 0 <= k ->
  let '(k', s', _) := writer_loop c_Put n id tpl k s w in
  k' = k + Z.of_nat n /\
  completed s' + errors s' = completed s + errors s + Z.of_nat n /\
  completed s <= completed s' /\ errors s <= errors s' /\
  Z.of_nat (length (latencies s')) <= Z.of_nat (length (latencies s)) + (k' / 10 - k / 10).
Proof.
  induction n as [|n IH]; intros k s w Hk; cbn [writer_loop]; [split_and!; lia|].
  unfold writer_turn. destruct (c_Put _ _ w) as [[ok lat] w1].
  specialize (IH (k + 1) (record_turn (k + 1) ok lat s) w1 ltac:(lia)).
  destruct (writer_loop c_Put n id tpl _ _ _) as [[k' s'] w'].
  destruct IH as (H1 & H2 & H3 & H4 & H5).
  assert (Z.of_nat (length (latencies (record_turn (k + 1) ok lat s)))
          <= Z.of_nat (length (latencies s)) + ((k + 1) / 10 - k / 10)) as Hl.
  { unfold record_turn. destruct ok; cbn [latencies]; [|pose proof (Z.div_le_mono k (k + 1) 10); lia].
    destruct ((k + 1) mod 10 =? 0) eqn:E; [|pose proof (Z.div_le_mono k (k + 1) 10); lia].
    rewrite length_app. simpl. apply Z.eqb_eq in E.
    assert (k / 10 < (k + 1) / 10); [|lia].
    pose proof (Z.div_mod (k + 1) 10 ltac:(lia)). apply Z.div_lt_upper_bound; lia. }
  unfold record_turn in *. destruct ok; cbn [completed errors] in *; split_and!; lia.
Qed.

(** ** Sorting by exchanges *)

Lemma exchange_lookup i j l a b :
  i <> j -> l !! i = Some a -> l !! j = Some b ->
  exchange i l j !! i = Some (Z.min a b) /\ exchange i l j !! j = Some (Z.max a b) /\
  forall k, k <> i -> k <> j -> exchange i l j !! k = l !! k.
Proof.
  intros Hij Ha Hb. unfold exchange. rewrite Ha, Hb.
  pose proof (lookup_lt_Some _ _ _ Ha). pose proof (lookup_lt_Some _ _ _ Hb).
  destruct (b <? a) eqn:E.
  - rewrite Z.min_r, Z.max_l by lia. split_and!.
    + rewrite list_lookup_insert_eq; [done|by rewrite length_insert].
    + rewrite list_lookup_insert_ne by done. by apply list_lookup_insert_eq.
    + intros k Hi Hj. by rewrite !list_lookup_insert_ne.
  - rewrite Z.min_l, Z.max_r by lia. by split_and!.
Qed.

Lemma exchange_length i j l : length (exchange i l j) = length l.
Proof.
  unfold exchange. destruct (l !! i), (l !! j); try done.
  destruct (_ <? _); [|done]. by rewrite !length_insert.
Qed.

Lemma exchange_perm i j l : i <> j -> exchange i l j ≡ₚ l.
Proof.
  intros Hij. unfold exchange. destruct (l !! i) as [a|] eqn:Ha; [|done].
  destruct (l !! j) as [b|] eqn:Hb; [|done]. destruct (b <? a); [|done].
  pose proof (lookup_lt_Some _ _ _ Ha). pose proof (lookup_lt_Some _ _ _ Hb).
  apply Permutation_inj. split; [by rewrite !length_insert|].
  exists (fun k => if decide (k = i) then j else if decide (k = j) then i else k). split.
  - intros x y. repeat case_decide; congruence.
  - intros k. repeat case_decide; subst.
    + by rewrite list_lookup_insert_eq by (by rewrite length_insert).
    + rewrite list_lookup_insert_ne by done. by rewrite list_lookup_insert_eq.
    + by rewrite !list_lookup_insert_ne.
Qed.

(** [l] has its least element from [i] on at [i], as far as [m]. *)
Definition least_to (i m : nat) (l : list Z) : Prop :=
  forall k a b, (i < k < m)%nat -> l !! i = Some a -> l !! k = Some b -> a <= b.

(** The first [n] elements are in place. *)
Definition placed (n : nat) (l : list Z) : Prop :=
  forall i k a b, (i < n)%nat -> (i < k)%nat -> l !! i = Some a -> l !! k = Some b -> a <= b.

Lemma exchange_step i m l :
  (i < m < length l)%nat -> least_to i m l -> placed i l ->
  least_to i (S m) (exchange i l m) /\ placed i (exchange i l m).
Proof.
  intros Hm Hl Hp.
  destruct (lookup_lt_is_Some_2 l i ltac:(lia)) as [a Ha].
  destruct (lookup_lt_is_Some_2 l m ltac:(lia)) as [b Hb].
  destruct (exchange_lookup i m l a b ltac:(lia) Ha Hb) as (E1 & E2 & E3). split.
  - intros k x y Hk Hx Hy. rewrite E1 in Hx. injection Hx as <-.
    destruct (decide (k = m)) as [->|Hkm]; [rewrite E2 in Hy; injection Hy as <-; lia|].
    rewrite E3 in Hy by lia. pose proof (Hl k a y ltac:(lia) Ha Hy). lia.
  - intros p k x y Hpi Hpk Hx Hy. rewrite E3 in Hx by lia.
    destruct (decide (k = i)) as [->|Hki].
    { rewrite E1 in Hy. injection Hy as <-.
      pose proof (Hp p i x a ltac:(lia) ltac:(lia) Hx Ha).
      pose proof (Hp p m x b ltac:(lia) ltac:(lia) Hx Hb). lia. }
    destruct (decide (k = m)) as [->|Hkm].
    { rewrite E2 in Hy. injection Hy as <-.
      pose proof (Hp p i x a ltac:(lia) ltac:(lia) Hx Ha).
      pose proof (Hp p m x b ltac:(lia) ltac:(lia) Hx Hb). lia. }
    rewrite E3 in Hy by done. by apply (Hp p k).
Qed.

Lemma exchange_row_spec i l :
  (i < length l)%nat -> placed i l ->
  exchange_row l i ≡ₚ l /\ placed (S i) (exchange_row l i).
Proof.
  intros Hi Hp. unfold exchange_row.
  assert (forall n m l0, (i < m)%nat -> (m + n = length l0)%nat -> least_to i m l0 -> placed i l0 ->
    let l' := foldl (exchange i) l0 (seq m n) in
    l' ≡ₚ l0 /\ least_to i (length l0) l' /\ placed i l') as Hrow.
  { induction n as [|n IH]; intros m l0 Hm Hn Hl Hp0; cbn [seq foldl].
    { replace (length l0) with m by lia. done. }
    destruct (exchange_step i m l0 ltac:(lia) Hl Hp0) as [Hl1 Hp1].
    destruct (IH (S m) (exchange i l0 m)) as (P & L & Q); [lia|rewrite exchange_length; lia|done|done|].
    rewrite exchange_length in L. split_and!; [|done|done].
    etrans; [exact P|]. apply exchange_perm. lia. }
  destruct (Hrow (length l - S i)%nat (S i) l) as (P & L & Q); [lia|lia|intros k ? ? ?; lia|done|].
  split; [done|]. intros p k a b Hpi Hpk Ha Hb. destruct (decide (p = i)) as [->|].
  - apply (L k a b); [|done|done]. split; [done|]. rewrite <- (Permutation_length P).
    by eapply lookup_lt_Some.
  - apply (Q p k a b); [lia|done..].
Qed.

Lemma placed_sorted l : placed (length l) l -> StronglySorted Z.le l.
Proof.
  induction l as [|a l IH]; intros Hp; constructor.
  - apply IH. intros i k x y Hi Hk Hx Hy. apply (Hp (S i) (S k) x y); simpl; (lia || done).
  - apply Forall_forall. intros y [k Hk]%list_elem_of_lookup_1.
    apply (Hp 0%nat (S k) a y); simpl; (lia || done).
Qed.

(** The nested loops of [percentile] sort: they give the one sorted list with
    the same elements, the result of merge sort. *)
Theorem exchange_sort_sorts l : exchange_sort l = merge_sort Z.le l.
Proof.
  assert (exchange_sort l ≡ₚ l /\ placed (length l) (exchange_sort l)) as [P Q].
  { unfold exchange_sort.
    assert (forall n m l0, (m + n = length l0)%nat -> placed m l0 ->
      foldl exchange_row l0 (seq m n) ≡ₚ l0 /\ placed (length l0) (foldl exchange_row l0 (seq m n))) as H.
    { induction n as [|n IH]; intros m l0 Hn Hp; cbn [seq foldl].
      { by replace (length l0) with m by lia. }
      destruct (exchange_row_spec m l0 ltac:(lia) Hp) as [P1 Q1].
      destruct (IH (S m) (exchange_row l0 m)) as [P2 Q2]; [rewrite (Permutation_length P1); lia|done|].
      rewrite (Permutation_length P1) in Q2. split; [by etrans|done]. }
    apply (H (length l) 0%nat); [done|]. intros i k a b Hi. lia. }
  rewrite <- (Permutation_length P) in Q. apply placed_sorted, StronglySorted_Sorted in Q.
  apply (Sorted_unique Z.le); [done|apply (Sorted_merge_sort Z.le)|].
  by rewrite P, (merge_sort_Permutation Z.le).
Qed.

Lemma filter_all {A} (P : A -> Prop) `{forall x, Decision (P x)} (l : list A) :
  Forall P l -> filter P l = l.
Proof. induction 1; [done|]. rewrite filter_cons_True by done. by f_equal. Qed.

(** How many elements of a sorted list are at most, and at least, the one at an
    index. *)
Lemma sorted_counts (l : list Z) (i : nat) (v : Z) :
  StronglySorted Z.le l -> l !! i = Some v ->
  (S i <= length (filter (fun x => (x <= v)%Z) l))%nat /\
  (length l - i <= length (filter (fun x => (v <= x)%Z) l))%nat.
Proof.
  intros Hs Hi. pose proof (lookup_lt_Some _ _ _ Hi) as Hlt.
  rewrite <- (take_drop_middle l i v Hi) in Hs.
  apply StronglySorted_app in Hs as (H1 & _ & H2). apply StronglySorted_inv in H2 as [_ H3].
  rewrite <- (take_drop_middle l i v Hi) at 1 3. rewrite !filter_app, !filter_cons_True by lia.
  assert (Forall (fun x => x <= v) (take i l)) as Ha.
  { apply Forall_forall. intros x Hx. apply (H1 x v Hx). set_solver. }
  rewrite (filter_all (fun x => x <= v) (take i l) Ha), (filter_all (fun x => v <= x) (drop (S i) l) H3).
  rewrite !length_app. cbn [length]. rewrite length_take, length_drop. lia.
Qed.

(** [percentile] returns the right order statistic.  When the index the
    floating-point product gives is in range, the result is one of the samples,
    with at least that many samples before it that are not greater, and all the
    rest not smaller; an empty list gives 0. *)
Theorem percentile_spec ds p :
  let n := Z.of_nat (length ds) in
  let idx := percentile_index n p in
  0 <= idx < n ->
  exists v, percentile ds p = Some v /\ v ∈ ds /\
    idx + 1 <= Z.of_nat (length (filter (fun x => x <= v) ds)) /\
    n - idx <= Z.of_nat (length (filter (fun x => v <= x) ds)).
Proof.
  intros n idx Hi.
  assert (percentile ds p =
    let sorted := exchange_sort ds in
    let i := percentile_index (Z.of_nat (length sorted)) p in
    if i <? 0 then None else sorted !! Z.to_nat i) as ->
    by (unfold n in Hi; destruct ds; [simpl in Hi; lia|done]).
  cbv zeta. rewrite exchange_sort_sorts. pose proof (merge_sort_Permutation Z.le ds) as P.
  rewrite (Permutation_length P). fold n idx. rewrite (proj2 (Z.ltb_ge _ _)) by lia.
  destruct (lookup_lt_is_Some_2 (merge_sort Z.le ds) (Z.to_nat idx)) as [v Hv].
  { rewrite (Permutation_length P). unfold n in Hi. lia. }
  exists v. split; [done|]. split; [rewrite <- P; by apply list_elem_of_lookup_2 in Hv|].
  destruct (sorted_counts _ _ _ (StronglySorted_merge_sort Z.le ds) Hv) as [H1 H2].
  rewrite (Permutation_length P) in H2. rewrite P in H1, H2. unfold n. lia.
Qed.

(** The three percentiles that are printed, for up to two thousand samples. *)
Lemma percentile_in_range n p :
  (0 < n <= 2000)%nat -> p ∈ [p50; p95; p99] ->
  0 <= percentile_index (Z.of_nat n) p < Z.of_nat n.
Proof.
  intros Hn Hp.
  assert (forallb (fun p => forallb (fun n =>
            (0 <=? percentile_index (Z.of_nat n) p) && (percentile_index (Z.of_nat n) p <? Z.of_nat n))
          (seq 1 2000)) [p50; p95; p99] = true) as Hall by (vm_compute; reflexivity).
  rewrite forallb_forall in Hall. specialize (Hall p (proj1 (list_elem_of_In _ _) Hp)).
  rewrite forallb_forall in Hall. specialize (Hall n). rewrite in_seq in Hall.
  specialize (Hall ltac:(lia)). apply andb_true_iff in Hall as [H1 H2]. lia.
Qed.

Lemma percentile_spec_witness :
  percentile [40; 10; 30; 20] p50 = Some 20 /\
  exists v, percentile [40; 10; 30; 20] p50 = Some v /\ v ∈ [40; 10; 30; 20] /\
    percentile_index 4 p50 + 1 <= Z.of_nat (length (filter (fun x => x <= v) [40; 10; 30; 20])) /\
    4 - percentile_index 4 p50 <= Z.of_nat (length (filter (fun x => v <= x) [40; 10; 30; 20])).
Proof.
  split; [reflexivity|]. apply (percentile_spec [40; 10; 30; 20] p50).
  vm_compute. split; [discriminate|reflexivity].
Defined.
