(* ===== verification/ExampleApp.v ===== *)
(** * The example application

    examples/simple/main.go: the program that shows the client library, as a
    sequence of calls against the library's operations.  It prints lines and, on
    an unexpected error, ends with [log.Fatalf]. *)
From stdpp Require Import gmap strings list.
From Stdlib Require Import ZArith Ascii.
From S2P Require Import Prelude GoJson KvStore.

Local Open Scope string_scope.

(** The operations of the library the program uses; [c_Put] takes the deadline of
    its context in milliseconds, [c_Get] whether stale values are allowed. *)
Class ClientOps (S : Type) := {
  c_Health : S -> option string * S;
  c_Put : option Z -> string -> string -> S -> option string * S;
  c_Get : string -> bool -> S -> (string * bool + string) * S;
  c_Delete : string -> S -> option string * S
}.

Section program.
Context {S : Type} `{ClientOps S}.

(** What is printed, and how the program goes on: [inr] is [log.Fatalf]. *)
Definition prog (A : Type) : Type := S -> (A + string) * list string * S.

#[local] Instance prog_ret : MRet prog := fun _ a s => (inl a, [], s).

#[local] Instance prog_bind : MBind prog := fun _ _ k p s =>
  match p s with
  | (inl a, out, s') => let '(b, out', s'') := k a s' in (b, (out ++ out')%list, s'')
  | (inr msg, out, s') => (inr msg, out, s')
  end.

Definition println (line : string) : prog () := fun s => (inl (), [line], s).
Definition fatal {A} (msg : string) : prog A := fun s => (inr msg, [], s).
Definition do_call {A} (f : S -> A * S) : prog A := fun s => let '(a, s') := f s in (inl a, [], s').

(** [if err := ...; err != nil { log.Fatalf(...) }] *)
Definition must (prefix : string) (f : S -> option string * S) : prog () :=
  err ← do_call f;
  match err with None => mret () | Some e => fatal (prefix +:+ e) end.

Definition must_get (prefix key : string) (allowStale : bool) : prog (string * bool) :=
  r ← do_call (c_Get key allowStale);
  match r with inl v => mret v | inr e => fatal (prefix +:+ e) end.

(** A word in double quotes. *)
Definition q (s : string) : string := dquote +:+ s +:+ dquote.

Definition person (name role : string) : string :=
  "{" +:+ q "name" +:+ ":" +:+ q name +:+ "," +:+ q "role" +:+ ":" +:+ q role +:+ "}".

Definition examples : list (string * string) :=
  [("user:alice", person "Alice" "admin"); ("user:bob", person "Bob" "user"); ("config:ttl", "300")].

(** A line after an empty one. *)
Definition section_line (s : string) : string := String "010" s.

(** The loop over the map of examples; [order] is the order Go picks. *)
Fixpoint write_all (order : list (string * string)) : prog () :=
  match order with
  | [] => mret ()
  | (key, value) :: order' =>
    _ ← must ("Put failed for " +:+ key +:+ ": ") (c_Put None key value);
    _ ← println ("    Wrote: " +:+ key);
    write_all order'
  end.

Definition simple_main (order : list (string * string)) : prog () :=
  _ ← println "Connected to Mimori cluster";
  _ ← println (section_line "[1] Health check...");
  _ ← must "Health check failed: " c_Health;
  _ ← println "    Cluster is healthy";
  _ ← println (section_line "[2] Writing data...");
  _ ← write_all order;
  _ ← println (section_line "[3] Reading data (strong consistency)...");
  alice ← must_get "Get failed: " "user:alice" false;
  _ ← (if alice.2 : bool then println ("    user:alice = " +:+ alice.1) else mret ());
  _ ← println (section_line "[4] Reading data (allow stale)...");
  ttl ← must_get "Get with stale failed: " "config:ttl" true;
  _ ← (if ttl.2 : bool then println ("    config:ttl = " +:+ ttl.1 +:+ " (may be slightly stale)") else mret ());
  _ ← println (section_line "[5] Deleting data...");
  _ ← must "Delete failed: " (c_Delete "user:bob");
  _ ← println "    Deleted: user:bob";
  bob ← must_get "Get after delete failed: " "user:bob" false;
  _ ← (if bob.2 : bool then mret () else println "    Verified: user:bob no longer exists");
  _ ← println (section_line "[6] Using context timeout...");
  fast ← do_call (c_Put (Some 100%Z) "fast" "data");
  _ ← println match fast with
              | Some e => "    ✓ Timeout respected (100ms too short): " +:+ e
              | None => "    ✓ Put succeeded within timeout"
              end;
  fast2 ← do_call (c_Put (Some 5000%Z) "fast" "data");
  _ ← println match fast2 with
              | Some e => "    ✗ Put failed: " +:+ e
              | None => "    ✓ Put succeeded with 5s timeout"
              end;
  println (section_line "Done!").

(** A cluster that can be reached: calls without a short deadline succeed, and
    the client is a map; a stale read succeeds with some value; the call with the
    short deadline either succeeds or fails, and may have taken effect anyway. *)
Class ReachableCluster := {
  cluster_view : S -> kvmap;
  reach_Health s : exists s', c_Health s = (None, s') /\ cluster_view s' = cluster_view s;
  reach_Put t k v s : t <> Some 100%Z ->
    exists s', c_Put t k v s = (None, s') /\ cluster_view s' = <[k := v]> (cluster_view s);
  reach_short k v s : exists e s', c_Put (Some 100%Z) k v s = (e, s') /\
    (cluster_view s' = cluster_view s \/ cluster_view s' = <[k := v]> (cluster_view s));
  reach_Get k s : exists s',
    c_Get k false s = (inl (default "" (cluster_view s !! k), bool_decide (is_Some (cluster_view s !! k))), s') /\
    cluster_view s' = cluster_view s;
  reach_stale k s : exists v s', c_Get k true s = (inl v, s') /\ cluster_view s' = cluster_view s;
  reach_Delete k s : exists s', c_Delete k s = (None, s') /\ cluster_view s' = delete k (cluster_view s)
}.

Context `{!ReachableCluster}.

Lemma write_all_spec order : forall s,
  exists s', write_all order s = (inl (), map (fun kv => "    Wrote: " +:+ kv.1) order, s') /\
    cluster_view s' = foldl (fun m kv => <[kv.1 := kv.2]> m) (cluster_view s) order.
Proof.
  induction order as [|[k v] order IH]; intros s; cbn [write_all].
  { by exists s. }
  destruct (reach_Put None k v s) as (s1 & E1 & V1); [done|].
  destruct (IH s1) as (s2 & E2 & V2). rewrite V1 in V2. exists s2.
  cbv beta delta [mbind prog_bind must do_call println mret prog_ret]. rewrite E1.
  cbn [app]. rewrite E2. cbn [map foldl fst snd]. by rewrite V2.
Qed.

(** Runs the program up to its next call. *)
Local Ltac run :=
  cbv beta iota zeta delta [mbind prog_bind must must_get do_call println mret prog_ret fst snd].

(** Writing the examples in any order leaves the same three entries. *)
Lemma examples_written order (m : kvmap) :
  order ≡ₚ examples ->
  foldl (fun m kv => <[kv.1 := kv.2]> m) m order =
  <["user:alice" := person "Alice" "admin"]> (<["user:bob" := person "Bob" "user"]>
    (<["config:ttl" := "300"]> m)).
Proof using.
  intros Hp. assert (NoDup (map fst order)) as Hnd.
  { rewrite Hp. apply (bool_decide_unpack _). vm_compute. exact I. }
  assert (forall l m0 k, NoDup (map fst l) ->
    foldl (fun m (kv : string * string) => <[kv.1 := kv.2]> m) m0 l !! k
    = match (list_to_map l : kvmap) !! k with Some v => Some v | None => (m0 : kvmap) !! k end) as Hl.
  { induction l as [|[k0 v0] l IH]; intros m0 k Hn; cbn [foldl map fst snd] in *.
    { by rewrite list_to_map_nil, lookup_empty. }
    apply NoDup_cons in Hn as [Hk0 Hn]. rewrite IH, list_to_map_cons by done.
    destruct (decide (k = k0)) as [->|Hne].
    - rewrite (lookup_insert_eq (list_to_map l)), lookup_insert_eq.
      by rewrite (not_elem_of_list_to_map_1 l k0 Hk0).
    - by rewrite (lookup_insert_ne (list_to_map l)), lookup_insert_ne. }
  apply map_eq. intros k. rewrite Hl by done. rewrite (list_to_map_proper order examples Hnd Hp).
  unfold examples. rewrite !list_to_map_cons, list_to_map_nil.
  destruct (decide (k = "user:alice")) as [->|H1]; [by rewrite !lookup_insert_eq|].
  rewrite !(lookup_insert_ne _ "user:alice") by done.
  destruct (decide (k = "user:bob")) as [->|H2]; [by rewrite !lookup_insert_eq|].
  rewrite !(lookup_insert_ne _ "user:bob") by done.
  destruct (decide (k = "config:ttl")) as [->|H3]; [by rewrite !lookup_insert_eq|].
  rewrite !(lookup_insert_ne _ "config:ttl") by done. by rewrite lookup_empty.
Qed.

(** The example runs to its end.  On a cluster that can be reached, whatever the
    order in which Go goes through the map of examples, the program ends without
    a fatal error; it prints the value it wrote for [user:alice] and that
    [user:bob] is gone; and it leaves the two entries it kept and the one it
    wrote with a deadline. *)
Theorem simple_main_completes order s :
  order ≡ₚ examples ->
  exists out s', simple_main order s = (inl (), out, s') /\
    "    user:alice = " +:+ person "Alice" "admin" ∈ out /\
    "    Verified: user:bob no longer exists" ∈ out /\ last out = Some (section_line "Done!") /\
    cluster_view s' = <["fast" := "data"]> (delete "user:bob"
      (<["user:alice" := person "Alice" "admin"]> (<["config:ttl" := "300"]> (cluster_view s)))).
Proof.
  intros Hp. unfold simple_main.
  destruct (reach_Health s) as (s1 & E1 & V1).
  destruct (write_all_spec order s1) as (s2 & E2 & V2). rewrite examples_written, V1 in V2 by done.
  destruct (reach_Get "user:alice" s2) as (s3 & E3 & V3).
  destruct (reach_stale "config:ttl" s3) as (ttl & s4 & E4 & V4).
  destruct (reach_Delete "user:bob" s4) as (s5 & E5 & V5).
  destruct (reach_Get "user:bob" s5) as (s6 & E6 & V6).
  destruct (reach_short "fast" "data" s6) as (e & s7 & E7 & V7).
  destruct (reach_Put (Some 5000%Z) "fast" "data" s7) as (s8 & E8 & V8); [done|].
  rewrite V2, lookup_insert_eq in E3. rewrite (bool_decide_eq_true_2 (is_Some (Some _))) in E3 by done.
  rewrite V5, lookup_delete_eq in E6. rewrite (bool_decide_eq_false_2 (is_Some None)) in E6 by (by intros [? [=]]).
  run. rewrite E1. run. rewrite E2. run. rewrite E3. run. rewrite E4. run.
  destruct ttl as [tv tb]. destruct tb; run; rewrite E5; run; rewrite E6; run; rewrite E7; run; rewrite E8; run.
  all: eexists _, s8; split; [reflexivity|]; split_and!; [set_solver|set_solver| |].
  all: try (rewrite !app_assoc, last_app; done).
  all: rewrite V8; assert (cluster_view s6 = delete "user:bob" (<["user:alice" := person "Alice" "admin"]>
      (<["config:ttl" := "300"]> (cluster_view s)))) as V
    by (rewrite V6, V5, V4, V3, V2, !delete_insert_ne by done; by rewrite delete_insert_eq, !delete_insert_ne by done).
  all: destruct V7 as [->| ->]; rewrite ?insert_insert_eq, V; done.
Qed.
End program.

(** A client on a map, and the program run with it. *)
#[export] Instance mem_client : ClientOps kvmap := {
  c_Health s := (None, s);
  c_Put _ k v s := (None, <[k := v]> s);
  c_Get k _ s := (inl (default "" (s !! k), bool_decide (is_Some (s !! k))), s);
  c_Delete k s := (None, delete k s)
}.

#[refine, export] Instance mem_reachable : @ReachableCluster kvmap mem_client := { cluster_view s := s }.
Proof.
  - intros s. by exists s.
  - intros t k v s _. by eexists.
  - intros k v s. eexists _, _. split; [done|]. by right.
  - intros k s. by eexists.
  - intros k s. by eexists _, _.
  - intros k s. by eexists.
Defined.

Lemma simple_main_completes_witness :
  examples ≡ₚ examples /\
  exists out s', simple_main examples (∅ : kvmap) = (inl (), out, s') /\
    "    user:alice = " +:+ person "Alice" "admin" ∈ out /\
    "    Verified: user:bob no longer exists" ∈ out /\ last out = Some (section_line "Done!") /\
    s' = <["fast" := "data"]> (delete "user:bob"
      (<["user:alice" := person "Alice" "admin"]> (<["config:ttl" := "300"]> (∅ : kvmap)))).
Proof.
  assert (examples ≡ₚ examples) as Hp by reflexivity. split; [exact Hp|].
  exact (simple_main_completes examples (∅ : kvmap) Hp).
Defined.
